(* ===== verification/_CoqProject ===== *)
-Q . S2P
Prelude.v
Types.v
Expected.v
Sql.v
Database.v
Samples.v
Migration.v
Hex.v
Paging.v
Config.v
RateLimiter.v
BoundedQueue.v
ThreadPool.v
Interleave.v
Uuid.v
Sha256.v
Users.v
Devices.v
Sessions.v
Password.v
Tokens.v
Auth.v
Conversations.v
Envelopes.v
Mailbox.v
SyncState.v
Attachments.v
ShardMap.v
Delivery.v
Relay.v
Schema.v
ConversationService.v
Concurrent.v
ConcurrentSend.v
Admin.v
Footprint.v
Json.v
WsRegistry.v
HttpPath.v
HttpDispatch.v
Startup.v
Maintenance.v
Lifetime.v
WsSession.v
HttpConnection.v
HttpSafety.v
Server.v
Live.v
Isolation.v
Retention.v
Cursors.v
Rosters.v
