(* ===== verification/Prelude.v ===== *)
(** * vox-server: a verification of the messenger server

    ** The program

    vox-server keeps accounts, devices, conversations and encrypted envelopes for a
    messenger whose clients do the encryption.  It is one process over one SQLite file:

    - [src/lib/vox_store]: the schema and its migration, and one repository per group
      of tables;
    - [src/lib/vox_auth]: passwords (Argon2), access and refresh tokens, registration,
      login, password change;
    - [src/lib/vox_relay]: the fan-out of an envelope to the devices of a conversation,
      the in-memory queue of each device, and the membership of conversations;
    - [src/lib/vox_attachments], [src/lib/vox_admin]: uploads with quotas and
      retention; statistics and account deletion;
    - [src/lib/vox_net]: HTTP routes, WebSocket connections with push notifications,
      rate limits;
    - [src/lib/vox_common]: configuration, identifiers, SHA-256 and HMAC, containers
      and the thread pool;
    - [src/bin/main.cpp]: start-up, wiring, the maintenance task.

    A connection reads a request, resolves its bearer token and submits it to a thread
    pool; a pool thread dispatches it to one route, which calls services, which call
    repositories; messages go to the queue of each recipient device and, through a hook,
    to the WebSocket session registered for that device.

    ** The files

    Shared: [Prelude] (integers at their width, lists, tactics, the hint databases
    [vox] and [voxrw]); [Types] (vox_common/types.hpp, and the state-and-error monad
    [M] in which the services are written: an error leaves the state as it is at that
    point, as a returned [std::unexpected] does); [Expected] (the polyfill of
    [std::expected], refined to [Result]); [Sql] (the relational operations the
    queries use); [Hex], [Paging] (digits, decimal numbers, pages with cursors);
    [Samples] (a small concrete database).

    The store: [Database] (rows, keys and references of [Database::CreateSchema],
    invariant [db_wf]), [Migration] (the rows through
    [MigrateDevicesCompositePrimaryKey]), [Schema] (the constructor that opens a file:
    tables and columns, statements that fail, retries, transactions), [Users],
    [Devices], [Sessions], [Conversations], [Envelopes], [SyncState], and the repository
    half of [Attachments].  [Mailbox] states the interface [IEnvelopeRepository] and its
    contract as classes, with the tables of [Envelopes] as an instance.

    Services: [Password], [Tokens] (against the class [ISessionRepository] that
    [Sessions] implements), [Auth], [Delivery], [Relay], [ConversationService],
    [Attachments], [Admin].

    Common code: [Uuid], [Sha256] (picosha2.h and hmac_sha256.cpp), [ShardMap],
    [Config], [BoundedQueue], [ThreadPool].

    Requests at the same time: [Interleave] (programs whose steps are repository calls,
    run by the workers of a pool in any order, with a rely-guarantee rule and a rule for
    at-most-one winner), [Concurrent] (refreshing tokens, enlarging a roster),
    [ConcurrentSend] (sending).  Each program is proved to be the sequential definition
    when it runs alone.

    The network side: [Json] (the JSON values and the accessors of the handlers),
    [HttpPath] (paths and queries), [HttpDispatch] (every route, the guards and
    [DispatchHttp], in a monad [HM] in which a handler may go on, return a response or
    raise), [RateLimiter], [WsRegistry], [WsSession] (the handlers of http_session.cpp),
    [HttpConnection] (an HTTP connection from its first read to its end, and
    http_listener.cpp).

    The program: [Startup] (arguments, environment, configuration), [Maintenance] (the
    maintenance thread), [Lifetime] (the threads of [main], the signal handler, the joins
    and the destructors of the locals).

    The whole: [Footprint] (which tables an operation may change), [HttpSafety],
    [Server] (the invariant under every request), [Live] (the running process: requests
    waiting in the pool, connections, maintenance), [Isolation] (accounts), [Retention]
    (messages), [Cursors] (the columns the listings are cut by) and [Rosters] (who takes
    part in a conversation) through every run.

    Each definition carries the name of the function it translates; where a function is
    long its parts are definitions of their own, composed in the source's order.

    ** What the theorems show

    - Consistency: every state the process reaches from a new database, requests served
      one at a time, satisfies all schema constraints and queue bounds ([Live]); the
      migration of a single-key file whose devices table has the columns it copies, and
      whose sessions belong to the owners of their devices, keeps every row and
      establishes the new constraints ([Migration]); opening an upgradable file brings it
      to the present tables and columns, or reports an error of the environment,
      whatever statements fail, and survives a file that is busy for a while ([Schema]).
      The sizes of groups and channels are no invariant: see One-time use.
    - Authorization: who may post and who receives a message ([Relay]), who may change a
      roster, the administrator's deletion of accounts apart ([Rosters]), what a request without a session, with another
      user's session or from a removed device can do ([HttpSafety], [Isolation]), which
      connection a push can go to ([Live]), who can read an attachment ([Attachments]).
    - One-time use: prekeys between two revocations of their device ([Devices]) and
      refresh tokens ([Tokens]) over any sequence of calls; refresh tokens and envelope
      identifiers also when requests overlap ([Concurrent], [ConcurrentSend]), where the
      limit of a conversation whose creation has finished is exceeded by less than the
      number of workers.
    - Delivery: fan-out exactly once per device, FIFO queues, hand-over to rows, purge on
      leaving ([Relay], [Delivery], [ConversationService]); with one network thread, an
      ordered outbound queue of each connection ([Live]).  A message whose sending was answered with success stays queued or pending
      for each recipient device until that device acknowledges it, its user leaves, its
      retention time is over or an administrator deletes an account ([Retention]).
    - Reading: pages with cursors enumerate each record once and end ([Envelopes],
      [SyncState]), for every page size but zero and the largest, in every state the
      server reaches, where the columns hold values cursors can carry ([Cursors]); an
      unchanged membership version means an unchanged roster ([Rosters]); conditional writes form one chain of versions
      ([SyncState]); any sequence of calls on the envelope repository is answered as two
      finite maps prescribe ([Mailbox]).
    - Algorithms and formats: HMAC-SHA-256 against the specification ([Sha256]), version 4
      identifiers ([Uuid]), which configuration files are taken and what
      they set ([Config]), where each setting of a server comes from ([Startup]), the sharded map as a finite map ([ShardMap]), the limiter with calls
      that wait a bounded time between the clock and the mutex ([RateLimiter]).
    - Concurrency: the bounded queue and the thread pool under any interleaving, with a
      bound on the steps of a shutdown ([BoundedQueue], [ThreadPool]); the pace and the
      end of the maintenance thread ([Maintenance]); the end of the process: nothing is
      submitted to a closed pool, every accepted task is run, and which objects it can
      rely on ([Lifetime]).
    - Connections: answers in the order of the requests, and one for each request of a
      client that waits for the answer ([HttpConnection]).

    Some theorems and examples describe behaviour a reader may not expect, for instance
    [wait_for_idle_returns_early], [reconnected_device_unreachable],
    [scoped_prekey_bundle_unreachable], [sync_update_invisible],
    [queued_message_not_pending], [group_limit_race], [left_member_receives],
    [pipelined_request_lost], [older_file_refused], [request_outlives_context],
    [creation_race], [delayed_call_exceeds_window], [largest_page_empty],
    [DeleteUser_refused_pinned], [DeleteUser_keeps_version].

    ** Third-party code

    It appears as classes, arguments of the definitions that use it, with the documented
    behaviour the server relies on as laws: [SqlEngine] (the order in which SQLite visits
    rows, the text of its errors), [Disk] (whether files can be opened and written),
    [Argon2] (a deterministic function of its inputs), [BoostJson] (parser and printer,
    no laws), and the predicate [is_upgrade] of Beast.  The clock, the random generators
    and the network are arguments or events.  Each class has an instance in the
    witnesses.

    ** Bounds and choices

    Integers are [Z] with the wrap-around of their C++ type written out ([to_int64],
    [to_int32], [to_uint64]); sizes the code compares with container sizes are compared
    in [Z].  Numbers are printed with 20 digits of fuel, which is enough for 64 bits.
    Loops over containers are structural; page readers run with one unit of fuel per row
    and the theorems show that this is enough.  A repository call holds the connection's
    mutex and is one step.  In [Server], [Live] and [Isolation] a request is served in
    one step; [Interleave] and the files that use it let requests interleave between
    the calls of one handler, with the other accesses to the store as steps of the
    environment.  There a position in a program ([pc]) is a number that only
    distinguishes its calls.  In [Schema] a function from the statements run so far
    decides which of them fail and how; the theorem about busy files bounds the failures
    by the retries of the source.  A request reads the wall clock once, except where a
    loop reads it at each turn.  The clock is any integer; [Cursors] assumes that it fits its 64-bit type.
    The counter of [AUTOINCREMENT] ends at the largest 64-bit number, where an insertion
    fails as SQLite documents, and a membership version stays there.  The handlers of one
    connection run one at a time, which the source ensures with one network thread only.
    A call of the rate limiter reads the clock before it takes the mutex; the time between
    is bounded by a parameter.  In [BoundedQueue] and [ThreadPool] a blocked call is one
    whose condition does not hold, so that the notifications of condition variables are
    represented only where [ThreadPool] shows one to be lost; the two reads in the
    predicate of [WaitForIdle] are one step, and a task is one step that ends.  The
    session of a request is resolved when it is read, and the request may be served much
    later.  In [Lifetime] the handlers of [ioc] are those that touch the storage pool or
    end the process.  Long evaluations in the witnesses (each access token is an HMAC)
    are made once, as definitions that hold the resulting state.

    ** Not modelled

    Logging; sockets, the timeouts of HTTP streams and the decorator of the WebSocket
    handshake; SQLite pragmas; the text of the usage message; the overload of
    picosha2's [hash256] that reads a file stream, which nothing calls; the destruction
    of [endpoint] and of configuration values, which run no code of the program.  What
    an exception of a constructor inside the [try] block of [main] does beyond the
    message is the destruction of what was built, and is not represented. *)

From stdpp Require Export prelude strings gmap list sorting relations.
From Stdlib Require Export ZArith Lia.

(** ** Scopes and notation *)

Declare Scope vox_scope.
Delimit Scope vox_scope with vox.
Open Scope vox_scope.
Open Scope Z_scope.

(** Boolean comparison of strings, as [operator==] on [std::string]. *)
Notation "s1 =s? s2" := (String.eqb s1 s2) (at level 70, no associativity) : vox_scope.

(** ** Machine integers

    A [w]-bit unsigned value is a [Z] in [[0, 2^w)], a signed one a [Z] in
    [[-2^(w-1), 2^(w-1))]; the wrap-around of the hardware is written out. *)

Definition wrap_u (w z : Z) : Z := z mod 2 ^ w.

Definition wrap_s (w z : Z) : Z :=
  let r := z mod 2 ^ w in if r <? 2 ^ (w - 1) then r else r - 2 ^ w.

(** [static_cast<std::int64_t>], [static_cast<int>], [std::size_t] arithmetic. *)
Definition to_int64 (z : Z) : Z := wrap_s 64 z.
Definition to_int32 (z : Z) : Z := wrap_s 32 z.
Definition to_uint64 (z : Z) : Z := wrap_u 64 z.

(** Signed 64-bit and 32-bit addition (two's complement). *)
Definition i64_add (a b : Z) : Z := to_int64 (a + b).
Definition i32_add (a b : Z) : Z := to_int32 (a + b).
(** Unsigned 64-bit addition ([std::size_t]). *)
Definition u64_add (a b : Z) : Z := to_uint64 (a + b).

Definition in_int64 (z : Z) : Prop := - 2 ^ 63 <= z < 2 ^ 63.
Definition in_int32 (z : Z) : Prop := - 2 ^ 31 <= z < 2 ^ 31.
Definition in_uint64 (z : Z) : Prop := 0 <= z < 2 ^ 64.

Lemma wrap_s_id w z : 0 < w -> - 2 ^ (w - 1) <= z < 2 ^ (w - 1) -> wrap_s w z = z.
Proof.
  intros Hw Hz. unfold wrap_s. cbv zeta.
  assert (E : 2 ^ w = 2 * 2 ^ (w - 1)).
  { replace w with (Z.succ (w - 1)) at 1 by lia. rewrite Z.pow_succ_r by lia. lia. }
  destruct (Z.ltb_spec (z mod 2 ^ w) (2 ^ (w - 1))) as [H|H].
  - destruct (Z_lt_le_dec z 0) as [Hn|Hn].
    + exfalso. rewrite <- (Z_mod_plus_full z 1 (2 ^ w)), Z.mod_small in H by lia. lia.
    + apply Z.mod_small. lia.
  - destruct (Z_lt_le_dec z 0) as [Hn|Hn].
    + rewrite <- (Z_mod_plus_full z 1 (2 ^ w)), Z.mod_small by lia. lia.
    + rewrite Z.mod_small in H by lia. lia.
Qed.

Lemma wrap_s_range w z : 0 < w -> - 2 ^ (w - 1) <= wrap_s w z < 2 ^ (w - 1).
Proof.
  intros Hw. unfold wrap_s. cbv zeta.
  assert (E : 2 ^ w = 2 * 2 ^ (w - 1)).
  { replace w with (Z.succ (w - 1)) at 1 by lia. rewrite Z.pow_succ_r by lia. lia. }
  pose proof (Z.pow_pos_nonneg 2 (w - 1) ltac:(lia) ltac:(lia)).
  pose proof (Z.mod_pos_bound z (2 ^ w) ltac:(lia)).
  destruct (Z.ltb_spec (z mod 2 ^ w) (2 ^ (w - 1))); lia.
Qed.

Lemma to_int64_id z : in_int64 z -> to_int64 z = z.
Proof. intros H. apply wrap_s_id; [lia|exact H]. Qed.

Lemma to_int32_id z : in_int32 z -> to_int32 z = z.
Proof. intros H. apply wrap_s_id; [lia|exact H]. Qed.

Lemma to_int64_range z : in_int64 (to_int64 z).
Proof. apply (wrap_s_range 64). lia. Qed.

Lemma to_int32_range z : in_int32 (to_int32 z).
Proof. apply (wrap_s_range 32). lia. Qed.

Lemma to_uint64_id z : in_uint64 z -> to_uint64 z = z.
Proof. intros H. apply Z.mod_small. exact H. Qed.

Lemma i64_add_id a b : in_int64 (a + b) -> i64_add a b = a + b.
Proof. apply to_int64_id. Qed.

Lemma i32_add_id a b : in_int32 (a + b) -> i32_add a b = a + b.
Proof. apply to_int32_id. Qed.

(** ** Automation *)

Create HintDb vox.
Create Rewrite HintDb voxrw.

#[export] Hint Rewrite String.eqb_eq String.eqb_neq bool_decide_eq_true bool_decide_eq_false
  Z.ltb_lt Z.leb_le Z.ltb_ge Z.leb_gt Z.eqb_eq Z.eqb_neq andb_true_iff orb_false_iff
  negb_true_iff negb_false_iff : voxrw.

(** Case analysis on the innermost [match] or [if] of a hypothesis or of the goal. *)
Ltac cases_in H :=
  repeat match type of H with
  | context [match ?x with _ => _ end] =>
      lazymatch x with
      | context [match _ with _ => _ end] => fail
      | _ => let E := fresh "E" in destruct x eqn:E; simplify_eq/=
      end
  end.

Ltac cases_goal :=
  repeat match goal with
  | |- context [match ?x with _ => _ end] =>
      lazymatch x with
      | context [match _ with _ => _ end] => fail
      | _ => let E := fresh "E" in destruct x eqn:E; simplify_eq/=
      end
  end.

(** ** Lists *)

Section list_lemmas.
Context {A B : Type}.
Implicit Types l : list A.

Lemma NoDup_fmap_filter (f : A -> B) (P : A -> Prop) `{!∀ x, Decision (P x)} l :
  NoDup (f <$> l) -> NoDup (f <$> filter P l).
Proof.
  induction l as [|x l IH]; [done|]. rewrite fmap_cons, NoDup_cons. intros [Hx Hl].
  rewrite filter_cons. destruct (decide (P x)); [|by apply IH].
  rewrite fmap_cons, NoDup_cons. split; [|by apply IH].
  intros (y & Ey & Hy)%list_elem_of_fmap. apply Hx, list_elem_of_fmap. exists y.
  by apply list_elem_of_filter in Hy as [_ Hy].
Qed.

Lemma NoDup_fmap_inj_on (f : A -> B) l x y :
  NoDup (f <$> l) -> x ∈ l -> y ∈ l -> f x = f y -> x = y.
Proof.
  induction l as [|z l IH]; [by intros _ ?%not_elem_of_nil|].
  rewrite fmap_cons, NoDup_cons. intros [Hz Hl].
  rewrite !elem_of_cons. intros [->|Hx] [->|Hy] E; try done.
  - exfalso. apply Hz. rewrite E. by apply list_elem_of_fmap_2.
  - exfalso. apply Hz. rewrite <- E. by apply list_elem_of_fmap_2.
  - by apply IH.
Qed.

Lemma NoDup_of_fmap (f : A -> B) l : NoDup (f <$> l) -> NoDup l.
Proof. apply NoDup_fmap_1. Qed.

(** Two elements of a filter that pins a unique key coincide. *)
Lemma filter_key_singleton (f : A -> B) (P : A -> Prop) `{!∀ x, Decision (P x)} l x :
  NoDup (f <$> l) -> x ∈ l -> P x -> (∀ y, P y -> f y = f x) -> filter P l = [x].
Proof.
  induction l as [|z l IH]; [by intros _ ?%not_elem_of_nil|].
  rewrite fmap_cons, NoDup_cons, elem_of_cons. intros [Hz Hl] Hx HP Hkey.
  rewrite filter_cons. destruct Hx as [->|Hx].
  - rewrite decide_True by done. f_equal.
    destruct (filter P l) as [|y l'] eqn:E; [done|]. exfalso.
    assert (Hy : y ∈ filter P l) by (rewrite E; left).
    apply list_elem_of_filter in Hy as [HPy Hy]. apply Hz.
    rewrite <- (Hkey y HPy). by apply list_elem_of_fmap_2.
  - destruct (decide (P z)) as [HPz|].
    + exfalso. apply Hz. rewrite (Hkey z HPz). by apply list_elem_of_fmap_2.
    + by apply IH.
Qed.

Lemma filter_nil_iff (P : A -> Prop) `{!∀ x, Decision (P x)} l :
  filter P l = [] <-> (∀ x, x ∈ l -> ¬ P x).
Proof.
  split.
  - intros E x Hx HP. assert (Hin : x ∈ filter P l) by by apply list_elem_of_filter.
    rewrite E in Hin. by apply not_elem_of_nil in Hin.
  - intros Hno. destruct (filter P l) as [|y l'] eqn:E; [done|].
    assert (Hy : y ∈ filter P l) by (rewrite E; left).
    apply list_elem_of_filter in Hy as [HP Hy]. by destruct (Hno y).
Qed.

Lemma filter_ext_on (P Q : A -> Prop) `{!∀ x, Decision (P x)} `{!∀ x, Decision (Q x)} l :
  (∀ x, x ∈ l -> P x <-> Q x) -> filter P l = filter Q l.
Proof.
  induction l as [|x l IH]; [done|]. intros Hpq. rewrite !filter_cons.
  destruct (Hpq x ltac:(left)). rewrite IH by (intros y Hy; apply Hpq; by right).
  repeat case_decide; tauto.
Qed.

Lemma list_eq_nil l : (∀ x, x ∉ l) -> l = [].
Proof. destruct l as [|x l]; [done|]. intros Hno. destruct (Hno x). left. Qed.

Lemma filter_all (P : A -> Prop) `{!∀ x, Decision (P x)} l :
  (∀ x, x ∈ l -> P x) -> filter P l = l.
Proof.
  induction l as [|x l IH]; [done|]. intros Hall.
  rewrite filter_cons, decide_True by (apply Hall; left). f_equal.
  apply IH. intros y Hy. apply Hall. by right.
Qed.

(** Indexing rows by a unique key, as a loop of map assignments does. *)
Lemma foldl_insert_lookup {K V} `{Countable K} (k : A -> K) (v : A -> V) l (m : gmap K V) i :
  NoDup (k <$> l) ->
  foldl (λ m x, <[k x := v x]> m) m l !! i =
  match filter (λ x, k x = i) l with x :: _ => Some (v x) | [] => m !! i end.
Proof.
  revert m. induction l as [|x l IH]; intros m; [done|].
  rewrite fmap_cons, NoDup_cons. intros [Hx Hl]. simpl. rewrite IH by done.
  rewrite filter_cons. destruct (decide (k x = i)) as [<-|Hne].
  - replace (filter (λ x0, k x0 = k x) l) with (@nil A); [by rewrite lookup_insert_eq|].
    symmetry. apply filter_nil_iff. intros y Hy E. apply Hx. rewrite <- E.
    by apply list_elem_of_fmap_2.
  - case_match; [by rewrite lookup_insert_ne|done].
Qed.
End list_lemmas.

Lemma list_omap_ext_elem {A B} (f g : A -> option B) (l : list A) :
  (∀ x, x ∈ l -> f x = g x) -> omap f l = omap g l.
Proof.
  induction l as [|x l IH]; intros Hfg; [done|]. csimpl.
  rewrite (Hfg x) by left. case_match; [f_equal|]; apply IH; intros y Hy; apply Hfg; by right.
Qed.

Lemma removelast_take {A} (l : list A) n : (n < length l)%nat -> removelast (take (S n) l) = take n l.
Proof.
  revert n. induction l as [|x l IH]; intros n Hn; simpl in *; [lia|].
  destruct n as [|n]; simpl in *; [by destruct l|].
  destruct l as [|y l]; simpl in *; [lia|]. f_equal. apply (IH n). lia.
Qed.

Lemma last_take_split {A} (l : list A) n :
  (0 < n)%nat -> (n <= length l)%nat -> ∃ l1 x, last (take n l) = Some x ∧ l = l1 ++ x :: drop n l.
Proof.
  intros Hn Hl. destruct (last (take n l)) as [x|] eqn:E.
  - apply last_Some in E as [l1 E]. exists l1, x. split; [done|].
    rewrite <- (take_drop n l) at 1. by rewrite E, <- app_assoc.
  - apply last_None in E. apply (f_equal length) in E. rewrite length_take in E. simpl in E. lia.
Qed.

(** First occurrences, in order. *)
Fixpoint dedup_first {A} `{EqDecision A} (l : list A) : list A :=
  match l with
  | [] => []
  | x :: l' => x :: filter (λ y, y ≠ x) (dedup_first l')
  end.

Lemma elem_of_dedup_first {A} `{EqDecision A} (l : list A) x : x ∈ dedup_first l <-> x ∈ l.
Proof.
  induction l as [|y l IH]; simpl; [done|].
  rewrite !elem_of_cons, list_elem_of_filter, IH. destruct (decide (x = y)); naive_solver.
Qed.

Lemma NoDup_dedup_first {A} `{EqDecision A} (l : list A) : NoDup (dedup_first l).
Proof.
  induction l as [|y l IH]; simpl; [constructor|]. rewrite NoDup_cons, list_elem_of_filter.
  split; [naive_solver|by apply NoDup_filter].
Qed.

#[export] Hint Resolve NoDup_fmap_filter : vox.
