(* ===== verification/Types.v ===== *)
(** * Common types (lib/vox_common/types.hpp, lib/vox_net/error_http.hpp)

    The identifiers, enumerations and error values every module shares, the
    [std::expected] results as a state-and-error monad, and the HTTP status a
    handler derives from an error code. *)

From S2P Require Import Prelude.

(** ** Identifiers and enumerations *)

(** [UserId], [DeviceId], ... are aliases of [std::string]; [Timestamp] is an
    [std::int64_t] in seconds. *)
Notation UserId := string (only parsing).
Notation DeviceId := string (only parsing).
Notation ConversationId := string (only parsing).
Notation EnvelopeId := string (only parsing).
Notation AttachmentId := string (only parsing).
Notation Timestamp := Z (only parsing).

Inductive ConversationType := kDm | kGroup | kChannel.

Inductive MemberRole := kOwner | kAdmin | kMember.

Inductive ErrorCode :=
  | kOk | kNotFound | kAlreadyExists | kUnauthorized | kForbidden | kInvalidArgument | kInternal
  | kQuotaExceeded | kRateLimited | kShutdown | kQueueFull | kExpired | kDuplicate
  | kPayloadTooLarge.

#[export] Instance ConversationType_eq_dec : EqDecision ConversationType.
Proof. solve_decision. Defined.
#[export] Instance MemberRole_eq_dec : EqDecision MemberRole.
Proof. solve_decision. Defined.
#[export] Instance ErrorCode_eq_dec : EqDecision ErrorCode.
Proof. solve_decision. Defined.

(** The numeric value of an error code, as serialised in error bodies. *)
Definition ErrorCode_value (c : ErrorCode) : Z :=
  match c with
  | kOk => 0 | kNotFound => 1 | kAlreadyExists => 2 | kUnauthorized => 3 | kForbidden => 4
  | kInvalidArgument => 5 | kInternal => 6 | kQuotaExceeded => 7 | kRateLimited => 8
  | kShutdown => 9 | kQueueFull => 10 | kExpired => 11 | kDuplicate => 12
  | kPayloadTooLarge => 13
  end.

Record Error := mkError { code : ErrorCode; message : string }.

#[export] Instance Error_eq_dec : EqDecision Error.
Proof. solve_decision. Defined.

(** [Result<T>] is [std::expected<T, Error>]. *)
Inductive Result (A : Type) :=
  | Ok (a : A)
  | Err (e : Error).
Arguments Ok {A} a.
Arguments Err {A} e.

(** ** Scoped device keys *)

(** [kSep], the unit separator [\x1f]. *)
Definition kSep : string := String (Ascii.ascii_of_nat 31) EmptyString.

Definition DeviceScopeKey (user_id : UserId) (device_id : DeviceId) : string :=
  user_id +:+ kSep +:+ device_id.

Fixpoint contains_char (c : Ascii.ascii) (s : string) : bool :=
  match s with
  | EmptyString => false
  | String c' s' => Ascii.eqb c c' || contains_char c s'
  end.

Lemma app_sep_inj (c : Ascii.ascii) (u1 u2 d1 d2 : string) :
  contains_char c u1 = false -> contains_char c u2 = false ->
  u1 +:+ String c d1 = u2 +:+ String c d2 -> u1 = u2 ∧ d1 = d2.
Proof.
  revert u2. induction u1 as [|a u1 IH]; intros [|b u2]; simpl.
  - by intros _ _ [= ->].
  - intros _ [Hb _]%orb_false_iff [= <- _]. by rewrite Ascii.eqb_refl in Hb.
  - intros [Ha _]%orb_false_iff _ [= -> _]. by rewrite Ascii.eqb_refl in Ha.
  - intros [_ H1]%orb_false_iff [_ H2]%orb_false_iff [= -> E].
    by destruct (IH u2 H1 H2 E) as [-> ->].
Qed.

(** ** The monad of the services

    A C++ function that reads and mutates a state [S] and returns a
    [Result<A>].  An early [return std::unexpected(...)] keeps the mutations
    made so far, which is why the state sits outside the result. *)

Definition M (S A : Type) : Type := S -> Result A * S.

Section monad.
Context {S : Type}.

Definition mok {A} (a : A) : M S A := λ s, (Ok a, s).
Definition throw {A} (c : ErrorCode) (m : string) : M S A := λ s, (Err (mkError c m), s).
Definition rethrow {A} (e : Error) : M S A := λ s, (Err e, s).
Definition bind {A B} (c : M S A) (k : A -> M S B) : M S B :=
  λ s, match c s with (Ok a, s') => k a s' | (Err e, s') => (Err e, s') end.
(** A read of the state. *)
Definition gets {A} (f : S -> A) : M S A := λ s, (Ok (f s), s).
(** An unconditional mutation of the state. *)
Definition modify (f : S -> S) : M S unit := λ s, (Ok tt, f s).
(** A call whose error is handled by the caller ([if (!r) ...]). *)
Definition attempt {A} (c : M S A) : M S (Result A) := λ s, let '(r, s') := c s in (Ok r, s').

(** A range-based [for] whose body may return early with an error. *)
Fixpoint for_each {A} (l : list A) (body : A -> M S unit) : M S unit :=
  match l with
  | [] => mok tt
  | x :: l' => bind (body x) (λ _, for_each l' body)
  end.

(** ... and which updates a local variable of the enclosing function. *)
Fixpoint for_fold {A B} (l : list A) (body : B -> A -> M S B) (b : B) : M S B :=
  match l with
  | [] => mok b
  | x :: l' => bind (body b x) (for_fold l' body)
  end.

End monad.

(** A component of the state seen through a pair of accessors. *)
Definition zoom {S T A} (get : S -> T) (put : T -> S -> S) (c : M T A) : M S A :=
  λ s, let '(r, t) := c (get s) in (r, put t s).

(** The code after [auto x = c; if (!x) return std::unexpected(x.error());]. *)
Notation "'let!' x ':=' c 'in' k" := (bind c (λ x, k))
  (at level 200, x pattern, right associativity, format "'let!'  x  ':='  c  'in' '//' k") : vox_scope.
Notation "c ';;!' k" := (bind c (λ _, k)) (at level 100, right associativity) : vox_scope.

(** ** Reasoning principles of the monad *)

Lemma bind_Ok {S A B} (c : M S A) (k : A -> M S B) s b s' :
  bind c k s = (Ok b, s') <-> ∃ a s1, c s = (Ok a, s1) ∧ k a s1 = (Ok b, s').
Proof.
  unfold bind. destruct (c s) as [[a|e] s1]; split.
  - intros H. by exists a, s1.
  - by intros (? & ? & [= -> ->] & H).
  - done.
  - by intros (? & ? & ? & ?).
Qed.

Lemma bind_Err {S A B} (c : M S A) (k : A -> M S B) s e s' :
  bind c k s = (Err e, s') <->
  c s = (Err e, s') ∨ ∃ a s1, c s = (Ok a, s1) ∧ k a s1 = (Err e, s').
Proof.
  unfold bind. destruct (c s) as [[a|e1] s1]; split.
  - intros H. right. by exists a, s1.
  - by intros [?|(? & ? & [= -> ->] & H)].
  - intros [= -> ->]. by left.
  - by intros [[= -> ->]|(? & ? & ? & ?)].
Qed.

(** An invariant kept by every call of a sequence is kept by the sequence,
    whether or not one of the calls fails. *)
Definition preserves {S A} (I : S -> Prop) (c : M S A) : Prop := ∀ s, I s -> I (c s).2.

Section preserves.
Context {S : Type} (I : S -> Prop).

Lemma preserves_mok {A} (a : A) : preserves I (mok a).
Proof. by intros s. Qed.
Lemma preserves_throw {A} ec m : preserves I (throw (A := A) ec m).
Proof. by intros s. Qed.
Lemma preserves_rethrow {A} e : preserves I (rethrow (A := A) e).
Proof. by intros s. Qed.
Lemma preserves_gets {A} (f : S -> A) : preserves I (gets f).
Proof. by intros s. Qed.
Lemma preserves_bind {A B} (c : M S A) (k : A -> M S B) :
  preserves I c -> (∀ a, preserves I (k a)) -> preserves I (bind c k).
Proof.
  intros Hc Hk s Hs. unfold bind. specialize (Hc s Hs).
  destruct (c s) as [[a|e] s']; simpl in *; [by apply Hk|done].
Qed.
Lemma preserves_attempt {A} (c : M S A) : preserves I c -> preserves I (attempt c).
Proof. intros Hc s Hs. unfold attempt. specialize (Hc s Hs). by destruct (c s). Qed.
Lemma preserves_for_each {A} (l : list A) body :
  (∀ x, x ∈ l -> preserves I (body x)) -> preserves I (for_each l body).
Proof.
  induction l as [|x l IH]; intros H; simpl; [apply preserves_mok|].
  apply preserves_bind; [apply H; left|intros _; apply IH; intros y Hy; apply H; by right].
Qed.
Lemma preserves_for_fold {A B} (l : list A) (body : B -> A -> M S B) b :
  (∀ b' x, x ∈ l -> preserves I (body b' x)) -> preserves I (for_fold l body b).
Proof.
  revert b. induction l as [|x l IH]; intros b H; simpl; [apply preserves_mok|].
  apply preserves_bind; [apply H; left|intros b'; apply IH; intros b1 y Hy; apply H; by right].
Qed.
(** A reflexive and transitive relation that every call of a loop respects. *)
Lemma for_each_rel {A} (R : S -> S -> Prop) `{!PreOrder R} (l : list A) (body : A -> M S unit) s :
  (∀ x s, x ∈ l -> R s (body x s).2) -> R s (for_each l body s).2.
Proof.
  revert s. induction l as [|x l IH]; intros s Hb; simpl; [reflexivity|].
  unfold bind. pose proof (Hb x s ltac:(left)) as Hx.
  destruct (body x s) as [[[]|e] s1]; simpl in *; [|done].
  etrans; [exact Hx|]. apply IH. intros y s' Hy. apply Hb. by right.
Qed.

Lemma preserves_if {A} (b : bool) (c1 c2 : M S A) :
  preserves I c1 -> preserves I c2 -> preserves I (if b then c1 else c2).
Proof. by destruct b. Qed.
End preserves.

#[export] Hint Resolve preserves_mok preserves_throw preserves_rethrow preserves_gets
  preserves_attempt : vox.

(** Splits a sequence of monadic calls into its calls; leaves the calls that are
    not reads or errors. *)
Ltac preserve_step :=
  repeat (cbv beta zeta; lazymatch goal with
  | |- preserves _ (bind _ _) => apply preserves_bind; [|intros ?]
  | |- preserves _ (mok _) => apply preserves_mok
  | |- preserves _ (throw _ _) => apply preserves_throw
  | |- preserves _ (rethrow _) => apply preserves_rethrow
  | |- preserves _ (gets _) => apply preserves_gets
  | |- preserves _ (attempt _) => apply preserves_attempt
  | |- preserves _ (match ?x with _ => _ end) => destruct x
  end).

(** Resolves a primitive call that is known to have returned. *)
Ltac mprim E :=
  lazymatch type of E with
  | gets _ _ = (_, _) => unfold gets in E; injection E as <- <-
  | mok _ _ = (_, _) => unfold mok in E; first [injection E as <- <- | injection E as <-]
  | modify _ _ = (_, _) => unfold modify in E; first [injection E as <- <- | injection E as <-]
  | throw _ _ _ = (Ok _, _) => discriminate E
  | rethrow _ _ = (Ok _, _) => discriminate E
  | throw _ _ _ = (Err _, _) => unfold throw in E; injection E as <- <-
  | rethrow _ _ = (Err _, _) => unfold rethrow in E; injection E as <- <-
  | attempt _ _ = (Err _, _) => unfold attempt in E; cases_in E; discriminate E
  | _ => idtac
  end.

(** Turns [bind c k s = (Ok b, s')] into the run of each call. *)
Ltac minv H :=
  repeat lazymatch type of H with
  | bind _ _ _ = (Ok _, _) =>
      let a := fresh "a" in let s := fresh "s" in let E := fresh "E" in
      apply bind_Ok in H as (a & s & E & H); cbv beta in E, H; mprim E; cbv beta in H
  end; try mprim H.

(** ** HTTP status of an error (lib/vox_net/error_http.hpp) *)

Definition HttpStatusForError (c : ErrorCode) : Z :=
  match c with
  | kNotFound => 404
  | kAlreadyExists => 409
  | kUnauthorized => 401
  | kForbidden => 403
  | kInvalidArgument => 400
  | kQuotaExceeded => 413
  | kRateLimited => 429
  | kExpired => 401
  | kDuplicate => 409
  | kQueueFull => 503
  | kPayloadTooLarge => 413
  | _ => 500
  end.
