(* ===== verification/Expected.v ===== *)
(** * The stand-in for [std::expected] (lib/vox_common/expected_polyfill.hpp)

    The class template and its specialization for [void], over the variant and the flag
    they store, and the proof that code written in the server's style (test, then read)
    sees the [Result] of the other files.  [std::get] on the wrong alternative throws:
    an accessor returns an option. *)

From S2P Require Import Prelude Types.

(** [std::unexpected<E>]. *)
Record unexpected (E : Type) := mk_unexpected { unexpected_value : E }.
Arguments mk_unexpected {E} unexpected_value.
Arguments unexpected_value {E} _.

(** [std::expected<T, E>]: a [std::variant<T, E>]. *)
Record expected (T E : Type) := mk_expected { data_ : T + E }.
Arguments mk_expected {T E} data_.
Arguments data_ {T E} _.

(** [std::expected<void, E>]. *)
Record expected_void (E : Type) := mk_expected_void { err_ : E; has_val_ : bool }.
Arguments mk_expected_void {E} err_ has_val_.
Arguments err_ {E} _.
Arguments has_val_ {E} _.

Section expected.
Context {T E : Type}.

Definition from_value (v : T) : expected T E := mk_expected (inl v).
Definition from_unexpected (e : unexpected E) : expected T E := mk_expected (inr (unexpected_value e)).

Definition has_value (x : expected T E) : bool := match data_ x with inl _ => true | inr _ => false end.
(** [value()], [operator*] and [operator->]. *)
Definition expected_value (x : expected T E) : option T := match data_ x with inl v => Some v | inr _ => None end.
Definition expected_error (x : expected T E) : option E := match data_ x with inl _ => None | inr e => Some e end.

(** The default constructor needs a default [E]. *)
Definition void_ok (default_error : E) : expected_void E := mk_expected_void default_error true.
Definition void_unexpected (e : unexpected E) : expected_void E := mk_expected_void (unexpected_value e) false.
Definition void_has_value (x : expected_void E) : bool := has_val_ x.
(** Returns whether or not there is a value. *)
Definition void_value (x : expected_void E) : option unit := Some tt.
Definition void_error (x : expected_void E) : option E := Some (err_ x).
End expected.

(** ** Results *)

Definition result_of {T} (x : expected T Error) : Result T :=
  match data_ x with inl v => Ok v | inr e => Err e end.

Definition expected_of {T} (r : Result T) : expected T Error :=
  match r with Ok v => from_value v | Err e => from_unexpected (mk_unexpected e) end.

Definition void_result_of (x : expected_void Error) : Result unit :=
  if has_val_ x then Ok tt else Err (err_ x).

(** [if (!x) return std::unexpected(x.error()); .. *x ..]; [None]: an accessor threw. *)
Definition test_then {T U} (x : expected T Error) (k : T -> expected U Error) : option (expected U Error) :=
  if has_value x then k <$> expected_value x
  else (λ e, from_unexpected (mk_unexpected e)) <$> expected_error x.

Definition test_then_void {U} (x : expected_void Error) (k : unit -> expected U Error) : option (expected U Error) :=
  if void_has_value x then k <$> void_value x
  else (λ e, from_unexpected (mk_unexpected e)) <$> void_error x.

(** The tested access never throws and is the sequencing of [Result]s; an object
    built from a result gives that result back. *)
Theorem expected_refines_Result {T U} (r : Result T) (x : expected T Error) (v : expected_void Error)
    (k : T -> expected U Error) (kv : unit -> expected U Error) :
  result_of (expected_of r) = r ∧
  (result_of <$> test_then x k) = Some (match result_of x with Ok a => result_of (k a) | Err e => Err e end) ∧
  (result_of <$> test_then_void v kv) =
    Some (match void_result_of v with Ok a => result_of (kv a) | Err e => Err e end).
Proof.
  split; [by destruct r|]. split.
  - by destruct x as [[a|e]].
  - by destruct v as [e []].
Qed.

(** Without the test the two templates part ways: reading the value of a failed
    [expected<void, E>] goes through, where [std::expected] throws. *)
Example void_value_of_failure (e : Error) :
  void_value (void_unexpected (mk_unexpected e)) = Some tt ∧
  expected_value (T := unit) (from_unexpected (mk_unexpected e)) = None.
Proof. done. Qed.
