(* ===== verification/Sql.v ===== *)
(** * The SQL statements of the store, over tables of rows

    A table is the list of its rows in rowid order.  A [WHERE] clause is a
    decidable predicate; the statements below are the forms the repositories of
    lib/vox_store use: [SELECT], [INSERT], [UPDATE .. SET .. WHERE],
    [DELETE .. WHERE], [COUNT], [ORDER BY], [LIMIT]. *)

From S2P Require Import Prelude Types.

Section table.
Context {R : Type}.
Implicit Types t : list R.

(** [SELECT 1 FROM t WHERE P]: whether [executeStep] yields a row. *)
Definition sql_exists (P : R -> Prop) `{!∀ r, Decision (P r)} (t : list R) : bool :=
  match filter P t with [] => false | _ :: _ => true end.

(** [SELECT COUNT] of the rows where [P] holds; also the number of rows
    [Statement::exec] reports. *)
Definition sql_count (P : R -> Prop) `{!∀ r, Decision (P r)} (t : list R) : nat :=
  length (filter P t).

(** [UPDATE t SET f WHERE P]. *)
Definition sql_update (P : R -> Prop) `{!∀ r, Decision (P r)} (f : R -> R) (t : list R) : list R :=
  (λ r, if decide (P r) then f r else r) <$> t.

(** [DELETE FROM t WHERE P]. *)
Definition sql_delete (P : R -> Prop) `{!∀ r, Decision (P r)} (t : list R) : list R :=
  filter (λ r, ¬ P r) t.

(** [INSERT INTO t VALUES r]: the row is added with the next rowid. *)
Definition sql_insert (r : R) (t : list R) : list R := t ++ [r].

(** [LIMIT n]: a negative limit is no limit. *)
Definition sql_limit (n : Z) (t : list R) : list R :=
  if (n <? 0) || (Z.of_nat (length t) <=? n) then t else take (Z.to_nat n) t.

(** [LIMIT n OFFSET m]: a negative offset is zero. *)
Definition sql_limit_offset (n m : Z) (t : list R) : list R :=
  sql_limit n (if Z.of_nat (length t) <=? m then [] else drop (Z.to_nat m) t).

(** [ORDER BY le]. *)
Definition sql_order_by (le : R -> R -> Prop) `{!RelDecision le} (t : list R) : list R :=
  merge_sort le t.

Section where_clause.
Context (P : R -> Prop) `{!∀ r, Decision (P r)}.

Lemma sql_exists_true t : sql_exists P t = true <-> ∃ r, r ∈ t ∧ P r.
Proof.
  unfold sql_exists. destruct (filter P t) as [|y l] eqn:E.
  - split; [done|]. intros (x & Hx & HP). by destruct (proj1 (filter_nil_iff P t) E x).
  - split; [|done]. intros _. exists y.
    assert (Hy : y ∈ filter P t) by (rewrite E; left).
    by apply list_elem_of_filter in Hy as [? ?].
Qed.

Lemma sql_exists_false t : sql_exists P t = false <-> ∀ r, r ∈ t -> ¬ P r.
Proof.
  rewrite <- not_true_iff_false, sql_exists_true. split.
  - intros Hno r Hr HP. apply Hno. by exists r.
  - intros Hno (r & Hr & HP). by apply (Hno r).
Qed.

Lemma sql_count_zero t : sql_count P t = 0%nat <-> ∀ r, r ∈ t -> ¬ P r.
Proof. unfold sql_count. by rewrite length_zero_iff_nil, filter_nil_iff. Qed.

Lemma sql_count_pos t r : r ∈ t -> P r -> sql_count P t ≠ 0%nat.
Proof. intros Hr HP Hc. by apply (proj1 (sql_count_zero t) Hc r). Qed.

Lemma sql_count_nonzero t : sql_count P t ≠ 0%nat -> ∃ r, r ∈ t ∧ P r.
Proof.
  unfold sql_count. intros Hc. destruct (filter P t) as [|r l] eqn:E; [done|].
  exists r. assert (Hr : r ∈ filter P t) by (rewrite E; left).
  apply list_elem_of_filter in Hr. tauto.
Qed.

Lemma elem_of_sql_update f t r :
  r ∈ sql_update P f t <-> ∃ r0, r0 ∈ t ∧ r = (if decide (P r0) then f r0 else r0).
Proof.
  unfold sql_update. rewrite list_elem_of_fmap. split; intros (x & ? & ?); by exists x.
Qed.

Lemma elem_of_sql_delete t r : r ∈ sql_delete P t <-> r ∈ t ∧ ¬ P r.
Proof. unfold sql_delete. rewrite list_elem_of_filter. naive_solver. Qed.

Lemma fmap_sql_update {B} (key : R -> B) f t :
  (∀ r, key (f r) = key r) -> key <$> sql_update P f t = key <$> t.
Proof.
  intros Hf. unfold sql_update. rewrite <- list_fmap_compose. apply list_fmap_ext.
  intros i r _. simpl. by destruct (decide (P r)).
Qed.

Lemma sql_update_id f t : (∀ r, r ∈ t -> ¬ P r) -> sql_update P f t = t.
Proof.
  unfold sql_update. induction t as [|r t IH]; intros Hno; [done|].
  rewrite fmap_cons, decide_False by (apply Hno; left). f_equal.
  apply IH. intros r' Hr'. apply Hno. by right.
Qed.

Lemma length_sql_update f t : length (sql_update P f t) = length t.
Proof. apply length_fmap. Qed.

Lemma sql_delete_none t : (∀ r, r ∈ t -> ¬ P r) -> sql_delete P t = t.
Proof. apply filter_all. Qed.
End where_clause.

Lemma elem_of_sql_insert t r r' : r' ∈ sql_insert r t <-> r' ∈ t ∨ r' = r.
Proof. unfold sql_insert. by rewrite elem_of_app, list_elem_of_singleton. Qed.

Lemma NoDup_fmap_sql_insert {B} (key : R -> B) r t :
  NoDup (key <$> t) -> (∀ r', r' ∈ t -> key r' ≠ key r) -> NoDup (key <$> sql_insert r t).
Proof.
  intros Ht Hfresh. unfold sql_insert. rewrite fmap_app. apply NoDup_app. split; [done|]. split.
  - intros k (r' & -> & Hr')%list_elem_of_fmap Hk.
    apply list_elem_of_singleton in Hk. by apply (Hfresh r').
  - apply NoDup_singleton.
Qed.

Lemma sql_update_ext (P Q : R -> Prop) `{!∀ x, Decision (P x)}
  `{!∀ x, Decision (Q x)} (f : R -> R) t :
  (∀ x, x ∈ t -> P x <-> Q x) -> sql_update P f t = sql_update Q f t.
Proof.
  intros Hpq. unfold sql_update. apply list_fmap_ext. intros i x Hx.
  apply list_elem_of_lookup_2 in Hx. destruct (Hpq x Hx).
  destruct (decide (P x)), (decide (Q x)); tauto.
Qed.

(** A query on a key is not affected by changes to rows with another key. *)
Lemma filter_sql_update_other {B} `{EqDecision B} (key : R -> B) (P : R -> Prop)
  `{!∀ r, Decision (P r)} f t k k' :
  (∀ r, P r -> key r = k') -> (∀ r, key (f r) = key r) -> k ≠ k' ->
  filter (λ r, key r = k) (sql_update P f t) = filter (λ r, key r = k) t.
Proof.
  intros HP Hf Hne. unfold sql_update. induction t as [|r t IH]; [done|].
  rewrite fmap_cons, !filter_cons, IH. destruct (decide (P r)) as [Hr|Hr]; [|done].
  rewrite !decide_False by (rewrite ?Hf, (HP r Hr); congruence). done.
Qed.

Lemma filter_sql_insert_other {B} `{EqDecision B} (key : R -> B) r t k :
  k ≠ key r -> filter (λ r, key r = k) (sql_insert r t) = filter (λ r, key r = k) t.
Proof.
  intros Hne. unfold sql_insert. rewrite filter_app, filter_cons, decide_False by congruence.
  by rewrite filter_nil, app_nil_r.
Qed.

Lemma NoDup_fmap_sql_delete {B} (key : R -> B) (P : R -> Prop) `{!∀ r, Decision (P r)} t :
  NoDup (key <$> t) -> NoDup (key <$> sql_delete P t).
Proof. apply NoDup_fmap_filter. Qed.

Lemma sql_limit_prefix n t : sql_limit n t `prefix_of` t.
Proof.
  unfold sql_limit. case_match; [done|]. exists (drop (Z.to_nat n) t). by rewrite take_drop.
Qed.

Lemma length_sql_limit n t : 0 <= n -> Z.of_nat (length (sql_limit n t)) = Z.min n (Z.of_nat (length t)).
Proof.
  intros Hn. unfold sql_limit. destruct (Z.ltb_spec n 0); simpl; [lia|].
  destruct (Z.leb_spec (Z.of_nat (length t)) n); [lia|]. rewrite length_take. lia.
Qed.
End table.

(** A join on unique columns has unique rows. *)
Lemma elem_of_join {A R B} `{EqDecision B} (j : A -> B) (k : R -> B) (l1 : list A) (l2 : list R) r :
  r ∈ (d ← l1; filter (λ e, k e = j d) l2) <-> r ∈ l2 ∧ k r ∈ j <$> l1.
Proof.
  rewrite list_elem_of_bind, list_elem_of_fmap. split.
  - intros (d & Hr & Hd). apply list_elem_of_filter in Hr as [E Hr]. split; [done|]. by exists d.
  - intros [Hr (d & E & Hd)]. exists d. by rewrite list_elem_of_filter.
Qed.

Lemma NoDup_join {A R B} `{EqDecision B} (j : A -> B) (k : R -> B) (l1 : list A) (l2 : list R) :
  NoDup (j <$> l1) -> NoDup (k <$> l2) -> NoDup (k <$> (d ← l1; filter (λ e, k e = j d) l2)).
Proof.
  intros H1 H2. induction l1 as [|d l1 IH]; [constructor|].
  rewrite fmap_cons, NoDup_cons in H1. destruct H1 as [Hd H1]. rewrite bind_cons, fmap_app.
  apply NoDup_app. split; [by apply NoDup_fmap_filter|]. split; [|by apply IH].
  intros x (r & -> & Hr)%list_elem_of_fmap (r' & E & Hr')%list_elem_of_fmap.
  apply list_elem_of_filter in Hr as [Hrd _]. apply elem_of_join in Hr' as [_ Hin].
  apply Hd. by rewrite <- Hrd, E.
Qed.

#[export] Hint Resolve NoDup_fmap_sql_delete : vox.
#[export] Hint Rewrite @elem_of_sql_update @elem_of_sql_delete @elem_of_sql_insert : voxrw.
