(* ===== verification/Database.v ===== *)
(** * The database (lib/vox_store/database.cpp, the structs of lib/vox_store/*.hpp)

    The rows of the eleven tables [Database::CreateSchema] creates, the
    constraints that schema declares (primary keys, [UNIQUE], [FOREIGN KEY]
    with [PRAGMA foreign_keys=ON]) as checks of the [INSERT] and [DELETE]
    statements, and the integrity invariant [db_wf] those checks maintain.

    SQLite itself is third-party code: what a query leaves open (the order in
    which rows without an [ORDER BY] are visited, the text of an error) is the
    class [SqlEngine], an argument of every definition that runs a query. *)

From S2P Require Import Prelude Types Sql.

(** ** Rows *)

Record UserRecord := mkUserRecord {
  u_user_id : UserId;
  u_username : string;
  u_password_salt : string;
  u_password_verifier : string;
  u_created_at : Timestamp;
  u_disabled_at : option Timestamp;
  u_sync_key_version : Z;
  u_wrapped_sync_key : string;
  u_sync_wrap_salt : string;
  u_sync_wrap_params : string }.

Record DeviceRecord := mkDeviceRecord {
  d_device_id : DeviceId;
  d_user_id : UserId;
  d_identity_key_public : string;
  d_signed_prekey_public : string;
  d_signed_prekey_signature : string;
  d_last_prekey_refresh_at : option Timestamp;
  d_client_protocol_version : Z;
  d_device_label : string;
  d_created_at : Timestamp;
  d_last_seen_at : Timestamp;
  d_revoked_at : option Timestamp }.

(** A row of [one_time_prekeys]. *)
Record PrekeyRow := mkPrekeyRow {
  k_prekey_id : string;
  k_user_id : UserId;
  k_device_id : DeviceId;
  k_prekey_public : string;
  k_consumed_at : option Timestamp }.

Record SessionRecord := mkSessionRecord {
  s_session_id : string;
  s_user_id : UserId;
  s_device_id : DeviceId;
  s_access_token_hash : string;
  s_refresh_token_hash : string;
  s_access_expires_at : Timestamp;
  s_refresh_expires_at : Timestamp;
  s_created_at : Timestamp;
  s_revoked_at : option Timestamp }.

(** A row of [conversations]. *)
Record ConversationRow := mkConversationRow {
  c_conversation_id : ConversationId;
  c_type : ConversationType;
  c_created_by : UserId;
  c_created_at : Timestamp;
  c_policy_blob : string;
  c_membership_version : Z }.

Record MemberRecord := mkMemberRecord {
  m_conversation_id : ConversationId;
  m_user_id : UserId;
  m_role : MemberRole;
  m_added_at : Timestamp;
  m_removed_at : option Timestamp }.

(** A row of [channel_subscriptions]. *)
Record SubscriptionRow := mkSubscriptionRow {
  b_conversation_id : ConversationId;
  b_user_id : UserId;
  b_subscribed_at : Timestamp;
  b_unsubscribed_at : option Timestamp }.

Record EnvelopeRecord := mkEnvelopeRecord {
  e_envelope_id : EnvelopeId;
  e_conversation_id : ConversationId;
  e_sender_user_id : UserId;
  e_sender_device_id : DeviceId;
  e_ciphertext : string;
  e_server_timestamp : Timestamp;
  e_envelope_type : Z;
  e_retention_until : option Timestamp;
  e_ordering_epoch : option Z }.

Record DeliveryStateRecord := mkDeliveryStateRecord {
  ds_envelope_id : EnvelopeId;
  ds_target_user_id : UserId;
  ds_target_device_id : DeviceId;
  ds_queued_at : Timestamp;
  ds_delivered_at : option Timestamp;
  ds_acked_at : option Timestamp }.

(** A row of [attachment_metadata]; [ciphertext_hash] is [NULL] until the upload
    is finalised. *)
Record AttachmentRow := mkAttachmentRow {
  a_attachment_id : AttachmentId;
  a_user_id : UserId;
  a_conversation_id : ConversationId;
  a_file_size : Z;
  a_mime_hint : string;
  a_ciphertext_hash : option string;
  a_blob_path : string;
  a_upload_complete : bool;
  a_created_at : Timestamp;
  a_retention_until : option Timestamp }.

(** A row of [sync_records]; [y_id] is the [AUTOINCREMENT] key. *)
Record SyncRow := mkSyncRow {
  y_id : Z;
  y_user_id : UserId;
  y_collection : string;
  y_record_id : string;
  y_ciphertext : string;
  y_content_hash : string;
  y_version : Z;
  y_deleted : bool;
  y_server_updated_at : Timestamp }.

(** The tables, and the [AUTOINCREMENT] counter of [sync_records]. *)
Record Database := mkDatabase {
  users : list UserRecord;
  devices : list DeviceRecord;
  one_time_prekeys : list PrekeyRow;
  sessions : list SessionRecord;
  conversations : list ConversationRow;
  conversation_members : list MemberRecord;
  channel_subscriptions : list SubscriptionRow;
  encrypted_envelopes : list EnvelopeRecord;
  delivery_state : list DeliveryStateRecord;
  attachment_metadata : list AttachmentRow;
  sync_records : list SyncRow;
  sync_seq : Z }.

(** The database [CreateSchema] leaves in an empty file. *)
Definition CreateSchema : Database := mkDatabase [] [] [] [] [] [] [] [] [] [] [] 0.

Definition set_users (t : list UserRecord) (db : Database) : Database :=
  {| users := t; devices := devices db; one_time_prekeys := one_time_prekeys db;
     sessions := sessions db; conversations := conversations db;
     conversation_members := conversation_members db;
     channel_subscriptions := channel_subscriptions db;
     encrypted_envelopes := encrypted_envelopes db; delivery_state := delivery_state db;
     attachment_metadata := attachment_metadata db; sync_records := sync_records db;
     sync_seq := sync_seq db |}.
Definition set_devices (t : list DeviceRecord) (db : Database) : Database :=
  {| users := users db; devices := t; one_time_prekeys := one_time_prekeys db;
     sessions := sessions db; conversations := conversations db;
     conversation_members := conversation_members db;
     channel_subscriptions := channel_subscriptions db;
     encrypted_envelopes := encrypted_envelopes db; delivery_state := delivery_state db;
     attachment_metadata := attachment_metadata db; sync_records := sync_records db;
     sync_seq := sync_seq db |}.
Definition set_one_time_prekeys (t : list PrekeyRow) (db : Database) : Database :=
  {| users := users db; devices := devices db; one_time_prekeys := t; sessions := sessions db;
     conversations := conversations db; conversation_members := conversation_members db;
     channel_subscriptions := channel_subscriptions db;
     encrypted_envelopes := encrypted_envelopes db; delivery_state := delivery_state db;
     attachment_metadata := attachment_metadata db; sync_records := sync_records db;
     sync_seq := sync_seq db |}.
Definition set_sessions (t : list SessionRecord) (db : Database) : Database :=
  {| users := users db; devices := devices db; one_time_prekeys := one_time_prekeys db;
     sessions := t; conversations := conversations db;
     conversation_members := conversation_members db;
     channel_subscriptions := channel_subscriptions db;
     encrypted_envelopes := encrypted_envelopes db; delivery_state := delivery_state db;
     attachment_metadata := attachment_metadata db; sync_records := sync_records db;
     sync_seq := sync_seq db |}.
Definition set_conversations (t : list ConversationRow) (db : Database) : Database :=
  {| users := users db; devices := devices db; one_time_prekeys := one_time_prekeys db;
     sessions := sessions db; conversations := t;
     conversation_members := conversation_members db;
     channel_subscriptions := channel_subscriptions db;
     encrypted_envelopes := encrypted_envelopes db; delivery_state := delivery_state db;
     attachment_metadata := attachment_metadata db; sync_records := sync_records db;
     sync_seq := sync_seq db |}.
Definition set_conversation_members (t : list MemberRecord) (db : Database) : Database :=
  {| users := users db; devices := devices db; one_time_prekeys := one_time_prekeys db;
     sessions := sessions db; conversations := conversations db; conversation_members := t;
     channel_subscriptions := channel_subscriptions db;
     encrypted_envelopes := encrypted_envelopes db; delivery_state := delivery_state db;
     attachment_metadata := attachment_metadata db; sync_records := sync_records db;
     sync_seq := sync_seq db |}.
Definition set_channel_subscriptions (t : list SubscriptionRow) (db : Database) : Database :=
  {| users := users db; devices := devices db; one_time_prekeys := one_time_prekeys db;
     sessions := sessions db; conversations := conversations db;
     conversation_members := conversation_members db; channel_subscriptions := t;
     encrypted_envelopes := encrypted_envelopes db; delivery_state := delivery_state db;
     attachment_metadata := attachment_metadata db; sync_records := sync_records db;
     sync_seq := sync_seq db |}.
Definition set_encrypted_envelopes (t : list EnvelopeRecord) (db : Database) : Database :=
  {| users := users db; devices := devices db; one_time_prekeys := one_time_prekeys db;
     sessions := sessions db; conversations := conversations db;
     conversation_members := conversation_members db;
     channel_subscriptions := channel_subscriptions db; encrypted_envelopes := t;
     delivery_state := delivery_state db; attachment_metadata := attachment_metadata db;
     sync_records := sync_records db; sync_seq := sync_seq db |}.
Definition set_delivery_state (t : list DeliveryStateRecord) (db : Database) : Database :=
  {| users := users db; devices := devices db; one_time_prekeys := one_time_prekeys db;
     sessions := sessions db; conversations := conversations db;
     conversation_members := conversation_members db;
     channel_subscriptions := channel_subscriptions db;
     encrypted_envelopes := encrypted_envelopes db; delivery_state := t;
     attachment_metadata := attachment_metadata db; sync_records := sync_records db;
     sync_seq := sync_seq db |}.
Definition set_attachment_metadata (t : list AttachmentRow) (db : Database) : Database :=
  {| users := users db; devices := devices db; one_time_prekeys := one_time_prekeys db;
     sessions := sessions db; conversations := conversations db;
     conversation_members := conversation_members db;
     channel_subscriptions := channel_subscriptions db;
     encrypted_envelopes := encrypted_envelopes db; delivery_state := delivery_state db;
     attachment_metadata := t; sync_records := sync_records db; sync_seq := sync_seq db |}.
Definition set_sync_records (t : list SyncRow) (db : Database) : Database :=
  {| users := users db; devices := devices db; one_time_prekeys := one_time_prekeys db;
     sessions := sessions db; conversations := conversations db;
     conversation_members := conversation_members db;
     channel_subscriptions := channel_subscriptions db;
     encrypted_envelopes := encrypted_envelopes db; delivery_state := delivery_state db;
     attachment_metadata := attachment_metadata db; sync_records := t; sync_seq := sync_seq db |}.
Definition set_sync (t : list SyncRow) (seq : Z) (db : Database) : Database :=
  {| users := users db; devices := devices db; one_time_prekeys := one_time_prekeys db;
     sessions := sessions db; conversations := conversations db;
     conversation_members := conversation_members db;
     channel_subscriptions := channel_subscriptions db;
     encrypted_envelopes := encrypted_envelopes db; delivery_state := delivery_state db;
     attachment_metadata := attachment_metadata db; sync_records := t; sync_seq := seq |}.

(** ** The engine *)

Inductive table :=
  | TUsers | TDevices | TOneTimePrekeys | TSessions | TConversations | TConversationMembers
  | TChannelSubscriptions | TEncryptedEnvelopes | TDeliveryState | TAttachmentMetadata
  | TSyncRecords.

Definition row (t : table) : Type :=
  match t with
  | TUsers => UserRecord | TDevices => DeviceRecord | TOneTimePrekeys => PrekeyRow
  | TSessions => SessionRecord | TConversations => ConversationRow
  | TConversationMembers => MemberRecord | TChannelSubscriptions => SubscriptionRow
  | TEncryptedEnvelopes => EnvelopeRecord | TDeliveryState => DeliveryStateRecord
  | TAttachmentMetadata => AttachmentRow | TSyncRecords => SyncRow
  end.

(** The constraint a statement violates.  [SqlFault] stands for the result codes
    other than [SQLITE_CONSTRAINT]; no statement of the model raises it. *)
Inductive sql_error :=
  | UniqueFailed (t : table)
  | ForeignKeyFailed
  | SqlFault.

(** [e.getErrorCode() == SQLITE_CONSTRAINT]. *)
Definition is_constraint (e : sql_error) : bool :=
  match e with UniqueFailed _ | ForeignKeyFailed => true | SqlFault => false end.

(** What SQLite leaves open: the visiting order of the rows a query selects from
    a table (some permutation of them) and the text of an error ([e.what()]). *)
Class SqlEngine := {
  scan : ∀ t : table, list (row t) -> list (row t);
  scan_perm : ∀ (t : table) (l : list (row t)), scan t l ≡ₚ l;
  sqlite_what : sql_error -> string
}.

(** An engine that visits rows in rowid order. *)
Definition rowid_engine : SqlEngine := {|
  scan := λ _ l, l;
  scan_perm := λ _ l, reflexivity l;
  sqlite_what := λ _, "constraint failed"
|}.

Section scan.
Context `{SqlEngine}.

Lemma elem_of_scan t (l : list (row t)) x : x ∈ scan t l <-> x ∈ l.
Proof. by rewrite (scan_perm t l). Qed.

Lemma scan_nil t : scan t [] = [].
Proof. apply Permutation_nil. symmetry. apply scan_perm. Qed.

Lemma scan_singleton t (x : row t) : scan t [x] = [x].
Proof. apply Permutation_singleton_r. apply scan_perm. Qed.

Lemma scan_nil_iff t (l : list (row t)) : scan t l = [] <-> l = [].
Proof.
  split; intros E; [|rewrite E; apply scan_nil].
  apply Permutation_nil. rewrite <- E. apply scan_perm.
Qed.

Lemma length_scan t (l : list (row t)) : length (scan t l) = length l.
Proof. by rewrite (scan_perm t l). Qed.

(** The row of the first [executeStep] of a query, if there is one. *)
Definition first_row (t : table) (l : list (row t)) : option (row t) := head (scan t l).

Lemma first_row_None t (l : list (row t)) : first_row t l = None <-> l = [].
Proof.
  unfold first_row. rewrite <- (scan_nil_iff t l). by destruct (scan t l).
Qed.

Lemma first_row_Some t (l : list (row t)) x : first_row t l = Some x -> x ∈ l.
Proof.
  unfold first_row. intros Hx. apply (elem_of_scan t l).
  destruct (scan t l); simplify_eq/=. left.
Qed.

Lemma first_row_singleton t (x : row t) : first_row t [x] = Some x.
Proof. unfold first_row. by rewrite scan_singleton. Qed.
End scan.

#[export] Hint Rewrite @elem_of_scan @length_scan : voxrw.

(** ** Executing statements

    [exec] runs a statement inside [try { .. } catch (const SQLite::Exception& e)];
    [handler] is the error the [catch] clause returns.  The connection mutex of
    [Database::WriteLock] makes each call atomic. *)
Definition exec (handler : sql_error -> Error) (stmt : Database -> sql_error + Database)
    : M Database unit :=
  λ db, match stmt db with inr db' => (Ok tt, db') | inl e => (Err (handler e), db) end.

(** [Error{kInternal, e.what()}]. *)
Definition internal_error `{SqlEngine} (e : sql_error) : Error := mkError kInternal (sqlite_what e).

(** [SQLite::Transaction txn; ..; txn.commit()]: a return or an exception before
    the commit rolls the database back. *)
Definition transaction {A} (c : M Database A) : M Database A :=
  λ db, match c db with (Ok a, db') => (Ok a, db') | (Err e, _) => (Err e, db) end.

Lemma exec_Ok handler stmt db db' : exec handler stmt db = (Ok tt, db') <-> stmt db = inr db'.
Proof. unfold exec. destruct (stmt db); naive_solver. Qed.

Lemma exec_Err handler stmt db e db' :
  exec handler stmt db = (Err e, db') <-> ∃ se, stmt db = inl se ∧ e = handler se ∧ db' = db.
Proof. unfold exec. destruct (stmt db); naive_solver. Qed.

Lemma preserves_exec (I : Database -> Prop) handler stmt :
  (∀ db db', I db -> stmt db = inr db' -> I db') -> preserves I (exec handler stmt).
Proof. intros Hs db Hdb. unfold exec. destruct (stmt db) eqn:E; simpl; eauto. Qed.

Lemma preserves_modify (I : Database -> Prop) f : (∀ db, I db -> I (f db)) -> preserves I (modify f).
Proof. intros Hf db Hdb. by apply Hf. Qed.

Lemma preserves_transaction {A} (I : Database -> Prop) (c : M Database A) :
  preserves I c -> preserves I (transaction c).
Proof.
  intros Hc db Hdb. unfold transaction. specialize (Hc db Hdb). by destruct (c db) as [[a|e] db'].
Qed.

Lemma transaction_Ok {A} (c : M Database A) db a db' :
  transaction c db = (Ok a, db') <-> c db = (Ok a, db').
Proof. unfold transaction. destruct (c db) as [[]]; naive_solver. Qed.

(** A failed transaction leaves the database as it was. *)
Lemma transaction_Err {A} (c : M Database A) db e db' :
  transaction c db = (Err e, db') <-> (∃ db1, c db = (Err e, db1)) ∧ db' = db.
Proof. unfold transaction. destruct (c db) as [[]]; naive_solver. Qed.

(** ** Statements that can violate a constraint *)

(** Key and foreign-key columns. *)
Definition device_key (d : DeviceRecord) : UserId * DeviceId := (d_user_id d, d_device_id d).
Definition prekey_device (k : PrekeyRow) : UserId * DeviceId := (k_user_id k, k_device_id k).
Definition session_device (s : SessionRecord) : UserId * DeviceId := (s_user_id s, s_device_id s).
Definition member_key (m : MemberRecord) : ConversationId * UserId :=
  (m_conversation_id m, m_user_id m).
Definition subscription_key (b : SubscriptionRow) : ConversationId * UserId :=
  (b_conversation_id b, b_user_id b).
Definition envelope_sender (e : EnvelopeRecord) : UserId * DeviceId :=
  (e_sender_user_id e, e_sender_device_id e).
Definition delivery_target (d : DeliveryStateRecord) : UserId * DeviceId :=
  (ds_target_user_id d, ds_target_device_id d).
Definition delivery_key (d : DeliveryStateRecord) : EnvelopeId * (UserId * DeviceId) :=
  (ds_envelope_id d, delivery_target d).
Definition sync_key (y : SyncRow) : UserId * (string * string) :=
  (y_user_id y, (y_collection y, y_record_id y)).

Definition has_user (db : Database) (u : UserId) : bool :=
  bool_decide (u ∈ u_user_id <$> users db).
Definition has_device (db : Database) (k : UserId * DeviceId) : bool :=
  bool_decide (k ∈ device_key <$> devices db).
Definition has_conversation (db : Database) (c : ConversationId) : bool :=
  bool_decide (c ∈ c_conversation_id <$> conversations db).
Definition has_envelope (db : Database) (e : EnvelopeId) : bool :=
  bool_decide (e ∈ e_envelope_id <$> encrypted_envelopes db).

(** [INSERT INTO users]: [user_id] is the primary key, [username] is [UNIQUE]. *)
Definition insert_users (r : UserRecord) (db : Database) : sql_error + Database :=
  if sql_exists (λ x, u_user_id x = u_user_id r ∨ u_username x = u_username r) (users db)
  then inl (UniqueFailed TUsers)
  else inr (set_users (sql_insert r (users db)) db).

Definition insert_devices (r : DeviceRecord) (db : Database) : sql_error + Database :=
  if sql_exists (λ x, device_key x = device_key r) (devices db) then inl (UniqueFailed TDevices)
  else if negb (has_user db (d_user_id r)) then inl ForeignKeyFailed
  else inr (set_devices (sql_insert r (devices db)) db).

Definition insert_one_time_prekeys (r : PrekeyRow) (db : Database) : sql_error + Database :=
  if sql_exists (λ x, k_prekey_id x = k_prekey_id r) (one_time_prekeys db)
  then inl (UniqueFailed TOneTimePrekeys)
  else if negb (has_device db (prekey_device r)) then inl ForeignKeyFailed
  else inr (set_one_time_prekeys (sql_insert r (one_time_prekeys db)) db).

Definition insert_sessions (r : SessionRecord) (db : Database) : sql_error + Database :=
  if sql_exists (λ x, s_session_id x = s_session_id r
                      ∨ s_access_token_hash x = s_access_token_hash r
                      ∨ s_refresh_token_hash x = s_refresh_token_hash r) (sessions db)
  then inl (UniqueFailed TSessions)
  else if negb (has_user db (s_user_id r) && has_device db (session_device r))
  then inl ForeignKeyFailed
  else inr (set_sessions (sql_insert r (sessions db)) db).

Definition insert_conversations (r : ConversationRow) (db : Database) : sql_error + Database :=
  if sql_exists (λ x, c_conversation_id x = c_conversation_id r) (conversations db)
  then inl (UniqueFailed TConversations)
  else if negb (has_user db (c_created_by r)) then inl ForeignKeyFailed
  else inr (set_conversations (sql_insert r (conversations db)) db).

(** [INSERT INTO conversation_members .. ON CONFLICT(conversation_id, user_id)
    DO UPDATE SET removed_at = NULL, role = ?, added_at = ?]. *)
Definition upsert_conversation_members (r : MemberRecord) (db : Database) : sql_error + Database :=
  if sql_exists (λ x, member_key x = member_key r) (conversation_members db)
  then inr (set_conversation_members
              (sql_update (λ x, member_key x = member_key r)
                 (λ x, mkMemberRecord (m_conversation_id x) (m_user_id x) (m_role r) (m_added_at r) None)
                 (conversation_members db)) db)
  else if negb (has_conversation db (m_conversation_id r) && has_user db (m_user_id r))
  then inl ForeignKeyFailed
  else inr (set_conversation_members (sql_insert r (conversation_members db)) db).

(** [INSERT INTO channel_subscriptions .. ON CONFLICT(conversation_id, user_id)
    DO UPDATE SET unsubscribed_at = NULL, subscribed_at = ?]. *)
Definition upsert_channel_subscriptions (r : SubscriptionRow) (db : Database)
    : sql_error + Database :=
  if sql_exists (λ x, subscription_key x = subscription_key r) (channel_subscriptions db)
  then inr (set_channel_subscriptions
              (sql_update (λ x, subscription_key x = subscription_key r)
                 (λ x, mkSubscriptionRow (b_conversation_id x) (b_user_id x) (b_subscribed_at r) None)
                 (channel_subscriptions db)) db)
  else if negb (has_conversation db (b_conversation_id r) && has_user db (b_user_id r))
  then inl ForeignKeyFailed
  else inr (set_channel_subscriptions (sql_insert r (channel_subscriptions db)) db).

Definition insert_encrypted_envelopes (r : EnvelopeRecord) (db : Database) : sql_error + Database :=
  if sql_exists (λ x, e_envelope_id x = e_envelope_id r) (encrypted_envelopes db)
  then inl (UniqueFailed TEncryptedEnvelopes)
  else if negb (has_conversation db (e_conversation_id r) && has_device db (envelope_sender r))
  then inl ForeignKeyFailed
  else inr (set_encrypted_envelopes (sql_insert r (encrypted_envelopes db)) db).

Definition insert_delivery_state (r : DeliveryStateRecord) (db : Database) : sql_error + Database :=
  if sql_exists (λ x, delivery_key x = delivery_key r) (delivery_state db)
  then inl (UniqueFailed TDeliveryState)
  else if negb (has_envelope db (ds_envelope_id r) && has_device db (delivery_target r))
  then inl ForeignKeyFailed
  else inr (set_delivery_state (sql_insert r (delivery_state db)) db).

Definition insert_attachment_metadata (r : AttachmentRow) (db : Database) : sql_error + Database :=
  if sql_exists (λ x, a_attachment_id x = a_attachment_id r) (attachment_metadata db)
  then inl (UniqueFailed TAttachmentMetadata)
  else if negb (has_user db (a_user_id r) && has_conversation db (a_conversation_id r))
  then inl ForeignKeyFailed
  else inr (set_attachment_metadata (sql_insert r (attachment_metadata db)) db).

(** The largest [rowid]. *)
Definition max_rowid : Z := 2 ^ 63 - 1.

(** [INSERT INTO sync_records] without an [id]: [AUTOINCREMENT] assigns one above
    every id the table ever held, and fails when there is none. *)
Definition insert_sync_records (mk : Z -> SyncRow) (db : Database) : sql_error + Database :=
  let r := mk (sync_seq db + 1) in
  if max_rowid <=? sync_seq db then inl SqlFault
  else if sql_exists (λ x, sync_key x = sync_key r) (sync_records db)
  then inl (UniqueFailed TSyncRecords)
  else if negb (has_user db (y_user_id r)) then inl ForeignKeyFailed
  else inr (set_sync (sql_insert r (sync_records db)) (sync_seq db + 1) db).

(** ** Referential integrity *)

(** Every [REFERENCES] and [FOREIGN KEY] clause of the schema. *)
Record fk_wf (db : Database) : Prop := mk_fk_wf {
  fk_devices_user : (d_user_id <$> devices db) ⊆ (u_user_id <$> users db);
  fk_prekeys_device : (prekey_device <$> one_time_prekeys db) ⊆ (device_key <$> devices db);
  fk_sessions_user : (s_user_id <$> sessions db) ⊆ (u_user_id <$> users db);
  fk_sessions_device : (session_device <$> sessions db) ⊆ (device_key <$> devices db);
  fk_conversations_creator : (c_created_by <$> conversations db) ⊆ (u_user_id <$> users db);
  fk_members_conversation :
    (m_conversation_id <$> conversation_members db) ⊆ (c_conversation_id <$> conversations db);
  fk_members_user : (m_user_id <$> conversation_members db) ⊆ (u_user_id <$> users db);
  fk_subscriptions_conversation :
    (b_conversation_id <$> channel_subscriptions db) ⊆ (c_conversation_id <$> conversations db);
  fk_subscriptions_user : (b_user_id <$> channel_subscriptions db) ⊆ (u_user_id <$> users db);
  fk_envelopes_conversation :
    (e_conversation_id <$> encrypted_envelopes db) ⊆ (c_conversation_id <$> conversations db);
  fk_envelopes_sender :
    (envelope_sender <$> encrypted_envelopes db) ⊆ (device_key <$> devices db);
  fk_delivery_envelope :
    (ds_envelope_id <$> delivery_state db) ⊆ (e_envelope_id <$> encrypted_envelopes db);
  fk_delivery_target : (delivery_target <$> delivery_state db) ⊆ (device_key <$> devices db);
  fk_attachments_user : (a_user_id <$> attachment_metadata db) ⊆ (u_user_id <$> users db);
  fk_attachments_conversation :
    (a_conversation_id <$> attachment_metadata db) ⊆ (c_conversation_id <$> conversations db);
  fk_sync_user : (y_user_id <$> sync_records db) ⊆ (u_user_id <$> users db)
}.

#[export] Instance fk_wf_dec db : Decision (fk_wf db).
Proof.
  refine (cast_if (decide (
    ((d_user_id <$> devices db) ⊆ (u_user_id <$> users db)
     ∧ (prekey_device <$> one_time_prekeys db) ⊆ (device_key <$> devices db)
     ∧ (s_user_id <$> sessions db) ⊆ (u_user_id <$> users db)
     ∧ (session_device <$> sessions db) ⊆ (device_key <$> devices db)
     ∧ (c_created_by <$> conversations db) ⊆ (u_user_id <$> users db)
     ∧ (m_conversation_id <$> conversation_members db) ⊆ (c_conversation_id <$> conversations db)
     ∧ (m_user_id <$> conversation_members db) ⊆ (u_user_id <$> users db)
     ∧ (b_conversation_id <$> channel_subscriptions db) ⊆ (c_conversation_id <$> conversations db)
     ∧ (b_user_id <$> channel_subscriptions db) ⊆ (u_user_id <$> users db)
     ∧ (e_conversation_id <$> encrypted_envelopes db) ⊆ (c_conversation_id <$> conversations db)
     ∧ (envelope_sender <$> encrypted_envelopes db) ⊆ (device_key <$> devices db)
     ∧ (ds_envelope_id <$> delivery_state db) ⊆ (e_envelope_id <$> encrypted_envelopes db)
     ∧ (delivery_target <$> delivery_state db) ⊆ (device_key <$> devices db)
     ∧ (a_user_id <$> attachment_metadata db) ⊆ (u_user_id <$> users db)
     ∧ (a_conversation_id <$> attachment_metadata db) ⊆ (c_conversation_id <$> conversations db)
     ∧ (y_user_id <$> sync_records db) ⊆ (u_user_id <$> users db)))));
  [abstract by destruct_and!; constructor | abstract by intros []; auto 20].
Defined.

(** A [DELETE] on a referenced table fails when a reference would dangle at the
    end of the statement. *)
Definition fk_checked (db' : Database) : sql_error + Database :=
  if decide (fk_wf db') then inr db' else inl ForeignKeyFailed.

(** Primary keys and [UNIQUE] columns. *)
Record keys_wf (db : Database) : Prop := mk_keys_wf {
  pk_users : NoDup (u_user_id <$> users db);
  uq_usernames : NoDup (u_username <$> users db);
  pk_devices : NoDup (device_key <$> devices db);
  pk_prekeys : NoDup (k_prekey_id <$> one_time_prekeys db);
  pk_sessions : NoDup (s_session_id <$> sessions db);
  uq_access : NoDup (s_access_token_hash <$> sessions db);
  uq_refresh : NoDup (s_refresh_token_hash <$> sessions db);
  pk_conversations : NoDup (c_conversation_id <$> conversations db);
  pk_members : NoDup (member_key <$> conversation_members db);
  pk_subscriptions : NoDup (subscription_key <$> channel_subscriptions db);
  pk_envelopes : NoDup (e_envelope_id <$> encrypted_envelopes db);
  pk_delivery : NoDup (delivery_key <$> delivery_state db);
  pk_attachments : NoDup (a_attachment_id <$> attachment_metadata db);
  pk_sync : NoDup (y_id <$> sync_records db);
  uq_sync : NoDup (sync_key <$> sync_records db)
}.

(** The integrity invariant of the store. *)
Record db_wf (db : Database) : Prop := mk_db_wf {
  wf_keys : keys_wf db;
  wf_fk : fk_wf db;
  wf_seq : Forall (λ y, y_id y <= sync_seq db) (sync_records db)
}.

#[export] Instance keys_wf_dec db : Decision (keys_wf db).
Proof.
  refine (cast_if (decide (
    (NoDup (u_user_id <$> users db) ∧ NoDup (u_username <$> users db)
     ∧ NoDup (device_key <$> devices db) ∧ NoDup (k_prekey_id <$> one_time_prekeys db)
     ∧ NoDup (s_session_id <$> sessions db) ∧ NoDup (s_access_token_hash <$> sessions db)
     ∧ NoDup (s_refresh_token_hash <$> sessions db)
     ∧ NoDup (c_conversation_id <$> conversations db)
     ∧ NoDup (member_key <$> conversation_members db)
     ∧ NoDup (subscription_key <$> channel_subscriptions db)
     ∧ NoDup (e_envelope_id <$> encrypted_envelopes db)
     ∧ NoDup (delivery_key <$> delivery_state db)
     ∧ NoDup (a_attachment_id <$> attachment_metadata db)
     ∧ NoDup (y_id <$> sync_records db) ∧ NoDup (sync_key <$> sync_records db)))));
  [abstract by destruct_and!; constructor | abstract by intros []; auto 20].
Defined.

#[export] Instance db_wf_dec db : Decision (db_wf db).
Proof.
  refine (cast_if (decide (keys_wf db ∧ fk_wf db
                           ∧ Forall (λ y, y_id y <= sync_seq db) (sync_records db))));
  [abstract by destruct_and!; constructor | abstract by intros []; auto].
Defined.

(** Integrity of a concrete database, by evaluation. *)
Lemma db_wf_eval db : bool_decide (db_wf db) = true -> db_wf db.
Proof. apply bool_decide_eq_true. Qed.

Lemma CreateSchema_wf : db_wf CreateSchema.
Proof. split; [split; apply NoDup_nil_2|split; apply list_subseteq_nil|constructor]. Qed.

(** ** Preservation of integrity by the statements *)

Section subset_lemmas.
Context {R B : Type} (f : R -> B).
Implicit Types (t : list R) (l : list B).

Lemma fmap_insert_subseteq r t l :
  (f <$> t) ⊆ l -> f r ∈ l -> (f <$> sql_insert r t) ⊆ l.
Proof.
  intros Ht Hr x. unfold sql_insert. rewrite fmap_app, elem_of_app.
  intros [Hx|Hx]; [by apply Ht|]. by apply list_elem_of_singleton in Hx as ->.
Qed.

Lemma subseteq_fmap_insert r t l : l ⊆ (f <$> t) -> l ⊆ (f <$> sql_insert r t).
Proof. intros Hl. unfold sql_insert. rewrite fmap_app. by apply list_subseteq_app_l. Qed.

Lemma fmap_filter_subseteq (P : R -> Prop) `{!∀ x, Decision (P x)} t l :
  (f <$> t) ⊆ l -> (f <$> filter P t) ⊆ l.
Proof.
  intros Ht x (y & -> & Hy)%list_elem_of_fmap. apply Ht, list_elem_of_fmap_2.
  by apply list_elem_of_filter in Hy as [_ Hy].
Qed.

Lemma fmap_delete_subseteq (P : R -> Prop) `{!∀ x, Decision (P x)} t l :
  (f <$> t) ⊆ l -> (f <$> sql_delete P t) ⊆ l.
Proof. apply fmap_filter_subseteq. Qed.

Lemma fresh_key (P : R -> Prop) `{!∀ x, Decision (P x)} t r :
  sql_exists P t = false -> (∀ x, f x = f r -> P x) -> ∀ x, x ∈ t -> f x ≠ f r.
Proof. intros Hno HP x Hx E. by apply (proj1 (sql_exists_false P t) Hno x Hx), HP. Qed.
End subset_lemmas.

#[export] Hint Resolve fmap_insert_subseteq subseteq_fmap_insert fmap_filter_subseteq
  fmap_delete_subseteq : vox.

Lemma has_user_true db u : has_user db u = true <-> u ∈ u_user_id <$> users db.
Proof. apply bool_decide_eq_true. Qed.
Lemma has_device_true db k : has_device db k = true <-> k ∈ device_key <$> devices db.
Proof. apply bool_decide_eq_true. Qed.
Lemma has_conversation_true db c :
  has_conversation db c = true <-> c ∈ c_conversation_id <$> conversations db.
Proof. apply bool_decide_eq_true. Qed.
Lemma has_envelope_true db e : has_envelope db e = true <-> e ∈ e_envelope_id <$> encrypted_envelopes db.
Proof. apply bool_decide_eq_true. Qed.

#[export] Hint Rewrite has_user_true has_device_true has_conversation_true has_envelope_true
  negb_false_iff andb_true_iff : voxrw.

(** Proves [db_wf] of a database that differs from a well-formed one in one table. *)
Ltac db_wf_solve :=
  match goal with Hwf : db_wf _ |- _ =>
    destruct Hwf as [[] [] ?]; split; [split|split|]; simpl in *;
    rewrite ?fmap_sql_update by done;
    auto with vox
  end.

Ltac insert_wf_solve :=
  match goal with Hi : _ = inr _ |- _ =>
    cases_in Hi; autorewrite with voxrw in *; destruct_and?;
    db_wf_solve;
    try (apply NoDup_fmap_sql_insert; [done|]; eapply fresh_key; [eassumption|simpl; naive_solver])
  end.

Lemma insert_users_wf r db db' : db_wf db -> insert_users r db = inr db' -> db_wf db'.
Proof. unfold insert_users. intros Hwf Hi. insert_wf_solve. Qed.
Lemma insert_devices_wf r db db' : db_wf db -> insert_devices r db = inr db' -> db_wf db'.
Proof. unfold insert_devices. intros Hwf Hi. insert_wf_solve. Qed.
Lemma insert_one_time_prekeys_wf r db db' :
  db_wf db -> insert_one_time_prekeys r db = inr db' -> db_wf db'.
Proof. unfold insert_one_time_prekeys. intros Hwf Hi. insert_wf_solve. Qed.
Lemma insert_sessions_wf r db db' : db_wf db -> insert_sessions r db = inr db' -> db_wf db'.
Proof. unfold insert_sessions. intros Hwf Hi. insert_wf_solve. Qed.
Lemma insert_conversations_wf r db db' :
  db_wf db -> insert_conversations r db = inr db' -> db_wf db'.
Proof. unfold insert_conversations. intros Hwf Hi. insert_wf_solve. Qed.
Lemma upsert_conversation_members_wf r db db' :
  db_wf db -> upsert_conversation_members r db = inr db' -> db_wf db'.
Proof. unfold upsert_conversation_members. intros Hwf Hi. insert_wf_solve. Qed.
Lemma upsert_channel_subscriptions_wf r db db' :
  db_wf db -> upsert_channel_subscriptions r db = inr db' -> db_wf db'.
Proof. unfold upsert_channel_subscriptions. intros Hwf Hi. insert_wf_solve. Qed.
Lemma insert_encrypted_envelopes_wf r db db' :
  db_wf db -> insert_encrypted_envelopes r db = inr db' -> db_wf db'.
Proof. unfold insert_encrypted_envelopes. intros Hwf Hi. insert_wf_solve. Qed.
Lemma insert_delivery_state_wf r db db' :
  db_wf db -> insert_delivery_state r db = inr db' -> db_wf db'.
Proof. unfold insert_delivery_state. intros Hwf Hi. insert_wf_solve. Qed.
Lemma insert_attachment_metadata_wf r db db' :
  db_wf db -> insert_attachment_metadata r db = inr db' -> db_wf db'.
Proof. unfold insert_attachment_metadata. intros Hwf Hi. insert_wf_solve. Qed.

Lemma fk_checked_wf db db' :
  keys_wf db -> Forall (λ y, y_id y <= sync_seq db) (sync_records db) ->
  fk_checked db = inr db' -> db_wf db'.
Proof. unfold fk_checked. intros Hk Hs Hi. cases_in Hi. by split. Qed.

#[export] Hint Resolve insert_users_wf insert_devices_wf insert_one_time_prekeys_wf
  insert_sessions_wf insert_conversations_wf upsert_conversation_members_wf
  upsert_channel_subscriptions_wf insert_encrypted_envelopes_wf insert_delivery_state_wf
  insert_attachment_metadata_wf : vox.
