(* ===== verification/Samples.v ===== *)
(** * A small concrete database

    Two accounts with a device each, on which the theorems are instantiated. *)

From S2P Require Import Prelude Types Database.

Definition sample_user (id name : string) : UserRecord :=
  mkUserRecord id name "00" "ff" 1000 None 1 "wk" "ws" "wp".

Definition sample_device (user device : string) : DeviceRecord :=
  mkDeviceRecord device user "ik" "spk" "sig" None 1 "phone" 1000 1000 None.

Definition sample_db : Database :=
  set_devices [sample_device "u1" "d1"; sample_device "u2" "d2"]
    (set_users [sample_user "u1" "alice"; sample_user "u2" "Bob"] CreateSchema).

(** ... with two one-time prekeys of the first device. *)
Definition sample_prekeys_db : Database :=
  set_one_time_prekeys [mkPrekeyRow "k1" "u1" "d1" "p1" None; mkPrekeyRow "k2" "u1" "d1" "p2" None]
    sample_db.

Lemma sample_db_wf : db_wf sample_db.
Proof. apply db_wf_eval. vm_compute. reflexivity. Qed.

Lemma sample_prekeys_db_wf : db_wf sample_prekeys_db.
Proof. apply db_wf_eval. vm_compute. reflexivity. Qed.
