(* ===== verification/Migration.v ===== *)
(** * The schema migration (lib/vox_store/database.cpp,
      [Database::MigrateDevicesCompositePrimaryKey])

    A database file of an earlier version keys its devices by [device_id] alone, and
    its prekeys, envelopes and delivery rows name a device without its user.  At
    startup the five tables are rebuilt with the owner of each device filled in from a
    join, in one transaction and with foreign keys switched off. *)

From S2P Require Import Prelude Types Sql Database Samples.

(** ** The earlier layout *)

Record LegacyPrekey := mkLegacyPrekey {
  lk_prekey_id : string;
  lk_device_id : DeviceId;
  lk_prekey_public : string;
  lk_consumed_at : option Timestamp }.

Record LegacyEnvelope := mkLegacyEnvelope {
  le_envelope_id : EnvelopeId;
  le_conversation_id : ConversationId;
  le_sender_device_id : DeviceId;
  le_ciphertext : string;
  le_server_timestamp : Timestamp;
  le_envelope_type : Z;
  le_retention_until : option Timestamp;
  le_ordering_epoch : option Z }.

Record LegacyDelivery := mkLegacyDelivery {
  ld_envelope_id : EnvelopeId;
  ld_target_device_id : DeviceId;
  ld_queued_at : Timestamp;
  ld_delivered_at : option Timestamp;
  ld_acked_at : option Timestamp }.

(** The five tables that change; [lg_rest] holds the others.  [lg_device_columns]: the
    devices table already has [device_label], [created_at], [last_seen_at] and
    [revoked_at]. *)
Record LegacyStore := mkLegacyStore {
  lg_device_columns : bool;
  lg_devices : list DeviceRecord;
  lg_prekeys : list LegacyPrekey;
  lg_sessions : list SessionRecord;
  lg_envelopes : list LegacyEnvelope;
  lg_delivery : list LegacyDelivery;
  lg_rest : Database }.

(** A database file, by the number of key columns of its devices table. *)
Inductive Store := SingleKey (lg : LegacyStore) | CompositeKey (db : Database).

(** ** The migration *)

(** [INSERT INTO t SELECT ..]: the rows one by one; [None] when one violates a primary
    key or a [UNIQUE] clause. *)
Fixpoint insert_select {R} (conflict : R -> R -> Prop) `{!RelDecision conflict} (rows t : list R)
    : option (list R) :=
  match rows with
  | [] => Some t
  | r :: rows' =>
      if sql_exists (λ x, conflict x r) t then None else insert_select conflict rows' (sql_insert r t)
  end.

(** [FROM old JOIN devices d ON old.device = d.device_id]. *)
Definition join_devices {A R} (device : A -> DeviceId) (mk : A -> DeviceRecord -> R)
    (old : list A) (devs : list DeviceRecord) : list R :=
  a ← old; mk a <$> filter (λ d, d_device_id d = device a) devs.

Definition add_owner_prekey (k : LegacyPrekey) (d : DeviceRecord) : PrekeyRow :=
  mkPrekeyRow (lk_prekey_id k) (d_user_id d) (lk_device_id k) (lk_prekey_public k) (lk_consumed_at k).
Definition add_owner_envelope (e : LegacyEnvelope) (d : DeviceRecord) : EnvelopeRecord :=
  mkEnvelopeRecord (le_envelope_id e) (le_conversation_id e) (d_user_id d) (le_sender_device_id e)
    (le_ciphertext e) (le_server_timestamp e) (le_envelope_type e) (le_retention_until e) (le_ordering_epoch e).
Definition add_owner_delivery (x : LegacyDelivery) (d : DeviceRecord) : DeliveryStateRecord :=
  mkDeliveryStateRecord (ld_envelope_id x) (d_user_id d) (ld_target_device_id x) (ld_queued_at x)
    (ld_delivered_at x) (ld_acked_at x).

(** The keys of the new tables. *)
Definition device_clash (x y : DeviceRecord) : Prop := device_key x = device_key y.
Definition prekey_clash (x y : PrekeyRow) : Prop := k_prekey_id x = k_prekey_id y.
Definition session_clash (x y : SessionRecord) : Prop :=
  s_session_id x = s_session_id y ∨ s_access_token_hash x = s_access_token_hash y
  ∨ s_refresh_token_hash x = s_refresh_token_hash y.
Definition envelope_clash (x y : EnvelopeRecord) : Prop := e_envelope_id x = e_envelope_id y.
Definition delivery_clash (x y : DeliveryStateRecord) : Prop := delivery_key x = delivery_key y.
#[export] Instance device_clash_dec : RelDecision device_clash.
Proof. unfold device_clash. intros x y. apply _. Defined.
#[export] Instance prekey_clash_dec : RelDecision prekey_clash.
Proof. unfold prekey_clash. intros x y. apply _. Defined.
#[export] Instance session_clash_dec : RelDecision session_clash.
Proof. unfold session_clash. intros x y. apply _. Defined.
#[export] Instance envelope_clash_dec : RelDecision envelope_clash.
Proof. unfold envelope_clash. intros x y. apply _. Defined.
#[export] Instance delivery_clash_dec : RelDecision delivery_clash.
Proof. unfold delivery_clash. intros x y. apply _. Defined.

Section migration.
Context `{SqlEngine}.

(** The transaction; [None]: an exception, and the file stays as it was.  The rows of a
    [SELECT] come in an order of the engine's choice. *)
Definition MigrateDevicesCompositePrimaryKey (st : Store) : option Store :=
  match st with
  | CompositeKey db => Some (CompositeKey db)
  | SingleKey lg =>
      if negb (lg_device_columns lg) then None else
      devs ← insert_select device_clash (scan TDevices (lg_devices lg)) [];
      prekeys ← insert_select prekey_clash
        (scan TOneTimePrekeys (join_devices lk_device_id add_owner_prekey (lg_prekeys lg) devs)) [];
      sess ← insert_select session_clash (scan TSessions (lg_sessions lg)) [];
      envs ← insert_select envelope_clash
        (scan TEncryptedEnvelopes (join_devices le_sender_device_id add_owner_envelope (lg_envelopes lg) devs)) [];
      dels ← insert_select delivery_clash
        (scan TDeliveryState (join_devices ld_target_device_id add_owner_delivery (lg_delivery lg) devs)) [];
      Some (CompositeKey (set_devices devs (set_one_time_prekeys prekeys (set_sessions sess
        (set_encrypted_envelopes envs (set_delivery_state dels (lg_rest lg)))))))
  end.

(** ** What it keeps *)

(** The row without the user the migration added. *)
Definition drop_owner_prekey (k : PrekeyRow) : LegacyPrekey :=
  mkLegacyPrekey (k_prekey_id k) (k_device_id k) (k_prekey_public k) (k_consumed_at k).
Definition drop_owner_envelope (e : EnvelopeRecord) : LegacyEnvelope :=
  mkLegacyEnvelope (e_envelope_id e) (e_conversation_id e) (e_sender_device_id e) (e_ciphertext e)
    (e_server_timestamp e) (e_envelope_type e) (e_retention_until e) (e_ordering_epoch e).
Definition drop_owner_delivery (x : DeliveryStateRecord) : LegacyDelivery :=
  mkLegacyDelivery (ds_envelope_id x) (ds_target_device_id x) (ds_queued_at x) (ds_delivered_at x) (ds_acked_at x).

(** The constraints of the earlier layout, as its schema declared them: one device per
    id, rows refer to a device by its id. *)
Record legacy_wf (lg : LegacyStore) : Prop := {
  lw_rest : db_wf (lg_rest lg);
  lw_rest_attached : devices (lg_rest lg) = [] ∧ one_time_prekeys (lg_rest lg) = [] ∧
    sessions (lg_rest lg) = [] ∧ encrypted_envelopes (lg_rest lg) = [] ∧ delivery_state (lg_rest lg) = [];
  lw_device_key : NoDup (d_device_id <$> lg_devices lg);
  lw_device_user : (d_user_id <$> lg_devices lg) ⊆ (u_user_id <$> users (lg_rest lg));
  lw_prekey_key : NoDup (lk_prekey_id <$> lg_prekeys lg);
  lw_prekey_device : (lk_device_id <$> lg_prekeys lg) ⊆ (d_device_id <$> lg_devices lg);
  lw_session_key : NoDup (s_session_id <$> lg_sessions lg);
  lw_session_access : NoDup (s_access_token_hash <$> lg_sessions lg);
  lw_session_refresh : NoDup (s_refresh_token_hash <$> lg_sessions lg);
  lw_session_user : (s_user_id <$> lg_sessions lg) ⊆ (u_user_id <$> users (lg_rest lg));
  lw_session_device : (session_device <$> lg_sessions lg) ⊆ (device_key <$> lg_devices lg);
  lw_envelope_key : NoDup (le_envelope_id <$> lg_envelopes lg);
  lw_envelope_conversation :
    (le_conversation_id <$> lg_envelopes lg) ⊆ (c_conversation_id <$> conversations (lg_rest lg));
  lw_envelope_device : (le_sender_device_id <$> lg_envelopes lg) ⊆ (d_device_id <$> lg_devices lg);
  lw_delivery_key : NoDup ((λ x, (ld_envelope_id x, ld_target_device_id x)) <$> lg_delivery lg);
  lw_delivery_envelope : (ld_envelope_id <$> lg_delivery lg) ⊆ (le_envelope_id <$> lg_envelopes lg);
  lw_delivery_device : (ld_target_device_id <$> lg_delivery lg) ⊆ (d_device_id <$> lg_devices lg) }.

(** Rows with distinct keys all go in. *)
Lemma insert_select_all {R} (conflict : R -> R -> Prop) `{!RelDecision conflict} rows t :
  (∀ i j x y, (t ++ rows) !! i = Some x -> (t ++ rows) !! j = Some y -> conflict x y -> i = j) ->
  insert_select conflict rows t = Some (t ++ rows).
Proof.
  revert t. induction rows as [|r rows IH]; intros t Hd; simpl; [by rewrite app_nil_r|].
  destruct (sql_exists (λ x, conflict x r) t) eqn:E.
  - exfalso. apply sql_exists_true in E as (x & Hx & Hc). apply list_elem_of_lookup in Hx as (i & Hi).
    pose proof (lookup_lt_Some _ _ _ Hi).
    assert (i = length t) as ->; [|lia]. apply (Hd i (length t) x r); [by rewrite lookup_app_l| |done].
    rewrite lookup_app_r by lia. by rewrite Nat.sub_diag.
  - rewrite IH; unfold sql_insert; rewrite <- app_assoc; [done|exact Hd].
Qed.

Lemma insert_select_key {R B} (key : R -> B) (conflict : R -> R -> Prop) `{!RelDecision conflict} rows :
  (∀ x y, conflict x y -> key x = key y) -> NoDup (key <$> rows) -> insert_select conflict rows [] = Some rows.
Proof.
  intros Hk Hn. rewrite insert_select_all; [done|]. simpl. intros i j x y Hi Hj Hc.
  apply (NoDup_lookup (key <$> rows) i j (key x)); [done|..]; rewrite list_lookup_fmap; [by rewrite Hi|].
  rewrite Hj. simpl. by rewrite (Hk x y Hc).
Qed.

(** A join on the unique device id finds the device of every row: nothing is lost,
    nothing is doubled, and the added user is the device's. *)
Section join.
Context {A R : Type} (device : A -> DeviceId) (mk : A -> DeviceRecord -> R) (drop : R -> A).
Context (old : list A) (devs : list DeviceRecord).
Context (Hdrop : ∀ a d, drop (mk a d) = a).
Context (Hkey : NoDup (d_device_id <$> devs)) (Href : (device <$> old) ⊆ (d_device_id <$> devs)).

Lemma join_devices_drop : drop <$> join_devices device mk old devs = old.
Proof.
  unfold join_devices. induction old as [|a l IH]; [done|].
  assert (Ha : device a ∈ d_device_id <$> devs) by (apply Href; by left).
  apply list_elem_of_fmap in Ha as (d & Ed & Hd).
  rewrite bind_cons, fmap_app, IH by (intros x Hx; apply Href; by right).
  rewrite (filter_key_singleton d_device_id _ devs d); [simpl; by rewrite Hdrop|done|done|done|].
  intros d' ->. done.
Qed.

Lemma elem_of_join_devices r :
  r ∈ join_devices device mk old devs -> ∃ a d, a ∈ old ∧ d ∈ devs ∧ d_device_id d = device a ∧ r = mk a d.
Proof.
  unfold join_devices. intros (a & (d & -> & Hd)%list_elem_of_fmap & Ha)%list_elem_of_bind.
  apply list_elem_of_filter in Hd as [Hd Hin]. eauto 10.
Qed.

(** ... so that all rows of the join go into the new table. *)
Lemma insert_join {B} (key : A -> B) (conflict : R -> R -> Prop) `{!RelDecision conflict} rows :
  rows ≡ₚ join_devices device mk old devs -> (∀ x y, conflict x y -> key (drop x) = key (drop y)) ->
  NoDup (key <$> old) -> insert_select conflict rows [] = Some rows.
Proof.
  intros Hr Hc Hn. apply (insert_select_key (λ r, key (drop r))); [done|].
  rewrite Hr. rewrite <- join_devices_drop in Hn. by rewrite <- list_fmap_compose in Hn.
Qed.
End join.

Lemma insert_sessions_all rows :
  NoDup (s_session_id <$> rows) -> NoDup (s_access_token_hash <$> rows) -> NoDup (s_refresh_token_hash <$> rows) ->
  insert_select session_clash rows [] = Some rows.
Proof.
  intros H1 H2 H3. rewrite insert_select_all; [done|]. simpl. intros i j x y Hi Hj Hc.
  assert (Hkey : ∀ (f : SessionRecord -> string), NoDup (f <$> rows) -> f x = f y -> i = j).
  { intros f Hf E. apply (NoDup_lookup _ i j (f x) Hf); rewrite list_lookup_fmap; [by rewrite Hi|].
    rewrite Hj. simpl. by rewrite E. }
  destruct Hc as [E|[E|E]]; by apply (Hkey _) in E.
Qed.

(** The tables after the migration of a consistent file. *)
Lemma migration_tables lg :
  legacy_wf lg -> lg_device_columns lg = true ->
  ∃ devs prekeys sess envs dels,
    MigrateDevicesCompositePrimaryKey (SingleKey lg) = Some (CompositeKey (set_devices devs
      (set_one_time_prekeys prekeys (set_sessions sess (set_encrypted_envelopes envs
        (set_delivery_state dels (lg_rest lg))))))) ∧
    devs ≡ₚ lg_devices lg ∧ sess ≡ₚ lg_sessions lg ∧
    prekeys ≡ₚ join_devices lk_device_id add_owner_prekey (lg_prekeys lg) devs ∧
    envs ≡ₚ join_devices le_sender_device_id add_owner_envelope (lg_envelopes lg) devs ∧
    dels ≡ₚ join_devices ld_target_device_id add_owner_delivery (lg_delivery lg) devs.
Proof.
  intros Hwf Hcol. unfold MigrateDevicesCompositePrimaryKey. rewrite Hcol. simpl negb. cbv iota.
  set (devs := scan TDevices (lg_devices lg)). assert (Hd : devs ≡ₚ lg_devices lg) by apply scan_perm.
  assert (Hdk : NoDup (d_device_id <$> devs)) by (rewrite Hd; apply Hwf).
  assert (Hsub : ∀ l, l ⊆ (d_device_id <$> lg_devices lg) -> l ⊆ (d_device_id <$> devs)).
  { intros l Hl x Hx. rewrite Hd. by apply Hl. }
  rewrite (insert_select_key d_device_id) by (done || (by intros x y [= _ ?])). cbn [mbind option_bind].
  rewrite (insert_join lk_device_id add_owner_prekey drop_owner_prekey (lg_prekeys lg) devs ltac:(by intros []) Hdk
    (Hsub _ (lw_prekey_device _ Hwf)) lk_prekey_id) by (exact (scan_perm TOneTimePrekeys _) || done || apply Hwf).
  cbn [mbind option_bind].
  rewrite insert_sessions_all by (rewrite (scan_perm TSessions); apply Hwf). cbn [mbind option_bind].
  rewrite (insert_join le_sender_device_id add_owner_envelope drop_owner_envelope (lg_envelopes lg) devs
    ltac:(by intros []) Hdk (Hsub _ (lw_envelope_device _ Hwf)) le_envelope_id) by (exact (scan_perm TEncryptedEnvelopes _) || done || apply Hwf).
  cbn [mbind option_bind].
  rewrite (insert_join ld_target_device_id add_owner_delivery drop_owner_delivery (lg_delivery lg) devs
    ltac:(by intros []) Hdk (Hsub _ (lw_delivery_device _ Hwf)) (λ x, (ld_envelope_id x, ld_target_device_id x)))
    by (exact (scan_perm TDeliveryState _) || apply Hwf || (intros x y [= E1 _ E2]; simpl; by rewrite E1, E2)).
  cbn [mbind option_bind]. do 5 eexists. split; [reflexivity|]. split; [done|].
  split; [exact (scan_perm TSessions _)|]. split; [exact (scan_perm TOneTimePrekeys _)|].
  split; [exact (scan_perm TEncryptedEnvelopes _)|exact (scan_perm TDeliveryState _)].
Qed.

(** The references of joined rows to their devices. *)
Lemma join_refs {A R} (device : A -> DeviceId) (mk : A -> DeviceRecord -> R) (ref : R -> UserId * DeviceId)
    (old : list A) (devs : list DeviceRecord) rows :
  (∀ a d, ref (mk a d) = (d_user_id d, device a)) -> rows ≡ₚ join_devices device mk old devs ->
  (ref <$> rows) ⊆ (device_key <$> devs).
Proof.
  intros Href Hr k (r & -> & Hin)%list_elem_of_fmap. rewrite Hr in Hin.
  apply elem_of_join_devices in Hin as (a & d & _ & Hd & E & ->). rewrite Href, <- E.
  by apply (list_elem_of_fmap_2 device_key).
Qed.

Lemma join_drop_perm {A R} (device : A -> DeviceId) (mk : A -> DeviceRecord -> R) (drop : R -> A) old devs rows :
  (∀ a d, drop (mk a d) = a) -> NoDup (d_device_id <$> devs) -> (device <$> old) ⊆ (d_device_id <$> devs) ->
  rows ≡ₚ join_devices device mk old devs -> drop <$> rows ≡ₚ old.
Proof. intros Hd Hk Hr ->. by rewrite (join_devices_drop device mk drop). Qed.

(** Columns the migration copies, through the row without its owner. *)
Lemma fmap_drop {A R B} (drop : R -> A) (f : A -> B) (g : R -> B) rows old :
  (∀ r, g r = f (drop r)) -> drop <$> rows ≡ₚ old -> g <$> rows ≡ₚ f <$> old.
Proof.
  intros Hg Hp. rewrite <- Hp, <- list_fmap_compose. by erewrite list_fmap_ext; [|intros i r _; apply Hg].
Qed.

(** C31: The migration of a file of the single-key layout, for a file whose devices
    table already has the columns the copy names ([device_label] and the others added since; a
    file without them is refused, [old_devices_table_refused]), whose keys are unique and
    references resolve, and in which every session belongs to the owner of its device
    (the earlier schema did not enforce that last condition).  The migration succeeds,
    keeps every row (devices and sessions as they are; prekeys, envelopes and delivery
    rows with nothing but the user added), leaves the other tables alone, and yields a
    database that satisfies every constraint of the new schema: in particular each row
    now names the owner of its device.  A database in the new layout is not touched. *)
Theorem migration_keeps_data lg :
  legacy_wf lg -> lg_device_columns lg = true ->
  ∃ db, MigrateDevicesCompositePrimaryKey (SingleKey lg) = Some (CompositeKey db) ∧ db_wf db ∧
    devices db ≡ₚ lg_devices lg ∧ sessions db ≡ₚ lg_sessions lg ∧
    drop_owner_prekey <$> one_time_prekeys db ≡ₚ lg_prekeys lg ∧
    drop_owner_envelope <$> encrypted_envelopes db ≡ₚ lg_envelopes lg ∧
    drop_owner_delivery <$> delivery_state db ≡ₚ lg_delivery lg ∧
    users db = users (lg_rest lg) ∧ conversations db = conversations (lg_rest lg) ∧
    conversation_members db = conversation_members (lg_rest lg) ∧
    channel_subscriptions db = channel_subscriptions (lg_rest lg) ∧
    attachment_metadata db = attachment_metadata (lg_rest lg) ∧ sync_records db = sync_records (lg_rest lg) ∧
    MigrateDevicesCompositePrimaryKey (CompositeKey db) = Some (CompositeKey db).
Proof.
  intros Hwf Hcol. destruct (migration_tables lg Hwf Hcol) as (devs & prekeys & sess & envs & dels & E & Hd & Hs & Hk & He & Hx).
  eexists. split; [exact E|]. simpl.
  assert (Hdk : NoDup (d_device_id <$> devs)) by (rewrite Hd; apply Hwf).
  assert (Hsub : ∀ l, l ⊆ (d_device_id <$> lg_devices lg) -> l ⊆ (d_device_id <$> devs)).
  { intros l Hl x Hin. rewrite Hd. by apply Hl. }
  assert (Hk' : drop_owner_prekey <$> prekeys ≡ₚ lg_prekeys lg)
    by (apply (join_drop_perm lk_device_id add_owner_prekey drop_owner_prekey _ devs);
         [by intros []|exact Hdk|apply Hsub, Hwf|exact Hk]).
  assert (He' : drop_owner_envelope <$> envs ≡ₚ lg_envelopes lg)
    by (apply (join_drop_perm le_sender_device_id add_owner_envelope drop_owner_envelope _ devs);
         [by intros []|exact Hdk|apply Hsub, Hwf|exact He]).
  assert (Hx' : drop_owner_delivery <$> dels ≡ₚ lg_delivery lg)
    by (apply (join_drop_perm ld_target_device_id add_owner_delivery drop_owner_delivery _ devs);
         [by intros []|exact Hdk|apply Hsub, Hwf|exact Hx]).
  split; [|by split_and!].
  destruct Hwf as [[[] [] Hseq] _ _ L2 L3 _ L5 L6 L7 L8 L9 L10 L11 _ L13 L14 _].
  split; [split|split|]; simpl in *; try done.
  - apply (NoDup_fmap_1 snd). by rewrite <- list_fmap_compose.
  - by rewrite (fmap_drop drop_owner_prekey lk_prekey_id k_prekey_id _ _ ltac:(done) Hk').
  - by rewrite Hs.
  - by rewrite Hs.
  - by rewrite Hs.
  - by rewrite (fmap_drop drop_owner_envelope le_envelope_id e_envelope_id _ _ ltac:(done) He').
  - apply (NoDup_fmap_1 (λ k : EnvelopeId * (UserId * DeviceId), (k.1, k.2.2))). rewrite <- list_fmap_compose.
    by rewrite (fmap_drop drop_owner_delivery (λ x, (ld_envelope_id x, ld_target_device_id x)) _ _ _ ltac:(done) Hx').
  - by rewrite Hd.
  - by apply (join_refs lk_device_id add_owner_prekey _ (lg_prekeys lg)).
  - by rewrite Hs.
  - by rewrite Hs, Hd.
  - by rewrite (fmap_drop drop_owner_envelope le_conversation_id e_conversation_id _ _ ltac:(done) He').
  - by apply (join_refs le_sender_device_id add_owner_envelope _ (lg_envelopes lg)).
  - rewrite (fmap_drop drop_owner_delivery ld_envelope_id ds_envelope_id _ _ ltac:(done) Hx').
    by rewrite (fmap_drop drop_owner_envelope le_envelope_id e_envelope_id _ _ ltac:(done) He').
  - by apply (join_refs ld_target_device_id add_owner_delivery _ (lg_delivery lg)).
Qed.
End migration.

(** ** A file of the earlier layout *)

Section witnesses.
#[local] Existing Instance rowid_engine.

Definition sample_legacy (columns : bool) : LegacyStore :=
  mkLegacyStore columns (devices sample_db) [mkLegacyPrekey "k1" "d1" "p1" None]
    [mkSessionRecord "s1" "u2" "d2" "a" "r" 10 20 1 None]
    [mkLegacyEnvelope "e1" "c1" "d1" "ct" 5 0 None None] [mkLegacyDelivery "e1" "d2" 6 None None]
    (set_conversations [mkConversationRow "c1" kDm "u1" 1 "" 0] (set_devices [] sample_db)).

Lemma sample_legacy_wf : legacy_wf (sample_legacy true).
Proof.
  split; simpl; try (by split_and!); apply (bool_decide_unpack _); vm_compute; exact I.
Qed.

Lemma migration_keeps_data_witness :
  ∃ db, MigrateDevicesCompositePrimaryKey (SingleKey (sample_legacy true)) = Some (CompositeKey db) ∧ db_wf db.
Proof.
  destruct (migration_keeps_data (sample_legacy true) sample_legacy_wf eq_refl) as (db & E & Hwf & _).
  exists db. split; [exact E|exact Hwf].
Defined.

(** The owners of the sample rows are found. *)
Example sample_owners :
  match MigrateDevicesCompositePrimaryKey (SingleKey (sample_legacy true)) with
  | Some (CompositeKey db) => (k_user_id <$> one_time_prekeys db, e_sender_user_id <$> encrypted_envelopes db,
                               ds_target_user_id <$> delivery_state db)
  | _ => ([], [], [])
  end = (["u1"], ["u1"], ["u2"]).
Proof. reflexivity. Qed.

(** A devices table from before the label and timestamp columns: the copy names them
    before [MigrateLegacySchema] adds them, so the file is refused. *)
Example old_devices_table_refused :
  MigrateDevicesCompositePrimaryKey (SingleKey (sample_legacy false)) = None.
Proof. reflexivity. Qed.
End witnesses.
