(* ===== verification/Hex.v ===== *)
(** * Bytes and hexadecimal text

    Strings as sequences of 8-bit values, the [{:0<w>x}] formats of fmt the code
    prints numbers with, [std::stoul(.., 16)], and the conversions of
    lib/vox_auth/password_hasher.cpp and lib/vox_common/picosha2.h built on them. *)

From S2P Require Import Prelude.

(** ** Bytes *)

Definition is_byte (b : Z) : Prop := 0 <= b < 256.
#[export] Instance is_byte_dec b : Decision (is_byte b).
Proof. unfold is_byte. apply _. Defined.

Definition byte_of_ascii (c : Ascii.ascii) : Z := Z.of_N (Ascii.N_of_ascii c).
Definition ascii_of_byte (b : Z) : Ascii.ascii := Ascii.ascii_of_N (Z.to_N b).

Fixpoint bytes_of_string (s : string) : list Z :=
  match s with
  | EmptyString => []
  | String c s' => byte_of_ascii c :: bytes_of_string s'
  end.

Fixpoint string_of_bytes (l : list Z) : string :=
  match l with
  | [] => EmptyString
  | b :: l' => String (ascii_of_byte b) (string_of_bytes l')
  end.

Lemma byte_of_ascii_range c : is_byte (byte_of_ascii c).
Proof. unfold is_byte, byte_of_ascii. pose proof (Ascii.N_ascii_bounded c). lia. Qed.

Lemma ascii_of_byte_of_ascii c : ascii_of_byte (byte_of_ascii c) = c.
Proof. unfold ascii_of_byte, byte_of_ascii. rewrite N2Z.id. apply Ascii.ascii_N_embedding. Qed.

Lemma byte_of_ascii_of_byte b : is_byte b -> byte_of_ascii (ascii_of_byte b) = b.
Proof.
  unfold is_byte, ascii_of_byte, byte_of_ascii. intros Hb.
  rewrite Ascii.N_ascii_embedding by lia. lia.
Qed.

Lemma bytes_of_string_range s : Forall is_byte (bytes_of_string s).
Proof. induction s; simpl; constructor; auto using byte_of_ascii_range. Qed.

Lemma string_of_bytes_of_string s : string_of_bytes (bytes_of_string s) = s.
Proof. induction s; simpl; [done|]. by rewrite ascii_of_byte_of_ascii, IHs. Qed.

Lemma bytes_of_string_of_bytes l : Forall is_byte l -> bytes_of_string (string_of_bytes l) = l.
Proof. induction 1; simpl; [done|]. by rewrite byte_of_ascii_of_byte, IHForall. Qed.

Lemma bytes_of_string_app s1 s2 :
  bytes_of_string (s1 +:+ s2) = bytes_of_string s1 ++ bytes_of_string s2.
Proof. induction s1; simpl; [done|]. by rewrite IHs1. Qed.

Lemma length_bytes_of_string s : length (bytes_of_string s) = String.length s.
Proof. induction s; simpl; auto. Qed.

(** ** Printing *)

(** A lower-case hexadecimal digit. *)
Definition hex_digit (d : Z) : Ascii.ascii := ascii_of_byte (if d <? 10 then 48 + d else 87 + d).

(** The [k] low hexadecimal digits of [n], most significant first. *)
Fixpoint hex_fixed (k : nat) (n : Z) : string :=
  match k with
  | O => EmptyString
  | S k' => hex_fixed k' (n / 16) +:+ String (hex_digit (n mod 16)) EmptyString
  end.

(** [fmt::format("{:0<w>x}", n)]: at least [w] digits, more when [n] needs them. *)
Definition fmt_hex (w : nat) (n : Z) : string :=
  hex_fixed (Nat.max w (Z.to_nat (Z.log2 n / 4 + 1))) n.

(** [BytesToHex] and picosha2's [bytes_to_hex_string]: two digits a byte. *)
Definition BytesToHex (bytes : list Z) : string :=
  foldr (λ b s, fmt_hex 2 b +:+ s) EmptyString bytes.

(** ** Parsing *)

Definition hex_value (c : Ascii.ascii) : option Z :=
  let b := byte_of_ascii c in
  if (48 <=? b) && (b <=? 57) then Some (b - 48)
  else if (97 <=? b) && (b <=? 102) then Some (b - 87)
  else if (65 <=? b) && (b <=? 70) then Some (b - 55)
  else None.

(** The longest prefix of hexadecimal digits; [None] when there is none. *)
Fixpoint hex_prefix (s : string) (acc : option Z) : option Z :=
  match s with
  | EmptyString => acc
  | String c s' =>
      match hex_value c with
      | Some d => hex_prefix s' (Some (16 * default 0 acc + d))
      | None => acc
      end
  end.

(** [isspace] in the C locale. *)
Definition is_space (c : Ascii.ascii) : bool :=
  let b := byte_of_ascii c in (b =? 32) || ((9 <=? b) && (b <=? 13)).

Fixpoint skip_space (s : string) : string :=
  match s with
  | String c s' => if is_space c then skip_space s' else s
  | EmptyString => EmptyString
  end.

(** The optional [0x] prefix, skipped when a digit follows it. *)
Definition skip_0x (s : string) : string :=
  match s with
  | String z (String x (String d s')) =>
      if (byte_of_ascii z =? 48) && ((byte_of_ascii x =? 120) || (byte_of_ascii x =? 88))
         && bool_decide (hex_value d ≠ None)
      then String d s' else s
  | _ => s
  end.

(** [std::stoul(s, nullptr, 16)] on strings short enough not to overflow;
    [None] is [std::invalid_argument].  A minus sign negates modulo [2^64]. *)
Definition stoul16 (s : string) : option Z :=
  match skip_space s with
  | String c s' =>
      if byte_of_ascii c =? 45 then (λ v, to_uint64 (- v)) <$> hex_prefix (skip_0x s') None
      else if byte_of_ascii c =? 43 then hex_prefix (skip_0x s') None
      else hex_prefix (skip_0x (String c s')) None
  | EmptyString => None
  end.

(** [HexToBytes]; [None] when [std::stoul] throws. *)
Fixpoint HexToBytes (hex : string) : option (list Z) :=
  match hex with
  | EmptyString => Some []
  | String c1 EmptyString => (λ v, [v mod 256]) <$> stoul16 (String c1 EmptyString)
  | String c1 (String c2 rest) =>
      v ← stoul16 (String c1 (String c2 EmptyString));
      vs ← HexToBytes rest;
      Some (v mod 256 :: vs)
  end.

(** ** Round trips *)

Lemma fmt_hex_fixed w n : 0 <= n < 16 ^ Z.of_nat w -> (0 < w)%nat -> fmt_hex w n = hex_fixed w n.
Proof.
  intros Hn Hw. unfold fmt_hex. f_equal. apply Nat.max_l.
  destruct (decide (n = 0)) as [->|Hne]; [change (Z.to_nat (Z.log2 0 / 4 + 1)) with 1%nat; lia|].
  assert (Z.log2 n < 4 * Z.of_nat w).
  { apply Z.log2_lt_pow2; [lia|]. rewrite Z.pow_mul_r by lia. change (2 ^ 4) with 16. lia. }
  assert (Z.log2 n / 4 < Z.of_nat w) by (apply Z.div_lt_upper_bound; lia).
  pose proof (Z.div_pos (Z.log2 n) 4 (Z.log2_nonneg n) ltac:(lia)). lia.
Qed.

Lemma string_length_app (s t : string) :
  String.length (s +:+ t) = (String.length s + String.length t)%nat.
Proof. induction s; simpl; auto. Qed.

Lemma length_hex_fixed k n : String.length (hex_fixed k n) = k.
Proof.
  revert n. induction k as [|k IH]; intros n; simpl; [done|].
  rewrite string_length_app, IH. simpl. lia.
Qed.

Lemma hex_value_digit d : 0 <= d < 16 -> hex_value (hex_digit d) = Some d.
Proof.
  intros Hd. unfold hex_value, hex_digit.
  destruct (Z.ltb_spec d 10); rewrite byte_of_ascii_of_byte by (unfold is_byte; lia).
  - rewrite !(proj2 (Z.leb_le _ _)) by lia. simpl. f_equal. lia.
  - rewrite (proj2 (Z.leb_gt (87 + d) 57)) by lia. rewrite andb_false_r.
    rewrite !(proj2 (Z.leb_le _ _)) by lia. simpl. f_equal. lia.
Qed.

Lemma hex_digit_inj d1 d2 : 0 <= d1 < 16 -> 0 <= d2 < 16 -> hex_digit d1 = hex_digit d2 -> d1 = d2.
Proof.
  intros H1 H2 E. apply (f_equal hex_value) in E. rewrite !hex_value_digit in E by lia. congruence.
Qed.

Lemma string_app_inj_length (s1 s2 t1 t2 : string) :
  String.length s1 = String.length s2 -> s1 +:+ t1 = s2 +:+ t2 -> s1 = s2 ∧ t1 = t2.
Proof.
  revert s2. induction s1 as [|c s1 IH]; intros [|c' s2]; simpl; try done.
  intros [= El] [= -> E]. destruct (IH s2 El E) as [-> ->]. done.
Qed.

Lemma hex_fixed_inj k n1 n2 :
  hex_fixed k n1 = hex_fixed k n2 <-> n1 mod 16 ^ Z.of_nat k = n2 mod 16 ^ Z.of_nat k.
Proof.
  revert n1 n2. induction k as [|k IH]; intros n1 n2; simpl hex_fixed.
  { by rewrite !Z.mod_1_r. }
  rewrite Nat2Z.inj_succ, Z.pow_succ_r by lia.
  rewrite !(Z.rem_mul_r _ 16) by lia.
  pose proof (Z.mod_pos_bound n1 16). pose proof (Z.mod_pos_bound n2 16). split.
  - intros E. apply string_app_inj_length in E as [E1 E2]; [|by rewrite !length_hex_fixed].
    injection E2 as E2. apply hex_digit_inj in E2; [|lia..]. apply IH in E1. lia.
  - intros E.
    assert (n1 mod 16 = n2 mod 16) as -> by lia.
    rewrite (proj2 (IH (n1 / 16) (n2 / 16))); [done|]. lia.
Qed.

(** A fact about bytes that holds of each of the 256 values. *)
Lemma byte_ind (P : Z -> Prop) `{!∀ b, Decision (P b)} :
  forallb (λ b, bool_decide (P b)) (seqZ 0 256) = true -> ∀ b, is_byte b -> P b.
Proof.
  intros Hall b Hb. rewrite forallb_forall in Hall.
  eapply bool_decide_eq_true_1, Hall, list_elem_of_In, elem_of_seqZ. unfold is_byte in Hb. lia.
Qed.

(** The two digits of a byte, and what [std::stoul] reads back from them. *)
Definition two_digits_of (b : Z) (s : string) : bool :=
  match s with
  | String c1 (String c2 EmptyString) =>
      bool_decide (stoul16 (String c1 (String c2 EmptyString)) = Some b)
  | _ => false
  end.

Lemma fmt_hex_two b : is_byte b -> two_digits_of b (fmt_hex 2 b) = true.
Proof. revert b. by apply (byte_ind (λ b, two_digits_of b (fmt_hex 2 b) = true)); vm_compute. Qed.

Lemma HexToBytes_BytesToHex bytes :
  Forall is_byte bytes -> HexToBytes (BytesToHex bytes) = Some bytes.
Proof.
  induction 1 as [|b bytes Hb _ IH]; [done|].
  change (BytesToHex (b :: bytes)) with (fmt_hex 2 b +:+ BytesToHex bytes).
  pose proof (fmt_hex_two b Hb) as Ht. unfold two_digits_of in Ht.
  destruct (fmt_hex 2 b) as [|c1 [|c2 [|? ?]]]; try done.
  apply bool_decide_eq_true in Ht.
  change (String c1 (String c2 "") +:+ BytesToHex bytes)
    with (String c1 (String c2 (BytesToHex bytes))).
  cbn [HexToBytes]. rewrite Ht. cbn [mbind option_bind]. rewrite IH. cbn.
  by rewrite Z.mod_small.
Qed.

Lemma BytesToHex_inj l1 l2 :
  Forall is_byte l1 -> Forall is_byte l2 -> BytesToHex l1 = BytesToHex l2 -> l1 = l2.
Proof.
  intros H1 H2 E. apply (f_equal HexToBytes) in E. rewrite !HexToBytes_BytesToHex in E by done.
  congruence.
Qed.
