(* ===== verification/Paging.v ===== *)
(** * Decimal numbers, cursors and pages

    [std::stoll] and the stream output of an integer, the pages the list
    operations of lib/vox_store return, and the walk of a client that follows
    their cursors. *)

From S2P Require Import Prelude Sql Hex.

(** ** Decimal text *)

Definition dec_digit (d : Z) : string := String (ascii_of_byte (48 + d)) EmptyString.

(** Twenty digits hold every 64-bit magnitude. *)
Fixpoint print_nonneg (fuel : nat) (n : Z) : string :=
  match fuel with
  | O => EmptyString
  | S fuel' => if n <? 10 then dec_digit n
               else print_nonneg fuel' (n / 10) +:+ dec_digit (n mod 10)
  end.

(** [oss << ts]. *)
Definition print_int64 (n : Z) : string :=
  if n <? 0 then "-" +:+ print_nonneg 20 (- n) else print_nonneg 20 n.

Definition dec_value (c : Ascii.ascii) : option Z :=
  let b := byte_of_ascii c in if (48 <=? b) && (b <=? 57) then Some (b - 48) else None.

(** The longest prefix of digits; [None] when there is none. *)
Fixpoint dec_prefix (s : string) (acc : option Z) : option Z :=
  match s with
  | EmptyString => acc
  | String c s' =>
      match dec_value c with
      | Some d => dec_prefix s' (Some (10 * default 0 acc + d))
      | None => acc
      end
  end.

(** [std::stoll]: leading white space, an optional sign, digits; [None] when it
    throws ([std::invalid_argument] or [std::out_of_range]). *)
Definition stoll (s : string) : option Z :=
  v ← match skip_space s with
      | String c s' =>
          if byte_of_ascii c =? 45 then Z.opp <$> dec_prefix s' None
          else if byte_of_ascii c =? 43 then dec_prefix s' None
          else dec_prefix (String c s') None
      | EmptyString => None
      end;
  if (- 2 ^ 63 <=? v) && (v <? 2 ^ 63) then Some v else None.

Lemma dec_value_digit d : 0 <= d < 10 -> dec_value (ascii_of_byte (48 + d)) = Some d.
Proof.
  intros Hd. unfold dec_value. rewrite byte_of_ascii_of_byte by (unfold is_byte; lia).
  rewrite !(proj2 (Z.leb_le _ _)) by lia. simpl. f_equal. lia.
Qed.

Lemma string_app_assoc (s t u : string) : (s +:+ t) +:+ u = s +:+ (t +:+ u).
Proof. induction s as [|c s IH]; [done|]. exact (f_equal (String c) IH). Qed.

Lemma string_app_nil (s : string) : s +:+ "" = s.
Proof. induction s as [|c s IH]; [done|]. exact (f_equal (String c) IH). Qed.

Lemma dec_prefix_digit d rest acc :
  0 <= d < 10 -> dec_prefix (dec_digit d +:+ rest) acc = dec_prefix rest (Some (10 * default 0 acc + d)).
Proof.
  intros Hd. change (dec_digit d +:+ rest) with (String (ascii_of_byte (48 + d)) rest).
  cbn [dec_prefix]. by rewrite dec_value_digit.
Qed.

(** Reading back what was printed, whatever follows it. *)
Lemma dec_prefix_print fuel n rest :
  0 <= n < 10 ^ Z.of_nat fuel -> (0 < fuel)%nat ->
  ∃ acc', dec_prefix (print_nonneg fuel n +:+ rest) None = dec_prefix rest acc' ∧ acc' = Some n.
Proof.
  revert n rest. induction fuel as [|fuel IH]; intros n rest Hn Hf; [lia|]. cbn [print_nonneg].
  destruct (Z.ltb_spec n 10) as [Hlt|Hge].
  - exists (Some n). split; [|done]. by rewrite dec_prefix_digit by lia.
  - rewrite Nat2Z.inj_succ, Z.pow_succ_r in Hn by lia.
    assert (0 <= n / 10 < 10 ^ Z.of_nat fuel)
      by (split; [apply Z.div_pos|apply Z.div_lt_upper_bound]; lia).
    assert (0 < fuel)%nat.
    { destruct fuel; [|lia]. simpl in Hn. lia. }
    rewrite string_app_assoc. destruct (IH (n / 10) (dec_digit (n mod 10) +:+ rest)) as (acc & E & ->);
      [done..|]. exists (Some n). split; [|done]. rewrite E.
    pose proof (Z.mod_pos_bound n 10 ltac:(lia)). pose proof (Z.div_mod n 10 ltac:(lia)).
    rewrite dec_prefix_digit by lia. do 2 f_equal. unfold default. simpl. lia.
Qed.

(** The first character of a printed number is a digit. *)
Lemma print_nonneg_head fuel n :
  0 <= n < 10 ^ Z.of_nat fuel -> (0 < fuel)%nat ->
  ∃ d s, print_nonneg fuel n = String (ascii_of_byte (48 + d)) s ∧ 0 <= d < 10.
Proof.
  revert n. induction fuel as [|fuel IH]; intros n Hn Hf; [lia|]. cbn [print_nonneg].
  destruct (Z.ltb_spec n 10) as [Hlt|Hge]; [exists n, EmptyString; split; [done|lia]|].
  rewrite Nat2Z.inj_succ, Z.pow_succ_r in Hn by lia.
  destruct (IH (n / 10)) as (d & s & -> & Hd).
  - split; [apply Z.div_pos|apply Z.div_lt_upper_bound]; lia.
  - destruct fuel; [|lia]. simpl in Hn. lia.
  - by eexists d, _.
Qed.

Lemma stoll_print n : in_int64 n -> stoll (print_int64 n) = Some n.
Proof.
  unfold in_int64. intros Hn. unfold stoll, print_int64.
  assert (H20 : 2 ^ 63 < 10 ^ Z.of_nat 20) by done.
  assert (Hr : (- 2 ^ 63 <=? n) && (n <? 2 ^ 63) = true).
  { apply andb_true_iff. split; [apply Z.leb_le|apply Z.ltb_lt]; lia. }
  destruct (Z.ltb_spec n 0) as [Hneg|Hpos].
  - destruct (dec_prefix_print 20 (- n) "") as (acc & E & ->); [lia..|].
    rewrite string_app_nil in E.
    change (skip_space ("-" +:+ print_nonneg 20 (- n))) with (String (ascii_of_byte 45) (print_nonneg 20 (- n))).
    cbv iota. change (byte_of_ascii (ascii_of_byte 45) =? 45) with true. cbv iota.
    rewrite E. cbn -[Z.pow]. rewrite Z.opp_involutive. by rewrite Hr.
  - destruct (dec_prefix_print 20 n "") as (acc & E & ->); [lia..|].
    rewrite string_app_nil in E.
    destruct (print_nonneg_head 20 n) as (d & s & Ep & Hd); [lia..|]. rewrite Ep in *.
    assert (Hb : byte_of_ascii (ascii_of_byte (48 + d)) = 48 + d)
      by (apply byte_of_ascii_of_byte; unfold is_byte; lia).
    cbn [skip_space]. unfold is_space. rewrite Hb.
    rewrite (proj2 (Z.eqb_neq (48 + d) 32)), (proj2 (Z.leb_gt (48 + d) 13)), andb_false_r by lia.
    cbn [orb]. cbv iota. rewrite Hb.
    rewrite (proj2 (Z.eqb_neq (48 + d) 45)), (proj2 (Z.eqb_neq (48 + d) 43)) by lia.
    rewrite E. cbn -[Z.pow]. by rewrite Hr.
Qed.

(** ** Splitting at a separator *)

(** [cursor.find(c)] with [substr] on both sides. *)
Fixpoint split_at_char (c : Ascii.ascii) (s : string) : option (string * string) :=
  match s with
  | EmptyString => None
  | String a s' =>
      if Ascii.eqb a c then Some (EmptyString, s')
      else match split_at_char c s' with
           | Some (l, r) => Some (String a l, r)
           | None => None
           end
  end.

Lemma split_at_first c s t :
  (∀ i, String.get i s ≠ Some c) -> split_at_char c (s +:+ String c t) = Some (s, t).
Proof.
  induction s as [|a s IH]; intros Hno.
  - change ("" +:+ String c t) with (String c t). simpl. by rewrite Ascii.eqb_refl.
  - change (String a s +:+ String c t) with (String a (s +:+ String c t)). simpl.
    destruct (Ascii.eqb_spec a c) as [->|Hne]; [by destruct (Hno 0%nat)|].
    rewrite IH; [done|]. intros i. apply (Hno (S i)).
Qed.

(** No character of a printed number is [|]. *)
Definition no_bar (s : string) : Prop := ∀ i, String.get i s ≠ Some (ascii_of_byte 124).

Lemma no_bar_app s t : no_bar s -> no_bar t -> no_bar (s +:+ t).
Proof.
  intros Hs Ht. induction s as [|a s IH]; [done|].
  intros [|i]; [apply (Hs 0%nat)|]. apply IH. intros j. apply (Hs (S j)).
Qed.

Lemma no_bar_digit d : 0 <= d < 10 -> no_bar (dec_digit d).
Proof.
  intros Hd [|[|i]]; simpl; try done. intros [= E]. apply (f_equal byte_of_ascii) in E.
  rewrite !byte_of_ascii_of_byte in E by (unfold is_byte; lia). lia.
Qed.

Lemma no_bar_print fuel n : 0 <= n -> no_bar (print_nonneg fuel n).
Proof.
  revert n. induction fuel as [|fuel IH]; intros n Hn; [by intros []|]. cbn [print_nonneg].
  destruct (Z.ltb_spec n 10); [apply no_bar_digit; lia|].
  apply no_bar_app; [apply IH, Z.div_pos; lia|]. apply no_bar_digit, Z.mod_pos_bound. lia.
Qed.

Lemma no_bar_print_int64 n : no_bar (print_int64 n).
Proof.
  unfold print_int64. destruct (Z.ltb_spec n 0); [|by apply no_bar_print].
  apply no_bar_app; [by intros [|[]]|apply no_bar_print; lia].
Qed.

Lemma print_int64_nonempty n : in_int64 n -> print_int64 n ≠ EmptyString.
Proof. intros Hn E. pose proof (stoll_print n Hn) as Hs. by rewrite E in Hs. Qed.

(** ** Ordered rows *)

Section ordered.
Context {R K : Type} `{EqDecision K} (key : R -> K) (le : K -> K -> Prop).
Context `{!PartialOrder le, !Total le, !RelDecision le}.

Definition key_le (x y : R) : Prop := le (key x) (key y).
#[export] Instance key_le_dec : RelDecision key_le := λ x y, decide_rel le _ _.

#[local] Instance key_le_trans : Transitive key_le.
Proof. intros x y z. unfold key_le. apply transitivity. Qed.
#[local] Instance key_le_total : Total key_le.
Proof. intros x y. apply (total le). Qed.

(** Rows whose key lies strictly above [k]. *)
Definition above (k : K) (x : R) : Prop := le k (key x) ∧ key x ≠ k.
#[export] Instance above_dec k x : Decision (above k x).
Proof. unfold above. apply _. Defined.

(** [ORDER BY] on a unique key: the result depends on the rows only, not on the
    order they were visited in, and selecting commutes with sorting. *)
Lemma order_by_filter (P : R -> Prop) `{!∀ x, Decision (P x)} (l l' : list R) :
  NoDup (key <$> l) -> l' ≡ₚ filter P l ->
  sql_order_by key_le l' = filter P (sql_order_by key_le l).
Proof.
  intros Hnd Hp. apply (StronglySorted_unique_strong key_le).
  - intros x y Hx Hy Hxy Hyx. apply (NoDup_fmap_inj_on key l); [done| | |by apply (anti_symm le)].
    + unfold sql_order_by in Hx. rewrite (merge_sort_Permutation _ _ : _ ≡ₚ _), Hp in Hx.
      by apply list_elem_of_filter in Hx as [_ ?].
    + apply list_elem_of_filter in Hy as [_ Hy]. unfold sql_order_by in Hy.
      by rewrite (merge_sort_Permutation _ _ : _ ≡ₚ _) in Hy.
  - apply StronglySorted_merge_sort; apply _.
  - unfold sql_order_by. pose proof (StronglySorted_merge_sort key_le l) as Hs.
    induction Hs as [|x t Ht IH Hall]; [constructor|]. rewrite filter_cons.
    case_decide; [|done]. constructor; [done|].
    apply Forall_forall. intros y Hy. apply list_elem_of_filter in Hy as [_ Hy].
    rewrite Forall_forall in Hall. by apply Hall.
  - unfold sql_order_by. rewrite (merge_sort_Permutation _ _ : _ ≡ₚ _), Hp.
    apply filter_Permutation. symmetry. apply merge_sort_Permutation.
Qed.

(** In a sorted list the rows above an element are the ones after it. *)
Lemma filter_above l1 x l2 :
  NoDup (key <$> (l1 ++ x :: l2)) -> StronglySorted key_le (l1 ++ x :: l2) ->
  filter (above (key x)) (l1 ++ x :: l2) = l2.
Proof.
  intros Hnd Hs. rewrite filter_app, filter_cons.
  apply StronglySorted_app in Hs as (H12 & _ & Hxl).
  apply StronglySorted_cons in Hxl as [Hx _]. rewrite Forall_forall in Hx.
  rewrite fmap_app, fmap_cons in Hnd. apply NoDup_app in Hnd as (_ & _ & Hnd).
  apply NoDup_cons in Hnd as [Hxn _].
  rewrite decide_False by (by intros [_ ?]).
  replace (filter (above (key x)) l1) with (@nil R).
  - apply filter_all. intros y Hy. split; [by apply Hx|]. intros E. apply Hxn.
    rewrite <- E. by apply list_elem_of_fmap_2.
  - symmetry. apply filter_nil_iff. intros y Hy [Hle Hne]. apply Hne.
    apply (anti_symm le); [|done]. apply (H12 y x); [done|left].
Qed.

Lemma order_by_sorted l : StronglySorted key_le (sql_order_by key_le l).
Proof. apply StronglySorted_merge_sort; apply _. Qed.

Lemma order_by_perm l : sql_order_by key_le l ≡ₚ l.
Proof. apply merge_sort_Permutation. Qed.
End ordered.

(** ** Pages *)

Record Page (R : Type) := mkPage {
  pg_items : list R;
  pg_next_cursor : string;
  pg_has_more : bool }.
Arguments mkPage {R}. Arguments pg_items {R}. Arguments pg_next_cursor {R}. Arguments pg_has_more {R}.

(** A client that follows the cursors: the rows of all pages, in order. *)
Fixpoint walk {R} (fuel : nat) (page : string -> Page R) (cursor : string) : list R :=
  match fuel with
  | O => []
  | S fuel' =>
      let p := page cursor in
      pg_items p ++ if pg_has_more p then walk fuel' page (pg_next_cursor p) else []
  end.

(** If each cursor stands for a rest of the rows, pages cut that rest, and the next
    cursor stands for what remains, then the walk returns the rest. *)
Lemma walk_rest {R} (page : string -> Page R) (denotes : string -> list R -> Prop) :
  (∀ c rest, denotes c rest -> ∃ n, (0 < n)%nat ∧
     pg_items (page c) = take n rest ∧ pg_has_more (page c) = bool_decide (n < length rest)%nat ∧
     ((n < length rest)%nat -> denotes (pg_next_cursor (page c)) (drop n rest))) ->
  ∀ fuel c rest, denotes c rest -> (length rest < fuel)%nat -> walk fuel page c = rest.
Proof.
  intros Hpage. induction fuel as [|fuel IH]; intros c rest Hc Hf; [lia|]. simpl.
  destruct (Hpage c rest Hc) as (n & Hn & -> & -> & Hnext).
  destruct (decide (n < length rest)%nat) as [Hlt|Hge].
  - rewrite bool_decide_true by done. rewrite (IH _ (drop n rest)); [apply take_drop|by apply Hnext|].
    rewrite length_drop. lia.
  - rewrite bool_decide_false by done. rewrite app_nil_r. apply take_ge. lia.
Qed.

(** The page sizes with which the listings make progress: every [std::size_t] but zero
    and the largest one, to which one cannot be added. *)
Definition page_size (limit : Z) : Prop := 0 < limit < 2 ^ 64 - 1.

(** A query with [LIMIT limit + 1] returns one row more than fits, or all of them: the
    conversion of a size above the signed range gives a negative number, which is no
    limit. *)
Lemma sql_limit_succ {R} limit (rows : list R) :
  page_size limit ->
  sql_limit (to_int64 (u64_add limit 1)) rows = take (S (Z.to_nat limit)) rows ∨
  sql_limit (to_int64 (u64_add limit 1)) rows = rows.
Proof.
  intros Hl. unfold page_size in Hl. unfold u64_add. rewrite to_uint64_id by (unfold in_uint64; lia).
  unfold sql_limit. destruct (Z.ltb_spec (to_int64 (limit + 1)) 0) as [|Hpos]; [by right|]. cbn [orb]. left.
  assert (limit < 2 ^ 63 - 1) as Hs.
  { apply Z.nle_gt. intros Hge. revert Hpos. unfold to_int64, wrap_s. rewrite Z.mod_small by lia.
    destruct (Z.ltb_spec (limit + 1) (2 ^ (64 - 1))); lia. }
  rewrite to_int64_id by (unfold in_int64; lia).
  destruct (Z.leb_spec (Z.of_nat (length rows)) (limit + 1)).
  - by rewrite take_ge by lia.
  - f_equal. lia.
Qed.

(** The page that is made of those rows: at least one row when there is one, and a flag
    that tells whether rows are left. *)
Lemma cut_page {R} limit (rows : list R) :
  page_size limit ->
  let got := sql_limit (to_int64 (u64_add limit 1)) rows in
  let has_more := limit <? Z.of_nat (length got) in
  let kept := if has_more then removelast got else got in
  ∃ n, (0 < n)%nat ∧ kept = take n rows ∧ has_more = bool_decide (n < length rows)%nat ∧
  ((n < length rows)%nat -> ∃ l1 x, rows = l1 ++ x :: drop n rows ∧ last kept = Some x).
Proof.
  intros Hl. cbv zeta. unfold page_size in Hl.
  assert (Hcut : ∀ n got, (0 < n)%nat -> (n < length rows)%nat -> got = take n rows ->
    (n < length rows)%nat -> ∃ l1 x, rows = l1 ++ x :: drop n rows ∧ last got = Some x).
  { intros n got Hn Hlt -> _. destruct (last_take_split rows n) as (l1 & x & E1 & E); [lia..|]. by exists l1, x. }
  destruct (sql_limit_succ limit rows Hl) as [-> | ->].
  - exists (Z.to_nat limit). split; [lia|]. rewrite length_take.
    destruct (Z.ltb_spec limit (Z.of_nat (S (Z.to_nat limit) `min` length rows))) as [Hlt|Hge].
    + rewrite removelast_take by lia. split; [done|]. split; [by rewrite bool_decide_true by lia|].
      apply Hcut; [lia|lia|done].
    + rewrite !take_ge by lia. split; [done|]. split; [by rewrite bool_decide_false by lia|lia].
  - destruct (Z.ltb_spec limit (Z.of_nat (length rows))) as [Hlt|Hge].
    + exists (pred (length rows)). split; [lia|].
      assert (E : removelast rows = take (pred (length rows)) rows).
      { rewrite <- removelast_take by lia. by rewrite take_ge by lia. }
      split; [done|]. split; [by rewrite bool_decide_true by lia|]. apply Hcut; [lia|lia|done].
    + exists (Z.to_nat limit). split; [lia|]. rewrite take_ge by lia. split; [done|].
      split; [by rewrite bool_decide_false by lia|lia].
Qed.
