(* ===== verification/Config.v ===== *)
(** * Configuration (lib/vox_common/config.{hpp,cpp})

    [ServerConfig] with its defaults, the reader of [key = value] files, and what a file
    does to each member.  A
    function with an out-parameter returns its final value too, since some of them
    assign it before they fail. *)

From S2P Require Import Prelude Types Hex Paging.

Record ServerConfig := mkServerConfig {
  cf_cpu_pool_size : Z;
  cf_storage_pool_size : Z;
  cf_task_queue_capacity : Z;
  cf_db_path : string;
  cf_blob_storage_path : string;
  cf_listen_address : string;
  cf_listen_port : Z;
  cf_network_thread_count : Z;
  cf_session_token_pepper : string;
  cf_admin_token : string;
  cf_max_group_size : Z;
  cf_max_channel_size : Z;
  cf_max_queue_depth_per_device : Z;
  cf_max_ws_outbound_queue : Z;
  cf_max_upload_size_bytes : Z;
  cf_max_storage_per_user_bytes : Z;
  cf_max_http_body_bytes : Z;
  cf_auth_rate_limit_max : Z;
  cf_auth_rate_limit_window_seconds : Z;
  cf_account_rate_limit_max : Z;
  cf_account_rate_limit_window_seconds : Z;
  cf_maintenance_purge_interval_seconds : Z;
  cf_access_token_lifetime_seconds : Z;
  cf_refresh_token_lifetime_seconds : Z;
  cf_message_retention_seconds : Z;
  cf_attachment_retention_seconds : Z;
  cf_argon2_time_cost : Z;
  cf_argon2_memory_cost : Z;
  cf_argon2_parallelism : Z }.

(** [ServerConfig::Default]. *)
Definition Default : ServerConfig := mkServerConfig
  2 2 1024 "vox_server.db" "blobs" "127.0.0.1" 8080 4 EmptyString EmptyString 256 10000 
  1000 256 (100 * 1024 * 1024) (1024 * 1024 * 1024) (2 * 1024 * 1024) 60 60 0 60 3600 
  (15 * 60) (30 * 86400) (90 * 86400) (90 * 86400) 3 65536 1.

(** [c.f = v]: the record rebuilt with the occurrence of [f c] replaced. *)
Ltac assign f v c :=
  lazymatch constr:(mkServerConfig
      (cf_cpu_pool_size c) (cf_storage_pool_size c) (cf_task_queue_capacity c) (cf_db_path c)
      (cf_blob_storage_path c) (cf_listen_address c) (cf_listen_port c)
      (cf_network_thread_count c) (cf_session_token_pepper c) (cf_admin_token c)
      (cf_max_group_size c) (cf_max_channel_size c) (cf_max_queue_depth_per_device c)
      (cf_max_ws_outbound_queue c) (cf_max_upload_size_bytes c)
      (cf_max_storage_per_user_bytes c) (cf_max_http_body_bytes c) (cf_auth_rate_limit_max c)
      (cf_auth_rate_limit_window_seconds c) (cf_account_rate_limit_max c)
      (cf_account_rate_limit_window_seconds c) (cf_maintenance_purge_interval_seconds c)
      (cf_access_token_lifetime_seconds c) (cf_refresh_token_lifetime_seconds c)
      (cf_message_retention_seconds c) (cf_attachment_retention_seconds c)
      (cf_argon2_time_cost c) (cf_argon2_memory_cost c) (cf_argon2_parallelism c)) with
  | context C [f c] => let t := context C [v] in exact t
  end.

Definition set_cpu_pool_size (v : Z) (c : ServerConfig) : ServerConfig :=
  ltac:(assign cf_cpu_pool_size v c).
Definition set_storage_pool_size (v : Z) (c : ServerConfig) : ServerConfig :=
  ltac:(assign cf_storage_pool_size v c).
Definition set_task_queue_capacity (v : Z) (c : ServerConfig) : ServerConfig :=
  ltac:(assign cf_task_queue_capacity v c).
Definition set_db_path (v : string) (c : ServerConfig) : ServerConfig :=
  ltac:(assign cf_db_path v c).
Definition set_blob_storage_path (v : string) (c : ServerConfig) : ServerConfig :=
  ltac:(assign cf_blob_storage_path v c).
Definition set_listen_address (v : string) (c : ServerConfig) : ServerConfig :=
  ltac:(assign cf_listen_address v c).
Definition set_listen_port (v : Z) (c : ServerConfig) : ServerConfig :=
  ltac:(assign cf_listen_port v c).
Definition set_network_thread_count (v : Z) (c : ServerConfig) : ServerConfig :=
  ltac:(assign cf_network_thread_count v c).
Definition set_session_token_pepper (v : string) (c : ServerConfig) : ServerConfig :=
  ltac:(assign cf_session_token_pepper v c).
Definition set_admin_token (v : string) (c : ServerConfig) : ServerConfig :=
  ltac:(assign cf_admin_token v c).
Definition set_max_group_size (v : Z) (c : ServerConfig) : ServerConfig :=
  ltac:(assign cf_max_group_size v c).
Definition set_max_channel_size (v : Z) (c : ServerConfig) : ServerConfig :=
  ltac:(assign cf_max_channel_size v c).
Definition set_max_queue_depth_per_device (v : Z) (c : ServerConfig) : ServerConfig :=
  ltac:(assign cf_max_queue_depth_per_device v c).
Definition set_max_ws_outbound_queue (v : Z) (c : ServerConfig) : ServerConfig :=
  ltac:(assign cf_max_ws_outbound_queue v c).
Definition set_max_upload_size_bytes (v : Z) (c : ServerConfig) : ServerConfig :=
  ltac:(assign cf_max_upload_size_bytes v c).
Definition set_max_storage_per_user_bytes (v : Z) (c : ServerConfig) : ServerConfig :=
  ltac:(assign cf_max_storage_per_user_bytes v c).
Definition set_max_http_body_bytes (v : Z) (c : ServerConfig) : ServerConfig :=
  ltac:(assign cf_max_http_body_bytes v c).
Definition set_auth_rate_limit_max (v : Z) (c : ServerConfig) : ServerConfig :=
  ltac:(assign cf_auth_rate_limit_max v c).
Definition set_auth_rate_limit_window_seconds (v : Z) (c : ServerConfig) : ServerConfig :=
  ltac:(assign cf_auth_rate_limit_window_seconds v c).
Definition set_account_rate_limit_max (v : Z) (c : ServerConfig) : ServerConfig :=
  ltac:(assign cf_account_rate_limit_max v c).
Definition set_account_rate_limit_window_seconds (v : Z) (c : ServerConfig) : ServerConfig :=
  ltac:(assign cf_account_rate_limit_window_seconds v c).
Definition set_maintenance_purge_interval_seconds (v : Z) (c : ServerConfig) : ServerConfig :=
  ltac:(assign cf_maintenance_purge_interval_seconds v c).
Definition set_access_token_lifetime_seconds (v : Z) (c : ServerConfig) : ServerConfig :=
  ltac:(assign cf_access_token_lifetime_seconds v c).
Definition set_refresh_token_lifetime_seconds (v : Z) (c : ServerConfig) : ServerConfig :=
  ltac:(assign cf_refresh_token_lifetime_seconds v c).
Definition set_message_retention_seconds (v : Z) (c : ServerConfig) : ServerConfig :=
  ltac:(assign cf_message_retention_seconds v c).
Definition set_attachment_retention_seconds (v : Z) (c : ServerConfig) : ServerConfig :=
  ltac:(assign cf_attachment_retention_seconds v c).
Definition set_argon2_time_cost (v : Z) (c : ServerConfig) : ServerConfig :=
  ltac:(assign cf_argon2_time_cost v c).
Definition set_argon2_memory_cost (v : Z) (c : ServerConfig) : ServerConfig :=
  ltac:(assign cf_argon2_memory_cost v c).
Definition set_argon2_parallelism (v : Z) (c : ServerConfig) : ServerConfig :=
  ltac:(assign cf_argon2_parallelism v c).

(** ** Reading values *)

(** The second loop of [TrimInPlace]. *)
Fixpoint trim_back (s : string) : string :=
  match s with
  | EmptyString => EmptyString
  | String c s' =>
      match trim_back s' with
      | EmptyString => if is_space c then EmptyString else String c EmptyString
      | t => String c t
      end
  end.

Definition TrimInPlace (s : string) : string := trim_back (skip_space s).

Definition quote : Ascii.ascii := ascii_of_byte 34.

(** The text between a leading and a trailing quote. *)
Fixpoint strip_last_quote (s : string) : option string :=
  match s with
  | EmptyString => None
  | String c EmptyString => if Ascii.eqb c quote then Some EmptyString else None
  | String c s' => String c <$> strip_last_quote s'
  end.

Definition ParseStringValue (v : string) : string :=
  let s := TrimInPlace v in
  match s with
  | String c s' => if Ascii.eqb c quote then default s (strip_last_quote s') else s
  | EmptyString => s
  end.

(** The digits [std::from_chars] consumes and what is left. *)
Fixpoint dec_scan (s : string) (acc : option Z) : option Z * string :=
  match s with
  | EmptyString => (acc, EmptyString)
  | String c s' =>
      match dec_value c with
      | Some d => dec_scan s' (Some (10 * default 0 acc + d))
      | None => (acc, s)
      end
  end.

(** [std::from_chars] for [std::uint64_t]: the value and the rest of the text, [None]
    when [ec] is set (no digits, or out of range) and the target is left alone. *)
Definition from_chars_u64 (s : string) : option (Z * string) :=
  match dec_scan s None with
  | (Some v, rest) => if v <? 2 ^ 64 then Some (v, rest) else None
  | (None, _) => None
  end.

(** ... and for [std::int64_t], which takes a minus sign but no plus sign. *)
Definition from_chars_i64 (s : string) : option (Z * string) :=
  let '(neg, s') := match s with
                    | String c s' => if Ascii.eqb c (ascii_of_byte 45) then (true, s') else (false, s)
                    | EmptyString => (false, s)
                    end in
  match dec_scan s' None with
  | (Some v, rest) =>
      let v := if neg : bool then - v else v in
      if (- 2 ^ 63 <=? v) && (v <? 2 ^ 63) then Some (v, rest) else None
  | (None, _) => None
  end.

(** The result: [out], and the message when [false] is returned. *)
Definition ParseUInt64 (s : string) (out : Z) : Z * option string :=
  let buf := TrimInPlace s in
  if buf =s? "" then (out, Some "empty value") else
  match from_chars_u64 buf with
  | None => (out, Some "invalid unsigned integer")
  | Some (v, rest) => (v, if rest =s? "" then None else Some "invalid unsigned integer")
  end.

Definition ParseInt64 (s : string) (out : Z) : Z * option string :=
  let buf := TrimInPlace s in
  if buf =s? "" then (out, Some "empty value") else
  match from_chars_i64 buf with
  | None => (out, Some "invalid integer")
  | Some (v, rest) => (v, if rest =s? "" then None else Some "invalid integer")
  end.

(** ** Assigning a key *)

(** The lambdas of [ApplyKey]: they assign the member [set] writes.  [std::size_t]
    has 64 bits, so the range check of [u64] never fails. *)
Definition u64 (value : string) (set : Z -> ServerConfig -> ServerConfig) (c : ServerConfig)
    : ServerConfig * option string :=
  match ParseUInt64 value 0 with
  | (_, Some e) => (c, Some e)
  | (v, None) => if 2 ^ 64 - 1 <? v then (c, Some "value out of range") else (set v c, None)
  end.

Definition u64_u32 (value : string) (set : Z -> ServerConfig -> ServerConfig) (c : ServerConfig)
    : ServerConfig * option string :=
  match ParseUInt64 value 0 with
  | (_, Some e) => (c, Some e)
  | (v, None) => if 2 ^ 32 - 1 <? v then (c, Some "value out of range") else (set v c, None)
  end.

Definition i64 (value : string) (get : ServerConfig -> Z) (set : Z -> ServerConfig -> ServerConfig)
    (c : ServerConfig) : ServerConfig * option string :=
  let '(v, e) := ParseInt64 value (get c) in (set v c, e).

Definition str (value : string) (set : string -> ServerConfig -> ServerConfig) (c : ServerConfig)
    : ServerConfig * option string :=
  (set (ParseStringValue value) c, None).

Definition kMaxListenPort : Z := 2 ^ 16 - 1.

Definition port (value : string) (c : ServerConfig) : ServerConfig * option string :=
  match ParseUInt64 value 0 with
  | (v, None) =>
      if kMaxListenPort <? v then (c, Some "listen_port must fit uint16_t") else (set_listen_port v c, None)
  | (_, Some _) => (c, Some "listen_port must fit uint16_t")
  end.

(** The configuration afterwards and the message when [false] is returned; a key
    the server does not know is ignored. *)
Definition ApplyKey (key value : string) (c : ServerConfig) : ServerConfig * option string :=
  if key =s? "cpu_pool_size" then u64 value set_cpu_pool_size c else
  if key =s? "storage_pool_size" then u64 value set_storage_pool_size c else
  if key =s? "task_queue_capacity" then u64 value set_task_queue_capacity c else
  if key =s? "db_path" then str value set_db_path c else
  if key =s? "blob_storage_path" then str value set_blob_storage_path c else
  if key =s? "listen_address" then str value set_listen_address c else
  if key =s? "listen_port" then port value c else
  if key =s? "network_thread_count" then u64 value set_network_thread_count c else
  if key =s? "session_token_pepper" then str value set_session_token_pepper c else
  if key =s? "admin_token" then str value set_admin_token c else
  if key =s? "max_group_size" then u64 value set_max_group_size c else
  if key =s? "max_channel_size" then u64 value set_max_channel_size c else
  if key =s? "max_queue_depth_per_device" then u64 value set_max_queue_depth_per_device c else
  if key =s? "max_ws_outbound_queue" then u64 value set_max_ws_outbound_queue c else
  if key =s? "max_upload_size_bytes" then u64 value set_max_upload_size_bytes c else
  if key =s? "max_storage_per_user_bytes" then u64 value set_max_storage_per_user_bytes c else
  if key =s? "max_http_body_bytes" then u64 value set_max_http_body_bytes c else
  if key =s? "auth_rate_limit_max" then u64 value set_auth_rate_limit_max c else
  if key =s? "auth_rate_limit_window_seconds" then
    i64 value cf_auth_rate_limit_window_seconds set_auth_rate_limit_window_seconds c
  else
  if key =s? "account_rate_limit_max" then u64 value set_account_rate_limit_max c else
  if key =s? "account_rate_limit_window_seconds" then
    i64 value cf_account_rate_limit_window_seconds set_account_rate_limit_window_seconds c
  else
  if key =s? "maintenance_purge_interval_seconds" then
    i64 value cf_maintenance_purge_interval_seconds set_maintenance_purge_interval_seconds c
  else
  if key =s? "access_token_lifetime_seconds" then
    i64 value cf_access_token_lifetime_seconds set_access_token_lifetime_seconds c
  else
  if key =s? "refresh_token_lifetime_seconds" then
    i64 value cf_refresh_token_lifetime_seconds set_refresh_token_lifetime_seconds c
  else
  if key =s? "message_retention_seconds" then
    i64 value cf_message_retention_seconds set_message_retention_seconds c
  else
  if key =s? "attachment_retention_seconds" then
    i64 value cf_attachment_retention_seconds set_attachment_retention_seconds c
  else
  if key =s? "argon2_time_cost" then u64_u32 value set_argon2_time_cost c else
  if key =s? "argon2_memory_cost" then u64_u32 value set_argon2_memory_cost c else
  if key =s? "argon2_parallelism" then u64_u32 value set_argon2_parallelism c else
  (c, None).

(** ** Reading a file *)

Definition newline : Ascii.ascii := ascii_of_byte 10.

(** What successive [std::getline] calls read: a last line without a newline counts
    unless it is empty. *)
Fixpoint getlines (s : string) : list string :=
  match s with
  | EmptyString => []
  | String c s' =>
      if Ascii.eqb c newline then EmptyString :: getlines s'
      else match getlines s' with
           | [] => [String c EmptyString]
           | l :: ls => String c l :: ls
           end
  end.

(** The text before the first [#]. *)
Definition strip_comment (line : string) : string :=
  match split_at_char (ascii_of_byte 35) line with Some (l, _) => l | None => line end.

(** One turn of the loop. *)
Definition load_line (line_no : Z) (line : string) (config : ServerConfig)
    : ServerConfig * option string :=
  let line := TrimInPlace (strip_comment line) in
  if line =s? "" then (config, None) else
  match split_at_char (ascii_of_byte 61) line with
  | None => (config, Some ("line " +:+ print_nonneg 20 line_no +:+ ": expected key = value"))
  | Some (key, value) =>
      let key := TrimInPlace key in
      let value := TrimInPlace value in
      if key =s? "" then (config, Some ("line " +:+ print_nonneg 20 line_no +:+ ": empty key")) else
      match ApplyKey key value config with
      | (config', Some err) =>
          (config', Some ("line " +:+ print_nonneg 20 line_no +:+ " (" +:+ key +:+ "): " +:+ err))
      | (config', None) => (config', None)
      end
  end.

Fixpoint load_lines (line_no : Z) (lines : list string) (config : ServerConfig)
    : ServerConfig * option string :=
  match lines with
  | [] => (config, None)
  | line :: lines' =>
      match load_line (u64_add line_no 1) line config with
      | (config', None) => load_lines (u64_add line_no 1) lines' config'
      | (config', Some e) => (config', Some e)
      end
  end.

(** [content] is [None] when the file cannot be opened. *)
Definition LoadServerConfigFile (content : option string) (config : ServerConfig)
    : ServerConfig * option string :=
  match content with
  | None => (config, Some "cannot open file")
  | Some text => load_lines 0 (getlines text) config
  end.

(** ** Ranges *)

Definition in_uint32 (z : Z) : Prop := 0 <= z < 2 ^ 32.
Definition in_uint16 (z : Z) : Prop := 0 <= z < 2 ^ 16.

(** Every member is a value of its C++ type. *)
Definition config_typed (c : ServerConfig) : Prop :=
  in_uint64 (cf_cpu_pool_size c) ∧
  in_uint64 (cf_storage_pool_size c) ∧
  in_uint64 (cf_task_queue_capacity c) ∧
  in_uint16 (cf_listen_port c) ∧
  in_uint64 (cf_network_thread_count c) ∧
  in_uint64 (cf_max_group_size c) ∧
  in_uint64 (cf_max_channel_size c) ∧
  in_uint64 (cf_max_queue_depth_per_device c) ∧
  in_uint64 (cf_max_ws_outbound_queue c) ∧
  in_uint64 (cf_max_upload_size_bytes c) ∧
  in_uint64 (cf_max_storage_per_user_bytes c) ∧
  in_uint64 (cf_max_http_body_bytes c) ∧
  in_uint64 (cf_auth_rate_limit_max c) ∧
  in_int64 (cf_auth_rate_limit_window_seconds c) ∧
  in_uint64 (cf_account_rate_limit_max c) ∧
  in_int64 (cf_account_rate_limit_window_seconds c) ∧
  in_int64 (cf_maintenance_purge_interval_seconds c) ∧
  in_int64 (cf_access_token_lifetime_seconds c) ∧
  in_int64 (cf_refresh_token_lifetime_seconds c) ∧
  in_int64 (cf_message_retention_seconds c) ∧
  in_int64 (cf_attachment_retention_seconds c) ∧
  in_uint32 (cf_argon2_time_cost c) ∧
  in_uint32 (cf_argon2_memory_cost c) ∧
  in_uint32 (cf_argon2_parallelism c).

(** ** What a file says *)

(** The key and the value a line sets; [None] for a blank line and a comment. *)
Definition line_setting (line : string) : option (string * string) :=
  '(key, value) ← split_at_char (ascii_of_byte 61) (TrimInPlace (strip_comment line));
  Some (TrimInPlace key, TrimInPlace value).

(** The last value a list of settings gives a name. *)
Definition last_named (name : string) (kvs : list (string * string)) : option string :=
  snd <$> last (filter (λ kv, kv.1 = name) kvs).

Definition file_value (key text : string) : option string :=
  last_named key (omap line_setting (getlines text)).

(** A numeral: one or more decimal digits, and their value. *)
Fixpoint decimal_from (acc : Z) (s : string) : option Z :=
  match s with
  | EmptyString => Some acc
  | String c s' => d ← dec_value c; decimal_from (10 * acc + d) s'
  end.

Definition decimal (s : string) : option Z := if s =s? "" then None else decimal_from 0 s.

Inductive width := UInt (bits : Z) | Int64.

(** The number a value denotes, when it fits the width. *)
Definition number (w : width) (value : string) : option Z :=
  let s := TrimInPlace value in
  match w with
  | UInt bits => n ← decimal s; if n <? 2 ^ bits then Some n else None
  | Int64 =>
      match s with
      | String c s' =>
          if Ascii.eqb c (ascii_of_byte 45)
          then n ← decimal s'; if n <=? 2 ^ 63 then Some (- n) else None
          else n ← decimal s; if n <? 2 ^ 63 then Some n else None
      | EmptyString => None
      end
  end.

(** The members with a number, by key, and the ones with a text. *)
Definition number_members : list (string * width * (ServerConfig -> Z)) :=
  [("cpu_pool_size", UInt 64, cf_cpu_pool_size);
   ("storage_pool_size", UInt 64, cf_storage_pool_size);
   ("task_queue_capacity", UInt 64, cf_task_queue_capacity);
   ("listen_port", UInt 16, cf_listen_port);
   ("network_thread_count", UInt 64, cf_network_thread_count);
   ("max_group_size", UInt 64, cf_max_group_size);
   ("max_channel_size", UInt 64, cf_max_channel_size);
   ("max_queue_depth_per_device", UInt 64, cf_max_queue_depth_per_device);
   ("max_ws_outbound_queue", UInt 64, cf_max_ws_outbound_queue);
   ("max_upload_size_bytes", UInt 64, cf_max_upload_size_bytes);
   ("max_storage_per_user_bytes", UInt 64, cf_max_storage_per_user_bytes);
   ("max_http_body_bytes", UInt 64, cf_max_http_body_bytes);
   ("auth_rate_limit_max", UInt 64, cf_auth_rate_limit_max);
   ("auth_rate_limit_window_seconds", Int64, cf_auth_rate_limit_window_seconds);
   ("account_rate_limit_max", UInt 64, cf_account_rate_limit_max);
   ("account_rate_limit_window_seconds", Int64, cf_account_rate_limit_window_seconds);
   ("maintenance_purge_interval_seconds", Int64, cf_maintenance_purge_interval_seconds);
   ("access_token_lifetime_seconds", Int64, cf_access_token_lifetime_seconds);
   ("refresh_token_lifetime_seconds", Int64, cf_refresh_token_lifetime_seconds);
   ("message_retention_seconds", Int64, cf_message_retention_seconds);
   ("attachment_retention_seconds", Int64, cf_attachment_retention_seconds);
   ("argon2_time_cost", UInt 32, cf_argon2_time_cost);
   ("argon2_memory_cost", UInt 32, cf_argon2_memory_cost);
   ("argon2_parallelism", UInt 32, cf_argon2_parallelism)].

Definition text_members : list (string * (ServerConfig -> string)) :=
  [("db_path", cf_db_path); ("blob_storage_path", cf_blob_storage_path);
   ("listen_address", cf_listen_address); ("session_token_pepper", cf_session_token_pepper);
   ("admin_token", cf_admin_token)].

(** A line the loader takes: blank, a comment, or [key = value] where the value of a
    number's key is a numeral that fits. *)
Definition acceptable (line : string) : Prop :=
  TrimInPlace (strip_comment line) = "" ∨
  ∃ key value, line_setting line = Some (key, value) ∧ key ≠ "" ∧
    ∀ w get, (key, w, get) ∈ number_members -> is_Some (number w value).

Definition quoted_value (s : string) : string := String quote (s +:+ String quote EmptyString).

(** A text without a comment sign and without a line break. *)
Definition clean (s : string) : Prop :=
  contains_char (ascii_of_byte 35) s = false ∧ contains_char newline s = false.

(** ** Text lemmas *)

Lemma contains_char_app c s t : contains_char c (s +:+ t) = contains_char c s || contains_char c t.
Proof.
  induction s as [|a s IH]; [done|]. change (String a s +:+ t) with (String a (s +:+ t)).
  cbn [contains_char]. by rewrite IH, orb_assoc.
Qed.

Lemma split_at_char_here c s t :
  contains_char c s = false -> split_at_char c (s +:+ String c t) = Some (s, t).
Proof.
  intros Hs. apply split_at_first. revert Hs. induction s as [|a s IH]; [by intros _ []|].
  cbn [contains_char]. intros [Ha Hs]%orb_false_iff [|i].
  - intros [= ->]. by rewrite Ascii.eqb_refl in Ha.
  - apply (IH Hs).
Qed.

Lemma split_at_char_none c s : contains_char c s = false -> split_at_char c s = None.
Proof.
  induction s as [|a s IH]; [done|]. cbn [contains_char split_at_char].
  intros [Ha Hs]%orb_false_iff. rewrite Ascii.eqb_sym, Ha. by rewrite IH.
Qed.

(** A text [TrimInPlace] leaves alone. *)
Definition tight (s : string) : Prop := s ≠ EmptyString ∧ skip_space s = s ∧ trim_back s = s.

Lemma tight_trim s : tight s -> TrimInPlace s = s.
Proof. unfold TrimInPlace. by intros (_ & -> & ->). Qed.

Lemma trim_back_app s t : trim_back t ≠ EmptyString -> trim_back (s +:+ t) = s +:+ trim_back t.
Proof.
  intros Ht. induction s as [|a s IH]; [done|]. change (String a s +:+ t) with (String a (s +:+ t)).
  cbn [trim_back]. rewrite IH. destruct s as [|b s]; [by destruct (trim_back t)|done].
Qed.

Lemma trim_back_app_space s t : trim_back t = EmptyString -> trim_back (s +:+ t) = trim_back s.
Proof.
  intros Ht. induction s as [|a s IH]; [done|]. change (String a s +:+ t) with (String a (s +:+ t)).
  cbn [trim_back]. by rewrite IH.
Qed.

Lemma skip_space_app s t : s ≠ EmptyString -> skip_space s = s -> skip_space (s +:+ t) = s +:+ t.
Proof.
  destruct s as [|a s]; [done|]. intros _. change (String a s +:+ t) with (String a (s +:+ t)).
  cbn [skip_space]. destruct (is_space a) eqn:Ea; [|done]. intros E. exfalso.
  assert (Hl : (String.length (skip_space s) <= String.length s)%nat).
  { clear. induction s as [|b s IH]; [done|]. cbn [skip_space]. destruct (is_space b); simpl in *; lia. }
  rewrite E in Hl. simpl in Hl. lia.
Qed.

(** [key = value] on a line is read as that key and that value. *)
Lemma line_setting_key_value k v :
  tight k -> tight v -> clean k -> contains_char (ascii_of_byte 61) k = false -> clean v ->
  line_setting (k +:+ " = " +:+ v) = Some (k, v).
Proof.
  intros Hk Hv [Hk1 _] Hk3 [Hv1 _]. unfold line_setting.
  assert (Hc : strip_comment (k +:+ " = " +:+ v) = k +:+ " = " +:+ v).
  { unfold strip_comment. rewrite split_at_char_none; [done|]. by rewrite !contains_char_app, Hk1, Hv1. }
  rewrite Hc. pose proof Hk as (Hk4 & Hk5 & Hk6). pose proof Hv as (Hv4 & Hv5 & Hv6).
  assert (Ht : TrimInPlace (k +:+ " = " +:+ v) = (k +:+ " ") +:+ String (ascii_of_byte 61) (" " +:+ v)).
  { unfold TrimInPlace. rewrite skip_space_app by done. rewrite <- string_app_assoc.
    rewrite trim_back_app by (by rewrite Hv6). rewrite Hv6, !string_app_assoc. done. }
  rewrite Ht, split_at_char_here by (by rewrite contains_char_app, Hk3). cbn [mbind option_bind].
  assert (Ek : TrimInPlace (k +:+ " ") = k).
  { unfold TrimInPlace. rewrite skip_space_app by done. by rewrite trim_back_app_space. }
  assert (Ev : TrimInPlace (" " +:+ v) = v) by (rewrite <- (tight_trim v Hv) at 2; done).
  by rewrite Ek, Ev.
Qed.

Lemma getlines_line l rest :
  contains_char newline l = false -> getlines (l +:+ String newline rest) = l :: getlines rest.
Proof.
  induction l as [|a l IH]; [done|]. change (String a l +:+ String newline rest) with (String a (l +:+ String newline rest)).
  cbn [contains_char getlines]. intros [Ha Hl]%orb_false_iff. rewrite Ascii.eqb_sym, Ha. by rewrite IH.
Qed.

Lemma strip_last_quote_app s : strip_last_quote (s +:+ String quote EmptyString) = Some s.
Proof.
  induction s as [|a s IH]; [done|].
  change (String a s +:+ String quote EmptyString) with (String a (s +:+ String quote EmptyString)).
  cbn [strip_last_quote]. rewrite IH. by destruct s.
Qed.

Lemma quoted_tight s : tight (quoted_value s).
Proof.
  split; [done|]. split; [done|]. unfold quoted_value.
  change (String quote (s +:+ String quote EmptyString)) with (String quote s +:+ String quote EmptyString).
  by rewrite trim_back_app.
Qed.

Lemma ParseStringValue_quoted s : ParseStringValue (quoted_value s) = s.
Proof.
  unfold ParseStringValue. rewrite tight_trim by apply quoted_tight. unfold quoted_value.
  rewrite Ascii.eqb_refl. by rewrite strip_last_quote_app.
Qed.

(** ** Numerals *)

Lemma dec_scan_from s a n : dec_scan s (Some a) = (Some n, "") ↔ decimal_from a s = Some n.
Proof.
  revert a. induction s as [|c s IH]; intros a; cbn [dec_scan decimal_from].
  - split; by intros [= ->].
  - destruct (dec_value c) as [d|]; simpl; [apply IH|]. split; by intros.
Qed.

Lemma dec_scan_decimal s n : dec_scan s None = (Some n, "") ↔ decimal s = Some n.
Proof.
  unfold decimal. destruct s as [|c s]; [done|]. cbn [dec_scan decimal_from].
  change (String c s =s? "") with false. cbv iota.
  destruct (dec_value c) as [d|]; simpl; [apply dec_scan_from|]. split; by intros.
Qed.

Lemma ParseUInt64_number s out n : ParseUInt64 s out = (n, None) ↔ number (UInt 64) s = Some n.
Proof.
  unfold ParseUInt64, from_chars_u64, number. cbv zeta.
  destruct (String.eqb_spec (TrimInPlace s) "") as [->|Hne]; [done|].
  destruct (dec_scan (TrimInPlace s) None) as [[v|] rest] eqn:E.
  - destruct (String.eqb_spec rest "") as [->|Hr].
    + apply dec_scan_decimal in E. rewrite E. cbn [mbind option_bind]. destruct (v <? 2 ^ 64); split; by intros [= <-].
    + destruct (decimal (TrimInPlace s)) as [m|] eqn:D; [apply dec_scan_decimal in D; congruence|].
      apply String.eqb_neq in Hr. destruct (v <? 2 ^ 64); [rewrite Hr|]; split; by intros.
  - destruct (decimal (TrimInPlace s)) as [m|] eqn:D; [apply dec_scan_decimal in D; congruence|].
    split; by intros.
Qed.

Lemma dec_digit_value c d : dec_value c = Some d -> 0 <= d.
Proof. unfold dec_value. case_match eqn:E; [|done]. intros [= <-]. lia. Qed.

Lemma decimal_from_nonneg s a n : 0 <= a -> decimal_from a s = Some n -> 0 <= n.
Proof.
  revert a. induction s as [|c s IH]; intros a Ha; simpl; [by intros [= <-]|].
  destruct (dec_value c) as [d|] eqn:E; simpl; [|done]. apply IH. apply dec_digit_value in E. lia.
Qed.

Lemma decimal_nonneg s n : decimal s = Some n -> 0 <= n.
Proof. unfold decimal. case_match; [done|]. by apply decimal_from_nonneg. Qed.

Lemma ParseInt64_number s out n : ParseInt64 s out = (n, None) ↔ number Int64 s = Some n.
Proof.
  unfold ParseInt64, from_chars_i64, number. cbv zeta.
  destruct (TrimInPlace s) as [|c t]; [done|]. change (String c t =s? "") with false. cbv iota.
  destruct (Ascii.eqb c (ascii_of_byte 45)); [set (u := t)|set (u := String c t)];
    (destruct (decimal u) as [m|] eqn:D;
     [pose proof (decimal_nonneg _ _ D); apply dec_scan_decimal in D as E; rewrite E; simpl|]).
  - destruct (Z.leb_spec m (2 ^ 63)), (Z.leb_spec (- 2 ^ 63) (- m)), (Z.ltb_spec (- m) (2 ^ 63)); try lia;
      simpl; split; intros; by simplify_eq.
  - destruct (dec_scan u None) as [[v|] rest] eqn:E; [|split; by intros].
    destruct (String.eqb_spec rest "") as [->|Hr%String.eqb_neq]; [apply dec_scan_decimal in E; congruence|].
    destruct (_ && _); [rewrite Hr|]; split; by intros.
  - destruct (Z.leb_spec (- 2 ^ 63) m), (Z.ltb_spec m (2 ^ 63)); try lia;
      simpl; split; intros; by simplify_eq.
  - destruct (dec_scan u None) as [[v|] rest] eqn:E; [|split; by intros].
    destruct (String.eqb_spec rest "") as [->|Hr%String.eqb_neq]; [apply dec_scan_decimal in E; congruence|].
    destruct (_ && _); [rewrite Hr|]; split; by intros.
Qed.

(** A number of a narrower width is one of 64 bits that fits. *)
Lemma number_narrow bits v n :
  bits <= 64 -> number (UInt bits) v = Some n ↔ number (UInt 64) v = Some n ∧ n < 2 ^ bits.
Proof.
  intros Hb. pose proof (Z.pow_le_mono_r 2 bits 64 ltac:(lia) Hb). unfold number. cbv zeta.
  destruct (decimal _) as [m|]; simpl; [|split; [done|by intros [? ?]]].
  destruct (Z.ltb_spec m (2 ^ bits)), (Z.ltb_spec m (2 ^ 64));
    split; intros; destruct_and?; simplify_eq; try split; first [done|lia].
Qed.

(** The lambdas: they assign exactly the number of their width. *)
Lemma assign_narrow (bits : Z) value (msg : string) (set : Z -> ServerConfig -> ServerConfig) c c' :
  bits <= 64 ->
  match ParseUInt64 value 0 with
  | (_, Some e) => (c, Some e)
  | (v, None) => if 2 ^ bits - 1 <? v then (c, Some msg) else (set v c, None)
  end = (c', None) ↔ ∃ n, number (UInt bits) value = Some n ∧ c' = set n c.
Proof.
  intros Hb. setoid_rewrite number_narrow; [|done].
  destruct (ParseUInt64 value 0) as [v [e|]] eqn:E.
  - split; [done|]. intros (n & [Hn _] & _). apply (ParseUInt64_number _ 0) in Hn. congruence.
  - apply ParseUInt64_number in E. rewrite E.
    destruct (Z.ltb_spec (2 ^ bits - 1) v).
    + split; [done|]. intros (n & [[= <-] ?] & _). lia.
    + split; [intros [= <-]; exists v; split; [split; [done|lia]|done]|]. by intros (n & [[= <-] _] & ->).
Qed.

Lemma u64_number value set c c' :
  u64 value set c = (c', None) ↔ ∃ n, number (UInt 64) value = Some n ∧ c' = set n c.
Proof. by apply (assign_narrow 64). Qed.

Lemma u64_u32_number value set c c' :
  u64_u32 value set c = (c', None) ↔ ∃ n, number (UInt 32) value = Some n ∧ c' = set n c.
Proof. by apply (assign_narrow 32). Qed.

Lemma port_number value c c' :
  port value c = (c', None) ↔ ∃ n, number (UInt 16) value = Some n ∧ c' = set_listen_port n c.
Proof.
  rewrite <- (assign_narrow 16 value "listen_port must fit uint16_t"); [|done]. unfold port, kMaxListenPort.
  destruct (ParseUInt64 value 0) as [v [e|]]; [split; by intros|done].
Qed.

Lemma i64_number value get set c c' :
  i64 value get set c = (c', None) ↔ ∃ n, number Int64 value = Some n ∧ c' = set n c.
Proof.
  unfold i64. setoid_rewrite <- (ParseInt64_number value (get c)).
  destruct (ParseInt64 value (get c)) as [v e]. split.
  - intros [= <- ->]. by exists v.
  - by intros (n & [= <- ->] & ->).
Qed.

(** ** The table of keys *)

(** [ApplyKey], [None] when it returns false. *)
Definition assign_key (key value : string) (c : ServerConfig) : option ServerConfig :=
  match ApplyKey key value c with (c', None) => Some c' | (_, Some _) => None end.

Lemma assign_key_spec k v c c' : assign_key k v c = Some c' ↔ ApplyKey k v c = (c', None).
Proof. unfold assign_key. destruct (ApplyKey k v c) as [c1 [e|]]; split; intros; by simplify_eq. Qed.

(** The branch of [ApplyKey] for a literal key. *)
Ltac key_branch H :=
  match type of H with
  | context [ApplyKey ?k ?v ?c] =>
      let r := eval cbv [ApplyKey String.eqb Ascii.eqb Bool.eqb] in (ApplyKey k v c) in
      change (ApplyKey k v c) with r in H
  end.

Ltac assigned H :=
  first [apply u64_number in H | apply i64_number in H | apply u64_u32_number in H | apply port_number in H];
  destruct H as (? & ? & ->).

(** Finds a member of a table. *)
Ltac listed := unfold number_members, text_members; repeat first [apply list_elem_of_here | apply list_elem_of_further].

Ltac each_member Hin :=
  repeat (apply elem_of_cons in Hin as [Hin|Hin]; [injection Hin as -> -> -> || injection Hin as -> ->|]);
  [..|by apply not_elem_of_nil in Hin].

Lemma assign_number key w get v c c' :
  (key, w, get) ∈ number_members -> assign_key key v c = Some c' -> number w v = Some (get c').
Proof.
  intros Hin Hc%assign_key_spec. unfold number_members in Hin. each_member Hin;
    key_branch Hc; assigned Hc; assumption.
Qed.

Lemma assign_text key get v c c' :
  (key, get) ∈ text_members -> assign_key key v c = Some c' -> Some (ParseStringValue v) = Some (get c').
Proof.
  intros Hin Hc%assign_key_spec. unfold text_members in Hin. each_member Hin;
    key_branch Hc; injection Hc as <-; reflexivity.
Qed.

(** A key sets no member but its own. *)
Lemma assign_frame k v c c' :
  assign_key k v c = Some c' ->
  Forall (λ m, k ≠ m.1.1 -> m.2 c' = m.2 c) number_members ∧
  Forall (λ m, k ≠ m.1 -> m.2 c' = m.2 c) text_members.
Proof.
  intros Hc%assign_key_spec. unfold ApplyKey in Hc.
  repeat match type of Hc with
  | (if k =s? ?n then _ else _) = _ =>
      destruct (String.eqb_spec k n) as [->|?];
      [first [assigned Hc | unfold str in Hc; injection Hc as <-];
       split; repeat apply Forall_cons_2; try apply Forall_nil_2; intros Hk; first [reflexivity|by destruct Hk] |]
  end.
  injection Hc as <-. split; by apply Forall_forall.
Qed.

(** Every key but a number's is taken with any value, a number's with a numeral. *)
Lemma assign_key_accepts k v c :
  is_Some (assign_key k v c) ↔ ∀ w get, (k, w, get) ∈ number_members -> is_Some (number w v).
Proof.
  split.
  - intros [c' Hc] w get Hin. exists (get c'). by eapply assign_number.
  - intros Hn. assert (He : ∃ c', ApplyKey k v c = (c', None)); [|by destruct He as [c' He%assign_key_spec]].
    unfold ApplyKey.
    repeat match goal with
    | |- context [if k =s? ?n then _ else _] =>
        destruct (String.eqb_spec k n) as [->|?];
        [first [by eexists |
           edestruct Hn as [x Hx]; [listed|]; eexists;
           first [apply u64_number | apply i64_number | apply u64_u32_number | apply port_number];
           eexists; split; [exact Hx|reflexivity]] |]
    end.
    by eexists.
Qed.

(** ** Settings one after the other *)

Section sequence.
Context {C : Type} (assign : string -> string -> C -> option C).

Fixpoint assign_all (kvs : list (string * string)) (c : C) : option C :=
  match kvs with
  | [] => Some c
  | (k, v) :: kvs' => assign k v c ≫= assign_all kvs'
  end.

(** A member that one name sets: it has the last value of the name, or stays. *)
Lemma assign_all_member {A} (name : string) (get : C -> A) (read : string -> option A) kvs c c' :
  (∀ v c c', assign name v c = Some c' -> read v = Some (get c')) ->
  (∀ k v c c', k ≠ name -> assign k v c = Some c' -> get c' = get c) ->
  assign_all kvs c = Some c' ->
  match last_named name kvs with
  | Some v => read v = Some (get c')
  | None => get c' = get c
  end.
Proof.
  intros Hset Hother. unfold last_named. revert c. induction kvs as [|[k v] kvs IH]; intros c; simpl; [by intros [= ->]|].
  destruct (assign k v c) as [c1|] eqn:E; simpl; [|done]. intros Hr. specialize (IH c1 Hr).
  rewrite filter_cons. simpl. case_decide as Hk.
  - subst k. apply Hset in E. destruct (filter _ kvs) as [|kv l] eqn:Ef; simpl in *; [congruence|].
    by destruct (last (kv :: l)) as [[]|] eqn:El; [|by apply last_None in El].
  - destruct (last (filter _ kvs)); [done|]. simpl in *. rewrite IH. by apply (Hother k v).
Qed.
End sequence.

(** A line the loader takes without a message. *)
Lemma load_line_taken n line c c' :
  load_line n line c = (c', None) ↔
  (TrimInPlace (strip_comment line) = "" ∧ c' = c) ∨
  ∃ k v, line_setting line = Some (k, v) ∧ k ≠ "" ∧ assign_key k v c = Some c'.
Proof.
  unfold load_line, line_setting. cbv zeta.
  destruct (String.eqb_spec (TrimInPlace (strip_comment line)) "") as [->|Hne].
  - split; [by intros [= <-]; left|]. intros [[_ ->]|(k & v & [=] & _)]. done.
  - destruct (split_at_char _ _) as [[key value]|]; cbn [mbind option_bind].
    2: { split; [done|]. by intros [[? _]|(k & v & [=] & _)]. }
    destruct (String.eqb_spec (TrimInPlace key) "") as [Hk|Hk].
    + split; [done|]. by intros [[? _]|(k & v & [= <- <-] & ? & _)].
    + setoid_rewrite assign_key_spec. destruct (ApplyKey _ _ c) as [c1 [e|]] eqn:E.
      * split; [done|]. intros [[? _]|(k & v & [= <- <-] & _ & Ha)]; congruence.
      * split; [intros [= <-]; right; eauto|]. intros [[? _]|(k & v & [= <- <-] & _ & Ha)]; congruence.
Qed.

Lemma line_setting_blank line : TrimInPlace (strip_comment line) = "" -> line_setting line = None.
Proof. unfold line_setting. by intros ->. Qed.

Lemma load_lines_settings n lines c c' :
  load_lines n lines c = (c', None) ->
  Forall acceptable lines ∧ assign_all assign_key (omap line_setting lines) c = Some c'.
Proof.
  revert n c. induction lines as [|l lines IH]; intros n c; cbn [load_lines]; [by intros [= <-]|].
  destruct (load_line _ l c) as [c1 [e|]] eqn:E; [done|]. intros [Ha Hs]%IH. apply load_line_taken in E.
  cbn [omap list_omap]. destruct E as [[Hb ->]|(k & v & Hl & Hk & Hc)].
  - rewrite (line_setting_blank l Hb). split; [|done]. apply Forall_cons. split; [by left|done].
  - rewrite Hl. cbn [assign_all]. rewrite Hc. split; [|done]. apply Forall_cons. split; [|done].
    right. exists k, v. split_and!; [done..|]. by apply (assign_key_accepts k v c).
Qed.

Lemma load_lines_accepts n lines c :
  Forall acceptable lines -> ∃ c', load_lines n lines c = (c', None).
Proof.
  intros Hl. revert n c. induction Hl as [|l lines Ha _ IH]; intros n c; cbn [load_lines]; [by eexists|].
  assert (Ht : ∃ c1, load_line (u64_add n 1) l c = (c1, None)).
  { setoid_rewrite load_line_taken. destruct Ha as [Hb|(k & v & Hs & Hk & Hn)]; [by exists c; left|].
    apply (assign_key_accepts k v c) in Hn as [c1 Hc]. exists c1. right. eauto. }
  destruct Ht as [c1 ->]. apply IH.
Qed.

(** What a member of the loaded configuration is, by its key. *)
Lemma load_number text c0 c key w get :
  LoadServerConfigFile (Some text) c0 = (c, None) -> (key, w, get) ∈ number_members ->
  match file_value key text with
  | Some v => number w v = Some (get c)
  | None => get c = get c0
  end.
Proof.
  intros [_ Hs]%load_lines_settings Hin. apply (assign_all_member assign_key key get (number w)) in Hs; [done|..].
  - intros v c1 c2. by apply assign_number.
  - intros k v c1 c2 Hk [Hf _]%assign_frame. apply (proj1 (Forall_forall _ _) Hf _ Hin Hk).
Qed.

Lemma load_text text c0 c key get :
  LoadServerConfigFile (Some text) c0 = (c, None) -> (key, get) ∈ text_members ->
  get c = default (get c0) (ParseStringValue <$> file_value key text).
Proof.
  intros [_ Hs]%load_lines_settings Hin.
  apply (assign_all_member assign_key key get (λ v, Some (ParseStringValue v))) in Hs.
  - unfold file_value. destruct (last_named _ _); simpl; [by injection Hs|done].
  - intros v c1 c2. by apply assign_text.
  - intros k v c1 c2 Hk [_ Hf]%assign_frame. apply (proj1 (Forall_forall _ _) Hf _ Hin Hk).
Qed.


(** ** Ranges are kept, also by a file that is refused *)

Lemma dec_scan_nonneg s acc v rest :
  (∀ a, acc = Some a -> 0 <= a) -> dec_scan s acc = (Some v, rest) -> 0 <= v.
Proof.
  revert acc. induction s as [|c s IH]; intros acc Ha; cbn [dec_scan].
  - intros [= -> _]. by apply Ha.
  - destruct (dec_value c) as [d|] eqn:Ed; [|intros [= -> _]; by apply Ha].
    apply IH. intros a [= <-]. unfold dec_value in Ed.
    destruct (48 <=? byte_of_ascii c) eqn:E1; [|done]. destruct (byte_of_ascii c <=? 57); [|done].
    simplify_eq/=. apply Z.leb_le in E1. destruct acc as [a|]; [pose proof (Ha a eq_refl)|]; simpl; lia.
Qed.

Lemma ParseUInt64_range s out : in_uint64 out -> in_uint64 (ParseUInt64 s out).1.
Proof.
  intros Ho. unfold ParseUInt64, from_chars_u64. destruct (_ =s? _); [done|].
  destruct (dec_scan _ _) as [[v|] rest] eqn:E; [|done].
  destruct (Z.ltb_spec v (2 ^ 64)); [|done]. split; [|done].
  by apply (dec_scan_nonneg (TrimInPlace s) None v rest).
Qed.

Lemma ParseInt64_range s out : in_int64 out -> in_int64 (ParseInt64 s out).1.
Proof.
  intros Ho. unfold ParseInt64, from_chars_i64. destruct (_ =s? _); [done|].
  match goal with |- context [let '(_, _) := ?p in _] => destruct p as [neg s'] end.
  destruct (dec_scan s' None) as [[v|] rest]; [|done]. cbv zeta.
  destruct (_ && _) eqn:E; [|done]. apply andb_true_iff in E as [E1%Z.leb_le E2%Z.ltb_lt]. done.
Qed.

Section ranges.
Context (c : ServerConfig) (Hc : config_typed c).

Lemma u64_typed value set :
  (∀ v, in_uint64 v -> config_typed (set v c)) -> config_typed (u64 value set c).1.
Proof.
  intros Hs. unfold u64. pose proof (ParseUInt64_range value 0 ltac:(done)).
  destruct (ParseUInt64 value 0) as [v [e|]]; [done|]. case_match; [done|]. by apply Hs.
Qed.

Lemma u64_u32_typed value set :
  (∀ v, in_uint32 v -> config_typed (set v c)) -> config_typed (u64_u32 value set c).1.
Proof.
  intros Hs. unfold u64_u32. pose proof (ParseUInt64_range value 0 ltac:(done)) as Hr.
  destruct (ParseUInt64 value 0) as [v [e|]]; [done|]. destruct (Z.ltb_spec (2 ^ 32 - 1) v); [done|].
  apply Hs. destruct Hr. unfold in_uint32. simpl in *. lia.
Qed.

Lemma port_typed value : config_typed (port value c).1.
Proof.
  unfold port, kMaxListenPort. pose proof (ParseUInt64_range value 0 ltac:(done)) as Hr.
  destruct (ParseUInt64 value 0) as [v [e|]]; [done|]. destruct (Z.ltb_spec (2 ^ 16 - 1) v); [done|].
  assert (in_uint16 v) by (destruct Hr; unfold in_uint16; simpl in *; lia).
  unfold config_typed in *. simpl. tauto.
Qed.

Lemma i64_typed value get set :
  in_int64 (get c) -> (∀ v, in_int64 v -> config_typed (set v c)) -> config_typed (i64 value get set c).1.
Proof.
  intros Hg Hs. unfold i64. pose proof (ParseInt64_range value (get c) Hg).
  destruct (ParseInt64 value (get c)) as [v e]. by apply Hs.
Qed.

Lemma ApplyKey_typed key value : config_typed (ApplyKey key value c).1.
Proof.
  unfold ApplyKey.
  repeat match goal with
  | |- config_typed (if _ then _ else _).1 => case_match
  | |- config_typed (u64 _ _ _).1 => apply u64_typed; intros v Hv
  | |- config_typed (u64_u32 _ _ _).1 => apply u64_u32_typed; intros v Hv
  | |- config_typed (i64 _ _ _ _).1 => apply i64_typed; [unfold config_typed in Hc; tauto|intros v Hv]
  | |- config_typed (port _ _).1 => apply port_typed
  | |- _ => unfold str, config_typed in *; simpl in *; tauto
  end.
Qed.
End ranges.

Lemma load_line_typed n line c : config_typed c -> config_typed (load_line n line c).1.
Proof.
  intros Hc. unfold load_line. cbv zeta. case_match; [done|]. case_match; [|done]. case_match. case_match; [done|].
  pose proof (ApplyKey_typed c Hc (TrimInPlace s) (TrimInPlace s0)) as Ha.
  destruct (ApplyKey _ _ c) as [c' [e|]]; done.
Qed.

Lemma load_lines_typed n lines c : config_typed c -> config_typed (load_lines n lines c).1.
Proof.
  revert n c. induction lines as [|l lines IH]; intros n c Hc; cbn [load_lines]; [done|].
  pose proof (load_line_typed (u64_add n 1) l c Hc). destruct (load_line _ l c) as [c' [e|]]; [done|].
  by apply IH.
Qed.

(** Whatever the file holds, and also when it is refused half way, every member
    of the configuration stays a value of its type: nothing wraps around, a port
    above 65535 and an Argon2 cost above 32 bits are refused. *)
Theorem config_in_range content : config_typed (LoadServerConfigFile content Default).1.
Proof.
  destruct content as [text|]; [apply load_lines_typed|]; repeat split; done.
Qed.

(** C39: What a configuration file does, for every text and every configuration it is
    read over: it is taken exactly when each of its lines is blank, a comment, or
    [key = value] with a key and, where the key is a number's, a decimal numeral that
    fits the member's width (16, 32 or 64 bits, signed for the durations).  Then each of the
    twenty-nine members has the value of the last line with its key, or the value it
    had; keys of other names change nothing. *)
Theorem config_file_values text c0 :
  (Forall acceptable (getlines text) ↔ ∃ c, LoadServerConfigFile (Some text) c0 = (c, None)) ∧
  ∀ c, LoadServerConfigFile (Some text) c0 = (c, None) ->
    (∀ key w get, (key, w, get) ∈ number_members ->
       match file_value key text with
       | Some v => number w v = Some (get c)
       | None => get c = get c0
       end) ∧
    (∀ key get, (key, get) ∈ text_members ->
       get c = default (get c0) (ParseStringValue <$> file_value key text)).
Proof.
  split; [split; [apply load_lines_accepts|by intros [c [? _]%load_lines_settings]]|].
  intros c Hl. split; intros; [by apply (load_number text c0)|by apply load_text].
Qed.

(** A file with a comment, an unknown key, a key given twice and quoted text. *)
Definition sample_file : string :=
  "listen_port = 9000  # first" +:+ String newline ("other = 1" +:+ String newline
    ("listen_port=9001" +:+ String newline ("session_token_pepper = " +:+ quoted_value "a =b"))).

Lemma config_file_values_witness :
  LoadServerConfigFile (Some sample_file) Default =
    (set_session_token_pepper "a =b" (set_listen_port 9001 Default), None) ∧
  number (UInt 16) "9001" = Some 9001.
Proof.
  assert (E : LoadServerConfigFile (Some sample_file) Default =
    (set_session_token_pepper "a =b" (set_listen_port 9001 Default), None)) by (vm_compute; reflexivity).
  split; [exact E|].
  exact (proj1 (proj2 (config_file_values sample_file Default) _ E) "listen_port" (UInt 16) cf_listen_port
    ltac:(listed)).
Defined.

(** A comment sign inside quotes still starts a comment: the value keeps the opening
    quote and loses its end. *)
Example comment_cuts_quoted_value :
  cf_session_token_pepper (load_line 1 ("session_token_pepper = " +:+ quoted_value "ab#cd") Default).1
    = String quote "ab".
Proof. vm_compute. reflexivity. Qed.

(** A refused signed value is assigned all the same. *)
Example refused_value_assigned :
  load_line 7 "message_retention_seconds = 12x" Default
    = (set_message_retention_seconds 12 Default, Some "line 7 (message_retention_seconds): invalid integer").
Proof. vm_compute. reflexivity. Qed.
