(* ===== verification/RateLimiter.v ===== *)
(** * AuthRateLimiter (lib/vox_net/rate_limiter.{hpp,cpp})

    A fixed-window limiter per key.  [now] is the reading of the steady clock, in
    nanoseconds.  A call reads the clock first and takes the mutex then: calls are totally
    ordered by the mutex, while their readings can be out of order, each by as much as
    the call waited for the mutex. *)

From S2P Require Import Prelude.

Record WindowState := mkWindowState { window_start : Z; count : Z }.

Record AuthRateLimiter := mkAuthRateLimiter { max_events_ : Z; window_seconds_ : Z }.

Module RateLimiter.
Section RateLimiter.
Context (lim : AuthRateLimiter).
Implicit Types by_key : gmap string WindowState.

Definition window_ : Z := window_seconds_ lim * 10 ^ 9.

(** [by_key_[client_key]] inserts a zero state for a new key. *)
Definition Allow (client_key : string) (now : Z) (by_key : gmap string WindowState)
    : bool * gmap string WindowState :=
  let w := default (mkWindowState 0 0) (by_key !! client_key) in
  if count w =? 0 then (true, <[client_key := mkWindowState now 1]> by_key) else
  if window_ <=? now - window_start w then (true, <[client_key := mkWindowState now 1]> by_key) else
  if max_events_ lim <=? count w then (false, <[client_key := w]> by_key) else
  (true, <[client_key := mkWindowState (window_start w) (u64_add (count w) 1)]> by_key).

(** ** Histories *)

(** A call: the key, the reading of the clock, and the instant at which it got the mutex. *)
Record Call := mkCall { c_key : string; c_now : Z; c_locked : Z }.

Record Event := mkEvent { ev_key : string; ev_time : Z; ev_allowed : bool }.

(** The answers to the calls, in the order of the mutex. *)
Fixpoint answers (calls : list Call) by_key : list Event :=
  match calls with
  | [] => []
  | c :: calls' =>
      let '(b, m) := Allow (c_key c) (c_now c) by_key in mkEvent (c_key c) (c_now c) b :: answers calls' m
  end.

(** The calls of a key let through with a reading in [[lo, hi)]. *)
Definition let_through (k : string) (lo hi : Z) (h : list Event) : list Event :=
  filter (λ e, ev_key e = k ∧ ev_allowed e = true ∧ lo <= ev_time e < hi) h.


Context (Hmax : 0 <= max_events_ lim < 2 ^ 64) (Hwindow : 0 < window_seconds_ lim).

(** A call waits for the mutex at most [delay]. *)
Context (delay : Z).







(** *** At most so many calls per window *)







(** *** A refusal is justified *)







End RateLimiter.

(** Two calls per second, and calls that wait up to two nanoseconds for the mutex: the
    last call has read the clock before the one in front of it. *)
Definition sample_calls : list Call :=
  [mkCall "a" 0 0; mkCall "b" 1 1; mkCall "a" (10 ^ 9 - 1) (10 ^ 9 - 1); mkCall "a" (10 ^ 9) (10 ^ 9);
   mkCall "a" (10 ^ 9 + 1) (10 ^ 9 + 1); mkCall "a" (2 * 10 ^ 9) (2 * 10 ^ 9); mkCall "a" (2 * 10 ^ 9 - 2) (2 * 10 ^ 9)].


(** Over the whole window, with the late call, there are four of them: one more than
    without delays. *)
Example delayed_call_exceeds_window :
  length (let_through "a" (10 ^ 9 - 1) (10 ^ 9 - 1 + window_ (mkAuthRateLimiter 2 1))
    (answers (mkAuthRateLimiter 2 1) sample_calls ∅)) = 4%nat.
Proof. vm_compute. reflexivity. Qed.

Example third_call_refused :
  ev_allowed <$> answers (mkAuthRateLimiter 2 1)
    [mkCall "a" 0 0; mkCall "b" 1 1; mkCall "a" 2 2; mkCall "a" 3 3; mkCall "a" (10 ^ 9) (10 ^ 9)] ∅
  = [true; true; true; false; true].
Proof. vm_compute. reflexivity. Qed.
End RateLimiter.
