(* ===== verification/BoundedQueue.v ===== *)
(** * BoundedQueue (lib/vox_common/bounded_queue.hpp)

    Every method body runs under the queue's mutex, so a call is one atomic step; a
    call that waits on a condition variable is a step that is not enabled until its
    predicate holds ([None]). *)

From S2P Require Import Prelude.

Record BoundedQueue (T : Type) := mkBoundedQueue {
  capacity_ : Z;
  queue_ : list T;
  shutdown_ : bool }.
Arguments mkBoundedQueue {T}.
Arguments capacity_ {T}.
Arguments queue_ {T}.
Arguments shutdown_ {T}.

Module BoundedQueue.
Section BoundedQueue.
Context {T : Type}.
Implicit Types q : BoundedQueue T.

Definition set_queue (l : list T) (q : BoundedQueue T) : BoundedQueue T :=
  mkBoundedQueue (capacity_ q) l (shutdown_ q).

Definition Size q : Z := Z.of_nat (length (queue_ q)).
Definition Empty q : bool := bool_decide (length (queue_ q) = 0%nat).
Definition IsShutdown q : bool := shutdown_ q.
Definition Capacity q : Z := capacity_ q.

(** The predicate [Push] waits for. *)
Definition push_ready q : bool := (Size q <? capacity_ q) || shutdown_ q.

Definition Push (item : T) q : option (bool * BoundedQueue T) :=
  if negb (push_ready q) then None else
  if shutdown_ q then Some (false, q) else
  Some (true, set_queue (queue_ q ++ [item]) q).

Definition TryPush (item : T) q : bool * BoundedQueue T :=
  if shutdown_ q || (capacity_ q <=? Size q) then (false, q)
  else (true, set_queue (queue_ q ++ [item]) q).

(** The predicate [Pop] waits for. *)
Definition pop_ready q : bool := negb (Empty q) || shutdown_ q.

Definition TryPop q : option T * BoundedQueue T :=
  match queue_ q with
  | [] => (None, q)
  | item :: rest => (Some item, set_queue rest q)
  end.

Definition Pop q : option (option T * BoundedQueue T) :=
  if negb (pop_ready q) then None else Some (TryPop q).

Definition Shutdown q : BoundedQueue T := mkBoundedQueue (capacity_ q) (queue_ q) true.

(** ** Sequences of calls, by any threads *)

Inductive op := OPush (x : T) | OTryPush (x : T) | OPop | OTryPop | OShutdown.

(** The items accepted and the items handed out by a call that returns. *)
Definition run_op (o : op) q : option ((list T * list T) * BoundedQueue T) :=
  match o with
  | OPush x => (λ '(b, q'), ((if b : bool then [x] else [], []), q')) <$> Push x q
  | OTryPush x => let '(b, q') := TryPush x q in Some ((if b then [x] else [], []), q')
  | OPop => (λ '(r, q'), (([], option_list r), q')) <$> Pop q
  | OTryPop => let '(r, q') := TryPop q in Some (([], option_list r), q')
  | OShutdown => Some (([], []), Shutdown q)
  end.

Fixpoint run_ops (os : list op) q : option ((list T * list T) * BoundedQueue T) :=
  match os with
  | [] => Some (([], []), q)
  | o :: os' =>
      '((a, h), q1) ← run_op o q;
      '((a', h'), q2) ← run_ops os' q1;
      Some ((a ++ a', h ++ h'), q2)
  end.

Definition within q : Prop := Size q <= capacity_ q.

Lemma run_op_step o q a h q' :
  run_op o q = Some ((a, h), q') ->
  queue_ q ++ a = h ++ queue_ q' ∧ (within q -> within q') ∧ capacity_ q' = capacity_ q ∧
  (shutdown_ q = true -> a = [] ∧ shutdown_ q' = true).
Proof.
  assert (Hpop : ∀ r q1, TryPop q = (r, q1) -> queue_ q ++ [] = option_list r ++ queue_ q1 ∧
    (within q -> within q1) ∧ capacity_ q1 = capacity_ q ∧ (shutdown_ q = true -> @nil T = [] ∧ shutdown_ q1 = true)).
  { intros r q1. unfold TryPop. destruct (queue_ q) as [|x l] eqn:E; intros [= <- <-]; simpl.
    - by rewrite E.
    - rewrite app_nil_r. split; [done|]. split; [|done]. unfold within, Size. rewrite E. simpl. lia. }
  assert (Hpush : ∀ x, Size q < capacity_ q -> shutdown_ q = false ->
    queue_ q ++ [x] = [] ++ queue_ (set_queue (queue_ q ++ [x]) q) ∧
    (within q -> within (set_queue (queue_ q ++ [x]) q)) ∧ capacity_ (set_queue (queue_ q ++ [x]) q) = capacity_ q ∧
    (shutdown_ q = true -> [x] = [] ∧ shutdown_ (set_queue (queue_ q ++ [x]) q) = true)).
  { intros x Hs Hd. split; [done|]. split; [|split; [done|congruence]].
    intros _. unfold within, Size in *. simpl. rewrite length_app. simpl. lia. }
  destruct o as [x|x| | |]; simpl.
  - unfold Push, push_ready. destruct (Z.ltb_spec (Size q) (capacity_ q)), (shutdown_ q) eqn:Ed; simpl;
      intros [= <- <- <-]; rewrite ?app_nil_r; [done|by apply Hpush|done].
  - unfold TryPush. destruct (shutdown_ q) eqn:Ed, (Z.leb_spec (capacity_ q) (Size q)); simpl;
      intros [= <- <- <-]; rewrite ?app_nil_r; [done..|by apply Hpush].
  - unfold Pop. destruct (negb (pop_ready q)); simpl; [done|]. destruct (TryPop q) as [r q1] eqn:E.
    intros [= <- <- <-]. by apply Hpop.
  - destruct (TryPop q) as [r q1] eqn:E. intros [= <- <- <-]. by apply Hpop.
  - intros [= <- <- <-]. by rewrite app_nil_r.
Qed.

(** C36: A bounded FIFO under any interleaving of the callers: the items handed out
    followed by those still queued are the items that were queued followed by those
    accepted, in order; the queue never exceeds its capacity; after [Shutdown] nothing
    is accepted.  A call waits only as intended: [Push] exactly on a full queue and
    [Pop] exactly on an empty one, both before shutdown. *)
Theorem bounded_queue_fifo os q a h q' :
  run_ops os q = Some ((a, h), q') ->
  queue_ q ++ a = h ++ queue_ q' ∧
  (within q -> within q') ∧
  (shutdown_ q = true -> a = []) ∧
  (∀ x, Push x q' = None <-> capacity_ q' <= Size q' ∧ shutdown_ q' = false) ∧
  (Pop q' = None <-> queue_ q' = [] ∧ shutdown_ q' = false).
Proof.
  intros Hrun. assert (Hmain : queue_ q ++ a = h ++ queue_ q' ∧ (within q -> within q') ∧ (shutdown_ q = true -> a = [])).
  { revert q a h Hrun. induction os as [|o os IH]; intros q a h; simpl.
    - intros [= <- <- <-]. by rewrite app_nil_r.
    - destruct (run_op o q) as [[[a1 h1] q1]|] eqn:E1; simpl; [|done].
      destruct (run_ops os q1) as [[[a2 h2] q2]|] eqn:E2; simpl; [|done]. intros [= <- <- <-].
      destruct (run_op_step _ _ _ _ _ E1) as (Hf & Hw & _ & Hd). destruct (IH _ _ _ E2) as (Hf2 & Hw2 & Hd2).
      split; [|split; [auto|]].
      + by rewrite app_assoc, Hf, <- app_assoc, Hf2, app_assoc.
      + intros Hs. destruct (Hd Hs) as [-> Hs1]. by rewrite (Hd2 Hs1). }
  destruct Hmain as (H1 & H2 & H3). split_and!; try done.
  - intros x. unfold Push, push_ready. destruct (Z.ltb_spec (Size q') (capacity_ q')), (shutdown_ q'); simpl; split; intros ?; try done; lia.
  - unfold Pop, pop_ready, Empty. destruct (queue_ q') as [|y l], (shutdown_ q'); simpl; split; intros ?; naive_solver.
Qed.
End BoundedQueue.

Lemma bounded_queue_fifo_witness :
  queue_ (mkBoundedQueue 2 [] false) ++ [1; 2] =
  [1] ++ queue_ (mkBoundedQueue 2 [2] true).
Proof.
  apply (bounded_queue_fifo [OPush 1; OTryPush 2; OTryPush 3; OPop; OShutdown; OPush 4] (mkBoundedQueue 2 [] false)).
  reflexivity.
Defined.
End BoundedQueue.
