(* ===== verification/ThreadPool.v ===== *)
(** * ThreadPool (lib/vox_common/thread_pool.{hpp,cpp})

    The pool at the grain its threads interleave: one step per queue call, per access
    of the counter [active_tasks_], per run of a task and per notification.  A step
    that has to wait is not enabled ([None]).  Every worker is at one point of
    [WorkerLoop]; one caller of [WaitForIdle] is tracked, with the window between its
    test of the predicate and its going to sleep. *)

From S2P Require Import Prelude BoundedQueue.

(** A worker: about to call [Pop], with a task not yet counted, about to run it, after
    the run, before [notify_all], out of the loop. *)
Inductive Worker (T : Type) :=
  | AtPop | Taken (task : T) | Counted (task : T) | Ran | Notifying | Exited.
Arguments AtPop {T}.
Arguments Taken {T}.
Arguments Counted {T}.
Arguments Ran {T}.
Arguments Notifying {T}.
Arguments Exited {T}.

(** The caller of [WaitForIdle]: outside (or awake again), holding [idle_mutex_] after
    the predicate was false, asleep on [idle_cv_], back from the call. *)
Inductive Waiter := Outside | Checked | Asleep | Returned.
#[export] Instance Waiter_eq_dec : EqDecision Waiter.
Proof. solve_decision. Defined.

(** [tp_ran]: the tasks that were run, in order. *)
Record ThreadPool (T : Type) := mkThreadPool {
  tp_queue : BoundedQueue T;
  workers_ : list (Worker T);
  active_tasks_ : Z;
  tp_shutdown : bool;
  tp_waiter : Waiter;
  tp_ran : list T }.
Arguments mkThreadPool {T}.
Arguments tp_queue {T}.
Arguments workers_ {T}.
Arguments active_tasks_ {T}.
Arguments tp_shutdown {T}.
Arguments tp_waiter {T}.
Arguments tp_ran {T}.

Module ThreadPool.
Section ThreadPool.
Context {T : Type}.
Implicit Types (p : ThreadPool T) (t : T).

Definition start (thread_count : nat) (queue_capacity : Z) : ThreadPool T :=
  mkThreadPool (mkBoundedQueue queue_capacity [] false) (replicate thread_count AtPop) 0 false Outside [].

Definition set_tp_queue q p :=
  mkThreadPool q (workers_ p) (active_tasks_ p) (tp_shutdown p) (tp_waiter p) (tp_ran p).
Definition set_worker (i : nat) (w : Worker T) p :=
  mkThreadPool (tp_queue p) (<[i := w]> (workers_ p)) (active_tasks_ p) (tp_shutdown p) (tp_waiter p) (tp_ran p).
Definition set_active (n : Z) p :=
  mkThreadPool (tp_queue p) (workers_ p) n (tp_shutdown p) (tp_waiter p) (tp_ran p).
Definition set_waiter (x : Waiter) p :=
  mkThreadPool (tp_queue p) (workers_ p) (active_tasks_ p) (tp_shutdown p) x (tp_ran p).
Definition set_ran l p :=
  mkThreadPool (tp_queue p) (workers_ p) (active_tasks_ p) (tp_shutdown p) (tp_waiter p) l.

(** [false]: the call throws, the pool is shut down. *)
Definition Submit t p : option (bool * ThreadPool T) :=
  '(pushed, q) ← BoundedQueue.Push t (tp_queue p);
  Some (pushed, set_tp_queue q p).

(** [idle_cv_.notify_all()]. *)
Definition notify_idle p : ThreadPool T :=
  match tp_waiter p with
  | Asleep => set_waiter Outside p
  | _ => p
  end.

(** The next step of worker [i]. *)
Definition WorkerLoop (i : nat) p : option (ThreadPool T) :=
  w ← workers_ p !! i;
  match w with
  | AtPop =>
      '(task, q) ← BoundedQueue.Pop (tp_queue p);
      Some (set_worker i (match task with Some t => Taken t | None => Exited end) (set_tp_queue q p))
  | Taken t => Some (set_worker i (Counted t) (set_active (to_uint64 (active_tasks_ p + 1)) p))
  | Counted t => Some (set_worker i Ran (set_ran (tp_ran p ++ [t]) p))
  | Ran => Some (set_worker i Notifying (set_active (to_uint64 (active_tasks_ p - 1)) p))
  | Notifying => Some (set_worker i AtPop (notify_idle p))
  | Exited => None
  end.

(** The predicate of [WaitForIdle]. *)
Definition idle_ready p : bool :=
  ((active_tasks_ p =? 0) && (BoundedQueue.Size (tp_queue p) =? 0)) || tp_shutdown p.

(** The steps of [WaitForIdle]: test the predicate, then return or go to sleep. *)
Definition WaitForIdle p : option (ThreadPool T) :=
  match tp_waiter p with
  | Outside => Some (set_waiter (if idle_ready p then Returned else Checked) p)
  | Checked => Some (set_waiter Asleep p)
  | Asleep | Returned => None
  end.

(** The steps of [Shutdown]: the flag, under [idle_mutex_]; the queue; the joins and the
    last notification. *)
Definition Shutdown_flag p : option (ThreadPool T) :=
  if decide (tp_waiter p = Checked) then None else
  if tp_shutdown p then None else
  Some (mkThreadPool (tp_queue p) (workers_ p) (active_tasks_ p) true (tp_waiter p) (tp_ran p)).
Definition Shutdown_queue p : option (ThreadPool T) :=
  if tp_shutdown p then Some (set_tp_queue (BoundedQueue.Shutdown (tp_queue p)) p) else None.
Definition exited (w : Worker T) : bool := match w with Exited => true | _ => false end.
Definition joined p : bool := forallb exited (workers_ p).
Definition Shutdown_join p : option (ThreadPool T) :=
  if shutdown_ (tp_queue p) && joined p then Some (notify_idle p) else None.

Definition ThreadCount p : Z := Z.of_nat (length (workers_ p)).
Definition PendingTaskCount p : Z := BoundedQueue.Size (tp_queue p).
Definition IsShutdown p : bool := tp_shutdown p.

(** ** Schedules *)

Inductive event := ESubmit (t : T) | EWorker (i : nat) | EWait | EFlag | EQueue | EJoin.

(** The tasks accepted by a step, with the state after it. *)
Definition run_event (e : event) p : option (list T * ThreadPool T) :=
  match e with
  | ESubmit t => (λ '(b, p'), (if b : bool then [t] else [], p')) <$> Submit t p
  | EWorker i => pair [] <$> WorkerLoop i p
  | EWait => pair [] <$> WaitForIdle p
  | EFlag => pair [] <$> Shutdown_flag p
  | EQueue => pair [] <$> Shutdown_queue p
  | EJoin => pair [] <$> Shutdown_join p
  end.

Fixpoint run (es : list event) p : option (list T * ThreadPool T) :=
  match es with
  | [] => Some ([], p)
  | e :: es' =>
      '(a, p1) ← run_event e p;
      '(a', p2) ← run es' p1;
      Some (a ++ a', p2)
  end.

(** ** What the workers hold *)

Definition held (w : Worker T) : list T :=
  match w with Taken t | Counted t => [t] | _ => [] end.
Definition counts (w : Worker T) : Z :=
  match w with Counted _ | Ran => 1 | _ => 0 end.

Definition in_hand p : list T := workers_ p ≫= held.
Definition busy p : Z := foldr (λ w n, counts w + n) 0 (workers_ p).

(** Everything accepted is queued, in hand or done; the counter counts the workers
    between its two updates; who left the loop saw the queue empty and closed. *)
Record consistent (accepted : list T) p : Prop := {
  ps_tasks : accepted ≡ₚ tp_ran p ++ in_hand p ++ queue_ (tp_queue p);
  ps_active : active_tasks_ p = to_uint64 (busy p);
  ps_exited : Exited ∈ workers_ p -> queue_ (tp_queue p) = [] ∧ shutdown_ (tp_queue p) = true;
  ps_within : BoundedQueue.within (tp_queue p) }.

Lemma in_hand_set (ws : list (Worker T)) i w w' :
  ws !! i = Some w -> ∃ k, ws ≫= held ≡ₚ held w ++ k ∧ <[i := w']> ws ≫= held ≡ₚ held w' ++ k.
Proof.
  intros Hi. exists ((take i ws ++ drop (S i) ws) ≫= held).
  rewrite <- (take_drop_middle ws i w Hi) at 1. rewrite insert_take_drop by (by eapply lookup_lt_Some).
  split; by rewrite !bind_app, bind_cons, Permutation_app_swap_app.
Qed.

Lemma busy_set (ws : list (Worker T)) i w w' :
  ws !! i = Some w ->
  foldr (λ w n, counts w + n) 0 (<[i := w']> ws) = foldr (λ w n, counts w + n) 0 ws + counts w' - counts w.
Proof.
  revert i. induction ws as [|v ws IH]; intros [|i] E; simpl in *; [done|done| |].
  - injection E as ->. lia.
  - rewrite IH by done. lia.
Qed.

Lemma exited_set (ws : list (Worker T)) i w :
  w ≠ Exited -> Exited ∈ <[i := w]> ws -> Exited ∈ ws.
Proof.
  intros Hw (j & Hj)%list_elem_of_lookup. apply list_lookup_insert_Some in Hj as [(_ & E & _)|[_ Hj]].
  - by symmetry in E.
  - by eapply list_elem_of_lookup_2.
Qed.

Lemma to_uint64_shift a d : to_uint64 (to_uint64 a + d) = to_uint64 (a + d).
Proof. unfold to_uint64, wrap_u. by rewrite Zplus_mod_idemp_l. Qed.

Lemma notify_idle_same p :
  tp_queue (notify_idle p) = tp_queue p ∧ workers_ (notify_idle p) = workers_ p ∧
  active_tasks_ (notify_idle p) = active_tasks_ p ∧ tp_ran (notify_idle p) = tp_ran p.
Proof. unfold notify_idle. by destruct (tp_waiter p). Qed.

(** A step that leaves the tasks, the counter and the workers alone. *)
Lemma consistent_frame a p p' :
  queue_ (tp_queue p') = queue_ (tp_queue p) -> capacity_ (tp_queue p') = capacity_ (tp_queue p) ->
  (shutdown_ (tp_queue p) = true -> shutdown_ (tp_queue p') = true) ->
  workers_ p' = workers_ p -> active_tasks_ p' = active_tasks_ p -> tp_ran p' = tp_ran p ->
  consistent a p -> consistent a p'.
Proof.
  intros Eq Ec Es Ew Ea Er [Ht Hn Hx Hb]. split.
  - unfold in_hand. by rewrite Er, Ew, Eq.
  - unfold busy. by rewrite Ea, Ew.
  - rewrite Ew, Eq. naive_solver.
  - unfold BoundedQueue.within, BoundedQueue.Size. by rewrite Eq, Ec.
Qed.

(** A worker moves on: what it held, together with what left the queue, is what it
    holds now and what it ran. *)
Lemma consistent_worker a p i w w' q n ran :
  workers_ p !! i = Some w ->
  tp_ran p ++ held w ++ queue_ (tp_queue p) ≡ₚ ran ++ held w' ++ queue_ q ->
  to_uint64 (busy p + counts w' - counts w) = n ->
  (w' = Exited ∨ Exited ∈ workers_ p -> queue_ q = [] ∧ shutdown_ q = true) ->
  BoundedQueue.within q ->
  consistent a p -> ∀ x s, consistent a (mkThreadPool q (<[i := w']> (workers_ p)) n s x ran).
Proof.
  intros Hi Hp Hn Hx Hb [Ht _ _ _] x s. split; simpl; [| | |done].
  - rewrite Ht. unfold in_hand. simpl. destruct (in_hand_set _ i w w' Hi) as (k & -> & ->).
    rewrite !(Permutation_app_comm _ k), <- !app_assoc, !(Permutation_app_swap_app _ k).
    by apply Permutation_app_head.
  - unfold busy in *. simpl. rewrite (busy_set _ i w w' Hi). by rewrite Hn.
  - intros Hin. apply Hx. destruct (decide (exited w')) as [Ee|Ee]; [left; by destruct w'|]. right.
    apply (exited_set _ i w'); [|done]. by intros ->.
Qed.

Lemma WorkerLoop_consistent a i p p' :
  WorkerLoop i p = Some p' -> consistent a p -> consistent a p'.
Proof.
  unfold WorkerLoop. destruct (workers_ p !! i) as [w|] eqn:Hi; simpl; [|done]. intros Hs Hc.
  pose proof Hc as [Ht Hn Hx Hb].
  destruct w as [|t|t| | |]; simpl in Hs.
  - destruct (BoundedQueue.Pop (tp_queue p)) as [[r q]|] eqn:E; simpl in Hs; [|done]. injection Hs as <-.
    destruct (BoundedQueue.run_op_step BoundedQueue.OPop (tp_queue p) [] (option_list r) q) as (Hf & Hw & _ & Hd).
    { simpl. by rewrite E. }
    rewrite app_nil_r in Hf. apply (consistent_worker a p i AtPop); simpl; try done.
    + apply Permutation_app_head. rewrite Hf. by destruct r.
    + destruct r; simpl; rewrite Hn; f_equal; lia.
    + intros [Er|Hin].
      * destruct r; [done|]. unfold BoundedQueue.Pop, BoundedQueue.pop_ready, BoundedQueue.Empty, BoundedQueue.TryPop in E.
        destruct (queue_ (tp_queue p)) eqn:Eq; simpl in E; [|done].
        destruct (shutdown_ (tp_queue p)) eqn:Es; simpl in E; [|done]. by injection E as <-.
      * destruct (Hx Hin) as [Eq Es]. destruct (Hd Es) as [_ Es']. split; [|done]. rewrite Eq in Hf.
        by destruct r, (queue_ q).
    + by apply Hw.
  - injection Hs as <-. apply (consistent_worker a p i (Taken t)); simpl; try done.
    + rewrite Hn, to_uint64_shift. f_equal. lia.
    + intros [?|Hin]; [done|]. by apply Hx.
  - injection Hs as <-. apply (consistent_worker a p i (Counted t)); simpl; try done.
    + by rewrite <- app_assoc.
    + rewrite Hn. f_equal. lia.
    + intros [?|Hin]; [done|]. by apply Hx.
  - injection Hs as <-. apply (consistent_worker a p i Ran); simpl; try done.
    + rewrite Hn. unfold Z.sub at 2. rewrite to_uint64_shift. f_equal. lia.
    + intros [?|Hin]; [done|]. by apply Hx.
  - injection Hs as <-. unfold set_worker. destruct (notify_idle_same p) as (-> & -> & -> & ->).
    apply (consistent_worker a p i Notifying); simpl; try done.
    + rewrite Hn. f_equal. lia.
    + intros [?|Hin]; [done|]. by apply Hx.
  - done.
Qed.

Lemma Submit_consistent a t b p p' :
  Submit t p = Some (b, p') -> consistent a p -> consistent (a ++ if b then [t] else []) p'.
Proof.
  unfold Submit. destruct (BoundedQueue.Push t (tp_queue p)) as [[b' q]|] eqn:E; simpl; [|done].
  intros [= -> <-] [Ht Hn Hx Hb].
  destruct (BoundedQueue.run_op_step (BoundedQueue.OPush t) (tp_queue p) (if b then [t] else []) [] q) as (Hf & Hw & _ & Hd).
  { simpl. by rewrite E. }
  split; simpl; [|done| |by apply Hw].
  - unfold in_hand in *. simpl in *. rewrite <- Hf, Ht. by rewrite <- !app_assoc.
  - intros Hin. destruct (Hx Hin) as [Eq Es]. destruct (Hd Es) as [Ea Es']. split; [|done].
    by rewrite Ea, app_nil_r, Eq in Hf.
Qed.

Lemma run_event_consistent a e p a' p' :
  run_event e p = Some (a', p') -> consistent a p -> consistent (a ++ a') p'.
Proof.
  destruct e as [t|i| | | |]; simpl.
  - destruct (Submit t p) as [[b p1]|] eqn:E; simpl; [|done]. intros [= <- <-]. by apply Submit_consistent.
  - destruct (WorkerLoop i p) as [p1|] eqn:E; simpl; [|done]. intros [= <- <-]. rewrite app_nil_r.
    by apply (WorkerLoop_consistent a i).
  - unfold WaitForIdle. destruct (tp_waiter p); simpl; intros [= <- <-]; rewrite app_nil_r; by apply consistent_frame.
  - unfold Shutdown_flag. destruct (decide _); [done|]. destruct (tp_shutdown p); simpl; [done|].
    intros [= <- <-]. rewrite app_nil_r. by apply consistent_frame.
  - unfold Shutdown_queue. destruct (tp_shutdown p); simpl; [|done]. intros [= <- <-]. rewrite app_nil_r.
    by apply consistent_frame.
  - unfold Shutdown_join. destruct (_ && _); simpl; [|done]. intros [= <- <-]. rewrite app_nil_r.
    destruct (notify_idle_same p) as (Eq & Ew & Ea & Er). apply consistent_frame; rewrite ?Eq; done.
Qed.

Lemma run_consistent a es p a' p' :
  run es p = Some (a', p') -> consistent a p -> consistent (a ++ a') p'.
Proof.
  revert a p a'. induction es as [|e es IH]; intros a p a'; simpl.
  - intros [= <- <-]. by rewrite app_nil_r.
  - destruct (run_event e p) as [[a1 p1]|] eqn:E1; simpl; [|done].
    destruct (run es p1) as [[a2 p2]|] eqn:E2; simpl; [|done]. intros [= <- <-] Hc. rewrite app_assoc.
    apply (IH _ _ _ E2). by apply (run_event_consistent a e p).
Qed.

Lemma in_hand_start n : replicate n AtPop ≫= held = [].
Proof. by induction n. Qed.

Lemma busy_start n : foldr (λ w n, counts w + n) 0 (replicate n (@AtPop T)) = 0.
Proof. by induction n as [|n IH]; [|simpl; rewrite IH]. Qed.

Lemma start_consistent n cap : 0 <= cap -> consistent [] (start n cap).
Proof.
  intros Hc. split; simpl.
  - unfold in_hand. simpl. by rewrite in_hand_start.
  - unfold busy. simpl. by rewrite busy_start.
  - intros [E _]%elem_of_replicate. done.
  - unfold BoundedQueue.within, BoundedQueue.Size. simpl. lia.
Qed.

(** Under any interleaving of submitters, workers, a waiter and a shutdown, every
    task a [Submit] accepted is in exactly one place: still queued, in the hands of one
    worker, or run once; [active_tasks_] is the number of workers between its two
    updates; the queue stays within its capacity. *)
Theorem thread_pool_exactly_once n cap es accepted p :
  0 <= cap -> run es (start n cap) = Some (accepted, p) ->
  accepted ≡ₚ tp_ran p ++ in_hand p ++ queue_ (tp_queue p) ∧
  active_tasks_ p = to_uint64 (busy p) ∧
  BoundedQueue.Size (tp_queue p) <= capacity_ (tp_queue p).
Proof.
  intros Hc Hr. destruct (run_consistent [] es _ _ _ Hr (start_consistent n cap Hc)) as [H1 H2 _ H3].
  by rewrite app_nil_l in H1.
Qed.

(** ** Shutting down *)

(** Steps left for the workers once nothing more is accepted. *)
Definition weight (w : Worker T) : nat :=
  match w with AtPop => 1 | Taken _ => 5 | Counted _ => 4 | Ran => 3 | Notifying => 2 | Exited => 0 end.
Definition work p : nat := 5 * length (queue_ (tp_queue p)) + sum_list_with weight (workers_ p).

Lemma weight_set (ws : list (Worker T)) i w w' :
  ws !! i = Some w ->
  (sum_list_with weight (<[i := w']> ws) + weight w = sum_list_with weight ws + weight w')%nat.
Proof.
  revert i. induction ws as [|v ws IH]; intros [|i] E; simpl in *; [done|done| |].
  - injection E as ->. lia.
  - specialize (IH i E). lia.
Qed.

Lemma WorkerLoop_work i p p' : WorkerLoop i p = Some p' -> work p = S (work p').
Proof.
  unfold WorkerLoop, work. destruct (workers_ p !! i) as [w|] eqn:Hi; simpl; [|done].
  assert (Hset : ∀ w', (sum_list_with weight (<[i := w']> (workers_ p)) + weight w =
    sum_list_with weight (workers_ p) + weight w')%nat) by (intros; by apply weight_set).
  destruct w as [|t|t| | |]; simpl in *.
  - unfold BoundedQueue.Pop. destruct (negb _); simpl; [done|]. unfold BoundedQueue.TryPop.
    destruct (queue_ (tp_queue p)) as [|t l] eqn:Eq; simpl; intros [= <-]; simpl; rewrite ?Eq; simpl.
    + specialize (Hset Exited). simpl in Hset. lia.
    + specialize (Hset (Taken t)). simpl in Hset. lia.
  - intros [= <-]. simpl. specialize (Hset (Counted t)). simpl in Hset. lia.
  - intros [= <-]. simpl. specialize (Hset Ran). simpl in Hset. lia.
  - intros [= <-]. simpl. specialize (Hset Notifying). simpl in Hset. lia.
  - intros [= <-]. simpl. destruct (notify_idle_same p) as (-> & -> & _). specialize (Hset AtPop). simpl in Hset. lia.
  - done.
Qed.

(** Runs of the workers alone. *)
Fixpoint run_workers (order : list nat) p : option (ThreadPool T) :=
  match order with
  | [] => Some p
  | i :: order' => WorkerLoop i p ≫= run_workers order'
  end.

Lemma run_workers_run order p p' : run_workers order p = Some p' -> run (map EWorker order) p = Some ([], p').
Proof.
  revert p. induction order as [|i order IH]; intros p; simpl; [by intros [= ->]|].
  destruct (WorkerLoop i p) as [p1|]; simpl; [|done]. intros E. by rewrite (IH _ E).
Qed.

Lemma run_workers_work order p p' : run_workers order p = Some p' -> work p = (length order + work p')%nat.
Proof.
  revert p. induction order as [|i order IH]; intros p; simpl; [by intros [= ->]|].
  destruct (WorkerLoop i p) as [p1|] eqn:E; simpl; [|done]. intros Hr.
  rewrite (WorkerLoop_work _ _ _ E), (IH _ Hr). done.
Qed.

Lemma WorkerLoop_shutdown i p p' :
  WorkerLoop i p = Some p' -> shutdown_ (tp_queue p) = true -> shutdown_ (tp_queue p') = true.
Proof.
  unfold WorkerLoop. destruct (workers_ p !! i) as [[|t|t| | |]|]; simpl; [|intros [= <-]; try done..|done|done].
  - unfold BoundedQueue.Pop. destruct (negb _); simpl; [done|]. unfold BoundedQueue.TryPop.
    by destruct (queue_ (tp_queue p)); intros [= <-].
  - simpl. by destruct (notify_idle_same p) as (-> & _).
Qed.

Lemma run_workers_shutdown order p p' :
  run_workers order p = Some p' -> shutdown_ (tp_queue p) = true -> shutdown_ (tp_queue p') = true.
Proof.
  revert p. induction order as [|i order IH]; intros p; simpl; [by intros [= ->]|].
  destruct (WorkerLoop i p) as [p1|] eqn:E; simpl; [|done]. intros Hr Hs. apply (IH _ Hr).
  by apply (WorkerLoop_shutdown i p).
Qed.

(** On a closed queue a worker inside the loop can always go on. *)
Lemma WorkerLoop_enabled i p w :
  shutdown_ (tp_queue p) = true -> workers_ p !! i = Some w -> exited w = false -> is_Some (WorkerLoop i p).
Proof.
  intros Hs Hi Hw. unfold WorkerLoop. rewrite Hi. simpl. destruct w as [|t|t| | |]; simpl; [|by eauto..|done].
  unfold BoundedQueue.Pop, BoundedQueue.pop_ready. rewrite Hs, orb_true_r. simpl.
  destruct (BoundedQueue.TryPop _). simpl. eauto.
Qed.

Lemma not_joined p : joined p = false -> ∃ i w, workers_ p !! i = Some w ∧ exited w = false.
Proof.
  unfold joined. induction (workers_ p) as [|w ws IH]; simpl; [done|].
  destruct (exited w) eqn:E; simpl.
  - intros Hj. destruct (IH Hj) as (i & w' & Hi & Hw). by exists (S i), w'.
  - intros _. by exists 0%nat, w.
Qed.

Lemma joined_in_hand p : joined p = true -> in_hand p = [] ∧ busy p = 0.
Proof.
  unfold joined, in_hand, busy. by induction (workers_ p) as [|[] ws IH]; simpl.
Qed.

(** The workers left alone: they finish. *)
Lemma workers_finish p :
  shutdown_ (tp_queue p) = true -> ∃ order p', run_workers order p = Some p' ∧ joined p' = true.
Proof.
  remember (work p) as k eqn:Hk. revert p Hk. induction k as [|k IH]; intros p Hk Hs.
  - destruct (joined p) eqn:Ej; [by exists [], p|]. destruct (not_joined p Ej) as (i & w & Hi & Hw).
    destruct (WorkerLoop_enabled i p w Hs Hi Hw) as [p1 E]. apply WorkerLoop_work in E. lia.
  - destruct (joined p) eqn:Ej; [by exists [], p|]. destruct (not_joined p Ej) as (i & w & Hi & Hw).
    destruct (WorkerLoop_enabled i p w Hs Hi Hw) as [p1 E]. pose proof (WorkerLoop_work _ _ _ E).
    destruct (IH p1 ltac:(lia) (WorkerLoop_shutdown _ _ _ E Hs)) as (order & p' & Hr & Hj).
    exists (i :: order), p'. simpl. by rewrite E.
Qed.

(** Once the workers have left the loop, every accepted task was run. *)
Lemma joined_done a p :
  (0 < length (workers_ p))%nat -> consistent a p -> joined p = true -> tp_ran p ≡ₚ a ∧ active_tasks_ p = 0.
Proof.
  intros Hn [Ht Ha Hx _] Hj. destruct (joined_in_hand p Hj) as [Eh Eb]. rewrite Eh in Ht.
  assert (Exited ∈ workers_ p) as Hin.
  { unfold joined in Hj. destruct (workers_ p) as [|[] ws]; simpl in *; try done; [lia|]. by left. }
  destruct (Hx Hin) as [Eq _]. rewrite Eq, !app_nil_r in Ht. split; [by symmetry|]. by rewrite Ha, Eb.
Qed.

(** A run of the workers that cannot be extended has joined them all, with every
    accepted task run. *)
Lemma workers_stuck a p order p' :
  (0 < length (workers_ p))%nat -> length (workers_ p') = length (workers_ p) ->
  shutdown_ (tp_queue p) = true -> consistent a p ->
  run_workers order p = Some p' -> (∀ i, WorkerLoop i p' = None) ->
  joined p' = true ∧ tp_ran p' ≡ₚ a ∧ active_tasks_ p' = 0.
Proof.
  intros Hn Hl Hs Hc Hr Hstuck. pose proof (run_workers_shutdown _ _ _ Hr Hs) as Hs'.
  assert (Hj : joined p' = true).
  { destruct (joined p') eqn:Ej; [done|]. destruct (not_joined p' Ej) as (i & w & Hi & Hw).
    destruct (WorkerLoop_enabled i p' w Hs' Hi Hw) as [p1 E]. by rewrite Hstuck in E. }
  pose proof (run_consistent a _ _ _ _ (run_workers_run _ _ _ Hr) Hc) as Hc'. rewrite app_nil_r in Hc'.
  split; [done|]. apply (joined_done a p'); [lia|done|done].
Qed.

Lemma WorkerLoop_length i p p' : WorkerLoop i p = Some p' -> length (workers_ p') = length (workers_ p).
Proof.
  unfold WorkerLoop. destruct (workers_ p !! i) as [[|t|t| | |]|]; simpl; [|intros [= <-]; simpl; rewrite ?length_insert; try done..|done|done].
  - destruct (BoundedQueue.Pop _) as [[r q]|]; simpl; [|done]. intros [= <-]. simpl. by rewrite length_insert.
  - by destruct (notify_idle_same p) as (_ & -> & _).
Qed.

Lemma run_event_length e p a p' : run_event e p = Some (a, p') -> length (workers_ p') = length (workers_ p).
Proof.
  destruct e as [t|i| | | |]; simpl.
  - unfold Submit. destruct (BoundedQueue.Push _ _) as [[b q]|]; simpl; [|done]. by intros [= _ <-].
  - destruct (WorkerLoop i p) as [p1|] eqn:E; simpl; [|done]. intros [= _ <-]. by apply (WorkerLoop_length i).
  - unfold WaitForIdle. by destruct (tp_waiter p); simpl; intros [= _ <-].
  - unfold Shutdown_flag. destruct (decide _); [done|]. destruct (tp_shutdown p); simpl; [done|]. by intros [= _ <-].
  - unfold Shutdown_queue. destruct (tp_shutdown p); simpl; [|done]. by intros [= _ <-].
  - unfold Shutdown_join. destruct (_ && _); simpl; [|done]. intros [= _ <-]. by destruct (notify_idle_same p) as (_ & -> & _).
Qed.

Lemma run_length es p a p' : run es p = Some (a, p') -> length (workers_ p') = length (workers_ p).
Proof.
  revert p a. induction es as [|e es IH]; intros p a; simpl; [by intros [= _ ->]|].
  destruct (run_event e p) as [[a1 p1]|] eqn:E1; simpl; [|done].
  destruct (run es p1) as [[a2 p2]|] eqn:E2; simpl; [|done]. intros [= _ <-].
  rewrite (IH _ _ E2). by apply (run_event_length e p a1).
Qed.

(** C17: Shutting a pool down drains it: from any state in which the queue was closed,
    however the workers are scheduled, they take at most [work p] more steps, and where
    none of them can go on all have left their loop, so that the joins return, every
    task ever accepted was run exactly once and [active_tasks_] is zero; such an end is
    reached. *)
Theorem thread_pool_shutdown_drains n cap es accepted p :
  0 <= cap -> (0 < n)%nat -> run es (start n cap) = Some (accepted, p) -> shutdown_ (tp_queue p) = true ->
  (∀ order p', run_workers order p = Some p' ->
     (length order <= work p)%nat ∧
     ((∀ i, WorkerLoop i p' = None) ->
        is_Some (Shutdown_join p') ∧ tp_ran p' ≡ₚ accepted ∧ active_tasks_ p' = 0)) ∧
  ∃ order p', run_workers order p = Some p' ∧ is_Some (Shutdown_join p').
Proof.
  intros Hc Hn Hr Hs. pose proof (run_consistent [] es _ _ _ Hr (start_consistent n cap Hc)) as Hcons.
  rewrite app_nil_l in Hcons. pose proof (run_length _ _ _ _ Hr) as Hl. simpl in Hl. rewrite length_replicate in Hl.
  assert (Hjoin : ∀ order p', run_workers order p = Some p' -> joined p' = true -> is_Some (Shutdown_join p')).
  { intros order p' Hw Hj. unfold Shutdown_join. rewrite (run_workers_shutdown _ _ _ Hw Hs), Hj. simpl. eauto. }
  split.
  - intros order p' Hw. split; [rewrite (run_workers_work _ _ _ Hw); lia|]. intros Hstuck.
    destruct (workers_stuck accepted p order p') as (Hj & Ht & Ha); try done; [lia| |by eauto].
    apply (run_length _ _ _ _ (run_workers_run _ _ _ Hw)).
  - destruct (workers_finish p Hs) as (order & p' & Hw & Hj). eauto.
Qed.

(** ** Where [WaitForIdle] falls short *)

(** [WaitForIdle] may return too early: a task that a worker has popped and not yet
    counted is in neither of the two places the predicate looks at.  Task [t] was
    accepted, the pool is not shut down, the call returns, and the task has not run. *)
Theorem wait_for_idle_returns_early t :
  ∃ p, run [ESubmit t; EWorker 0; EWait] (start 1 1) = Some ([t], p) ∧
    tp_waiter p = Returned ∧ tp_shutdown p = false ∧ tp_ran p = [] ∧ in_hand p = [t].
Proof. eexists. split; [reflexivity|done]. Qed.

(** [WaitForIdle] may never return: the last worker changes the counter and notifies
    without [idle_mutex_], so both can fall between the test of the predicate and the
    wait.  The pool is then idle with the predicate true, the waiter is asleep, and no
    thread of the pool has a step left that would wake it. *)
Theorem wait_for_idle_lost_wakeup t :
  ∃ p, run [ESubmit t; EWorker 0; EWorker 0; EWorker 0; EWait; EWorker 0; EWorker 0; EWait] (start 1 1)
         = Some ([t], p) ∧
    tp_waiter p = Asleep ∧ idle_ready p = true ∧ tp_ran p = [t] ∧
    WaitForIdle p = None ∧ ∀ i, WorkerLoop i p = None.
Proof. eexists. split; [reflexivity|]. split_and!; try done. by intros [|i]. Qed.
End ThreadPool.

(** ** Runs *)

Definition sample_run : list event :=
  [ESubmit 1; ESubmit 2; EWorker 0; ESubmit 3; EFlag; EWorker 1; EQueue; ESubmit 4].

Lemma thread_pool_exactly_once_witness :
  ∃ p, run sample_run (start 2 2) = Some ([1; 2; 3], p) ∧
    [1; 2; 3] ≡ₚ tp_ran p ++ in_hand p ++ queue_ (tp_queue p).
Proof.
  eexists. split; [reflexivity|].
  eapply (thread_pool_exactly_once 2 2 sample_run [1; 2; 3]); [lia|reflexivity].
Defined.

Lemma thread_pool_shutdown_drains_witness :
  ∃ p order p', run sample_run (start 2 2) = Some ([1; 2; 3], p) ∧
    run_workers order p = Some p' ∧ is_Some (Shutdown_join p').
Proof.
  eexists. edestruct (thread_pool_shutdown_drains 2 2 sample_run [1; 2; 3]) as [_ (order & p' & Hw)];
    [lia|lia|reflexivity|reflexivity|].
  exists order, p'. split; [reflexivity|exact Hw].
Defined.
End ThreadPool.
