(* ===== verification/Interleave.v ===== *)
(** * Requests that run at the same time

    [DispatchHttp] runs on the workers of [storage_pool] (lib/vox_net/http_session.cpp,
    bin/main.cpp), so the calls of several requests interleave.  A repository call
    is atomic: it holds [Database::connection_mutex_] from its first statement to
    its last (lib/vox_store/database.cpp, [WriteLock] and [ReadLock]), and nothing is
    held between two calls.  A request is therefore a program whose steps are the
    atomic calls it makes; this file has the programs, the workers that run them and
    the two rules by which the components' theorems are proved. *)

From S2P Require Import Prelude Types.

(** ** Programs *)

(** [Call pc c k]: the atomic call [c], the [pc]-th of the function, then [k] on its
    result.  The position is for the reader of a state; no step depends on it. *)
Inductive prog (S A : Type) : Type :=
  | Return (r : Result A)
  | Call (pc : nat) (B : Type) (c : M S B) (k : Result B -> prog S A).
Arguments Return {S A} r.
Arguments Call {S A} pc {B} c k.

(** The program alone, with no other request between its calls. *)
Fixpoint run_prog {S A} (p : prog S A) : M S A := λ s,
  match p with
  | Return r => (r, s)
  | Call _ c k => let '(r, s1) := c s in run_prog (k r) s1
  end.

(** The next call of a program. *)
Definition step_prog {S A} (p : prog S A) (s : S) : option (prog S A * S) :=
  match p with
  | Return _ => None
  | Call _ c k => let '(r, s1) := c s in Some (k r, s1)
  end.

(** [auto x = c; if (!x) return std::unexpected(x.error());] as the [pc]-th call. *)
Definition call_then {S A B} (pc : nat) (c : M S B) (k : B -> prog S A) : prog S A :=
  Call pc c (λ r, match r with Ok a => k a | Err e => Return (Err e) end).
Notation "'call!' pc '|' x ':=' c 'in' k" := (call_then pc c (λ x, k))
  (at level 200, pc at level 0, x pattern, right associativity) : vox_scope.

Definition preturn {S A} (a : A) : prog S A := Return (Ok a).
Definition pthrow {S A} (ec : ErrorCode) (m : string) : prog S A := Return (Err (mkError ec m)).

(** A program called by another one: an error ends the caller. *)
Fixpoint pbind {S A B} (p : prog S A) (k : A -> prog S B) : prog S B :=
  match p with
  | Return (Ok a) => k a
  | Return (Err e) => Return (Err e)
  | Call pc c f => Call pc c (λ r, pbind (f r) k)
  end.

(** A range-based [for] that updates a local variable. *)
Fixpoint pfor_fold {S A B} (l : list A) (body : B -> A -> prog S B) (b : B) : prog S B :=
  match l with
  | [] => preturn b
  | x :: l' => pbind (body b x) (pfor_fold l' body)
  end.

Lemma run_pbind {S A B} (p : prog S A) (k : A -> prog S B) s :
  run_prog (pbind p k) s = bind (run_prog p) (λ a, run_prog (k a)) s.
Proof.
  revert s. induction p as [[a|e]|pc C c f IH]; intros s; [done..|]. unfold bind. simpl.
  destruct (c s) as [r s1]. rewrite IH. done.
Qed.

Lemma run_pfor_fold {S A B} (l : list A) (body : B -> A -> prog S B) (mbody : B -> A -> M S B) b s :
  (∀ b x s, run_prog (body b x) s = mbody b x s) ->
  run_prog (pfor_fold l body b) s = for_fold l mbody b s.
Proof.
  intros Hb. revert b s. induction l as [|x l IH]; intros b s; [done|]. cbn [pfor_fold for_fold].
  rewrite run_pbind. unfold bind. rewrite Hb. destruct (mbody b x s) as [[b'|e] s1]; [apply IH|done].
Qed.

Lemma run_call_then {S A B} pc (c : M S B) (k : B -> prog S A) s :
  run_prog (call_then pc c k) s = bind c (λ a, run_prog (k a)) s.
Proof. unfold call_then, bind. simpl. by destruct (c s) as [[a|e] s1]. Qed.

(** Every call a program can come to make satisfies [P]. *)
Inductive prog_all {S A} (P : ∀ B, nat -> M S B -> Prop) : prog S A -> Prop :=
  | all_return r : prog_all P (Return r)
  | all_call pc B (c : M S B) k : P B pc c -> (∀ r, prog_all P (k r)) -> prog_all P (Call pc c k).

Lemma all_call_then {S A B} P pc (c : M S B) (k : B -> prog S A) :
  P B pc c -> (∀ a, prog_all P (k a)) -> prog_all P (call_then pc c k).
Proof. intros Hc Hk. apply all_call; [done|]. intros [a|e]; [apply Hk|constructor]. Qed.

Lemma all_pbind {S A B} P (p : prog S A) (k : A -> prog S B) :
  prog_all P p -> (∀ a, prog_all P (k a)) -> prog_all P (pbind p k).
Proof.
  intros Hp Hk. induction Hp as [[a|e]|pc C c f Hc _ IH]; simpl; [apply Hk|constructor|].
  by constructor.
Qed.

Lemma all_pfor_fold {S A B} P (l : list A) (body : B -> A -> prog S B) b :
  (∀ b x, prog_all P (body b x)) -> prog_all P (pfor_fold l body b).
Proof.
  intros Hb. revert b. induction l as [|x l IH]; intros b; simpl; [constructor|]. by apply all_pbind.
Qed.

(** A read. *)
Lemma run_read {S A B} pc (f : S -> B) (k : B -> prog S A) s :
  run_prog (call_then pc (gets f) k) s = run_prog (k (f s)) s.
Proof. done. Qed.

Lemma bind_gets {S A B} (f : S -> A) (k : A -> M S B) s : bind (gets f) k s = k (f s) s.
Proof. done. Qed.

Lemma bind_ext {S A B} (c c' : M S A) (k k' : A -> M S B) s :
  c s = c' s -> (∀ a s1, k a s1 = k' a s1) -> bind c k s = bind c' k' s.
Proof. intros Hc Hk. unfold bind. rewrite Hc. destruct (c' s) as [[a|e] s1]; [apply Hk|done]. Qed.

Lemma step_call_then {S A B} pc (c : M S B) (k : B -> prog S A) s :
  step_prog (call_then pc c k) s =
  Some (match (c s).1 with Ok a => k a | Err e => Return (Err e) end, (c s).2).
Proof. unfold call_then. simpl. by destruct (c s). Qed.

(** ** Workers *)

Section pool.
Context {S Q A E : Type} (body : Q -> prog S A) (env : E -> S -> S).

(** The requests in flight, one per in_progress worker, the state they share and the
    answers so far. *)
Record Pool := mkPool {
  slots : list (option (Q * prog S A));
  shared : S;
  answered : list (Q * Result A) }.

(** A free worker takes a request; a in_progress one makes its next call, or answers; or
    another part of the server changes the shared state. *)
Inductive pool_event :=
  | Begin (i : nat) (q : Q)
  | Step (i : nat)
  | Env (e : E).

Definition pool_step (P : Pool) (ev : pool_event) : Pool :=
  match ev with
  | Begin i q =>
      match slots P !! i with
      | Some None => mkPool (<[i := Some (q, body q)]> (slots P)) (shared P) (answered P)
      | _ => P
      end
  | Step i =>
      match slots P !! i with
      | Some (Some (q, Return r)) =>
          mkPool (<[i := None]> (slots P)) (shared P) ((q, r) :: answered P)
      | Some (Some (q, p)) =>
          match step_prog p (shared P) with
          | Some (p', s) => mkPool (<[i := Some (q, p')]> (slots P)) s (answered P)
          | None => P
          end
      | _ => P
      end
  | Env e => mkPool (slots P) (env e (shared P)) (answered P)
  end.

Definition pool_run (evs : list pool_event) (P : Pool) : Pool := foldl pool_step P evs.

Definition idle_pool (workers : nat) (s : S) : Pool := mkPool (replicate workers None) s [].

(** The requests in flight and the answered ones, as programs. *)
Definition cells (P : Pool) : list (Q * prog S A) :=
  omap id (slots P) ++ ((λ a, (a.1, Return a.2)) <$> answered P).

(** What a step does to the cells, up to their order. *)
Inductive cells_step : list (Q * prog S A) -> S -> list (Q * prog S A) -> S -> Prop :=
  | cells_begin q l s : cells_step l s ((q, body q) :: l) s
  | cells_call q p p' l s s' : step_prog p s = Some (p', s') ->
      cells_step ((q, p) :: l) s ((q, p') :: l) s'
  | cells_env e l s : cells_step l s l (env e s)
  | cells_stay l s : cells_step l s l s.

Lemma omap_delete (l : list (option (Q * prog S A))) i x :
  l !! i = Some x -> omap id l ≡ₚ option_list x ++ omap id (delete i l).
Proof. intros Hi. rewrite (delete_Permutation l i x Hi) at 1. by destruct x. Qed.

Lemma delete_insert_same {X} (l : list X) i y : delete i (<[i := y]> l) = delete i l.
Proof. revert i. induction l as [|x l IH]; intros [|i]; simpl; [done..|]. by f_equal. Qed.

Lemma omap_insert (l : list (option (Q * prog S A))) i x y :
  l !! i = Some x -> omap id (<[i := y]> l) ≡ₚ option_list y ++ omap id (delete i l).
Proof.
  intros Hi. rewrite (omap_delete _ i y).
  - by rewrite delete_insert_same.
  - apply list_lookup_insert_eq. by eapply lookup_lt_Some.
Qed.

Lemma pool_step_cells P ev :
  ∃ l l', cells P ≡ₚ l ∧ cells (pool_step P ev) ≡ₚ l' ∧
    cells_step l (shared P) l' (shared (pool_step P ev)).
Proof.
  destruct ev as [i q|i|e]; simpl.
  - destruct (slots P !! i) as [[c|]|] eqn:Hi; try (exists (cells P), (cells P); by repeat constructor).
    exists (cells P), ((q, body q) :: cells P). split; [done|]. split; [|constructor].
    unfold cells. simpl. by rewrite (omap_insert _ _ _ _ Hi), (omap_delete _ _ _ Hi).
  - destruct (slots P !! i) as [[[q [r|pc B c k]]|]|] eqn:Hi;
      try (exists (cells P), (cells P); by repeat constructor).
    + exists (cells P), (cells P). split; [done|]. split; [|constructor].
      unfold cells. simpl. rewrite (omap_insert _ _ _ _ Hi), (omap_delete _ _ _ Hi). simpl.
      by rewrite <- Permutation_middle.
    + destruct (step_prog (Call pc c k) (shared P)) as [[p' s]|] eqn:Ec;
        [|exists (cells P), (cells P); by repeat constructor].
      set (l := omap id (delete i (slots P)) ++ ((λ a, (a.1, Return a.2)) <$> answered P)).
      exists ((q, Call pc c k) :: l), ((q, p') :: l).
      split; [unfold cells; by rewrite (omap_delete _ _ _ Hi)|].
      split; [unfold cells; simpl; by rewrite (omap_insert _ _ _ _ Hi)|].
      by constructor.
  - exists (cells P), (cells P). split; [done|]. split; [done|constructor].
Qed.

Lemma pool_step_workers P ev : length (slots (pool_step P ev)) = length (slots P).
Proof.
  destruct ev as [i q|i|e]; simpl; [| |done].
  - destruct (slots P !! i) as [[c|]|]; simpl; [done| |done]. apply length_insert.
  - destruct (slots P !! i) as [[[q [r|pc B c k]]|]|]; try done; [apply length_insert|].
    destruct (step_prog _ _) as [[p' s]|]; [apply length_insert|done].
Qed.

Lemma cells_idle n s : cells (idle_pool n s) = [].
Proof. unfold cells. simpl. by induction n. Qed.

(** The requests still in flight. *)
Definition is_call (p : prog S A) : bool := match p with Call _ _ _ => true | Return _ => false end.
Definition in_progress (l : list (Q * prog S A)) : nat :=
  length (filter (λ c, is_call c.2 = true) l).

Lemma busy_bound P : (in_progress (cells P) <= length (slots P))%nat.
Proof.
  unfold in_progress, cells. rewrite filter_app, length_app.
  assert (Ha : filter (λ c, is_call c.2 = true)
                 ((λ a, (a.1, Return a.2)) <$> answered P) = ([] : list (Q * prog S A))).
  { induction (answered P) as [|a l IH]; [done|]. cbn [fmap list_fmap]. by rewrite filter_cons_False. }
  rewrite Ha, Nat.add_0_r. etrans; [apply length_filter|].
  clear Ha. induction (slots P) as [|[c|] l IH]; [done|apply le_n_S, IH|apply le_S, IH].
Qed.

(** Induction over a run: a property of the cells, in any order, and of the shared
    state that every step keeps. *)
Lemma pool_run_ind (J : list (Q * prog S A) -> S -> Prop) evs n s :
  Proper ((≡ₚ) ==> (=) ==> iff) J ->
  (∀ l s l' s', cells_step l s l' s' -> (in_progress l' <= n)%nat -> J l s -> J l' s') ->
  J [] s ->
  J (cells (pool_run evs (idle_pool n s))) (shared (pool_run evs (idle_pool n s))).
Proof.
  intros HJ Hstep H0.
  assert (Hi : length (slots (idle_pool n s)) = n ∧ J (cells (idle_pool n s)) (shared (idle_pool n s))).
  { rewrite cells_idle. simpl. by rewrite length_replicate. }
  revert Hi. generalize (idle_pool n s) as P. induction evs as [|ev evs IH]; intros P [Hn HP]; [done|].
  simpl. apply IH. rewrite pool_step_workers. split; [done|].
  pose proof (busy_bound (pool_step P ev)) as Hb. rewrite pool_step_workers, Hn in Hb.
  destruct (pool_step_cells P ev) as (l & l' & El & El' & Hst).
  unfold in_progress in *. rewrite El' in Hb |- *. rewrite El in HP. by eapply Hstep.
Qed.

(** ** The rely-guarantee rule

    [I]: the invariant of the shared state; [R]: what a call may do to it;
    [L q p s]: what the request [q], about to run [p], knows of it. *)
Section rules.
Context (I : S -> Prop) (R : S -> S -> Prop) (L : Q -> prog S A -> S -> Prop).

Record guarantees : Prop := {
  g_env e s : I s -> I (env e s) ∧ R s (env e s);
  g_begin q s : I s -> L q (body q) s;
  g_call q p s p' s' : I s -> L q p s -> step_prog p s = Some (p', s') ->
    I s' ∧ R s s' ∧ L q p' s';
  g_stable q p s s' : I s -> R s s' -> L q p s -> L q p s' }.

Definition pool_ok (l : list (Q * prog S A)) (s : S) : Prop := I s ∧ ∀ q p, (q, p) ∈ l -> L q p s.

Lemma pool_ok_step l s l' s' :
  guarantees -> cells_step l s l' s' -> pool_ok l s -> pool_ok l' s'.
Proof.
  intros G Hst [HI HL]. destruct Hst as [q l s|q p p' l s s' Hp|e l s|l s]; [..|done].
  - split; [done|]. intros q' p [[= -> ->]|Hin]%elem_of_cons; [by apply (g_begin G)|by apply HL].
  - destruct (g_call G q p s p' s' HI) as (HI' & HR & HL'); [apply HL; left|done|]. split; [done|].
    intros q' p1 [[= -> ->]|Hin]%elem_of_cons; [done|]. apply (g_stable G _ _ s); [done..|]. apply HL. by right.
  - destruct (g_env G e s HI) as [HI' HR]. split; [done|]. intros q p Hin.
    apply (g_stable G _ _ s); [done..|]. by apply HL.
Qed.

#[export] Instance pool_ok_proper : Proper ((≡ₚ) ==> (=) ==> iff) pool_ok.
Proof.
  intros l1 l2 Hl s ? <-. unfold pool_ok. apply and_iff_compat_l.
  split; intros Hp q p Hin; apply Hp; [by rewrite Hl|by rewrite <- Hl].
Qed.

Lemma pool_run_ok evs n s :
  guarantees -> I s ->
  pool_ok (cells (pool_run evs (idle_pool n s))) (shared (pool_run evs (idle_pool n s))).
Proof.
  intros G HI. apply (pool_run_ind pool_ok); [apply _| |].
  - intros l s0 l' s' Hst _. by apply pool_ok_step.
  - split; [done|]. by intros q p ?%not_elem_of_nil.
Qed.

(** ** At most one winner

    [won p]: the request that is about to run [p] has taken the resource [key q].
    Nobody takes a resource that is [taken]. *)
Context {K : Type} (won : prog S A -> bool) (key : Q -> K) (taken : K -> S -> Prop).

Record exclusive : Prop := {
  x_begin q : won (body q) = false;
  x_holds q p s : I s -> L q p s -> won p = true -> taken (key q) s;
  x_take q p s p' s' : I s -> L q p s -> step_prog p s = Some (p', s') ->
    won p = false -> won p' = true -> ¬ taken (key q) s }.

Definition winner (c : Q * prog S A) : option K := if won c.2 then Some (key c.1) else None.

Lemma winners_step l s l' s' :
  guarantees -> exclusive -> cells_step l s l' s' -> pool_ok l s ->
  NoDup (omap winner l) -> NoDup (omap winner l').
Proof.
  intros G X Hst [HI HL] Hnd. destruct Hst as [q l s|q p p' l s s' Hp|e l s|l s]; [..|done|done].
  - simpl. unfold winner at 1. simpl. by rewrite (x_begin X).
  - assert (Hrest : NoDup (omap winner l)).
    { simpl in Hnd. destruct (winner (q, p)); [by apply NoDup_cons in Hnd as [_ ?]|done]. }
    simpl in Hnd |- *. unfold winner at 1 in Hnd. unfold winner at 1. simpl in Hnd |- *.
    destruct (won p') eqn:Hw'; [|done]. destruct (won p) eqn:Hw; [done|].
    apply NoDup_cons. split; [|done].
    intros ([q' p1] & Hin & Hwin)%list_elem_of_omap. unfold winner in Hwin. simpl in Hwin.
    destruct (won p1) eqn:Hp1; [|done]. injection Hwin as Hk.
    apply (x_take X q p s p' s' HI); [apply HL; left|done..|]. rewrite <- Hk.
    apply (x_holds X q' p1 s); [done| |done]. apply HL. by right.
Qed.

Lemma pool_run_winners evs n s :
  guarantees -> exclusive -> I s -> NoDup (omap winner (cells (pool_run evs (idle_pool n s)))).
Proof.
  intros G X HI. apply (pool_run_ind (λ l s, pool_ok l s ∧ NoDup (omap winner l))).
  - intros l1 l2 Hl s1 ? <-. by rewrite Hl.
  - intros l s0 l' s' Hst _ [Hok Hnd]. split; [by eapply pool_ok_step|by eapply winners_step].
  - split; [split; [done|]; by intros q p ?%not_elem_of_nil|constructor].
Qed.
End rules.

(** ** One request at a time *)

(** A worker that is left alone answers, with what the program computes. *)
Lemma step_alone i q p : ∀ P,
  slots P !! i = Some (Some (q, p)) ->
  ∃ n, pool_run (replicate n (Step i)) P =
    mkPool (<[i := None]> (slots P)) (run_prog p (shared P)).2 ((q, (run_prog p (shared P)).1) :: answered P).
Proof.
  induction p as [r|pc B c k IH]; intros P Hi.
  - exists 1%nat. simpl. by rewrite Hi.
  - pose (P1 := pool_step P (Step i)).
    assert (E1 : P1 = mkPool (<[i := Some (q, k (c (shared P)).1)]> (slots P)) (c (shared P)).2 (answered P)).
    { unfold P1. cbn [pool_step]. rewrite Hi. cbn [step_prog]. by destruct (c (shared P)). }
    destruct (IH (c (shared P)).1 P1) as [n Hn].
    { rewrite E1. simpl. apply list_lookup_insert_eq. by eapply lookup_lt_Some. }
    exists (Datatypes.S n). cbn [replicate pool_run foldl]. fold P1. unfold pool_run in Hn.
    rewrite Hn, E1. simpl. rewrite list_insert_insert_eq. by destruct (c (shared P)).
Qed.
End pool.

Arguments Pool : clear implicits.
Arguments pool_event : clear implicits.
