(* ===== verification/Uuid.v ===== *)
(** * Identifiers (lib/vox_common/uuid.cpp)

    [GenerateUuid] formats two 64-bit draws of the thread's generator; the draws
    are its arguments. *)

From S2P Require Import Prelude Hex.

Definition kHighVersionMask : Z := 0xFFFFFFFFFFFF0FFF.
Definition kHighVersionValue : Z := 0x0000000000004000.
Definition kLowVariantMask : Z := 0x3FFFFFFFFFFFFFFF.
Definition kLowVariantValue : Z := 0x8000000000000000.
Definition kLowNodeMask : Z := 0x0000FFFFFFFFFFFF.
Definition kNibbleMask : Z := 0xFFFF.

(** The two words after the version and variant bits are set. *)
Definition uuid_high (high : Z) : Z := Z.lor (Z.land high kHighVersionMask) kHighVersionValue.
Definition uuid_low (low : Z) : Z := Z.lor (Z.land low kLowVariantMask) kLowVariantValue.

Definition GenerateUuid (draw : Z * Z) : string :=
  let high := uuid_high draw.1 in
  let low := uuid_low draw.2 in
  fmt_hex 8 (wrap_u 32 (Z.shiftr high 32)) +:+ "-" +:+
  fmt_hex 4 (wrap_u 16 (Z.land (Z.shiftr high 16) kNibbleMask)) +:+ "-" +:+
  fmt_hex 4 (wrap_u 16 (Z.land high kNibbleMask)) +:+ "-" +:+
  fmt_hex 4 (wrap_u 16 (Z.shiftr low 48)) +:+ "-" +:+
  fmt_hex 12 (Z.land low kLowNodeMask).

(** ** The shape of a version 4 UUID (RFC 9562) *)

Definition is_hex_char (c : Ascii.ascii) : bool :=
  let b := byte_of_ascii c in ((48 <=? b) && (b <=? 57)) || ((97 <=? b) && (b <=? 102)).

(** [x] is a lower-case hexadecimal digit, [y] one of [8 9 a b], any other
    character itself. *)
Definition matches_char (p c : Ascii.ascii) : bool :=
  if byte_of_ascii p =? 120 then is_hex_char c
  else if byte_of_ascii p =? 121 then
    is_hex_char c && match hex_value c with Some d => (8 <=? d) && (d <=? 11) | None => false end
  else Ascii.eqb p c.

Fixpoint matches (p s : string) : bool :=
  match p, s with
  | EmptyString, EmptyString => true
  | String a p', String c s' => matches_char a c && matches p' s'
  | _, _ => false
  end.

Definition uuid_v4_pattern : string := "xxxxxxxx-xxxx-4xxx-yxxx-xxxxxxxxxxxx".

Lemma matches_app p1 s1 p2 s2 :
  matches p1 s1 = true -> matches p2 s2 = true -> matches (p1 +:+ p2) (s1 +:+ s2) = true.
Proof.
  revert s1. induction p1 as [|a p1 IH]; intros [|c s1]; simpl; try done.
  rewrite !andb_true_iff. intros [-> H1] H2. auto.
Qed.

Lemma hex_digit_char d : 0 <= d < 16 -> is_hex_char (hex_digit d) = true.
Proof.
  intros Hd. unfold is_hex_char, hex_digit.
  destruct (Z.ltb_spec d 10); rewrite byte_of_ascii_of_byte by (unfold is_byte; lia).
  - rewrite !(proj2 (Z.leb_le _ _)) by lia. done.
  - rewrite !(proj2 (Z.leb_le 97 _)), !(proj2 (Z.leb_le _ 102)) by lia. apply orb_true_r.
Qed.

Fixpoint xs (k : nat) : string :=
  match k with O => EmptyString | S k' => xs k' +:+ "x" end.

Lemma matches_hex_fixed k n : matches (xs k) (hex_fixed k n) = true.
Proof.
  revert n. induction k as [|k IH]; intros n; [done|]. cbn [xs hex_fixed].
  apply matches_app; [apply IH|]. cbn [matches]. rewrite andb_true_r.
  unfold matches_char. simpl (_ =? 120). cbv iota.
  apply hex_digit_char, Z.mod_pos_bound. lia.
Qed.

(** The leading digit of a 16-bit field. *)
Lemma hex_fixed_4 n :
  hex_fixed 4 n = String (hex_digit (Z.shiftr n 12 mod 16)) (hex_fixed 3 n).
Proof.
  rewrite Z.shiftr_div_pow2 by lia. change (2 ^ 12) with (16 * 16 * 16).
  rewrite <- !Z.div_div by lia. done.
Qed.

Lemma uuid_high_version h : Z.shiftr (Z.land (uuid_high h) kNibbleMask) 12 = 4.
Proof.
  unfold uuid_high. rewrite Z.shiftr_land, Z.shiftr_lor, Z.shiftr_land, Z.land_lor_distr_l.
  rewrite <- Z.land_assoc.
  change (Z.land (Z.shiftr kHighVersionMask 12) (Z.shiftr kNibbleMask 12)) with 0.
  by rewrite Z.land_0_r.
Qed.

Lemma uuid_low_variant l : Z.shiftr (uuid_low l) 62 = 2.
Proof.
  unfold uuid_low. rewrite Z.shiftr_lor, Z.shiftr_land.
  change (Z.shiftr kLowVariantMask 62) with 0. by rewrite Z.land_0_r.
Qed.

Lemma uuid_low_range l : 2 ^ 63 <= uuid_low l < 3 * 2 ^ 62.
Proof.
  pose proof (uuid_low_variant l) as E. rewrite Z.shiftr_div_pow2 in E by lia.
  pose proof (Z.div_mod (uuid_low l) (2 ^ 62) ltac:(lia)) as Hd.
  pose proof (Z.mod_pos_bound (uuid_low l) (2 ^ 62) ltac:(lia)). lia.
Qed.

Lemma fmt_hex_mod k x : (0 < k)%nat -> fmt_hex k (x mod 16 ^ Z.of_nat k) = hex_fixed k x.
Proof.
  intros Hk. assert (0 < 16 ^ Z.of_nat k) by (apply Z.pow_pos_nonneg; lia).
  rewrite fmt_hex_fixed by (done || by apply Z.mod_pos_bound).
  apply hex_fixed_inj. by rewrite Zmod_mod.
Qed.

(** The five fields; each is printed at its full width. *)
Lemma GenerateUuid_fields high low :
  GenerateUuid (high, low) =
  hex_fixed 8 (Z.shiftr (uuid_high high) 32) +:+ "-" +:+
  hex_fixed 4 (Z.shiftr (uuid_high high) 16) +:+ "-" +:+
  hex_fixed 4 (Z.land (uuid_high high) kNibbleMask) +:+ "-" +:+
  hex_fixed 4 (Z.shiftr (uuid_low low) 48) +:+ "-" +:+
  hex_fixed 12 (uuid_low low).
Proof.
  unfold GenerateUuid, wrap_u. cbn [fst snd]. cbv zeta.
  change kNibbleMask with (Z.ones 16). change kLowNodeMask with (Z.ones 48).
  rewrite !Z.land_ones, !Zmod_mod by lia.
  change (2 ^ 32) with (16 ^ Z.of_nat 8). change (2 ^ 16) with (16 ^ Z.of_nat 4).
  change (2 ^ 48) with (16 ^ Z.of_nat 12).
  rewrite !fmt_hex_mod by lia. do 4 f_equal.
  assert (E : hex_fixed 4 (uuid_high high) = hex_fixed 4 (uuid_high high mod 16 ^ Z.of_nat 4)).
  { apply hex_fixed_inj. by rewrite Zmod_mod. }
  by rewrite E.
Qed.

Lemma uuid_high_range h : in_uint64 h -> in_uint64 (uuid_high h).
Proof.
  intros Hh. unfold in_uint64. assert (0 <= uuid_high h).
  { unfold uuid_high. apply Z.lor_nonneg. split; [|done]. apply Z.land_nonneg. left. apply Hh. }
  split; [done|]. assert (Es : Z.shiftr (uuid_high h) 64 = 0).
  { unfold uuid_high. rewrite Z.shiftr_lor, Z.shiftr_land.
    change (Z.shiftr kHighVersionMask 64) with 0. by rewrite Z.land_0_r. }
  rewrite Z.shiftr_div_pow2 in Es by lia. apply Z.div_small_iff in Es; lia.
Qed.

Lemma hex_field_cancel k n1 n2 t1 t2 :
  hex_fixed k n1 +:+ t1 = hex_fixed k n2 +:+ t2 <->
  n1 mod 16 ^ Z.of_nat k = n2 mod 16 ^ Z.of_nat k ∧ t1 = t2.
Proof.
  rewrite <- hex_fixed_inj. split.
  - intros E. apply string_app_inj_length in E; [done|]. by rewrite !length_hex_fixed.
  - by intros [-> ->].
Qed.

Lemma dash_cancel t1 t2 : "-" +:+ t1 = "-" +:+ t2 <-> t1 = t2.
Proof. split; [intros E; simpl in E; by injection E|by intros ->]. Qed.

(** Words that agree field by field agree. *)
Lemma fields_determine w n1 n2 k :
  0 <= k <= w -> 0 <= n1 < 2 ^ w -> 0 <= n2 < 2 ^ w ->
  Z.shiftr n1 k mod 2 ^ (w - k) = Z.shiftr n2 k mod 2 ^ (w - k) -> n1 mod 2 ^ k = n2 mod 2 ^ k ->
  n1 = n2.
Proof.
  intros Hk H1 H2. rewrite !Z.shiftr_div_pow2 by lia.
  assert (Ew : 2 ^ w = 2 ^ k * 2 ^ (w - k)) by (rewrite <- Z.pow_add_r by lia; f_equal; lia).
  assert (0 < 2 ^ k) by (apply Z.pow_pos_nonneg; lia).
  assert (0 < 2 ^ (w - k)) by (apply Z.pow_pos_nonneg; lia).
  rewrite !(Z.mod_small (_ / _)) by (split; [apply Z.div_pos|apply Z.div_lt_upper_bound]; nia).
  intros Ed Em. rewrite (Z.div_mod n1 (2 ^ k)), (Z.div_mod n2 (2 ^ k)) by lia. congruence.
Qed.

Lemma GenerateUuid_v4 high low :
  matches uuid_v4_pattern (GenerateUuid (high, low)) = true.
Proof.
  rewrite GenerateUuid_fields, (hex_fixed_4 (Z.land _ _)), (hex_fixed_4 (Z.shiftr (uuid_low _) _)).
  rewrite uuid_high_version, Z.shiftr_shiftr by lia. change (4 mod 16) with 4.
  pose proof (uuid_low_range low) as Hl.
  assert (Hv : 8 <= Z.shiftr (uuid_low low) (48 + 12) <= 11).
  { rewrite Z.shiftr_div_pow2 by lia. split.
    - apply Z.div_le_lower_bound; lia.
    - apply Z.lt_succ_r, Z.div_lt_upper_bound; lia. }
  set (v := Z.shiftr (uuid_low low) (48 + 12)) in *. rewrite Z.mod_small by lia.
  change uuid_v4_pattern
    with (xs 8 +:+ "-" +:+ xs 4 +:+ "-" +:+ (("4" +:+ xs 3) +:+ "-" +:+ (("y" +:+ xs 3) +:+ "-" +:+ xs 12))).
  repeat (apply matches_app; [first [apply matches_hex_fixed|done]|]).
  apply matches_app; [apply (matches_app "4" "4"); [done|apply matches_hex_fixed]|].
  apply matches_app; [done|].
  apply matches_app; [|apply matches_app; [done|apply matches_hex_fixed]].
  apply (matches_app "y" (String (hex_digit v) EmptyString)); [|apply matches_hex_fixed].
  cbn [matches]. unfold matches_char. cbn -[Z.leb hex_digit is_hex_char hex_value].
  rewrite hex_digit_char, hex_value_digit by lia.
  by rewrite (proj2 (Z.leb_le 8 v)), (proj2 (Z.leb_le v 11)) by lia.
Qed.

Lemma GenerateUuid_inj h1 l1 h2 l2 :
  in_uint64 h1 -> in_uint64 h2 ->
  GenerateUuid (h1, l1) = GenerateUuid (h2, l2) <-> uuid_high h1 = uuid_high h2 ∧ uuid_low l1 = uuid_low l2.
Proof.
  intros H1 H2. rewrite !GenerateUuid_fields. split; [|by intros [-> ->]].
  rewrite !hex_field_cancel, !dash_cancel, !hex_field_cancel, !dash_cancel, !hex_field_cancel,
    !dash_cancel, !hex_field_cancel, !dash_cancel, hex_fixed_inj.
  change kNibbleMask with (Z.ones 16). rewrite !Z.land_ones by lia.
  change (16 ^ Z.of_nat 8) with (2 ^ 32). change (16 ^ Z.of_nat 4) with (2 ^ 16).
  change (16 ^ Z.of_nat 12) with (2 ^ 48). rewrite !Zmod_mod.
  intros (Ha & Hb & Hc & Hd & He). split.
  - apply (fields_determine 64 _ _ 32); [lia|by apply uuid_high_range..|done|].
    assert (Hm : ∀ n, n mod 2 ^ 32 = 2 ^ 16 * (Z.shiftr n 16 mod 2 ^ 16) + n mod 2 ^ 16).
    { intros n. rewrite Z.shiftr_div_pow2 by lia. change (2 ^ 32) with (2 ^ 16 * 2 ^ 16).
      rewrite Z.rem_mul_r by lia. lia. }
    rewrite !Hm. congruence.
  - pose proof (uuid_low_range l1). pose proof (uuid_low_range l2).
    by apply (fields_determine 64 _ _ 48); [lia..| |].
Qed.

(** Every generated identifier has the shape of a version 4 UUID, version and
    variant digits included, and two identifiers coincide exactly when the draws
    agree on the 122 bits that the shape leaves free. *)
Theorem GenerateUuid_spec h1 l1 h2 l2 :
  in_uint64 h1 -> in_uint64 h2 ->
  matches uuid_v4_pattern (GenerateUuid (h1, l1)) = true ∧
  (GenerateUuid (h1, l1) = GenerateUuid (h2, l2) <->
   Z.land h1 kHighVersionMask = Z.land h2 kHighVersionMask ∧
   Z.land l1 kLowVariantMask = Z.land l2 kLowVariantMask).
Proof.
  intros H1 H2. split; [apply GenerateUuid_v4|]. rewrite GenerateUuid_inj by done.
  assert (Hu : ∀ m v x y, Z.land m v = 0 ->
    Z.lor (Z.land x m) v = Z.lor (Z.land y m) v <-> Z.land x m = Z.land y m).
  { intros m v x y Hd. split; [|by intros ->]. intros E.
    apply (f_equal (λ z, Z.land z m)) in E. rewrite !Z.land_lor_distr_l, (Z.land_comm v), Hd in E.
    by rewrite !Z.lor_0_r, <- !Z.land_assoc, !Z.land_diag in E. }
  unfold uuid_high, uuid_low. by rewrite !Hu by done.
Qed.

Lemma GenerateUuid_spec_witness :
  matches uuid_v4_pattern (GenerateUuid (0x0123456789abcdef, 0xfedcba9876543210)) = true ∧
  GenerateUuid (0x0123456789abcdef, 0) ≠ GenerateUuid (0x0123456789abcdee, 0).
Proof.
  split.
  - apply (GenerateUuid_spec _ _ 0 0); unfold in_uint64; lia.
  - intros E. apply (GenerateUuid_spec 0x0123456789abcdef 0 0x0123456789abcdee 0) in E as [E _];
      [discriminate|unfold in_uint64; lia..].
Defined.
