(* ===== verification/Sha256.v ===== *)
(** * SHA-256 and HMAC (lib/vox_common/picosha2.h, lib/vox_common/hmac_sha256.cpp)

    The streaming hasher [hash256_one_by_one] with its 64-bit [word_t] arithmetic,
    its 16-bit length digits and its padding buffer, and the HMAC built on it.
    The reference is FIPS 180-4: 32-bit words, the padded message cut into blocks.
    A message is a list of bytes. *)

From S2P Require Import Prelude Hex Paging.

(** ** Words: [word_t] is a 64-bit [unsigned long] *)

Definition mask_32bit (x : Z) : Z := Z.land x 0xffffffff.
Definition word_not (x : Z) : Z := Z.lxor x 0xffffffffffffffff.
Definition word_shl (x : Z) (n : Z) : Z := to_uint64 (Z.shiftl x n).

(** A row of eight-digit words in the source's table. *)
Fixpoint words_of_row (n : nat) (row : string) : list Z :=
  match n with
  | O => []
  | S n' => default 0 (hex_prefix (String.substring 0 8 row) None)
            :: words_of_row n' (String.substring 9 (String.length row) row)
  end.

Definition add_constant : list Z := Eval vm_compute in concat (words_of_row 8 <$>
  [ "428a2f98 71374491 b5c0fbcf e9b5dba5 3956c25b 59f111f1 923f82a4 ab1c5ed5";
    "d807aa98 12835b01 243185be 550c7dc3 72be5d74 80deb1fe 9bdc06a7 c19bf174";
    "e49b69c1 efbe4786 0fc19dc6 240ca1cc 2de92c6f 4a7484aa 5cb0a9dc 76f988da";
    "983e5152 a831c66d b00327c8 bf597fc7 c6e00bf3 d5a79147 06ca6351 14292967";
    "27b70a85 2e1b2138 4d2c6dfc 53380d13 650a7354 766a0abb 81c2c92e 92722c85";
    "a2bfe8a1 a81a664b c24b8b70 c76c51a3 d192e819 d6990624 f40e3585 106aa070";
    "19a4c116 1e376c08 2748774c 34b0bcb5 391c0cb3 4ed8aa4a 5b9cca4f 682e6ff3";
    "748f82ee 78a5636f 84c87814 8cc70208 90befffa a4506ceb bef9a3f7 c67178f2" ]).

(** The eight words [h_], also the working variables [a .. h]. *)
Record digest := mkDigest { da : Z; db_ : Z; dc : Z; dd : Z; de : Z; df : Z; dg : Z; dh : Z }.

Definition initial_message_digest : digest :=
  mkDigest 0x6a09e667 0xbb67ae85 0x3c6ef372 0xa54ff53a 0x510e527f 0x9b05688c 0x1f83d9ab 0x5be0cd19.

Definition ch (x y z : Z) : Z := Z.lxor (Z.land x y) (Z.land (word_not x) z).
Definition maj (x y z : Z) : Z := Z.lxor (Z.lxor (Z.land x y) (Z.land x z)) (Z.land y z).
Definition rotr (x n : Z) : Z := mask_32bit (Z.lor (Z.shiftr x n) (word_shl x (32 - n))).
Definition bsig0 (x : Z) : Z := Z.lxor (Z.lxor (rotr x 2) (rotr x 13)) (rotr x 22).
Definition bsig1 (x : Z) : Z := Z.lxor (Z.lxor (rotr x 6) (rotr x 11)) (rotr x 25).
Definition shr (x n : Z) : Z := Z.shiftr x n.
Definition ssig0 (x : Z) : Z := Z.lxor (Z.lxor (rotr x 7) (rotr x 18)) (shr x 3).
Definition ssig1 (x : Z) : Z := Z.lxor (Z.lxor (rotr x 17) (rotr x 19)) (shr x 10).

(** ** The compression function *)

(** [w[0..15]], read big-endian from a block. *)
Fixpoint block_words (bytes : list Z) : list Z :=
  match bytes with
  | b0 :: b1 :: b2 :: b3 :: rest =>
      Z.lor (Z.lor (Z.lor (Z.shiftl b0 24) (Z.shiftl b1 16)) (Z.shiftl b2 8)) b3 :: block_words rest
  | _ => []
  end.

(** One iteration of the loop that fills [w[16..63]]; [i] is the length so far. *)
Definition schedule_step (w : list Z) : list Z :=
  let i := length w in
  w ++ [mask_32bit (u64_add (u64_add (u64_add (ssig1 (w !!! (i - 2)%nat)) (w !!! (i - 7)%nat))
                               (ssig0 (w !!! (i - 15)%nat))) (w !!! (i - 16)%nat))].

Definition message_schedule (block : list Z) : list Z := Nat.iter 48 schedule_step (block_words block).

(** One of the 64 rounds; [kw] is [(add_constant[i], w[i])]. *)
Definition round (s : digest) (kw : Z * Z) : digest :=
  let temp1 := u64_add (u64_add (u64_add (u64_add (dh s) (bsig1 (de s))) (ch (de s) (df s) (dg s)))
                          kw.1) kw.2 in
  let temp2 := u64_add (bsig0 (da s)) (maj (da s) (db_ s) (dc s)) in
  mkDigest (mask_32bit (u64_add temp1 temp2)) (da s) (db_ s) (dc s)
           (mask_32bit (u64_add (dd s) temp1)) (de s) (df s) (dg s).

Definition hash256_block (md : digest) (block : list Z) : digest :=
  let s := foldl round md (zip add_constant (message_schedule block)) in
  mkDigest (mask_32bit (u64_add (da md) (da s))) (mask_32bit (u64_add (db_ md) (db_ s)))
           (mask_32bit (u64_add (dc md) (dc s))) (mask_32bit (u64_add (dd md) (dd s)))
           (mask_32bit (u64_add (de md) (de s))) (mask_32bit (u64_add (df md) (df s)))
           (mask_32bit (u64_add (dg md) (dg s))) (mask_32bit (u64_add (dh md) (dh s))).

(** ** The streaming hasher *)

(** The byte count as four 16-bit digits, least significant first. *)
Record length_digits := mkDigits { d0 : Z; d1 : Z; d2 : Z; d3 : Z }.

Record hash256_one_by_one := mkHasher {
  buffer_ : list Z;
  data_length_digits_ : length_digits;
  h_ : digest }.

Definition init : hash256_one_by_one := mkHasher [] (mkDigits 0 0 0 0) initial_message_digest.

(** The carry loop over the digits, which stops at the first digit without a carry. *)
Definition add_to_data_length (n : Z) (d : length_digits) : length_digits :=
  let x0 := u64_add (d0 d) n in
  if 65536 <=? x0 then
    let x1 := u64_add (d1 d) (Z.shiftr x0 16) in
    if 65536 <=? x1 then
      let x2 := u64_add (d2 d) (Z.shiftr x1 16) in
      if 65536 <=? x2 then
        let x3 := u64_add (d3 d) (Z.shiftr x2 16) in
        mkDigits (Z.land x0 65535) (Z.land x1 65535) (Z.land x2 65535)
                 (if 65536 <=? x3 then Z.land x3 65535 else x3)
      else mkDigits (Z.land x0 65535) (Z.land x1 65535) x2 (d3 d)
    else mkDigits (Z.land x0 65535) x1 (d2 d) (d3 d)
  else mkDigits x0 (d1 d) (d2 d) (d3 d).

(** The loop over the [n] complete blocks of the buffer: the digest and what is
    left after the erase. *)
Fixpoint process_blocks (n : nat) (h : digest) (buf : list Z) : digest * list Z :=
  match n with
  | O => (h, buf)
  | S n' => process_blocks n' (hash256_block h (take 64 buf)) (drop 64 buf)
  end.

Definition process (bytes : list Z) (s : hash256_one_by_one) : hash256_one_by_one :=
  let digits := add_to_data_length (to_uint64 (Z.of_nat (length bytes))) (data_length_digits_ s) in
  let buf := buffer_ s ++ bytes in
  let '(h, rest) := process_blocks (length buf / 64) (h_ s) buf in
  mkHasher rest digits h.

(** [std::fill(l + lo, l + hi, 0)]. *)
Definition fill_zero (lo hi : nat) (l : list Z) : list Z :=
  take lo l ++ replicate (hi - lo) 0 ++ drop hi l.

(** One digit of the conversion from bytes to bits, with its carry. *)
Definition bit_length_digit (d carry : Z) : Z := Z.land (Z.lor (word_shl d 3) carry) 65535.
Definition bit_length_carry (d : Z) : Z := Z.land (Z.shiftr d 13) 65535.

Definition write_data_bit_length (d : length_digits) : list Z :=
  let b0 := bit_length_digit (d0 d) 0 in
  let b1 := bit_length_digit (d1 d) (bit_length_carry (d0 d)) in
  let b2 := bit_length_digit (d2 d) (bit_length_carry (d1 d)) in
  let b3 := bit_length_digit (d3 d) (bit_length_carry (d2 d)) in
  [wrap_u 8 (Z.shiftr b3 8); wrap_u 8 b3; wrap_u 8 (Z.shiftr b2 8); wrap_u 8 b2;
   wrap_u 8 (Z.shiftr b1 8); wrap_u 8 b1; wrap_u 8 (Z.shiftr b0 8); wrap_u 8 b0].

Definition finish (s : hash256_one_by_one) : hash256_one_by_one :=
  let temp := buffer_ s ++ replicate (64 - length (buffer_ s)) 0 in
  let remains := if Nat.leb 64 (length (buffer_ s)) then 63%nat else length (buffer_ s) in
  let temp := <[remains := 0x80]> temp in
  let '(h, temp) :=
    if Nat.ltb 55 remains then
      let temp := fill_zero (remains + 1) 64 temp in
      (hash256_block (h_ s) temp, fill_zero 0 60 temp)
    else (h_ s, fill_zero (remains + 1) 60 temp) in
  let temp := take 56 temp ++ write_data_bit_length (data_length_digits_ s) in
  mkHasher (buffer_ s) (data_length_digits_ s) (hash256_block h temp).

(** The four bytes of a word, most significant first. *)
Definition word_bytes (w : Z) : list Z :=
  [wrap_u 8 (Z.shiftr w 24); wrap_u 8 (Z.shiftr w 16); wrap_u 8 (Z.shiftr w 8); wrap_u 8 w].

Definition get_hash_bytes (d : digest) : list Z :=
  word_bytes (da d) ++ word_bytes (db_ d) ++ word_bytes (dc d) ++ word_bytes (dd d) ++
  word_bytes (de d) ++ word_bytes (df d) ++ word_bytes (dg d) ++ word_bytes (dh d).

(** [hash256] on random-access iterators. *)
Definition hash256 (bytes : list Z) : list Z :=
  get_hash_bytes (h_ (finish (process bytes init))).

(** [hash256] on input iterators: the bytes arrive in buffers of [buffer_size]. *)
Fixpoint hash256_feed (fuel : nat) (buffer_size : nat) (bytes : list Z) (s : hash256_one_by_one)
    : hash256_one_by_one :=
  match fuel, bytes with
  | O, _ | _, [] => s
  | S fuel', _ =>
      hash256_feed fuel' buffer_size (drop buffer_size bytes) (process (take buffer_size bytes) s)
  end.

Definition hash256_buffered (buffer_size : nat) (bytes : list Z) : list Z :=
  get_hash_bytes (h_ (finish (hash256_feed (length bytes) buffer_size bytes init))).

(** ** Hexadecimal text *)

(** An output stream as far as [output_hex] uses it: the text, [basefield], [width]
    and [fill].  Padding goes to the left, and an output resets the width. *)
Inductive basefield := BaseDec | BaseHex.
Record ostream := mkOstream { os_text : string; os_base : basefield; os_width : nat; os_fill : Ascii.ascii }.

(** [std::ostringstream oss;] *)
Definition new_ostringstream : ostream := mkOstream EmptyString BaseDec 0 (ascii_of_byte 32).
Definition zero_char : Ascii.ascii := ascii_of_byte 48.
Definition setf (b : basefield) (os : ostream) : ostream := mkOstream (os_text os) b (os_width os) (os_fill os).
Definition set_width (n : nat) (os : ostream) : ostream := mkOstream (os_text os) (os_base os) n (os_fill os).
Definition set_fill (c : Ascii.ascii) (os : ostream) : ostream := mkOstream (os_text os) (os_base os) (os_width os) c.
Fixpoint repeat_char (n : nat) (c : Ascii.ascii) : string :=
  match n with O => EmptyString | S n' => String c (repeat_char n' c) end.

(** [os << n] for an [unsigned int]. *)
Definition put_unsigned (n : Z) (os : ostream) : ostream :=
  let digits := match os_base os with BaseDec => print_int64 n | BaseHex => fmt_hex 1 n end in
  mkOstream (os_text os +:+ repeat_char (os_width os - String.length digits) (os_fill os) +:+ digits)
    (os_base os) 0 (os_fill os).

Definition output_hex (bytes : list Z) (os : ostream) : ostream :=
  setf BaseDec (foldl (λ os b, put_unsigned b (set_fill zero_char (set_width 2 os))) (setf BaseHex os) bytes).

Definition bytes_to_hex_string (bytes : list Z) : string := os_text (output_hex bytes new_ostringstream).
#[global] Arguments bytes_to_hex_string : simpl never.

(** [get_hash_hex_string]: of a hasher that was fed and finished. *)
Definition get_hash_hex_string (hasher : hash256_one_by_one) : string :=
  bytes_to_hex_string (get_hash_bytes (h_ hasher)).
Definition hash256_hex_string (bytes : list Z) : string := os_text (output_hex (hash256 bytes) new_ostringstream).

Lemma put_byte b os : is_byte b -> os_base os = BaseHex ->
  put_unsigned b (set_fill zero_char (set_width 2 os)) =
  mkOstream (os_text os +:+ fmt_hex 2 b) BaseHex 0 zero_char.
Proof.
  intros Hb Eb. unfold put_unsigned. cbn [set_fill set_width os_text os_base os_width os_fill]. rewrite Eb.
  f_equal. f_equal. clear Eb.
  revert b Hb. apply (byte_ind (λ b, repeat_char (2 - String.length (fmt_hex 1 b)) zero_char +:+ fmt_hex 1 b = fmt_hex 2 b)).
  vm_compute. reflexivity.
Qed.

(** The stream's text is the text of [BytesToHex], which [HexToBytes] reads back. *)
Lemma output_hex_text bytes os :
  Forall is_byte bytes -> os_text (output_hex bytes os) = os_text os +:+ BytesToHex bytes.
Proof.
  intros Hb. unfold output_hex. cbn [setf os_text].
  assert (H : ∀ os, os_base os = BaseHex ->
    os_text (foldl (λ os b, put_unsigned b (set_fill zero_char (set_width 2 os))) os bytes) = os_text os +:+ BytesToHex bytes).
  { induction Hb as [|b l Hb _ IH]; intros os' Ebs; cbn [foldl].
    - cbn. by rewrite string_app_nil.
    - rewrite put_byte by done. rewrite IH by done. cbn [os_text].
      by rewrite string_app_assoc. }
  by rewrite H.
Qed.

Lemma bytes_to_hex_string_eq bytes : Forall is_byte bytes -> bytes_to_hex_string bytes = BytesToHex bytes.
Proof. intros Hb. unfold bytes_to_hex_string. by rewrite output_hex_text. Qed.

(** ** HMAC *)

Definition kBlock : nat := 64.
Definition kHmacIpadXor : Z := 0x36.
Definition kHmacOpadXor : Z := 0x5c.

Definition hmac_key_block (key : list Z) : list Z :=
  let k := if Nat.ltb kBlock (length key) then hash256 key else key in
  k ++ replicate (kBlock - length k) 0.

Definition HmacSha256 (key message : list Z) : list Z :=
  let key_block := hmac_key_block key in
  let ipad := (λ kb, wrap_u 8 (Z.lxor kb kHmacIpadXor)) <$> key_block in
  let opad := (λ kb, wrap_u 8 (Z.lxor kb kHmacOpadXor)) <$> key_block in
  hash256 (opad ++ hash256 (ipad ++ message)).

Definition HmacSha256Hex (key message : string) : string :=
  bytes_to_hex_string (HmacSha256 (bytes_of_string key) (bytes_of_string message)).

(** FIPS 180-4 example and RFC 4231 test case 2. *)
Example hash256_abc :
  BytesToHex (hash256 (bytes_of_string "abc")) =
  "ba7816bf8f01cfea414140de5dae2223b00361a396177a9cb410ff61f20015ad".
Proof. vm_compute. reflexivity. Qed.

Example hmac_rfc4231 :
  HmacSha256Hex "Jefe" "what do ya want for nothing?" =
  "5bdcc146bf60754e6a042426089575c75a003f089d2739839dec58b964ec3843".
Proof. vm_compute. reflexivity. Qed.

(** ** The reference: FIPS 180-4 *)

Module Fips.

Definition add32 (x y : Z) : Z := (x + y) mod 2 ^ 32.
Definition ROTR (n x : Z) : Z := Z.lor (Z.shiftr x n) (Z.shiftl x (32 - n) mod 2 ^ 32).
(** [Z.ldiff z x] is [z] and not [x]. *)
Definition Ch (x y z : Z) : Z := Z.lxor (Z.land x y) (Z.ldiff z x).
Definition Maj (x y z : Z) : Z := Z.lxor (Z.lxor (Z.land x y) (Z.land x z)) (Z.land y z).
Definition Sigma0 (x : Z) : Z := Z.lxor (Z.lxor (ROTR 2 x) (ROTR 13 x)) (ROTR 22 x).
Definition Sigma1 (x : Z) : Z := Z.lxor (Z.lxor (ROTR 6 x) (ROTR 11 x)) (ROTR 25 x).
Definition sigma0 (x : Z) : Z := Z.lxor (Z.lxor (ROTR 7 x) (ROTR 18 x)) (Z.shiftr x 3).
Definition sigma1 (x : Z) : Z := Z.lxor (Z.lxor (ROTR 17 x) (ROTR 19 x)) (Z.shiftr x 10).

Definition extend (w : list Z) : list Z :=
  let t := length w in
  w ++ [add32 (add32 (sigma1 (w !!! (t - 2)%nat)) (w !!! (t - 7)%nat))
              (add32 (sigma0 (w !!! (t - 15)%nat)) (w !!! (t - 16)%nat))].

Definition step (s : digest) (kw : Z * Z) : digest :=
  let T1 := add32 (add32 (add32 (dh s) (Sigma1 (de s))) (Ch (de s) (df s) (dg s))) (add32 kw.1 kw.2) in
  let T2 := add32 (Sigma0 (da s)) (Maj (da s) (db_ s) (dc s)) in
  mkDigest (add32 T1 T2) (da s) (db_ s) (dc s) (add32 (dd s) T1) (de s) (df s) (dg s).

Definition compress (H : digest) (block : list Z) : digest :=
  let s := foldl step H (zip add_constant (Nat.iter 48 extend (block_words block))) in
  mkDigest (add32 (da H) (da s)) (add32 (db_ H) (db_ s)) (add32 (dc H) (dc s)) (add32 (dd H) (dd s))
           (add32 (de H) (de s)) (add32 (df H) (df s)) (add32 (dg H) (dg s)) (add32 (dh H) (dh s)).

(** A 64-bit number, most significant byte first. *)
Definition be64 (n : Z) : list Z :=
  (λ i, n / 2 ^ i mod 256) <$> [56; 48; 40; 32; 24; 16; 8; 0].

(** The bit 1, the least number of zeros that fills a block but for 64 bits, the
    length of the message in bits. *)
Definition pad (m : list Z) : list Z :=
  m ++ [0x80] ++ replicate (Z.to_nat ((55 - Z.of_nat (length m)) mod 64)) 0
    ++ be64 (8 * Z.of_nat (length m)).

Fixpoint iterate (n : nat) (H : digest) (m : list Z) : digest :=
  match n with
  | O => H
  | S n' => iterate n' (compress H (take 64 m)) (drop 64 m)
  end.

Definition sha256 (m : list Z) : list Z :=
  let p := pad m in get_hash_bytes (iterate (length p / 64) initial_message_digest p).

End Fips.

(** ** The word functions agree on 32-bit words *)

Definition word32 (x : Z) : Prop := 0 <= x < 2 ^ 32.

Definition digest32 (d : digest) : Prop :=
  word32 (da d) ∧ word32 (db_ d) ∧ word32 (dc d) ∧ word32 (dd d) ∧
  word32 (de d) ∧ word32 (df d) ∧ word32 (dg d) ∧ word32 (dh d).

Lemma mask_32bit_mod x : mask_32bit x = x mod 2 ^ 32.
Proof. apply (Z.land_ones x 32). lia. Qed.

Lemma mask_32bit_word32 x : word32 (mask_32bit x).
Proof. rewrite mask_32bit_mod. apply Z.mod_pos_bound. lia. Qed.

Lemma mod32_u64 x : to_uint64 x mod 2 ^ 32 = x mod 2 ^ 32.
Proof.
  unfold to_uint64, wrap_u. change (2 ^ 64) with (2 ^ 32 * 2 ^ 32).
  rewrite Z.rem_mul_r by lia. rewrite (Z.mul_comm (2 ^ 32)), Z_mod_plus_full. apply Zmod_mod.
Qed.

Lemma word32_bit x i : word32 x -> 32 <= i -> Z.testbit x i = false.
Proof.
  intros [H0 H1] Hi. destruct (decide (x = 0)) as [->|]; [apply Z.bits_0|].
  apply Z.bits_above_log2; [done|]. apply Z.log2_lt_pow2; [lia|].
  pose proof (Z.pow_le_mono_r 2 32 i). lia.
Qed.

Lemma ch_Ch x y z : word32 z -> ch x y z = Fips.Ch x y z.
Proof.
  intros Hz. unfold ch, Fips.Ch. f_equal. apply Z.bits_inj'. intros i Hi.
  unfold word_not. rewrite Z.land_spec, Z.ldiff_spec, Z.lxor_spec.
  destruct (Z_lt_le_dec i 32) as [Hlt|Hge].
  - change 0xffffffffffffffff with (Z.ones 64). rewrite Z.ones_spec_low by lia.
    by destruct (Z.testbit x i), (Z.testbit z i).
  - rewrite (word32_bit z i) by done. by rewrite andb_false_r.
Qed.

Lemma rotr_ROTR x n : word32 x -> 0 <= n < 32 -> rotr x n = Fips.ROTR n x.
Proof.
  intros Hx Hn. unfold rotr, Fips.ROTR, word_shl, to_uint64, wrap_u.
  rewrite mask_32bit_mod. apply Z.bits_inj'. intros i Hi.
  destruct (Z_lt_le_dec i 32) as [Hlt|Hge].
  - rewrite Z.mod_pow2_bits_low, !Z.lor_spec by lia. by rewrite !Z.mod_pow2_bits_low by lia.
  - rewrite Z.mod_pow2_bits_high, Z.lor_spec, Z.mod_pow2_bits_high, Z.shiftr_spec by lia.
    by rewrite (word32_bit x) by (done || lia).
Qed.

Lemma bsig0_Sigma0 x : word32 x -> bsig0 x = Fips.Sigma0 x.
Proof. intros Hx. unfold bsig0, Fips.Sigma0. by rewrite !rotr_ROTR by (done || lia). Qed.
Lemma bsig1_Sigma1 x : word32 x -> bsig1 x = Fips.Sigma1 x.
Proof. intros Hx. unfold bsig1, Fips.Sigma1. by rewrite !rotr_ROTR by (done || lia). Qed.
Lemma ssig0_sigma0 x : word32 x -> ssig0 x = Fips.sigma0 x.
Proof. intros Hx. unfold ssig0, Fips.sigma0. by rewrite !rotr_ROTR by (done || lia). Qed.
Lemma ssig1_sigma1 x : word32 x -> ssig1 x = Fips.sigma1 x.
Proof. intros Hx. unfold ssig1, Fips.sigma1. by rewrite !rotr_ROTR by (done || lia). Qed.

(** A masked chain of 64-bit additions is a chain of 32-bit additions. *)
Lemma mask_u64_add x y : mask_32bit (u64_add x y) = Fips.add32 x y.
Proof. rewrite mask_32bit_mod. apply mod32_u64. Qed.

Lemma add32_u64_l x y z : Fips.add32 (u64_add x y) z = Fips.add32 (Fips.add32 x y) z.
Proof.
  unfold Fips.add32. rewrite Zplus_mod_idemp_l, <- Zplus_mod_idemp_l. unfold u64_add.
  by rewrite mod32_u64, Zplus_mod_idemp_l.
Qed.
Lemma add32_u64_r x y z : Fips.add32 x (u64_add y z) = Fips.add32 x (Fips.add32 y z).
Proof. unfold Fips.add32. rewrite !(Z.add_comm x). apply add32_u64_l. Qed.
Lemma add32_assoc x y z : Fips.add32 (Fips.add32 x y) z = Fips.add32 x (Fips.add32 y z).
Proof.
  unfold Fips.add32. rewrite Zplus_mod_idemp_l, Zplus_mod_idemp_r. f_equal. lia.
Qed.
Lemma add32_word32 x y : word32 (Fips.add32 x y).
Proof. apply Z.mod_pos_bound. lia. Qed.

Create Rewrite HintDb sha.
#[local] Hint Rewrite mask_u64_add add32_u64_l add32_u64_r add32_assoc : sha.

Lemma round_step s k w : digest32 s -> round s (k, w) = Fips.step s (k, w).
Proof.
  intros (Ha & Hb & Hc & Hd & He & Hf & Hg & Hh). unfold round, Fips.step. cbn [fst snd].
  rewrite bsig1_Sigma1, bsig0_Sigma0, ch_Ch by done.
  change maj with Fips.Maj. cbv zeta. by autorewrite with sha.
Qed.

Lemma step_digest32 s kw : digest32 s -> digest32 (Fips.step s kw).
Proof.
  intros (Ha & Hb & Hc & Hd & He & Hf & Hg & Hh). unfold digest32, Fips.step. cbn -[Z.pow].
  split_and!; auto using add32_word32.
Qed.

Lemma rounds_steps l s : digest32 s -> foldl round s l = foldl Fips.step s l.
Proof.
  revert s. induction l as [|[k w] l IH]; intros s Hs; [done|]. cbn [foldl].
  rewrite round_step by done. by apply IH, step_digest32.
Qed.

(** ** The compression functions agree *)

Lemma lookup_total_word32 w i : Forall word32 w -> word32 (w !!! i).
Proof.
  intros Hw. destruct (w !! i) as [x|] eqn:E.
  - rewrite (list_lookup_total_correct _ _ _ E). by eapply Forall_lookup_1.
  - rewrite list_lookup_total_alt, E. done.
Qed.

Lemma schedule_extend w : Forall word32 w -> schedule_step w = Fips.extend w.
Proof.
  intros Hw. unfold schedule_step, Fips.extend. cbv zeta.
  rewrite ssig1_sigma1, ssig0_sigma0 by by apply lookup_total_word32.
  do 2 f_equal. by autorewrite with sha.
Qed.

Lemma extend_word32 w : Forall word32 w -> Forall word32 (Fips.extend w).
Proof. intros Hw. apply Forall_app. split; [done|]. repeat constructor; apply add32_word32. Qed.

Lemma schedules_agree n w :
  Forall word32 w ->
  Nat.iter n schedule_step w = Nat.iter n Fips.extend w ∧ Forall word32 (Nat.iter n Fips.extend w).
Proof.
  intros Hw. induction n as [|n [IH1 IH2]]; [done|]. rewrite !Nat.iter_succ.
  rewrite IH1, schedule_extend by done. split; [done|by apply extend_word32].
Qed.

Lemma lor_word32 x y : word32 x -> word32 y -> word32 (Z.lor x y).
Proof.
  intros [Hx0 Hx1] [Hy0 Hy1]. split; [by apply Z.lor_nonneg|].
  destruct (decide (x = 0)) as [->|]; [done|].
  destruct (decide (y = 0)) as [->|]; [by rewrite Z.lor_0_r|].
  destruct (decide (Z.lor x y = 0)) as [->|]; [done|].
  assert (0 <= Z.lor x y) by by apply Z.lor_nonneg.
  apply Z.log2_lt_pow2; [lia|]. rewrite Z.log2_lor by done.
  apply Z.max_lub_lt; apply Z.log2_lt_pow2; lia.
Qed.

Lemma block_words_word32 l : Forall is_byte l -> Forall word32 (block_words l).
Proof.
  revert l. fix IH 1. intros [|b0 [|b1 [|b2 [|b3 l]]]] Hl; try constructor.
  - repeat (apply Forall_cons in Hl as [? Hl]).
    unfold is_byte in *. repeat apply lor_word32;
      rewrite ?Z.shiftl_mul_pow2 by lia; unfold word32; lia.
  - apply IH. by do 4 apply Forall_cons in Hl as [_ Hl].
Qed.

Lemma hash256_block_compress md block :
  digest32 md -> Forall is_byte block -> hash256_block md block = Fips.compress md block.
Proof.
  intros Hmd Hb. unfold hash256_block, Fips.compress, message_schedule.
  destruct (schedules_agree 48 _ (block_words_word32 _ Hb)) as [-> _].
  rewrite rounds_steps by done. cbv zeta. by rewrite !mask_u64_add.
Qed.

Lemma compress_digest32 H block : digest32 (Fips.compress H block).
Proof. unfold digest32, Fips.compress. split_and!; apply add32_word32. Qed.

Lemma process_blocks_iterate n h l :
  digest32 h -> Forall is_byte l -> process_blocks n h l = (Fips.iterate n h l, drop (64 * n) l).
Proof.
  revert h l. induction n as [|n IH]; intros h l Hh Hl; [by rewrite drop_0|].
  cbn [process_blocks Fips.iterate].
  rewrite hash256_block_compress by (done || by apply Forall_take).
  rewrite IH by (apply compress_digest32 || by apply Forall_drop).
  rewrite drop_drop. do 2 f_equal. lia.
Qed.

Lemma iterate_digest32 n h l : digest32 h -> digest32 (Fips.iterate n h l).
Proof.
  revert h l. induction n as [|n IH]; intros h l Hh; [done|]. apply IH, compress_digest32.
Qed.

Lemma iterate_app n1 n2 h l1 l2 :
  length l1 = (64 * n1)%nat ->
  Fips.iterate (n1 + n2) h (l1 ++ l2) = Fips.iterate n2 (Fips.iterate n1 h l1) l2.
Proof.
  revert h l1. induction n1 as [|n1 IH]; intros h l1 Hl.
  - by destruct l1.
  - cbn [Nat.add Fips.iterate]. rewrite take_app_le, drop_app_le by lia.
    apply IH. rewrite length_drop. lia.
Qed.

Lemma iterate_take n h l :
  (64 * n <= length l)%nat -> Fips.iterate n h (take (64 * n) l) = Fips.iterate n h l.
Proof.
  intros Hl. pose proof (iterate_app n 0 h (take (64 * n) l) (drop (64 * n) l)) as E.
  rewrite take_drop, Nat.add_0_r in E. rewrite E; [done|]. rewrite length_take. lia.
Qed.

(** ** The length digits *)

(** The digits that represent [v] modulo [2^64]. *)
Definition digits_of (v : Z) : length_digits :=
  mkDigits (v mod 65536) (v / 65536 mod 65536) (v / 65536 / 65536 mod 65536)
           (v / 65536 / 65536 / 65536 mod 65536).

(** One digit of an addition: the digit and the carry into the quotient. *)
Lemma digit_add v n :
  (v + n) mod 65536 = (v mod 65536 + n) mod 65536 ∧
  (v + n) / 65536 = v / 65536 + (v mod 65536 + n) / 65536.
Proof.
  split; [by rewrite Zplus_mod_idemp_l|].
  rewrite (Z.div_mod v 65536) at 1 by lia.
  replace (65536 * (v / 65536) + v mod 65536 + n) with (v mod 65536 + n + v / 65536 * 65536) by lia.
  rewrite Z.div_add by lia. lia.
Qed.

(** A digit plus a carry of at most 63 bits does not overflow a word. *)
Lemma digit_u64_add v n : 0 <= n < 2 ^ 63 -> u64_add (v mod 65536) n = v mod 65536 + n.
Proof.
  intros Hn. pose proof (Z.mod_pos_bound v 65536 ltac:(lia)). apply to_uint64_id. unfold in_uint64. lia.
Qed.

Lemma carry_bound v n : 0 <= n < 2 ^ 63 -> 0 <= (v mod 65536 + n) / 65536 < 2 ^ 63.
Proof.
  intros Hn. pose proof (Z.mod_pos_bound v 65536 ltac:(lia)).
  split; [apply Z.div_pos; lia|apply Z.div_lt_upper_bound; lia].
Qed.

Lemma land_65535 x : Z.land x 65535 = x mod 65536.
Proof. apply (Z.land_ones x 16). lia. Qed.

Lemma shiftr_16 x : Z.shiftr x 16 = x / 65536.
Proof. by rewrite Z.shiftr_div_pow2. Qed.

(** A digit below the radix is its own residue and carries nothing. *)
Lemma no_carry v n :
  v mod 65536 + n < 65536 -> 0 <= n ->
  (v + n) mod 65536 = v mod 65536 + n ∧ (v + n) / 65536 = v / 65536.
Proof.
  intros Hlt Hn. destruct (digit_add v n) as [-> ->].
  pose proof (Z.mod_pos_bound v 65536 ltac:(lia)).
  rewrite (Z.mod_small (_ + _)), (Z.div_small (_ + _)) by lia. lia.
Qed.

Lemma add_to_data_length_of v n :
  0 <= n < 2 ^ 63 -> add_to_data_length n (digits_of v) = digits_of (v + n).
Proof.
  intros Hn. unfold add_to_data_length, digits_of. cbn [d0 d1 d2 d3].
  rewrite digit_u64_add by done. rewrite !shiftr_16.
  pose proof (carry_bound v n Hn) as Hc1. set (c1 := (v mod 65536 + n) / 65536) in *.
  rewrite (digit_u64_add (v / 65536) c1) by done.
  pose proof (carry_bound (v / 65536) c1 Hc1) as Hc2.
  set (c2 := ((v / 65536) mod 65536 + c1) / 65536) in *.
  rewrite (digit_u64_add (v / 65536 / 65536) c2) by done.
  pose proof (carry_bound (v / 65536 / 65536) c2 Hc2) as Hc3.
  set (c3 := ((v / 65536 / 65536) mod 65536 + c2) / 65536) in *.
  rewrite (digit_u64_add (v / 65536 / 65536 / 65536) c3) by done. rewrite !land_65535.
  destruct (Z.leb_spec 65536 (v mod 65536 + n)) as [H0|H0].
  2:{ by destruct (no_carry v n H0 ltac:(lia)) as [-> ->]. }
  destruct (digit_add v n) as [-> ->]. fold c1.
  destruct (Z.leb_spec 65536 (v / 65536 mod 65536 + c1)) as [H1|H1].
  2:{ by destruct (no_carry (v / 65536) c1 H1 ltac:(lia)) as [-> ->]. }
  destruct (digit_add (v / 65536) c1) as [-> ->]. fold c2.
  destruct (Z.leb_spec 65536 (v / 65536 / 65536 mod 65536 + c2)) as [H2|H2].
  2:{ by destruct (no_carry (v / 65536 / 65536) c2 H2 ltac:(lia)) as [-> ->]. }
  destruct (digit_add (v / 65536 / 65536) c2) as [-> ->]. fold c3.
  f_equal. destruct (Z.leb_spec 65536 (v / 65536 / 65536 / 65536 mod 65536 + c3)) as [H3|H3].
  - by destruct (digit_add (v / 65536 / 65536 / 65536) c3) as [-> _].
  - by destruct (no_carry (v / 65536 / 65536 / 65536) c3 H3 ltac:(lia)) as [-> _].
Qed.

(** Shifting the digits left by three bits multiplies the length by eight. *)
Lemma bit_length_digit_eq d c :
  0 <= d < 65536 -> 0 <= c < 8 -> bit_length_digit d c = (8 * d + c) mod 65536.
Proof.
  intros Hd Hc. unfold bit_length_digit, word_shl. rewrite land_65535.
  rewrite Z.shiftl_mul_pow2, to_uint64_id by (unfold in_uint64; lia).
  assert (Hz : Z.land (d * 2 ^ 3) c = 0).
  { apply Z.bits_inj'. intros i Hi. rewrite Z.land_spec, Z.bits_0.
    destruct (Z_lt_le_dec i 3) as [Hlt|Hge]; [by rewrite Z.mul_pow2_bits_low by lia|].
    rewrite (Z.bits_above_log2 c); [apply andb_false_r|lia|].
    destruct (decide (c = 0)) as [->|]; [simpl; lia|].
    apply Z.log2_lt_pow2; [lia|]. pose proof (Z.pow_le_mono_r 2 3 i). lia. }
  rewrite <- Z.lxor_lor, <- Z.add_nocarry_lxor by done. f_equal. lia.
Qed.

Lemma bit_length_carry_eq d : 0 <= d < 65536 -> bit_length_carry d = d / 8192 ∧ 0 <= d / 8192 < 8.
Proof.
  intros Hd. unfold bit_length_carry. rewrite Z.shiftr_div_pow2, land_65535 by lia.
  change (2 ^ 13) with 8192.
  assert (0 <= d / 8192 < 8) by (split; [apply Z.div_pos|apply Z.div_lt_upper_bound]; lia).
  by rewrite Z.mod_small by lia.
Qed.

(** A digit of [8 * v] from two digits of [v]. *)
Lemma times8_digit v : (8 * (v / 65536 mod 65536) + v mod 65536 / 8192) mod 65536 = 8 * v / 65536 mod 65536.
Proof. Z.to_euclidean_division_equations. lia. Qed.

Lemma be_pair x n k :
  0 <= k -> x = n / 2 ^ k mod 65536 ->
  wrap_u 8 (Z.shiftr x 8) = n / 2 ^ (k + 8) mod 256 ∧ wrap_u 8 x = n / 2 ^ k mod 256.
Proof.
  intros Hk ->. unfold wrap_u. rewrite Z.shiftr_div_pow2 by lia.
  rewrite Z.pow_add_r, <- Z.div_div by (lia || apply Z.pow_pos_nonneg; lia).
  change (2 ^ 8) with 256. set (y := n / 2 ^ k). clearbody y.
  split; Z.to_euclidean_division_equations; lia.
Qed.

Lemma write_data_bit_length_be64 v : write_data_bit_length (digits_of v) = Fips.be64 (8 * v).
Proof.
  unfold write_data_bit_length, digits_of. cbn [d0 d1 d2 d3]. cbv zeta.
  assert (Hr : ∀ x, 0 <= x mod 65536 < 65536) by (intros; apply Z.mod_pos_bound; lia).
  rewrite !(λ x, proj1 (bit_length_carry_eq _ (Hr x))).
  rewrite !bit_length_digit_eq by (done || lia || apply bit_length_carry_eq, Hr).
  rewrite !times8_digit.
  assert (E0 : (8 * (v mod 65536) + 0) mod 65536 = 8 * v / 2 ^ 0 mod 65536).
  { change (2 ^ 0) with 1. Z.to_euclidean_division_equations. lia. }
  assert (E1 : 8 * v / 65536 mod 65536 = 8 * v / 2 ^ 16 mod 65536) by done.
  assert (E2 : 8 * (v / 65536) / 65536 mod 65536 = 8 * v / 2 ^ 32 mod 65536).
  { change (2 ^ 32) with (65536 * 65536). rewrite <- (Z.div_div (8 * v)) by lia.
    Z.to_euclidean_division_equations. lia. }
  assert (E3 : 8 * (v / 65536 / 65536) / 65536 mod 65536 = 8 * v / 2 ^ 48 mod 65536).
  { change (2 ^ 48) with (65536 * 65536 * 65536). rewrite <- !(Z.div_div (8 * v)) by lia.
    Z.to_euclidean_division_equations. lia. }
  destruct (be_pair _ (8 * v) 0 ltac:(lia) E0) as [-> ->].
  destruct (be_pair _ (8 * v) 16 ltac:(lia) E1) as [-> ->].
  destruct (be_pair _ (8 * v) 32 ltac:(lia) E2) as [-> ->].
  destruct (be_pair _ (8 * v) 48 ltac:(lia) E3) as [-> ->]. done.
Qed.

(** ** The hasher computes SHA-256 *)

(** The state after the bytes [m]: the blocks of [m] are hashed, the rest of [m]
    is in the buffer, the digits hold its length. *)
Definition absorbed (m : list Z) (s : hash256_one_by_one) : Prop :=
  h_ s = Fips.iterate (length m / 64) initial_message_digest m ∧
  buffer_ s = drop (64 * (length m / 64)) m ∧
  data_length_digits_ s = digits_of (Z.of_nat (length m)).

Lemma initial_digest32 : digest32 initial_message_digest.
Proof. unfold digest32, word32. simpl. lia. Qed.

Lemma absorbed_init : absorbed [] init.
Proof. by split_and!. Qed.

Lemma div64_app (m bytes : list Z) :
  (length (m ++ bytes) / 64 =
   length m / 64 + length (drop (64 * (length m / 64)) m ++ bytes) / 64)%nat.
Proof.
  rewrite !length_app, length_drop. pose proof (Nat.div_mod_eq (length m) 64) as Hm.
  pose proof (Nat.mod_upper_bound (length m) 64 ltac:(lia)).
  set (q := (length m / 64)%nat) in *.
  replace (length m + length bytes)%nat
    with (length m - 64 * q + length bytes + q * 64)%nat by lia.
  rewrite Nat.div_add by lia. lia.
Qed.

Lemma absorbed_process m bytes s :
  Forall is_byte m -> Forall is_byte bytes -> Z.of_nat (length bytes) < 2 ^ 63 ->
  absorbed m s -> absorbed (m ++ bytes) (process bytes s).
Proof.
  intros Hm Hb Hlen (Hh & Hbuf & Hd). unfold process. rewrite Hh, Hbuf, Hd.
  set (q := (length m / 64)%nat). pose proof (Nat.div_mod_eq (length m) 64) as Hq. fold q in Hq.
  set (buf := drop (64 * q) m ++ bytes).
  assert (Hqn : length (take (64 * q) m) = (64 * q)%nat) by (rewrite length_take; lia).
  rewrite process_blocks_iterate
    by first [apply iterate_digest32, initial_digest32 | apply Forall_app_2; auto using Forall_drop].
  rewrite to_uint64_id by (unfold in_uint64; lia).
  rewrite add_to_data_length_of by lia.
  assert (Em : m ++ bytes = take (64 * q) m ++ buf).
  { unfold buf. by rewrite app_assoc, take_drop. }
  split_and!; cbn [h_ buffer_ data_length_digits_].
  - rewrite div64_app. fold q buf. rewrite Em, iterate_app, iterate_take by (done || lia). done.
  - rewrite div64_app. fold q buf. rewrite Em, drop_app_ge by lia. f_equal. lia.
  - f_equal. rewrite length_app. lia.
Qed.

(** What [finish] hashes after the last complete block. *)
Definition last_blocks (rest : list Z) (len : Z) : list Z :=
  rest ++ [0x80] ++ replicate (Z.to_nat ((55 - Z.of_nat (length rest)) mod 64)) 0 ++ Fips.be64 (8 * len).

Lemma insert_at_length (rest l : list Z) x y : <[length rest := x]> (rest ++ y :: l) = rest ++ x :: l.
Proof. induction rest as [|z rest IH]; simpl; [done|]. by f_equal. Qed.

(** The buffer with the end mark. *)
Lemma marked_buffer rest :
  (length rest < 64)%nat ->
  <[length rest := 0x80]> (rest ++ replicate (64 - length rest) 0) =
  (rest ++ [0x80]) ++ replicate (63 - length rest) 0.
Proof.
  intros Hr. replace (64 - length rest)%nat with (S (63 - length rest)) by lia. cbn [replicate].
  by rewrite insert_at_length, <- app_assoc.
Qed.

Lemma fill_zero_after (l : list Z) n hi :
  (length l <= hi)%nat -> (hi <= length l + n)%nat ->
  fill_zero (length l) hi (l ++ replicate n 0) = l ++ replicate n 0.
Proof.
  intros H1 H2. unfold fill_zero. rewrite take_app_length, drop_app_ge, drop_replicate by lia. f_equal.
  rewrite <- replicate_add. f_equal. lia.
Qed.

Lemma finish_short s :
  digest32 (h_ s) -> Forall is_byte (buffer_ s) -> (length (buffer_ s) <= 55)%nat ->
  h_ (finish s) = hash256_block (h_ s)
    ((buffer_ s ++ [0x80]) ++ replicate (55 - length (buffer_ s)) 0
       ++ write_data_bit_length (data_length_digits_ s)).
Proof.
  intros Hh Hb Hr. unfold finish. cbv zeta. rewrite (proj2 (Nat.leb_gt 64 _)) by lia.
  rewrite (proj2 (Nat.ltb_ge 55 _)) by lia. rewrite marked_buffer by lia. cbn [h_]. f_equal.
  replace (length (buffer_ s) + 1)%nat with (length (buffer_ s ++ [0x80]))
    by (rewrite length_app; simpl; lia).
  rewrite fill_zero_after by (rewrite length_app; simpl; lia).
  rewrite app_assoc. f_equal. rewrite take_app_ge by (rewrite length_app; simpl; lia).
  f_equal. rewrite take_replicate. f_equal. rewrite length_app. simpl. lia.
Qed.

Lemma finish_long s :
  (55 < length (buffer_ s) < 64)%nat ->
  h_ (finish s) = hash256_block
    (hash256_block (h_ s) ((buffer_ s ++ [0x80]) ++ replicate (63 - length (buffer_ s)) 0))
    (replicate 56 0 ++ write_data_bit_length (data_length_digits_ s)).
Proof.
  intros Hr. unfold finish. cbv zeta. rewrite (proj2 (Nat.leb_gt 64 _)) by lia.
  rewrite (proj2 (Nat.ltb_lt 55 _)) by lia. rewrite marked_buffer by lia. cbn [h_].
  replace (length (buffer_ s) + 1)%nat with (length (buffer_ s ++ [0x80]))
    by (rewrite length_app; simpl; lia).
  by rewrite fill_zero_after by (rewrite length_app; simpl; lia).
Qed.

Lemma be64_bytes n : Forall is_byte (Fips.be64 n).
Proof. unfold Fips.be64. repeat constructor; apply Z.mod_pos_bound; lia. Qed.

Lemma length_be64 n : length (Fips.be64 n) = 8%nat.
Proof. done. Qed.

Lemma zeros_bytes n : Forall is_byte (replicate n 0).
Proof. apply Forall_replicate. unfold is_byte. lia. Qed.

#[local] Hint Resolve Forall_app_2 be64_bytes zeros_bytes compress_digest32 : sha.

(** The padded message is its complete blocks and what [finish] hashes. *)
Lemma pad_split m :
  let q := (length m / 64)%nat in
  Fips.pad m = take (64 * q) m ++ last_blocks (drop (64 * q) m) (Z.of_nat (length m)).
Proof.
  intros q. unfold Fips.pad, last_blocks. rewrite (app_assoc (take _ _)), take_drop. do 4 f_equal.
  rewrite length_drop. pose proof (Nat.div_mod_eq (length m) 64) as Hq. fold q in Hq.
  replace (55 - Z.of_nat (length m)) with (55 - Z.of_nat (length m - 64 * q) + (- Z.of_nat q) * 64) by lia.
  by rewrite Z_mod_plus_full.
Qed.

Lemma finish_last_blocks m s :
  Forall is_byte m -> absorbed m s ->
  h_ (finish s) = Fips.iterate (length (last_blocks (buffer_ s) (Z.of_nat (length m))) / 64) (h_ s)
                    (last_blocks (buffer_ s) (Z.of_nat (length m))).
Proof.
  intros Hm (Hh & Hbuf & Hd).
  assert (Hlt : (length (buffer_ s) < 64)%nat).
  { rewrite Hbuf, length_drop. pose proof (Nat.div_mod_eq (length m) 64).
    pose proof (Nat.mod_upper_bound (length m) 64). lia. }
  assert (Hb : Forall is_byte (buffer_ s)) by (rewrite Hbuf; by apply Forall_drop).
  assert (H80 : Forall is_byte [0x80]) by (repeat constructor; done).
  assert (Hdig : digest32 (h_ s)) by (rewrite Hh; apply iterate_digest32, initial_digest32).
  unfold last_blocks. set (r := length (buffer_ s)) in *.
  destruct (Nat.le_gt_cases r 55) as [Hle|Hgt].
  - rewrite finish_short, Hd, write_data_bit_length_be64 by (done || lia). fold r.
    rewrite Z.mod_small by lia. replace (Z.to_nat (55 - Z.of_nat r)) with (55 - r)%nat by lia.
    rewrite hash256_block_compress by auto 6 with sha.
    rewrite !length_app, length_replicate, <- !app_assoc. fold r.
    replace ((r + (length [128%Z] + (55 - r + length (Fips.be64 (8 * Z.of_nat (length m)))))) / 64)%nat
      with 1%nat by (rewrite length_be64; cbn [length]; apply (Nat.div_unique _ 64 _ 0); lia).
    cbn [Fips.iterate]. rewrite take_ge; [done|]. rewrite !length_app, length_replicate.
    fold r. simpl. lia.
  - rewrite finish_long, Hd, write_data_bit_length_be64 by lia. fold r.
    assert (Ek : (55 - Z.of_nat r) mod 64 = 119 - Z.of_nat r).
    { symmetry. apply (Z.mod_unique _ _ (-1)); lia. }
    rewrite Ek. replace (Z.to_nat (119 - Z.of_nat r)) with ((63 - r) + 56)%nat by lia.
    rewrite (hash256_block_compress (h_ s)) by auto 6 with sha.
    rewrite hash256_block_compress by auto 6 with sha.
    rewrite replicate_add, !length_app, !length_replicate. fold r.
    replace ((r + (length [128%Z] + (63 - r + 56 + length (Fips.be64 (8 * Z.of_nat (length m)))))) / 64)%nat
      with (1 + 1)%nat by (rewrite length_be64; cbn [length]; apply (Nat.div_unique _ 64 _ 0); lia).
    rewrite !app_assoc, <- (app_assoc _ (replicate 56 0)).
    rewrite iterate_app by (rewrite !length_app, length_replicate; fold r; simpl; lia).
    cbn [Fips.iterate]. rewrite !take_ge; [done|simpl; lia|].
    rewrite !length_app, length_replicate. fold r. simpl. lia.
Qed.

Lemma finish_absorbed m s :
  Forall is_byte m -> absorbed m s -> get_hash_bytes (h_ (finish s)) = Fips.sha256 m.
Proof.
  intros Hm Ha. rewrite (finish_last_blocks m) by done. destruct Ha as (Hh & Hbuf & _).
  unfold Fips.sha256. rewrite pad_split. set (q := (length m / 64)%nat) in *.
  pose proof (Nat.div_mod_eq (length m) 64) as Hq. fold q in Hq.
  assert (Hqn : length (take (64 * q) m) = (64 * q)%nat) by (rewrite length_take; lia).
  rewrite Hbuf, Hh. set (lb := last_blocks _ _).
  rewrite length_app, Hqn. replace (64 * q + length lb)%nat with (length lb + q * 64)%nat by lia.
  rewrite Nat.div_add, Nat.add_comm, iterate_app, iterate_take by (done || lia). done.
Qed.

Lemma hash256_is_sha256 m :
  Forall is_byte m -> Z.of_nat (length m) < 2 ^ 61 -> hash256 m = Fips.sha256 m.
Proof.
  intros Hm Hlen. apply finish_absorbed; [done|].
  apply (absorbed_process []); [constructor|done|lia|apply absorbed_init].
Qed.

Lemma absorbed_feed n fuel bytes m s :
  (0 < n)%nat -> (length bytes <= fuel)%nat -> Forall is_byte m -> Forall is_byte bytes ->
  Z.of_nat (length bytes) < 2 ^ 61 -> absorbed m s ->
  absorbed (m ++ bytes) (hash256_feed fuel n bytes s).
Proof.
  intros Hn. revert bytes m s. induction fuel as [|fuel IH]; intros bytes m s Hf Hm Hb Hlen Ha.
  - destruct bytes; [|simpl in Hf; lia]. by rewrite app_nil_r.
  - destruct bytes as [|b bytes]; [by rewrite app_nil_r|]. cbn [hash256_feed].
    rewrite <- (take_drop n (b :: bytes)) at 1. rewrite app_assoc.
    apply IH; rewrite ?length_drop.
    + simpl in *. lia.
    + apply Forall_app_2; [done|by apply Forall_take].
    + by apply Forall_drop.
    + lia.
    + apply absorbed_process; [done|by apply Forall_take| |done]. rewrite length_take. lia.
Qed.

(** ** HMAC (RFC 2104) *)

Definition rfc2104_hmac (hash : list Z -> list Z) (block : nat) (key message : list Z) : list Z :=
  let k := if decide (length key <= block)%nat then key else hash key in
  let k0 := k ++ replicate (block - length k) 0 in
  hash ((Z.lxor 0x5c <$> k0) ++ hash ((Z.lxor 0x36 <$> k0) ++ message)).

Lemma word_bytes_bytes w : Forall is_byte (word_bytes w).
Proof. repeat constructor; apply Z.mod_pos_bound; lia. Qed.

Lemma get_hash_bytes_bytes d : Forall is_byte (get_hash_bytes d).
Proof. unfold get_hash_bytes. repeat apply Forall_app_2; apply word_bytes_bytes. Qed.

Lemma length_hash256 m : length (hash256 m) = 32%nat.
Proof. done. Qed.

Lemma hash256_bytes m : Forall is_byte (hash256 m).
Proof. apply get_hash_bytes_bytes. Qed.

(** Xor of bytes stays a byte, so the casts of the pad loops are identities. *)
Lemma lxor_byte c : is_byte c -> ∀ b, is_byte b -> wrap_u 8 (Z.lxor b c) = Z.lxor c b ∧ is_byte (Z.lxor c b).
Proof.
  unfold is_byte, wrap_u. intros Hc b Hb. rewrite (Z.lxor_comm b).
  assert (0 <= Z.lxor c b < 2 ^ 8) as Hx; [|split; [by apply Z.mod_small|done]].
  split; [apply Z.lxor_nonneg; tauto|].
  destruct (decide (Z.lxor c b = 0)) as [->|]; [done|].
  assert (0 <= Z.lxor c b) by (apply Z.lxor_nonneg; tauto).
  apply Z.log2_lt_pow2; [lia|]. eapply Z.le_lt_trans; [apply Z.log2_lxor; lia|].
  apply Z.max_lub_lt.
  - destruct (decide (c = 0)) as [->|]; [done|]. apply Z.log2_lt_pow2; lia.
  - destruct (decide (b = 0)) as [->|]; [done|]. apply Z.log2_lt_pow2; lia.
Qed.

Lemma pad_loop c l :
  is_byte c -> Forall is_byte l ->
  (λ kb, wrap_u 8 (Z.lxor kb c)) <$> l = Z.lxor c <$> l ∧ Forall is_byte (Z.lxor c <$> l).
Proof.
  intros Hc. induction 1 as [|b l Hb _ [IH1 IH2]]; [done|].
  destruct (lxor_byte c Hc b Hb) as [E Hx]. rewrite !fmap_cons, E, IH1. split; [done|by constructor].
Qed.

Lemma hmac_key_block_bytes key :
  Forall is_byte key -> Forall is_byte (hmac_key_block key) ∧ length (hmac_key_block key) = 64%nat.
Proof.
  intros Hk. unfold hmac_key_block. destruct (Nat.ltb_spec kBlock (length key)) as [H|H].
  - split; [apply Forall_app_2; [apply hash256_bytes|apply zeros_bytes]|done].
  - split; [apply Forall_app_2; [done|apply zeros_bytes]|].
    rewrite length_app, length_replicate. unfold kBlock in *. lia.
Qed.

(** On bytes: long keys are hashed, short ones zero-padded. *)
Lemma HmacSha256_bytes key message :
  Forall is_byte key -> Forall is_byte message ->
  Z.of_nat (length key) < 2 ^ 60 -> Z.of_nat (length message) < 2 ^ 60 ->
  HmacSha256 key message = rfc2104_hmac Fips.sha256 64 key message.
Proof.
  intros Hk Hm Hkl Hml. unfold HmacSha256, rfc2104_hmac. cbv zeta.
  assert (Ek : hmac_key_block key =
    (if decide (length key <= 64)%nat then key else Fips.sha256 key) ++
    replicate (64 - length (if decide (length key <= 64)%nat then key else Fips.sha256 key)) 0).
  { unfold hmac_key_block. destruct (Nat.ltb_spec kBlock (length key)) as [Hl|Hl]; unfold kBlock in *.
    - rewrite decide_False by lia. by rewrite hash256_is_sha256 by (done || lia).
    - by rewrite decide_True by lia. }
  rewrite <- Ek. destruct (hmac_key_block_bytes key Hk) as [Hkb Hkbl].
  destruct (pad_loop kHmacIpadXor _ ltac:(done) Hkb) as [-> Hi].
  destruct (pad_loop kHmacOpadXor _ ltac:(done) Hkb) as [-> Ho].
  rewrite <- (hash256_is_sha256 (_ ++ message)).
  - apply hash256_is_sha256; [apply Forall_app_2; [done|apply hash256_bytes]|].
    rewrite length_app, length_fmap, Hkbl, length_hash256. lia.
  - by apply Forall_app_2.
  - rewrite length_app, length_fmap, Hkbl. lia.
Qed.

Lemma HmacSha256_range key message : Forall is_byte (HmacSha256 key message).
Proof. apply hash256_bytes. Qed.

(** The tables, which the reference shares with the code, are the ones FIPS 180-4 defines:
    the first 32 bits of the fractional parts of the cube roots of the first 64 primes,
    and of the square roots of the first eight. *)
Definition first_primes : list Z :=
  filter (λ p, Forall (λ d, p mod d ≠ 0) (seqZ 2 (p - 2))) (seqZ 2 310).

(** [k] is the fraction, to 32 bits and rounded down, of the [e]-th root of [p]. *)
Definition root_fraction (e p k : Z) : Prop :=
  Exists (λ i, let r := i * 2 ^ 32 + k in r ^ e <= p * 2 ^ (32 * e) < (r + 1) ^ e) (seqZ 1 20).
#[local] Instance root_fraction_dec e p k : Decision (root_fraction e p k).
Proof. unfold root_fraction. cbv zeta. apply _. Defined.

Lemma add_constant_roots : length first_primes = 64%nat ∧ Forall2 (root_fraction 3) first_primes add_constant.
Proof. split; [vm_compute; reflexivity|]. apply (bool_decide_unpack _). vm_compute. exact I. Qed.

Lemma initial_digest_roots :
  let d := initial_message_digest in
  Forall2 (root_fraction 2) (take 8 first_primes) [da d; db_ d; dc d; dd d; de d; df d; dg d; dh d].
Proof. apply (bool_decide_unpack _). vm_compute. exact I. Qed.

(** C16: [HmacSha256Hex] prints, two lower-case digits a byte, the HMAC of RFC 2104 over
    FIPS 180-4 SHA-256 with 64-byte blocks, for every key and message below [2^60]
    bytes: long keys are hashed, short ones zero-padded, the 64-bit word arithmetic, the
    16-bit length digits and the two-case padding of picosha2 compute the standard's
    padded block iteration, and its stream manipulators keep leading zeros. *)
Theorem HmacSha256_rfc2104 key message :
  Z.of_nat (String.length key) < 2 ^ 60 -> Z.of_nat (String.length message) < 2 ^ 60 ->
  HmacSha256Hex key message =
  BytesToHex (rfc2104_hmac Fips.sha256 64 (bytes_of_string key) (bytes_of_string message)).
Proof.
  intros Hk Hm. unfold HmacSha256Hex. rewrite bytes_to_hex_string_eq by apply HmacSha256_range.
  rewrite HmacSha256_bytes; [done|apply bytes_of_string_range..|by rewrite length_bytes_of_string|
    by rewrite length_bytes_of_string].
Qed.

Lemma HmacSha256_rfc2104_witness :
  HmacSha256Hex "Jefe" "what do ya want for nothing?" =
  BytesToHex (rfc2104_hmac Fips.sha256 64 (bytes_of_string "Jefe") (bytes_of_string "what do ya want for nothing?")).
Proof. apply HmacSha256_rfc2104; vm_compute; reflexivity. Defined.

(** Reading the bytes through buffers of any positive size gives the same
    digest as hashing them at once, and both are SHA-256: [process] may be fed a
    message in arbitrary pieces. *)
Theorem hash256_buffered_sha256 n m :
  (0 < n)%nat -> Forall is_byte m -> Z.of_nat (length m) < 2 ^ 61 ->
  hash256_buffered n m = Fips.sha256 m.
Proof.
  intros Hn Hm Hlen. apply finish_absorbed; [done|].
  apply (absorbed_feed n _ _ []); [done|lia|constructor|done..|apply absorbed_init].
Qed.

Lemma hash256_buffered_sha256_witness :
  hash256_buffered 7 (bytes_of_string "The quick brown fox jumps over the lazy dog, twice over the lazy dog.") =
  Fips.sha256 (bytes_of_string "The quick brown fox jumps over the lazy dog, twice over the lazy dog.").
Proof. apply hash256_buffered_sha256; [lia|apply bytes_of_string_range|vm_compute; reflexivity]. Defined.

(** Conversion compares the arguments before it looks into the hash. *)
#[global] Strategy 100 [HmacSha256Hex].
