(* ===== verification/Users.v ===== *)
(** * UserRepository (lib/vox_store/user_repository.cpp) *)

From S2P Require Import Prelude Types Sql Database Samples.

(** ** Collations *)

(** ASCII case folding of the [NOCASE] collation. *)
Definition nocase_char (c : Ascii.ascii) : Ascii.ascii :=
  let n := Ascii.nat_of_ascii c in
  if (Nat.leb 65 n && Nat.leb n 90)%bool then Ascii.ascii_of_nat (n + 32) else c.

Fixpoint nocase (s : string) : string :=
  match s with
  | EmptyString => EmptyString
  | String c s' => String (nocase_char c) (nocase s')
  end.

(** The bytes after a UTF-8 lead byte ([SQLITE_SKIP_UTF8]). *)
Fixpoint skip_continuation (s : string) : string :=
  match s with
  | EmptyString => EmptyString
  | String c s' =>
      if (Nat.leb 128 (Ascii.nat_of_ascii c) && Nat.ltb (Ascii.nat_of_ascii c) 192)%bool
      then skip_continuation s' else s
  end.

(** The [LIKE] operator: [%] matches any sequence, [_] one character, ASCII letters
    match either case. *)
Fixpoint sql_like (p s : string) {struct p} : bool :=
  match p with
  | EmptyString => match s with EmptyString => true | _ => false end
  | String c p' =>
      if Ascii.eqb c (Ascii.ascii_of_nat 37) (* % *) then
        (fix any (s : string) : bool :=
           sql_like p' s || match s with EmptyString => false | String _ s' => any s' end) s
      else match s with
      | EmptyString => false
      | String c' s' =>
          if Ascii.eqb c (Ascii.ascii_of_nat 95) (* _ *) then
            sql_like p' (if Nat.leb 192 (Ascii.nat_of_ascii c') then skip_continuation s' else s')
          else Ascii.eqb (nocase_char c) (nocase_char c') && sql_like p' s'
      end
  end.

Record UserPublicProfile := mkUserPublicProfile { p_user_id : UserId; p_username : string }.

Record SyncKeyBundleRecord := mkSyncKeyBundleRecord {
  sk_sync_key_version : Z;
  sk_wrapped_sync_key : string;
  sk_sync_wrap_salt : string;
  sk_sync_wrap_params : string }.

Definition kMaxUserIdsInBatch : nat := 100.

Section UserRepository.
Context `{SqlEngine}.

(** The row of the [INSERT], which lists no [disabled_at]: the column is [NULL]. *)
Definition new_user_row (user : UserRecord) : UserRecord :=
  mkUserRecord (u_user_id user) (u_username user) (u_password_salt user) (u_password_verifier user)
    (u_created_at user) None (u_sync_key_version user) (u_wrapped_sync_key user)
    (u_sync_wrap_salt user) (u_sync_wrap_params user).

Definition CreateUser (user : UserRecord) : M Database unit :=
  let! taken := gets (λ db, sql_exists (λ x, nocase (u_username x) = nocase (u_username user)) (users db)) in
  if taken then throw kAlreadyExists "Username already taken" else
  exec (λ e, if is_constraint e then mkError kAlreadyExists "Username already taken"
             else internal_error e)
    (insert_users (new_user_row user)).

Definition FindByUsername (username : string) (db : Database) : option UserRecord :=
  first_row TUsers (filter (λ x, nocase (u_username x) = nocase username) (users db)).

Definition FindUserById (user_id : UserId) (db : Database) : option UserRecord :=
  first_row TUsers (filter (λ x, u_user_id x = user_id) (users db)).

(** The loop that collects the distinct ids of a request, at most
    [kMaxUserIdsInBatch] of them; [seen] is an [unordered_set]. *)
Fixpoint distinct_ids (ids : list UserId) (seen : gset string) (ordered : list UserId) : list UserId :=
  match ids with
  | [] => ordered
  | id :: ids' =>
      let seen' := {[id]} ∪ seen in
      let ordered' := if decide (id ∈ seen) then ordered else ordered ++ [id] in
      if Nat.leb kMaxUserIdsInBatch (length ordered') then ordered'
      else distinct_ids ids' seen' ordered'
  end.

Definition FindPublicProfilesByIds (ids : list UserId) (db : Database) : list UserPublicProfile :=
  let ordered := distinct_ids ids ∅ [] in
  match ordered with
  | [] => []
  | _ =>
    let rows := scan TUsers (filter (λ x, u_user_id x ∈ ordered ∧ u_disabled_at x = None) (users db)) in
    let by_id : gmap string string :=
      foldl (λ m x, <[u_user_id x := u_username x]> m) ∅ rows in
    omap (λ id, mkUserPublicProfile id <$> by_id !! id) ordered
  end.

Definition set_disabled_at (now : Timestamp) (x : UserRecord) : UserRecord :=
  mkUserRecord (u_user_id x) (u_username x) (u_password_salt x) (u_password_verifier x)
    (u_created_at x) (Some now) (u_sync_key_version x) (u_wrapped_sync_key x) (u_sync_wrap_salt x)
    (u_sync_wrap_params x).

(** [UPDATE users SET f WHERE user_id = ?], [kNotFound] when no row changed. *)
Definition update_user (user_id : UserId) (f : UserRecord -> UserRecord) : M Database unit :=
  let! rows := gets (λ db, sql_count (λ x, u_user_id x = user_id) (users db)) in
  modify (λ db, set_users (sql_update (λ x, u_user_id x = user_id) f (users db)) db) ;;!
  if Nat.eqb rows 0 then throw kNotFound "User not found" else mok tt.

Definition DisableUser (user_id : UserId) (now : Timestamp) : M Database unit :=
  update_user user_id (set_disabled_at now).

(** [ORDER BY created_at DESC LIMIT ? OFFSET ?]. *)
Definition newest_first (x y : UserRecord) : Prop := u_created_at y <= u_created_at x.
#[local] Instance newest_first_dec : RelDecision newest_first := λ x y, Z_le_dec _ _.

Definition ListUsers (limit offset : Z) (db : Database) : list UserRecord :=
  sql_limit_offset (to_int64 limit) (to_int64 offset)
    (sql_order_by newest_first (scan TUsers (users db))).

(** [ORDER BY username ASC]: the column's [BINARY] collation. *)
Definition by_username (x y : UserRecord) : Prop := String.le (u_username x) (u_username y).
#[local] Instance by_username_dec : RelDecision by_username := λ x y, String.le_dec _ _.

Definition SearchByUsernamePrefix (query : string) (limit : Z) (db : Database) : list UserRecord :=
  if query =s? "" then [] else
  sql_limit (to_int64 limit)
    (sql_order_by by_username
       (scan TUsers (filter (λ x, sql_like (query +:+ "%") (u_username x) = true
                                  ∧ u_disabled_at x = None) (users db)))).

Definition GetSyncKeyBundle (user_id : UserId) (db : Database) : option SyncKeyBundleRecord :=
  (λ u, mkSyncKeyBundleRecord (u_sync_key_version u) (u_wrapped_sync_key u) (u_sync_wrap_salt u)
          (u_sync_wrap_params u)) <$> FindUserById user_id db.

Definition set_sync_bundle (b : SyncKeyBundleRecord) (x : UserRecord) : UserRecord :=
  mkUserRecord (u_user_id x) (u_username x) (u_password_salt x) (u_password_verifier x)
    (u_created_at x) (u_disabled_at x) (sk_sync_key_version b) (sk_wrapped_sync_key b)
    (sk_sync_wrap_salt b) (sk_sync_wrap_params b).

Definition SetSyncKeyBundle (user_id : UserId) (bundle : SyncKeyBundleRecord) : M Database unit :=
  update_user user_id (set_sync_bundle bundle).

Definition set_credentials (salt verifier : string) (x : UserRecord) : UserRecord :=
  mkUserRecord (u_user_id x) (u_username x) salt verifier (u_created_at x) (u_disabled_at x)
    (u_sync_key_version x) (u_wrapped_sync_key x) (u_sync_wrap_salt x) (u_sync_wrap_params x).

Definition UpdatePasswordCredentials (user_id : UserId) (password_salt password_verifier : string)
    : M Database unit :=
  update_user user_id (set_credentials password_salt password_verifier).

(** ** Integrity *)

Lemma CreateUser_wf user : preserves db_wf (CreateUser user).
Proof. unfold CreateUser. preserve_step. apply preserves_exec. eauto with vox. Qed.

Lemma update_user_wf user_id f :
  (∀ x, u_user_id (f x) = u_user_id x) -> (∀ x, u_username (f x) = u_username x) ->
  preserves db_wf (update_user user_id f).
Proof.
  intros Hid Hname. unfold update_user. preserve_step.
  apply preserves_modify. intros db Hwf. destruct Hwf as [[] [] ?].
  split; [split|split|]; simpl in *; rewrite ?fmap_sql_update by done; done.
Qed.

Lemma DisableUser_wf user_id now : preserves db_wf (DisableUser user_id now).
Proof. by apply update_user_wf. Qed.
Lemma SetSyncKeyBundle_wf user_id b : preserves db_wf (SetSyncKeyBundle user_id b).
Proof. by apply update_user_wf. Qed.
Lemma UpdatePasswordCredentials_wf user_id s v :
  preserves db_wf (UpdatePasswordCredentials user_id s v).
Proof. by apply update_user_wf. Qed.

(** No two accounts have usernames that differ only in case: the schema's [UNIQUE]
    is case sensitive, the check of [CreateUser] is what rules them out. *)
Definition nocase_unique (db : Database) : Prop :=
  NoDup ((λ x, nocase (u_username x)) <$> users db).

#[export] Instance nocase_unique_dec db : Decision (nocase_unique db).
Proof. unfold nocase_unique. apply _. Defined.

Lemma CreateUser_Ok user db db' :
  CreateUser user db = (Ok tt, db') ->
  db' = set_users (sql_insert (new_user_row user) (users db)) db ∧
  (∀ x, x ∈ users db -> u_user_id x ≠ u_user_id user ∧
                        nocase (u_username x) ≠ nocase (u_username user)).
Proof.
  unfold CreateUser. intros Hc. minv Hc.
  destruct (sql_exists _ _) eqn:Et; [done|].
  apply exec_Ok in Hc. unfold insert_users in Hc. cases_in Hc.
  repeat split.
  - intros Heq. eapply sql_exists_false in E; [|eassumption]. apply E. by left.
  - eapply sql_exists_false in Et; eassumption.
Qed.

Lemma CreateUser_nocase_unique user db :
  nocase_unique db -> nocase_unique (CreateUser user db).2.
Proof.
  intros Hu. destruct (CreateUser user db) as [[[]|e] db'] eqn:Ec; simpl.
  - apply CreateUser_Ok in Ec as [-> Hfresh].
    unfold nocase_unique; simpl. apply NoDup_fmap_sql_insert; [done|].
    intros x Hx. by apply Hfresh.
  - unfold CreateUser in Ec. apply bind_Err in Ec as [[=]|(taken & db1 & [= <- <-] & Ec)].
    destruct (sql_exists _ _); [by injection Ec as <- <-|].
    by apply exec_Err in Ec as (? & _ & _ & ->).
Qed.

(** ** Lookups *)

Lemma FindUserById_Some user_id db u :
  FindUserById user_id db = Some u -> u ∈ users db ∧ u_user_id u = user_id.
Proof.
  intros Hf. apply (first_row_Some TUsers) in Hf. apply list_elem_of_filter in Hf. tauto.
Qed.

Lemma FindUserById_elem u db :
  db_wf db -> u ∈ users db -> FindUserById (u_user_id u) db = Some u.
Proof.
  intros [[] _ _] Hu. unfold FindUserById.
  rewrite (filter_key_singleton u_user_id _ _ u) by done. apply (first_row_singleton TUsers).
Qed.

Lemma FindUserById_None user_id db :
  FindUserById user_id db = None <-> user_id ∉ u_user_id <$> users db.
Proof.
  unfold FindUserById. rewrite (first_row_None TUsers), filter_nil_iff, list_elem_of_fmap.
  naive_solver.
Qed.

Lemma FindByUsername_Some name db u :
  FindByUsername name db = Some u -> u ∈ users db ∧ nocase (u_username u) = nocase name.
Proof.
  intros Hf. apply (first_row_Some TUsers) in Hf. apply list_elem_of_filter in Hf. tauto.
Qed.

Lemma FindByUsername_elem u name db :
  nocase_unique db -> u ∈ users db -> nocase (u_username u) = nocase name ->
  FindByUsername name db = Some u.
Proof.
  intros Hu Hin Hname. unfold FindByUsername.
  rewrite (filter_key_singleton (λ x, nocase (u_username x)) _ _ u); [|done..|by intros y ->].
  apply (first_row_singleton TUsers).
Qed.

Lemma FindByUsername_None name db :
  FindByUsername name db = None <-> ∀ x, x ∈ users db -> nocase (u_username x) ≠ nocase name.
Proof. unfold FindByUsername. by rewrite (first_row_None TUsers), filter_nil_iff. Qed.

(** ** Batched profiles *)

Lemma distinct_ids_take ids seen ordered :
  (∀ x, x ∈ seen <-> x ∈ ordered) -> (length ordered < kMaxUserIdsInBatch)%nat ->
  distinct_ids ids seen ordered =
  take kMaxUserIdsInBatch (ordered ++ filter (λ x, x ∉ ordered) (dedup_first ids)).
Proof.
  revert seen ordered. induction ids as [|id ids IH]; intros seen ordered Hseen Hlen;
    cbn [distinct_ids dedup_first].
  { rewrite filter_nil, app_nil_r, take_ge by lia. done. }
  rewrite filter_cons. destruct (decide (id ∈ seen)) as [Hin|Hin].
  - destruct (Nat.leb_spec kMaxUserIdsInBatch (length ordered)); [lia|].
    rewrite IH by (done || set_solver). do 2 f_equal.
    apply Hseen in Hin. rewrite decide_False by naive_solver.
    rewrite list_filter_filter. apply list_filter_iff. naive_solver.
  - rewrite Hseen in Hin. rewrite decide_True by done.
    assert (Erest : filter (λ x, x ∉ ordered) (filter (λ y, y ≠ id) (dedup_first ids)) =
      filter (λ x, x ∉ ordered ++ [id]) (dedup_first ids)).
    { rewrite list_filter_filter. apply list_filter_iff. intros x.
      rewrite elem_of_app, list_elem_of_singleton. tauto. }
    rewrite Erest. set (rest := filter _ (dedup_first ids)).
    replace (ordered ++ id :: rest) with ((ordered ++ [id]) ++ rest) by by rewrite <- app_assoc.
    destruct (Nat.leb_spec kMaxUserIdsInBatch (length (ordered ++ [id]))) as [Hge|Hlt].
    + rewrite length_app in Hge; simpl in Hge.
      rewrite take_app_length'; [done|rewrite length_app; simpl; lia].
    + apply IH; [|done]. intros x. rewrite elem_of_union, elem_of_singleton, Hseen.
      rewrite elem_of_app, list_elem_of_singleton. tauto.
Qed.

(** The profile the batch API shows for an id: none for unknown or disabled users. *)
Definition public_profile (db : Database) (id : UserId) : option UserPublicProfile :=
  match filter (λ x, u_user_id x = id ∧ u_disabled_at x = None) (users db) with
  | x :: _ => Some (mkUserPublicProfile id (u_username x))
  | [] => None
  end.

(** A batch of profiles is, for the first hundred distinct ids of the request in
    request order, the profile of each id that names an enabled account; repeated,
    unknown and disabled ids contribute nothing, whatever order the query visits
    the rows in. *)
Theorem FindPublicProfilesByIds_spec ids db :
  db_wf db ->
  FindPublicProfilesByIds ids db =
  omap (public_profile db) (take kMaxUserIdsInBatch (dedup_first ids)).
Proof.
  intros [[] _ _]. unfold FindPublicProfilesByIds.
  rewrite distinct_ids_take; [|set_solver|unfold kMaxUserIdsInBatch; simpl; lia].
  rewrite (filter_all _ (dedup_first ids)) by (intros ? _; apply not_elem_of_nil). simpl.
  set (ordered := take kMaxUserIdsInBatch (dedup_first ids)).
  destruct ordered as [|x0 l0] eqn:Eo; [done|]. rewrite <- Eo.
  apply list_omap_ext_elem. intros id Hid. unfold public_profile.
  set (P := λ x : UserRecord, u_user_id x ∈ ordered ∧ u_disabled_at x = None).
  pose proof (scan_perm TUsers (filter P (users db)) : _ ≡ₚ filter P (users db)) as Hperm.
  rewrite foldl_insert_lookup by (rewrite Hperm; by apply NoDup_fmap_filter).
  assert (Ef : filter (λ x, u_user_id x = id) (filter P (users db)) =
    filter (λ x, u_user_id x = id ∧ u_disabled_at x = None) (users db)).
  { rewrite list_filter_filter. apply list_filter_iff. unfold P. naive_solver. }
  pose proof (filter_Permutation (λ x, u_user_id x = id) _ _ Hperm) as Hf. rewrite Ef in Hf.
  destruct (filter (λ x, u_user_id x = id ∧ u_disabled_at x = None) (users db)) as [|y l] eqn:Ey.
  - apply Permutation_nil_r in Hf. by rewrite Hf.
  - assert (Hy : y ∈ filter (λ x, u_user_id x = id ∧ u_disabled_at x = None) (users db))
      by (rewrite Ey; left).
    apply list_elem_of_filter in Hy as [[Hyid Hyd] Hy].
    rewrite (filter_key_singleton u_user_id _ _ y) in Ey
      by (done || (intros z [Hz _]; congruence)). injection Ey as <-.
    apply Permutation_singleton_r in Hf. by rewrite Hf.
Qed.

(** Usernames are unique up to case: a created account is found under every
    casing of its name, no account with such a name existed, and the uniqueness
    that makes the lookup unambiguous is kept. *)
Theorem CreateUser_FindByUsername user db db' name :
  nocase_unique db -> CreateUser user db = (Ok tt, db') -> nocase name = nocase (u_username user) ->
  FindByUsername name db = None ∧ FindByUsername name db' = Some (new_user_row user) ∧
  nocase_unique db'.
Proof.
  intros Hu Hc Hn. pose proof (CreateUser_nocase_unique user db Hu) as Hu'. rewrite Hc in Hu'.
  destruct (CreateUser_Ok _ _ _ Hc) as [-> Hfresh]. split; [|split; [|done]].
  - apply FindByUsername_None. intros x Hx. rewrite Hn. by apply Hfresh.
  - apply FindByUsername_elem; [done| |by rewrite Hn]. apply elem_of_sql_insert. by right.
Qed.
End UserRepository.

Section witnesses.
#[local] Existing Instance rowid_engine.

Lemma FindPublicProfilesByIds_spec_witness :
  FindPublicProfilesByIds ["u2"; "nobody"; "u1"; "u2"] sample_db =
  omap (public_profile sample_db) ["u2"; "nobody"; "u1"].
Proof. rewrite FindPublicProfilesByIds_spec by exact sample_db_wf. reflexivity. Defined.

Lemma CreateUser_FindByUsername_witness :
  FindByUsername "CAROL" (CreateUser (sample_user "u3" "Carol") sample_db).2 =
  Some (sample_user "u3" "Carol").
Proof.
  apply (CreateUser_FindByUsername (sample_user "u3" "Carol") sample_db _ "CAROL").
  - apply (bool_decide_unpack (nocase_unique sample_db)). vm_compute. exact I.
  - vm_compute. reflexivity.
  - reflexivity.
Defined.
End witnesses.
