(* ===== verification/Devices.v ===== *)
(** * DeviceRepository (lib/vox_store/device_repository.cpp)

    The device directory and its one-time prekeys.  [now] is the value the
    operation reads from [std::chrono::system_clock]. *)

From S2P Require Import Prelude Types Sql Database Samples.

Record PrekeyRecord := mkPrekeyRecord {
  pr_prekey_id : string;
  pr_device_id : DeviceId;
  pr_prekey_public : string;
  pr_consumed_at : option Timestamp }.

Record PrekeyBundle := mkPrekeyBundle {
  pb_identity_key_public : string;
  pb_signed_prekey_public : string;
  pb_signed_prekey_signature : string;
  pb_one_time_prekey_public : option string;
  pb_one_time_prekey_id : option string }.

(** [WHERE user_id = ? AND device_id = ?]. *)
Definition is_device (user_id : UserId) (device_id : DeviceId) (d : DeviceRecord) : Prop :=
  d_user_id d = user_id ∧ d_device_id d = device_id.
#[export] Instance is_device_dec u d x : Decision (is_device u d x).
Proof. unfold is_device. apply _. Defined.

(** [WHERE user_id = ? AND device_id = ? AND consumed_at IS NULL]. *)
Definition is_available_prekey (user_id : UserId) (device_id : DeviceId) (k : PrekeyRow) : Prop :=
  k_user_id k = user_id ∧ k_device_id k = device_id ∧ k_consumed_at k = None.
#[export] Instance is_available_prekey_dec u d x : Decision (is_available_prekey u d x).
Proof. unfold is_available_prekey. apply _. Defined.

(** Assignments of the [UPDATE] statements. *)
Definition set_last_prekey_refresh_at (now : Timestamp) (d : DeviceRecord) : DeviceRecord :=
  mkDeviceRecord (d_device_id d) (d_user_id d) (d_identity_key_public d) (d_signed_prekey_public d)
    (d_signed_prekey_signature d) (Some now) (d_client_protocol_version d) (d_device_label d)
    (d_created_at d) (d_last_seen_at d) (d_revoked_at d).
Definition set_signed_prekey (pub sig : string) (now : Timestamp) (d : DeviceRecord) : DeviceRecord :=
  mkDeviceRecord (d_device_id d) (d_user_id d) (d_identity_key_public d) pub sig (Some now)
    (d_client_protocol_version d) (d_device_label d) (d_created_at d) (d_last_seen_at d)
    (d_revoked_at d).
Definition set_revoked_at (now : Timestamp) (d : DeviceRecord) : DeviceRecord :=
  mkDeviceRecord (d_device_id d) (d_user_id d) (d_identity_key_public d) (d_signed_prekey_public d)
    (d_signed_prekey_signature d) (d_last_prekey_refresh_at d) (d_client_protocol_version d)
    (d_device_label d) (d_created_at d) (d_last_seen_at d) (Some now).
Definition set_last_seen_at (now : Timestamp) (d : DeviceRecord) : DeviceRecord :=
  mkDeviceRecord (d_device_id d) (d_user_id d) (d_identity_key_public d) (d_signed_prekey_public d)
    (d_signed_prekey_signature d) (d_last_prekey_refresh_at d) (d_client_protocol_version d)
    (d_device_label d) (d_created_at d) now (d_revoked_at d).
Definition set_consumed_at (now : Timestamp) (k : PrekeyRow) : PrekeyRow :=
  mkPrekeyRow (k_prekey_id k) (k_user_id k) (k_device_id k) (k_prekey_public k) (Some now).

(** [ORDER BY created_at ASC]. *)
Definition oldest_device_first (x y : DeviceRecord) : Prop := d_created_at x <= d_created_at y.
#[export] Instance oldest_device_first_dec : RelDecision oldest_device_first := λ x y, Z_le_dec _ _.

Section DeviceRepository.
Context `{SqlEngine}.

Definition RegisterDevice (device : DeviceRecord) : M Database unit :=
  exec (λ e, if is_constraint e then mkError kAlreadyExists "Device already registered"
             else internal_error e)
    (insert_devices device).

Definition GetDevicesForUser (user_id : UserId) (db : Database) : list DeviceRecord :=
  sql_order_by oldest_device_first (scan TDevices (filter (λ d, d_user_id d = user_id) (devices db))).

Definition FindByUserAndDevice (user_id : UserId) (device_id : DeviceId) (db : Database)
    : option DeviceRecord :=
  first_row TDevices (filter (is_device user_id device_id) (devices db)).

Definition FindAllByDeviceId (device_id : DeviceId) (db : Database) : list DeviceRecord :=
  scan TDevices (filter (λ d, d_device_id d = device_id) (devices db)).

Definition StorePrekeys (user_id : UserId) (device_id : DeviceId) (prekeys : list PrekeyRecord)
    (now : Timestamp) : M Database unit :=
  transaction (
    for_each prekeys (λ pk,
      exec internal_error (insert_one_time_prekeys
        (mkPrekeyRow (pr_prekey_id pk) user_id device_id (pr_prekey_public pk) None))) ;;!
    modify (λ db, set_devices (sql_update (is_device user_id device_id)
                                 (set_last_prekey_refresh_at now) (devices db)) db)).

Definition ConsumeOneAvailableOtpLocked (user_id : UserId) (device_id : DeviceId) (now : Timestamp)
    : M Database (option PrekeyRecord) :=
  let! found := gets (λ db, first_row TOneTimePrekeys
                              (filter (is_available_prekey user_id device_id) (one_time_prekeys db))) in
  match found with
  | None => mok None
  | Some k =>
      let still_free := λ x, k_prekey_id x = k_prekey_id k ∧ k_consumed_at x = None in
      let! rows := gets (λ db, sql_count still_free (one_time_prekeys db)) in
      modify (λ db, set_one_time_prekeys
                      (sql_update still_free (set_consumed_at now) (one_time_prekeys db)) db) ;;!
      if Nat.eqb rows 0 then mok None
      else mok (Some (mkPrekeyRecord (k_prekey_id k) device_id (k_prekey_public k) (Some now)))
  end.

Definition GetPrekeyBundle (user_id : UserId) (device_id : DeviceId) (now : Timestamp)
    : M Database PrekeyBundle :=
  transaction (
    let! dev := gets (FindByUserAndDevice user_id device_id) in
    match dev with
    | None => throw kNotFound "Device not found"
    | Some d =>
        if decide (d_revoked_at d ≠ None) then throw kForbidden "Device revoked" else
        let! otp := ConsumeOneAvailableOtpLocked user_id device_id now in
        mok (mkPrekeyBundle (d_identity_key_public d) (d_signed_prekey_public d)
               (d_signed_prekey_signature d) (pr_prekey_public <$> otp) (pr_prekey_id <$> otp))
    end).

Definition ConsumeOneTimePrekey (user_id : UserId) (device_id : DeviceId) (now : Timestamp)
    : M Database PrekeyRecord :=
  transaction (
    let! consumed := ConsumeOneAvailableOtpLocked user_id device_id now in
    match consumed with
    | None => throw kNotFound "No available prekeys"
    | Some r => mok r
    end).

Definition UpdateSignedPrekey (user_id : UserId) (device_id : DeviceId)
    (signed_prekey_public signed_prekey_signature : string) (now : Timestamp) : M Database unit :=
  let! rows := gets (λ db, sql_count (λ d, is_device user_id device_id d ∧ d_revoked_at d = None)
                             (devices db)) in
  modify (λ db, set_devices
    (sql_update (λ d, is_device user_id device_id d ∧ d_revoked_at d = None)
       (set_signed_prekey signed_prekey_public signed_prekey_signature now) (devices db)) db) ;;!
  if Nat.eqb rows 0 then throw kNotFound "Device not found" else mok tt.

Definition RevokeDevice (user_id : UserId) (device_id : DeviceId) (now : Timestamp)
    : M Database unit :=
  transaction (
    let! rows := gets (λ db, sql_count (λ d, is_device user_id device_id d ∧ d_revoked_at d = None)
                               (devices db)) in
    modify (λ db, set_devices
      (sql_update (λ d, is_device user_id device_id d ∧ d_revoked_at d = None) (set_revoked_at now)
         (devices db)) db) ;;!
    if Nat.eqb rows 0 then throw kNotFound "Device not found" else
    modify (λ db, set_one_time_prekeys
      (sql_delete (λ k, k_user_id k = user_id ∧ k_device_id k = device_id) (one_time_prekeys db)) db)).

Definition UpdateLastSeen (user_id : UserId) (device_id : DeviceId) (now : Timestamp)
    : M Database unit :=
  modify (λ db, set_devices (sql_update (is_device user_id device_id) (set_last_seen_at now)
                               (devices db)) db).

Definition CountAvailableOneTimePrekeys (user_id : UserId) (device_id : DeviceId) (db : Database)
    : nat :=
  sql_count (is_available_prekey user_id device_id) (one_time_prekeys db).

(** ** Integrity *)

Lemma set_devices_update_wf (P : DeviceRecord -> Prop) `{!∀ d, Decision (P d)} f db :
  (∀ d, device_key (f d) = device_key d) -> (∀ d, d_user_id (f d) = d_user_id d) ->
  db_wf db -> db_wf (set_devices (sql_update P f (devices db)) db).
Proof.
  intros Hk Hu Hwf. destruct Hwf as [[] [] ?].
  split; [split|split|]; simpl in *; rewrite ?fmap_sql_update by done; done.
Qed.

Lemma set_prekeys_update_wf (P : PrekeyRow -> Prop) `{!∀ d, Decision (P d)} f db :
  (∀ k, k_prekey_id (f k) = k_prekey_id k) -> (∀ k, prekey_device (f k) = prekey_device k) ->
  db_wf db -> db_wf (set_one_time_prekeys (sql_update P f (one_time_prekeys db)) db).
Proof.
  intros Hk Hu Hwf. destruct Hwf as [[] [] ?].
  split; [split|split|]; simpl in *; rewrite ?fmap_sql_update by done; done.
Qed.

Lemma RegisterDevice_wf device : preserves db_wf (RegisterDevice device).
Proof. apply preserves_exec. eauto with vox. Qed.

Lemma RegisterDevice_Ok device db r db' :
  RegisterDevice device db = (Ok r, db') ->
  db' = set_devices (sql_insert device (devices db)) db ∧
  device_key device ∉ device_key <$> devices db.
Proof.
  destruct r. intros Hr. apply exec_Ok in Hr. unfold insert_devices in Hr.
  destruct (sql_exists _ _) eqn:Ex; [done|]. destruct (negb _); [done|]. injection Hr as <-.
  split; [done|]. intros (x & Ek & Hx)%list_elem_of_fmap.
  by apply (proj1 (sql_exists_false _ _) Ex x Hx).
Qed.

Lemma StorePrekeys_wf u d ks now : preserves db_wf (StorePrekeys u d ks now).
Proof.
  apply preserves_transaction. preserve_step.
  - apply preserves_for_each. intros pk _. apply preserves_exec. eauto with vox.
  - apply preserves_modify. intros db. by apply set_devices_update_wf.
Qed.

Lemma ConsumeOneAvailableOtpLocked_wf u d now :
  preserves db_wf (ConsumeOneAvailableOtpLocked u d now).
Proof.
  unfold ConsumeOneAvailableOtpLocked. preserve_step.
  apply preserves_modify. intros db. by apply set_prekeys_update_wf.
Qed.

Lemma GetPrekeyBundle_wf u d now : preserves db_wf (GetPrekeyBundle u d now).
Proof.
  apply preserves_transaction. preserve_step. apply ConsumeOneAvailableOtpLocked_wf.
Qed.

Lemma ConsumeOneTimePrekey_wf u d now : preserves db_wf (ConsumeOneTimePrekey u d now).
Proof.
  apply preserves_transaction. preserve_step. apply ConsumeOneAvailableOtpLocked_wf.
Qed.

Lemma UpdateSignedPrekey_wf u d p s now : preserves db_wf (UpdateSignedPrekey u d p s now).
Proof.
  unfold UpdateSignedPrekey. preserve_step.
  apply preserves_modify. intros db. by apply set_devices_update_wf.
Qed.

Lemma RevokeDevice_wf u d now : preserves db_wf (RevokeDevice u d now).
Proof.
  apply preserves_transaction. preserve_step; apply preserves_modify; intros db.
  - by apply set_devices_update_wf.
  - intros Hwf. db_wf_solve.
Qed.

Lemma UpdateLastSeen_wf u d now : preserves db_wf (UpdateLastSeen u d now).
Proof. apply preserves_modify. intros db. by apply set_devices_update_wf. Qed.

(** ** Lookups *)

Lemma elem_of_GetDevicesForUser u db d :
  d ∈ GetDevicesForUser u db <-> d ∈ devices db ∧ d_user_id d = u.
Proof.
  unfold GetDevicesForUser, sql_order_by. rewrite (merge_sort_Permutation _ _ : _ ≡ₚ _).
  rewrite (elem_of_scan TDevices), list_elem_of_filter. tauto.
Qed.

Lemma NoDup_GetDevicesForUser u db :
  db_wf db -> NoDup (d_device_id <$> GetDevicesForUser u db).
Proof.
  intros [[] _ _]. unfold GetDevicesForUser, sql_order_by.
  rewrite (merge_sort_Permutation _ _ : _ ≡ₚ _), (scan_perm TDevices _ : _ ≡ₚ _).
  apply (NoDup_fmap_filter _ (λ d, d_user_id d = u)) in pk_devices.
  induction (devices db) as [|d l IH]; [constructor|].
  revert pk_devices. rewrite filter_cons. case_decide as Hd; [|done].
  rewrite !fmap_cons, !NoDup_cons. intros [Hx Hl]. split; [|by apply IH].
  intros (y & Ey & Hy)%list_elem_of_fmap. apply Hx, list_elem_of_fmap. exists y.
  split; [|done]. apply list_elem_of_filter in Hy as [Hy _]. unfold device_key. congruence.
Qed.

Lemma FindByUserAndDevice_Some u d db x :
  FindByUserAndDevice u d db = Some x -> x ∈ devices db ∧ d_user_id x = u ∧ d_device_id x = d.
Proof.
  intros Hf. apply (first_row_Some TDevices) in Hf.
  apply list_elem_of_filter in Hf as [[? ?] ?]. done.
Qed.

Lemma FindByUserAndDevice_elem x db :
  db_wf db -> x ∈ devices db -> FindByUserAndDevice (d_user_id x) (d_device_id x) db = Some x.
Proof.
  intros [[] _ _] Hx. unfold FindByUserAndDevice.
  rewrite (filter_key_singleton device_key _ _ x); [apply (first_row_singleton TDevices)|done..|].
  intros y [Hu Hd]. unfold device_key. congruence.
Qed.

Lemma FindByUserAndDevice_None u d db :
  FindByUserAndDevice u d db = None <-> (u, d) ∉ device_key <$> devices db.
Proof.
  unfold FindByUserAndDevice. rewrite (first_row_None TDevices), filter_nil_iff, list_elem_of_fmap.
  unfold is_device, device_key. naive_solver.
Qed.

(** ** One-time prekeys are handed out once *)

(** The prekey [id] of the device was handed out and its row is still there. *)
Definition consumed (db : Database) (device : UserId * DeviceId) (id : string) : Prop :=
  ∃ k, k ∈ one_time_prekeys db ∧ prekey_device k = device ∧ k_prekey_id k = id ∧ k_consumed_at k ≠ None.

Lemma ConsumeOneAvailableOtpLocked_spec u d now db r db' :
  db_wf db -> ConsumeOneAvailableOtpLocked u d now db = (r, db') ->
  (r = Ok None ∧ db' = db ∧ (∀ k, k ∈ one_time_prekeys db -> ¬ is_available_prekey u d k)) ∨
  (∃ k, k ∈ one_time_prekeys db ∧ is_available_prekey u d k ∧
     r = Ok (Some (mkPrekeyRecord (k_prekey_id k) d (k_prekey_public k) (Some now))) ∧
     db' = set_one_time_prekeys
       (sql_update (λ x, k_prekey_id x = k_prekey_id k) (set_consumed_at now) (one_time_prekeys db)) db).
Proof.
  intros [[] _ _] Hc. unfold ConsumeOneAvailableOtpLocked, bind, gets, modify in Hc.
  destruct (first_row TOneTimePrekeys _) as [k|] eqn:Ef.
  - right. apply (first_row_Some TOneTimePrekeys), list_elem_of_filter in Ef as [Hav Hk].
    exists k. destruct (Nat.eqb_spec (sql_count
      (λ x, k_prekey_id x = k_prekey_id k ∧ k_consumed_at x = None) (one_time_prekeys db)) 0) as [E|E].
    { exfalso. revert E. apply (sql_count_pos _ _ k); [done|]. by destruct Hav as (_ & _ & ->). }
    injection Hc as <- <-. split; [done|]. split; [done|]. split; [done|]. f_equal.
    apply sql_update_ext. intros x Hx. split; [tauto|]. intros E'. split; [done|].
    rewrite (NoDup_fmap_inj_on k_prekey_id _ x k pk_prekeys) by done. apply Hav.
  - left. injection Hc as <- <-. apply (first_row_None TOneTimePrekeys) in Ef.
    split; [done|]. split; [done|]. by apply (filter_nil_iff _ _).
Qed.

(** The operations of the repository that change the store; a trace interleaves them in
    any order, with any arguments. *)
Inductive device_op :=
  | OpRegister (device : DeviceRecord)
  | OpStore (u : UserId) (d : DeviceId) (ks : list PrekeyRecord) (now : Timestamp)
  | OpBundle (u : UserId) (d : DeviceId) (now : Timestamp)
  | OpConsume (u : UserId) (d : DeviceId) (now : Timestamp)
  | OpSigned (u : UserId) (d : DeviceId) (pub sig : string) (now : Timestamp)
  | OpRevoke (u : UserId) (d : DeviceId) (now : Timestamp)
  | OpSeen (u : UserId) (d : DeviceId) (now : Timestamp).

(** The device whose prekeys an operation hands out. *)
Definition hands_out_of (op : device_op) : option (UserId * DeviceId) :=
  match op with OpBundle u d _ | OpConsume u d _ => Some (u, d) | _ => None end.

Definition revokes (device : UserId * DeviceId) (op : device_op) : Prop :=
  ∃ now, op = OpRevoke device.1 device.2 now.

(** The id of the one-time prekey an operation returns to its caller, if any. *)
Definition run_device_op (op : device_op) (db : Database) : option string * Database :=
  match op with
  | OpRegister device => (None, (RegisterDevice device db).2)
  | OpStore u d ks now => (None, (StorePrekeys u d ks now db).2)
  | OpBundle u d now =>
      match GetPrekeyBundle u d now db with
      | (Ok b, db') => (pb_one_time_prekey_id b, db')
      | (Err _, db') => (None, db')
      end
  | OpConsume u d now =>
      match ConsumeOneTimePrekey u d now db with
      | (Ok r, db') => (Some (pr_prekey_id r), db')
      | (Err _, db') => (None, db')
      end
  | OpSigned u d p sg now => (None, (UpdateSignedPrekey u d p sg now db).2)
  | OpRevoke u d now => (None, (RevokeDevice u d now db).2)
  | OpSeen u d now => (None, (UpdateLastSeen u d now db).2)
  end.

(** What each operation of a trace hands out. *)
Fixpoint run_device_ops (ops : list device_op) (db : Database) : list (option string) * Database :=
  match ops with
  | [] => ([], db)
  | op :: ops' =>
      let '(id, db1) := run_device_op op db in
      let '(ids, db2) := run_device_ops ops' db1 in
      (id :: ids, db2)
  end.

(** A consumed prekey stays consumed until its device is revoked. *)
Lemma StorePrekeys_consumed u d ks now dv i : preserves (λ db, consumed db dv i) (StorePrekeys u d ks now).
Proof.
  apply preserves_transaction. preserve_step.
  - apply preserves_for_each. intros pk _. apply preserves_exec.
    intros db db' (k & Hk & Hi & Hc) Hins. unfold insert_one_time_prekeys in Hins. cases_in Hins.
    exists k. simpl. rewrite elem_of_sql_insert. auto.
  - by apply preserves_modify.
Qed.

Lemma UpdateSignedPrekey_consumed u d p sg now dv i :
  preserves (λ db, consumed db dv i) (UpdateSignedPrekey u d p sg now).
Proof. unfold UpdateSignedPrekey. preserve_step. by apply preserves_modify. Qed.

Lemma RegisterDevice_consumed device dv i : preserves (λ db, consumed db dv i) (RegisterDevice device).
Proof.
  apply preserves_exec. intros db db' Hc Hins. unfold insert_devices in Hins. by cases_in Hins.
Qed.

Lemma RevokeDevice_consumed u d now dv i :
  dv ≠ (u, d) -> preserves (λ db, consumed db dv i) (RevokeDevice u d now).
Proof.
  intros Hne. apply preserves_transaction. preserve_step; apply preserves_modify; intros db; [done|].
  intros (k & Hk & Hd & Hc). exists k. split; [|done]. simpl. apply elem_of_sql_delete. split; [done|].
  intros [E1 E2]. apply Hne. rewrite <- Hd. unfold prekey_device. congruence.
Qed.

(** What one operation does to the consumed prekeys. *)
Definition consumes (op : device_op) (db : Database) (id : option string) (db' : Database) : Prop :=
  db_wf db' ∧ (∀ dv i, ¬ revokes dv op -> consumed db dv i -> consumed db' dv i) ∧
  (∀ i, id = Some i -> ∃ dv, hands_out_of op = Some dv ∧ (∀ dv', ¬ consumed db dv' i) ∧ consumed db' dv i).

Lemma consumes_mark op db k now :
  db_wf db -> k ∈ one_time_prekeys db -> k_consumed_at k = None -> hands_out_of op = Some (prekey_device k) ->
  consumes op db (Some (k_prekey_id k))
    (set_one_time_prekeys (sql_update (λ x, k_prekey_id x = k_prekey_id k) (set_consumed_at now)
                             (one_time_prekeys db)) db).
Proof.
  intros Hwf Hk Hnone Hop. split; [by apply set_prekeys_update_wf|]. split.
  - intros dv i _ (x & Hx & Hd & Hid & Hc). unfold consumed. simpl.
    destruct (decide (k_prekey_id x = k_prekey_id k)) as [E|E].
    + exists (set_consumed_at now x). rewrite elem_of_sql_update.
      split; [|done]. exists x. by rewrite decide_True.
    + exists x. rewrite elem_of_sql_update. split; [|done]. exists x. by rewrite decide_False.
  - intros i [= <-]. exists (prekey_device k). split; [done|]. split.
    + intros dv (x & Hx & _ & Hid & Hc). destruct Hwf as [[] _ _].
      by rewrite (NoDup_fmap_inj_on k_prekey_id _ x k pk_prekeys) in Hc by done.
    + exists (set_consumed_at now k). simpl. rewrite elem_of_sql_update.
      split; [|done]. exists k. by rewrite decide_True.
Qed.

Lemma consumes_none op db : db_wf db -> consumes op db None db.
Proof. intros Hwf. split; [done|]. by split. Qed.

Lemma ConsumeOneTimePrekey_consumes u d now db id db' :
  db_wf db -> run_device_op (OpConsume u d now) db = (id, db') -> consumes (OpConsume u d now) db id db'.
Proof.
  intros Hwf. simpl. unfold ConsumeOneTimePrekey, transaction, bind.
  destruct (ConsumeOneAvailableOtpLocked u d now db) as [r db1] eqn:Ec.
  destruct (ConsumeOneAvailableOtpLocked_spec _ _ _ _ _ _ Hwf Ec)
    as [(-> & -> & _)|(k & Hk & (Hu & Hd & Hnone) & -> & ->)]; simpl; intros [= <- <-].
  - by apply consumes_none.
  - apply consumes_mark; [done..|]. unfold prekey_device. simpl. congruence.
Qed.

Lemma GetPrekeyBundle_consumes u d now db id db' :
  db_wf db -> run_device_op (OpBundle u d now) db = (id, db') -> consumes (OpBundle u d now) db id db'.
Proof.
  intros Hwf. simpl. unfold GetPrekeyBundle, transaction, bind, gets.
  destruct (FindByUserAndDevice u d db) as [dev|]; [|simpl; intros [= <- <-]; by apply consumes_none].
  case_decide; [simpl; intros [= <- <-]; by apply consumes_none|].
  destruct (ConsumeOneAvailableOtpLocked u d now db) as [r db1] eqn:Ec.
  destruct (ConsumeOneAvailableOtpLocked_spec _ _ _ _ _ _ Hwf Ec)
    as [(-> & -> & _)|(k & Hk & (Hu & Hd & Hnone) & -> & ->)]; simpl; intros [= <- <-].
  - by apply consumes_none.
  - apply consumes_mark; [done..|]. unfold prekey_device. simpl. congruence.
Qed.

Lemma run_device_op_consumes op db id db' :
  db_wf db -> run_device_op op db = (id, db') -> consumes op db id db'.
Proof.
  intros Hwf. destruct op as [device|u d ks now|u d now|u d now|u d p sg now|u d now|u d now].
  - intros [= <- <-]. split; [by apply RegisterDevice_wf|].
    split; [|done]. intros dv i _. apply RegisterDevice_consumed.
  - intros [= <- <-]. split; [by apply StorePrekeys_wf|].
    split; [|done]. intros dv i _. apply StorePrekeys_consumed.
  - by apply GetPrekeyBundle_consumes.
  - by apply ConsumeOneTimePrekey_consumes.
  - intros [= <- <-]. split; [by apply UpdateSignedPrekey_wf|].
    split; [|done]. intros dv i _. apply UpdateSignedPrekey_consumed.
  - intros [= <- <-]. split; [by apply RevokeDevice_wf|]. split; [|done]. intros dv i Hno.
    apply RevokeDevice_consumed. intros ->. apply Hno. by exists now.
  - intros [= <- <-]. split; [by apply UpdateLastSeen_wf|]. done.
Qed.

#[export] Instance revokes_dec dv op : Decision (revokes dv op).
Proof.
  destruct op as [| | | | |u d now|]; [right; by intros [? ?]..| |right; by intros [? ?]].
  destruct dv as [u' d']. destruct (decide ((u', d') = (u, d))) as [[= -> ->]|Hne]; [left; by exists now|].
  right. intros [t [= -> ->]]. by apply Hne.
Defined.

(** A consumed prekey is handed out again only after its device was revoked. *)
Lemma consumed_until_revoked ops db dv id j :
  db_wf db -> consumed db dv id -> (run_device_ops ops db).1 !! j = Some (Some id) ->
  ∃ k op, (k < j)%nat ∧ ops !! k = Some op ∧ revokes dv op.
Proof.
  revert db j. induction ops as [|op ops IH]; intros db j Hwf Hc; simpl; [done|].
  destruct (run_device_op op db) as [id1 db1] eqn:E1.
  destruct (run_device_op_consumes _ _ _ _ Hwf E1) as (Hwf1 & Hmono & Hid).
  specialize (IH db1). destruct (run_device_ops ops db1) as [ids db2]. simpl in *.
  destruct j as [|j]; simpl.
  - intros [= ->]. destruct (Hid id eq_refl) as (_ & _ & Hno & _). by destruct (Hno dv).
  - intros Hj. destruct (decide (revokes dv op)) as [Hr|Hr]; [exists 0%nat, op; split; [lia|done]|].
    destruct (IH j Hwf1 (Hmono dv id Hr Hc) Hj) as (k & op' & Hk & Hop & Hrev).
    exists (S k), op'. split; [lia|done].
Qed.

(** C6: A one-time prekey is handed out at most once between two revocations of its
    device.  Over any sequence of the operations of the device repository that change
    it (registrations, uploads, bundle requests, consumptions, key rotations,
    revocations and the last-seen time): when an id is handed out twice, the device
    whose prekey it was the first time was revoked in between.  Revoking deletes the rows
    of the device, the consumed ones too, so that the id can be stored anew. *)
Theorem one_time_prekey_single_use ops db i j id op :
  db_wf db -> (i < j)%nat -> ops !! i = Some op ->
  (run_device_ops ops db).1 !! i = Some (Some id) -> (run_device_ops ops db).1 !! j = Some (Some id) ->
  ∃ dv k op', hands_out_of op = Some dv ∧ (i < k < j)%nat ∧ ops !! k = Some op' ∧ revokes dv op'.
Proof.
  revert db i j. induction ops as [|op0 ops IH]; intros db i j Hwf Hij; [done|]. simpl.
  destruct (run_device_op op0 db) as [id1 db1] eqn:E1.
  destruct (run_device_op_consumes _ _ _ _ Hwf E1) as (Hwf1 & _ & Hid).
  specialize (IH db1). pose proof (consumed_until_revoked ops db1) as Hcons.
  destruct (run_device_ops ops db1) as [ids db2]. simpl in *.
  destruct j as [|j]; [lia|]. destruct i as [|i]; simpl.
  - intros [= ->] [= ->] Hj. destruct (Hid id eq_refl) as (dv & Hdv & _ & Hc).
    destruct (Hcons dv id j Hwf1 Hc Hj) as (k & op' & Hk & Hop & Hr).
    exists dv, (S k), op'. split; [done|]. split; [lia|done].
  - intros Hop Hi Hj. destruct (IH i j Hwf1 ltac:(lia) Hop Hi Hj) as (dv & k & op' & Hdv & Hk & Hop' & Hr).
    exists dv, (S k), op'. split; [done|]. split; [lia|done].
Qed.

(** A bundle is served for exactly the devices that exist and are not revoked,
    with the device's own keys; it carries an unused one-time prekey of that
    device whenever one is left, and otherwise none and the store is unchanged. *)
Theorem GetPrekeyBundle_spec u d now db :
  db_wf db ->
  match FindByUserAndDevice u d db with
  | None => GetPrekeyBundle u d now db = (Err (mkError kNotFound "Device not found"), db)
  | Some dev =>
      match d_revoked_at dev with
      | Some _ => GetPrekeyBundle u d now db = (Err (mkError kForbidden "Device revoked"), db)
      | None => ∃ otp db', GetPrekeyBundle u d now db =
          (Ok (mkPrekeyBundle (d_identity_key_public dev) (d_signed_prekey_public dev)
                 (d_signed_prekey_signature dev) (k_prekey_public <$> otp) (k_prekey_id <$> otp)), db')
          ∧ (match otp with
             | None => db' = db ∧ CountAvailableOneTimePrekeys u d db = 0%nat
             | Some k => k ∈ one_time_prekeys db ∧ is_available_prekey u d k
             end)
      end
  end.
Proof.
  intros Hwf. unfold GetPrekeyBundle, transaction, bind, gets.
  destruct (FindByUserAndDevice u d db) as [dev|]; [|done].
  destruct (d_revoked_at dev) as [t|] eqn:Er; [by rewrite decide_True by done|].
  rewrite decide_False by (intros Hne; by apply Hne).
  destruct (ConsumeOneAvailableOtpLocked u d now db) as [r db1] eqn:Ec.
  destruct (ConsumeOneAvailableOtpLocked_spec _ _ _ _ _ _ Hwf Ec)
    as [(-> & -> & Hno)|(k & Hk & Hav & -> & ->)]; simpl.
  - exists None, db. split; [done|]. split; [done|]. by apply sql_count_zero.
  - by eexists (Some k), _.
Qed.
End DeviceRepository.

Section witnesses.
#[local] Existing Instance rowid_engine.

(** Without a revocation the two prekeys go out once each; after one, an id can be
    stored and handed out again. *)
Example prekeys_run_out :
  (run_device_ops [OpBundle "u1" "d1" 2000; OpConsume "u1" "d1" 2001; OpBundle "u1" "d1" 2002]
     sample_prekeys_db).1 = [Some "k1"; Some "k2"; None].
Proof. vm_compute. reflexivity. Qed.

Definition reused_prekey : list device_op :=
  [OpBundle "u1" "d1" 2000; OpRevoke "u1" "d1" 2001;
   OpStore "u1" "d1" [mkPrekeyRecord "k1" "d1" "pk" None] 2002; OpConsume "u1" "d1" 2003].

Lemma one_time_prekey_single_use_witness :
  (run_device_ops reused_prekey sample_prekeys_db).1 = [Some "k1"; None; None; Some "k1"] ∧
  ∃ dv k op', hands_out_of (OpBundle "u1" "d1" 2000) = Some dv ∧ (0 < k < 3)%nat ∧
    reused_prekey !! k = Some op' ∧ revokes dv op'.
Proof.
  split; [vm_compute; reflexivity|].
  apply (one_time_prekey_single_use reused_prekey sample_prekeys_db 0 3 "k1");
    [apply sample_prekeys_db_wf|lia|done|vm_compute; reflexivity..].
Defined.

Lemma GetPrekeyBundle_spec_witness :
  ∃ otp db', GetPrekeyBundle "u1" "d1" 2000 sample_prekeys_db =
    (Ok (mkPrekeyBundle "ik" "spk" "sig" (k_prekey_public <$> otp) (k_prekey_id <$> otp)), db').
Proof.
  pose proof (GetPrekeyBundle_spec "u1" "d1" 2000 sample_prekeys_db sample_prekeys_db_wf) as Hs.
  simpl in Hs. destruct Hs as (otp & db' & E & _). by exists otp, db'.
Defined.
End witnesses.
