(* ===== verification/Sessions.v ===== *)
(** * SessionRepository (lib/vox_store/session_repository.{hpp,cpp})

    The operations on the [sessions] table, the interface [ISessionRepository]
    the authentication code is written against, with the laws it relies on, and
    the proof that the SQL implementation satisfies them. *)

From S2P Require Import Prelude Types Sql Database.

(** ** The interface *)

(** A session as stored: the [INSERT] lists no [revoked_at]. *)
Definition new_session_row (r : SessionRecord) : SessionRecord :=
  mkSessionRecord (s_session_id r) (s_user_id r) (s_device_id r) (s_access_token_hash r)
    (s_refresh_token_hash r) (s_access_expires_at r) (s_refresh_expires_at r) (s_created_at r) None.

Definition set_session_revoked (now : Timestamp) (r : SessionRecord) : SessionRecord :=
  mkSessionRecord (s_session_id r) (s_user_id r) (s_device_id r) (s_access_token_hash r)
    (s_refresh_token_hash r) (s_access_expires_at r) (s_refresh_expires_at r) (s_created_at r)
    (Some now).

Definition session_live (r : SessionRecord) : Prop := s_revoked_at r = None.
#[export] Instance session_live_dec r : Decision (session_live r).
Proof. unfold session_live. apply _. Defined.

(** The row [x'] is [x], revoked at [now] when it is live and [P] selects it. *)
Definition revoked_where (P : SessionRecord -> Prop) (now : Timestamp) (x x' : SessionRecord) : Prop :=
  (P x ∧ session_live x ∧ x' = set_session_revoked now x) ∨ (¬ (P x ∧ session_live x) ∧ x' = x).

Class ISessionRepository (S : Type) := {
  CreateSession : SessionRecord -> M S unit;
  FindByAccessToken : string -> S -> option SessionRecord;
  FindByRefreshToken : string -> S -> option SessionRecord;
  RevokeSession : string -> Timestamp -> M S unit;
  RevokeAllForUser : UserId -> Timestamp -> M S unit;
  RevokeAllForDevice : UserId -> DeviceId -> Timestamp -> M S unit;
  (** What the implementation keeps: every session ever created and not purged. *)
  stored : S -> SessionRecord -> Prop;
  repo_inv : S -> Prop;
  (** The primary key. *)
  session_id_unique_law s x y : repo_inv s -> stored s x -> stored s y ->
    s_session_id x = s_session_id y -> x = y;
  (** The [UNIQUE] column of refresh tokens, revoked sessions included. *)
  refresh_unique_law s x y : repo_inv s -> stored s x -> stored s y ->
    s_refresh_token_hash x = s_refresh_token_hash y -> x = y;
  find_access_law s h r : repo_inv s ->
    FindByAccessToken h s = Some r <-> stored s r ∧ session_live r ∧ s_access_token_hash r = h;
  find_refresh_law s h r : repo_inv s ->
    FindByRefreshToken h s = Some r <-> stored s r ∧ session_live r ∧ s_refresh_token_hash r = h;
  create_ok_law s r s' : repo_inv s -> CreateSession r s = (Ok tt, s') ->
    repo_inv s' ∧ (∀ x, stored s' x <-> stored s x ∨ x = new_session_row r) ∧
    (∀ x, stored s x -> s_session_id x ≠ s_session_id r ∧
       s_access_token_hash x ≠ s_access_token_hash r ∧ s_refresh_token_hash x ≠ s_refresh_token_hash r);
  create_err_law s r e s' : CreateSession r s = (Err e, s') -> s' = s;
  revoke_law s id now : repo_inv s ->
    repo_inv (RevokeSession id now s).2 ∧
    (∀ x', stored (RevokeSession id now s).2 x' <->
       ∃ x, stored s x ∧ revoked_where (λ y, s_session_id y = id) now x x') ∧
    ((RevokeSession id now s).1 = Ok tt <-> ∃ x, stored s x ∧ session_live x ∧ s_session_id x = id);
  revoke_user_law s u now : repo_inv s ->
    repo_inv (RevokeAllForUser u now s).2 ∧ (RevokeAllForUser u now s).1 = Ok tt ∧
    (∀ x', stored (RevokeAllForUser u now s).2 x' <->
       ∃ x, stored s x ∧ revoked_where (λ y, s_user_id y = u) now x x');
  revoke_device_law s u d now : repo_inv s ->
    repo_inv (RevokeAllForDevice u d now s).2 ∧ (RevokeAllForDevice u d now s).1 = Ok tt ∧
    (∀ x', stored (RevokeAllForDevice u d now s).2 x' <->
       ∃ x, stored s x ∧ revoked_where (λ y, s_user_id y = u ∧ s_device_id y = d) now x x')
}.

(** ** The SQL implementation *)

Module SessionRepository.
Section SessionRepository.
Context `{SqlEngine}.

Definition CreateSession (session : SessionRecord) : M Database unit :=
  exec internal_error (insert_sessions (new_session_row session)).

Definition FindByAccessToken (access_token_hash : string) (db : Database) : option SessionRecord :=
  first_row TSessions
    (filter (λ s, s_access_token_hash s = access_token_hash ∧ session_live s) (sessions db)).

Definition FindByRefreshToken (refresh_token_hash : string) (db : Database) : option SessionRecord :=
  first_row TSessions
    (filter (λ s, s_refresh_token_hash s = refresh_token_hash ∧ session_live s) (sessions db)).

(** [UPDATE sessions SET revoked_at = ? WHERE P AND revoked_at IS NULL]. *)
Definition revoke_rows (P : SessionRecord -> Prop) `{!∀ s, Decision (P s)} (now : Timestamp)
    (db : Database) : Database :=
  set_sessions (sql_update (λ s, P s ∧ session_live s) (set_session_revoked now) (sessions db)) db.

Definition RevokeSession (session_id : string) (now : Timestamp) : M Database unit :=
  let! rows := gets (λ db, sql_count (λ s, s_session_id s = session_id ∧ session_live s) (sessions db)) in
  modify (revoke_rows (λ s, s_session_id s = session_id) now) ;;!
  if Nat.eqb rows 0 then throw kNotFound "Session not found or already revoked" else mok tt.

Definition RevokeAllForUser (user_id : UserId) (now : Timestamp) : M Database unit :=
  modify (revoke_rows (λ s, s_user_id s = user_id) now).

Definition RevokeAllForDevice (user_id : UserId) (device_id : DeviceId) (now : Timestamp)
    : M Database unit :=
  modify (revoke_rows (λ s, s_user_id s = user_id ∧ s_device_id s = device_id) now).

(** The number of deleted rows is returned. *)
Definition CleanExpired (now : Timestamp) : M Database nat :=
  let! rows := gets (λ db, sql_count (λ s, s_refresh_expires_at s < now ∨ s_revoked_at s ≠ None)
                             (sessions db)) in
  modify (λ db, set_sessions (sql_delete (λ s, s_refresh_expires_at s < now ∨ s_revoked_at s ≠ None)
                                (sessions db)) db) ;;!
  mok rows.

Definition CountActiveForUser (user_id : UserId) (now : Timestamp) (db : Database) : nat :=
  sql_count (λ s, s_user_id s = user_id ∧ session_live s ∧ now < s_access_expires_at s) (sessions db).

(** ** Integrity *)

Lemma CreateSession_wf session : preserves db_wf (CreateSession session).
Proof. apply preserves_exec. eauto with vox. Qed.

Lemma revoke_rows_wf (P : SessionRecord -> Prop) `{!∀ s, Decision (P s)} now db :
  db_wf db -> db_wf (revoke_rows P now db).
Proof. intros Hwf. db_wf_solve. Qed.

Lemma RevokeSession_wf id now : preserves db_wf (RevokeSession id now).
Proof. unfold RevokeSession. preserve_step. apply preserves_modify. intros db. apply revoke_rows_wf. Qed.
Lemma RevokeAllForUser_wf u now : preserves db_wf (RevokeAllForUser u now).
Proof. apply preserves_modify. intros db. apply revoke_rows_wf. Qed.
Lemma RevokeAllForDevice_wf u d now : preserves db_wf (RevokeAllForDevice u d now).
Proof. apply preserves_modify. intros db. apply revoke_rows_wf. Qed.
Lemma CleanExpired_wf now : preserves db_wf (CleanExpired now).
Proof. unfold CleanExpired. preserve_step. apply preserves_modify. intros db Hwf. db_wf_solve. Qed.

Lemma CreateSession_Ok session db r db' :
  CreateSession session db = (Ok r, db') ->
  db' = set_sessions (sql_insert (new_session_row session) (sessions db)) db.
Proof.
  destruct r. intros Hr. apply exec_Ok in Hr. unfold insert_sessions in Hr.
  destruct (sql_exists _ _); [done|]. destruct (negb _); [done|]. by injection Hr as <-.
Qed.

(** ** The laws *)

(** A query on a unique column of the live rows. *)
Lemma find_live_unique (key : SessionRecord -> string) h l r :
  NoDup (key <$> l) ->
  first_row TSessions (filter (λ s, key s = h ∧ session_live s) l) = Some r <->
  r ∈ l ∧ session_live r ∧ key r = h.
Proof.
  intros Hnd. split.
  - intros Hf. apply (first_row_Some TSessions), list_elem_of_filter in Hf. tauto.
  - intros (Hr & Hlive & Hk). rewrite (filter_key_singleton key _ _ r); [|done..|].
    + apply (first_row_singleton TSessions).
    + intros y [Hy _]. congruence.
Qed.

Lemma elem_of_revoke_rows (P : SessionRecord -> Prop) `{!∀ s, Decision (P s)} now db x' :
  x' ∈ sessions (revoke_rows P now db) <-> ∃ x, x ∈ sessions db ∧ revoked_where P now x x'.
Proof.
  unfold revoke_rows, revoked_where. simpl. rewrite elem_of_sql_update.
  split; intros (x & Hx & E); exists x; (split; [done|]); revert E;
    destruct (decide (P x ∧ session_live x)); naive_solver.
Qed.

#[global] Program Instance sql_sessions : ISessionRepository Database := {|
  Sessions.CreateSession := CreateSession;
  Sessions.FindByAccessToken := FindByAccessToken;
  Sessions.FindByRefreshToken := FindByRefreshToken;
  Sessions.RevokeSession := RevokeSession;
  Sessions.RevokeAllForUser := RevokeAllForUser;
  Sessions.RevokeAllForDevice := RevokeAllForDevice;
  stored := λ db r, r ∈ sessions db;
  repo_inv := db_wf
|}.
Next Obligation. intros db x y [[] _ _]. by apply NoDup_fmap_inj_on. Qed.
Next Obligation. intros db x y [[] _ _]. by apply NoDup_fmap_inj_on. Qed.
Next Obligation. intros db h r [[] _ _]. by apply (find_live_unique s_access_token_hash). Qed.
Next Obligation. intros db h r [[] _ _]. by apply (find_live_unique s_refresh_token_hash). Qed.
Next Obligation.
  intros db r db' Hwf Hc. split; [by pose proof (CreateSession_wf r db Hwf) as Hw; rewrite Hc in Hw|].
  apply exec_Ok in Hc. unfold insert_sessions in Hc. cases_in Hc. split.
  - intros x. apply elem_of_sql_insert.
  - intros x Hx. eapply sql_exists_false in E; [|done]. naive_solver.
Qed.
Next Obligation. intros db r e db' Hc. by apply exec_Err in Hc as (? & _ & _ & ->). Qed.
Next Obligation.
  intros db id now Hwf. split; [by apply RevokeSession_wf|].
  unfold RevokeSession, bind, gets, modify. split.
  - intros x'. destruct (Nat.eqb _ _); apply elem_of_revoke_rows.
  - destruct (Nat.eqb_spec (sql_count (λ s, s_session_id s = id ∧ session_live s) (sessions db)) 0) as [E|E].
    + split; [done|]. intros (x & Hx & Hl & Hid). by destruct (proj1 (sql_count_zero _ _) E x Hx).
    + split; [|done]. intros _. apply sql_count_nonzero in E as (x & Hx & Hid & Hl). by exists x.
Qed.
Next Obligation.
  intros db u now Hwf. split; [by apply RevokeAllForUser_wf|]. split; [done|].
  intros x'. apply elem_of_revoke_rows.
Qed.
Next Obligation.
  intros db u d now Hwf. split; [by apply RevokeAllForDevice_wf|]. split; [done|].
  intros x'. apply elem_of_revoke_rows.
Qed.
End SessionRepository.
End SessionRepository.
