(* ===== verification/Password.v ===== *)
(** * PasswordHasher (lib/vox_auth/password_hasher.cpp, lib/vox_common/random_bytes.cpp)

    Argon2id is third-party code: its raw hash function, the text of its errors
    and the length of its output are the class [Argon2].  The bytes the operating
    system's random device yields are an argument. *)

From S2P Require Import Prelude Types Hex.

(** [argon2id_hash_raw] with its [int] result: [Ok] the [outlen] bytes written, or
    [Err] the non-zero code.  Documented: a successful call fills the output. *)
Class Argon2 := {
  argon2id_hash_raw : ∀ (time_cost memory_cost parallelism : Z) (password salt : list Z)
                        (outlen : nat), Z + list Z;
  argon2_error_message : Z -> string;
  argon2_fills t m p pwd salt n out :
    argon2id_hash_raw t m p pwd salt n = inr out -> length out = n ∧ Forall is_byte out
}.

Record HashResult := mkHashResult { hr_salt : string; hr_verifier : string }.

(** The cost parameters of a hasher. *)
Record PasswordHasher := mkPasswordHasher { time_cost_ : Z; memory_cost_ : Z; parallelism_ : Z }.

Definition kSaltLength : nat := 16.
Definition kHashLength : nat := 32.

(** [FillRandomBytes] on a POSIX system: [urandom] is [None] when the device cannot
    be opened, otherwise the bytes a read returns. *)
Definition FillRandomBytes (n : nat) (urandom : option (list Z)) : option (list Z) :=
  if Nat.eqb n 0 then Some [] else
  match urandom with
  | None => None
  | Some bytes => if Nat.eqb (length (take n bytes)) n then Some (take n bytes) else None
  end.

Definition GenerateRandomSalt (urandom : option (list Z)) : Result (list Z) :=
  match FillRandomBytes kSaltLength urandom with
  | None => Err (mkError kInternal "Failed to generate random salt")
  | Some salt => Ok salt
  end.

Section PasswordHasher.
Context `{Argon2} (hasher : PasswordHasher).

Definition raw_hash (password : string) (salt : list Z) : Z + list Z :=
  argon2id_hash_raw (time_cost_ hasher) (memory_cost_ hasher) (parallelism_ hasher)
    (bytes_of_string password) salt kHashLength.

Definition Hash (password_derived_value : string) (urandom : option (list Z)) : Result HashResult :=
  match GenerateRandomSalt urandom with
  | Err e => Err e
  | Ok salt_bytes =>
      match raw_hash password_derived_value salt_bytes with
      | inl rc => Err (mkError kInternal ("Argon2 hash failed: " +:+ argon2_error_message rc))
      | inr hash_bytes => Ok (mkHashResult (BytesToHex salt_bytes) (BytesToHex hash_bytes))
      end
  end.

(** [None]: [std::stoul] threw [std::invalid_argument] on the stored salt. *)
Definition Verify (password_derived_value salt verifier : string) : option bool :=
  salt_bytes ← HexToBytes salt;
  Some (match raw_hash password_derived_value salt_bytes with
        | inl _ => false
        | inr hash_bytes => BytesToHex hash_bytes =s? verifier
        end).

(** The bytes of the random device are bytes. *)
Definition urandom_ok (urandom : option (list Z)) : Prop := Forall is_byte (default [] urandom).

Lemma GenerateRandomSalt_Ok urandom salt :
  urandom_ok urandom -> GenerateRandomSalt urandom = Ok salt ->
  Forall is_byte salt ∧ length salt = kSaltLength.
Proof.
  unfold urandom_ok, GenerateRandomSalt, FillRandomBytes. simpl (Nat.eqb kSaltLength 0).
  intros Hu. destruct urandom as [bytes|]; [|done].
  destruct (Nat.eqb_spec (length (take kSaltLength bytes)) kSaltLength) as [E|]; [|done].
  intros [= <-]. split; [by apply Forall_take|done].
Qed.

(** A stored credential of [password]. *)
Definition credential (password salt verifier : string) : Prop :=
  ∃ salt_bytes hash_bytes, Forall is_byte salt_bytes ∧ length salt_bytes = kSaltLength ∧
    raw_hash password salt_bytes = inr hash_bytes ∧
    salt = BytesToHex salt_bytes ∧ verifier = BytesToHex hash_bytes.

Lemma Hash_credential password urandom r :
  urandom_ok urandom -> Hash password urandom = Ok r ->
  credential password (hr_salt r) (hr_verifier r).
Proof.
  intros Hu. unfold Hash. destruct (GenerateRandomSalt urandom) as [salt|] eqn:Es; [|done].
  destruct (GenerateRandomSalt_Ok _ _ Hu Es) as [Hs Hl].
  destruct (raw_hash password salt) as [rc|hash] eqn:Eh; [done|]. intros [= <-].
  by exists salt, hash.
Qed.

(** [Verify] against a credential compares raw hashes under the same salt. *)
Lemma Verify_credential password salt verifier salt_bytes hash_bytes password' :
  Forall is_byte salt_bytes -> raw_hash password salt_bytes = inr hash_bytes ->
  salt = BytesToHex salt_bytes -> verifier = BytesToHex hash_bytes ->
  Verify password' salt verifier =
    Some (bool_decide (raw_hash password' salt_bytes = raw_hash password salt_bytes)).
Proof.
  intros Hs Hh -> ->. unfold Verify. rewrite HexToBytes_BytesToHex by done. cbn. f_equal.
  rewrite Hh. destruct (raw_hash password' salt_bytes) as [rc|hash'] eqn:Eh'; [done|].
  destruct (argon2_fills _ _ _ _ _ _ _ Hh) as [_ Hb].
  destruct (argon2_fills _ _ _ _ _ _ _ Eh') as [_ Hb'].
  destruct (String.eqb_spec (BytesToHex hash') (BytesToHex hash_bytes)) as [E|E].
  - apply BytesToHex_inj in E; [|done..]. subst. by rewrite bool_decide_true.
  - rewrite bool_decide_false by congruence. done.
Qed.

(** A password that [Hash] accepted verifies against the stored salt and
    verifier, and no other password does unless Argon2id maps it to the same
    hash under that salt; on credentials [Hash] produced, the hexadecimal decoding
    of [Verify] never throws. *)
Theorem Hash_Verify password urandom r :
  urandom_ok urandom -> Hash password urandom = Ok r ->
  Verify password (hr_salt r) (hr_verifier r) = Some true ∧
  ∀ password', ∃ b, Verify password' (hr_salt r) (hr_verifier r) = Some b ∧
    (b = true <-> ∃ salt, HexToBytes (hr_salt r) = Some salt ∧ length salt = kSaltLength ∧
                    raw_hash password' salt = raw_hash password salt).
Proof.
  intros Hu Hr. destruct (Hash_credential _ _ _ Hu Hr) as (salt & hash & Hs & Hl & Hh & Es & Ev).
  pose proof (Verify_credential _ _ _ _ _ password Hs Hh Es Ev) as Ep.
  rewrite bool_decide_true in Ep by done. split; [done|]. intros password'.
  rewrite (Verify_credential _ _ _ _ _ password' Hs Hh Es Ev).
  eexists. split; [done|]. rewrite bool_decide_eq_true, Es, HexToBytes_BytesToHex by done.
  naive_solver.
Qed.
End PasswordHasher.

(** A stand-in hash: the password and the salt, cut to the output length. *)
Program Definition toy_argon2 : Argon2 := {|
  argon2id_hash_raw := λ _ _ _ pwd salt n,
    inr (take n ((λ b, b mod 256) <$> (pwd ++ salt ++ replicate n 0)));
  argon2_error_message := λ _, "error"
|}.
Next Obligation.
  intros t m p pwd salt n out [= <-]. split.
  - rewrite length_take, length_fmap, !length_app, length_replicate. lia.
  - apply Forall_take, Forall_fmap, Forall_true. intros b. apply Z.mod_pos_bound. lia.
Qed.

Lemma Hash_Verify_witness :
  Verify (H := toy_argon2) (mkPasswordHasher 3 65536 1) "secret"
    (BytesToHex (seqZ 0 16)) (BytesToHex (bytes_of_string "secret" ++ seqZ 0 16 ++ replicate 10 0)) = Some true.
Proof.
  apply (Hash_Verify (H := toy_argon2) (mkPasswordHasher 3 65536 1) "secret" (Some (seqZ 0 16))
           (mkHashResult (BytesToHex (seqZ 0 16))
              (BytesToHex (bytes_of_string "secret" ++ seqZ 0 16 ++ replicate 10 0)))).
  - unfold urandom_ok. apply (bool_decide_unpack (Forall is_byte (seqZ 0 16))). vm_compute. done.
  - vm_compute. reflexivity.
Defined.
