(* ===== verification/Tokens.v ===== *)
(** * TokenManager (lib/vox_auth/token_manager.cpp)

    Bearer tokens over any [ISessionRepository].  A token is four 64-bit draws of
    the thread's generator; the draws a call makes are its argument.  Only the
    peppered HMAC of a token is stored. *)

From S2P Require Import Prelude Types Hex Uuid Sha256 Database Samples Sessions.

Record TokenPair := mkTokenPair { access_token : string; refresh_token : string }.
Record RefreshResult := mkRefreshResult { rr_tokens : TokenPair; rr_user_id : UserId }.

(** The configuration of a manager. *)
Record TokenManager := mkTokenManager {
  access_lifetime_seconds_ : Z;
  refresh_lifetime_seconds_ : Z;
  session_token_pepper_ : string }.

(** The draws of one [IssueTokens]. *)
Record TokenDraws := mkTokenDraws {
  access_draw : Z * Z * Z * Z;
  refresh_draw : Z * Z * Z * Z;
  session_draw : Z * Z }.

Definition GenerateToken (draw : Z * Z * Z * Z) : string :=
  let '(a, b, c, d) := draw in
  fmt_hex 16 a +:+ fmt_hex 16 b +:+ fmt_hex 16 c +:+ fmt_hex 16 d.

Section TokenManager.
Context {S : Type} `{ISessionRepository S} (tm : TokenManager).

Definition HashToken (token : string) : string := HmacSha256Hex (session_token_pepper_ tm) token.

(** The session [IssueTokens] creates. *)
Definition issued_session (user_id : UserId) (device_id : DeviceId) (now : Timestamp)
    (draws : TokenDraws) : SessionRecord :=
  mkSessionRecord (GenerateUuid (session_draw draws)) user_id device_id
    (HashToken (GenerateToken (access_draw draws))) (HashToken (GenerateToken (refresh_draw draws)))
    (i64_add now (access_lifetime_seconds_ tm)) (i64_add now (refresh_lifetime_seconds_ tm)) now None.

Definition IssueTokens (user_id : UserId) (device_id : DeviceId) (now : Timestamp)
    (draws : TokenDraws) : M S TokenPair :=
  let tokens := mkTokenPair (GenerateToken (access_draw draws)) (GenerateToken (refresh_draw draws)) in
  let session := issued_session user_id device_id now draws in
  CreateSession session ;;!
  mok tokens.

Definition ValidateAccessToken (token : string) (now : Timestamp) : M S SessionRecord :=
  let! session := gets (FindByAccessToken (HashToken token)) in
  match session with
  | None => throw kUnauthorized "Invalid access token"
  | Some session =>
      if s_access_expires_at session <=? now then throw kExpired "Access token expired"
      else mok session
  end.

Definition RefreshTokens (token : string) (device_id : DeviceId) (now : Timestamp)
    (draws : TokenDraws) : M S RefreshResult :=
  let! session := gets (FindByRefreshToken (HashToken token)) in
  match session with
  | None => throw kUnauthorized "Invalid refresh token"
  | Some session =>
      if s_refresh_expires_at session <=? now then throw kExpired "Refresh token expired"
      else if negb (s_device_id session =s? device_id)
      then throw kForbidden "Device mismatch on refresh"
      else
        let uid := s_user_id session in
        RevokeSession (s_session_id session) now ;;!
        let! tokens := IssueTokens uid device_id now draws in
        mok (mkRefreshResult tokens uid)
  end.

Definition RevokeByAccessToken (token : string) (now : Timestamp) : M S unit :=
  let! session := ValidateAccessToken token now in
  RevokeSession (s_session_id session) now.

(** ** Validation *)

(** The session an access token belongs to, before expiry is considered. *)
Definition access_session (token : string) (s : S) (r : SessionRecord) : Prop :=
  stored s r ∧ session_live r ∧ s_access_token_hash r = HashToken token.

Lemma ValidateAccessToken_state token now s : (ValidateAccessToken token now s).2 = s.
Proof.
  unfold ValidateAccessToken, bind, gets. cbv beta iota.
  destruct (FindByAccessToken _ s) as [r|]; [|done]. by destruct (s_access_expires_at r <=? now).
Qed.

Lemma ValidateAccessToken_Ok token now s r s' :
  repo_inv s ->
  ValidateAccessToken token now s = (Ok r, s') <->
  access_session token s r ∧ now < s_access_expires_at r ∧ s' = s.
Proof.
  intros Hinv. unfold ValidateAccessToken, bind, gets, access_session.
  rewrite <- (find_access_law s (HashToken token) r Hinv).
  destruct (FindByAccessToken _ s) as [r'|]; [|naive_solver].
  destruct (Z.leb_spec (s_access_expires_at r') now); unfold throw, mok; split.
  - done.
  - intros ([= ->] & ? & _). lia.
  - by intros [= -> ->].
  - by intros ([= ->] & _ & ->).
Qed.

Lemma IssueTokens_Ok u d now draws s tokens s' :
  repo_inv s -> IssueTokens u d now draws s = (Ok tokens, s') ->
  tokens = mkTokenPair (GenerateToken (access_draw draws)) (GenerateToken (refresh_draw draws)) ∧
  repo_inv s' ∧ (∀ x, stored s' x <-> stored s x ∨ x = issued_session u d now draws) ∧
  (∀ x, stored s x -> s_session_id x ≠ GenerateUuid (session_draw draws) ∧
     s_access_token_hash x ≠ HashToken (access_token tokens) ∧
     s_refresh_token_hash x ≠ HashToken (refresh_token tokens)).
Proof.
  intros Hinv Hi. unfold IssueTokens in Hi. minv Hi. split; [done|].
  destruct a. exact (create_ok_law _ _ _ Hinv E).
Qed.

Lemma IssueTokens_Err u d now draws s e s' :
  IssueTokens u d now draws s = (Err e, s') -> s' = s.
Proof.
  unfold IssueTokens. intros Hi. apply bind_Err in Hi as [Hi|(a & s1 & _ & Hi)]; [|done].
  by eapply create_err_law.
Qed.

(** The tokens of a pair and the session they belong to. *)
Lemma issued_access u d now draws s tokens s' r :
  repo_inv s -> IssueTokens u d now draws s = (Ok tokens, s') ->
  access_session (access_token tokens) s' r <-> r = issued_session u d now draws.
Proof.
  intros Hinv Hi. destruct (IssueTokens_Ok _ _ _ _ _ _ _ Hinv Hi) as (Hpair & _ & Hst & Hfresh).
  subst tokens. unfold access_session. rewrite Hst. split.
  - intros ([Hr|Hr] & _ & Hh); [|done]. destruct (Hfresh r Hr) as (_ & Ha & _). by destruct Ha.
  - intros ->. split; [by right|done].
Qed.

(** ** Rotation *)

(** A refresh token that can no longer be used: its session is revoked. *)
Definition spent (token : string) (s : S) : Prop :=
  ∃ r, stored s r ∧ ¬ session_live r ∧ s_refresh_token_hash r = HashToken token.

Lemma spent_rejected token d now draws s :
  repo_inv s -> spent token s ->
  RefreshTokens token d now draws s = (Err (mkError kUnauthorized "Invalid refresh token"), s).
Proof.
  intros Hinv (r & Hr & Hdead & Hh). unfold RefreshTokens, bind, gets.
  destruct (FindByRefreshToken _ s) as [r'|] eqn:Ef; [|done]. exfalso.
  apply (find_refresh_law _ _ _ Hinv) in Ef as (Hr' & Hlive & Hh').
  rewrite (refresh_unique_law s r r' Hinv) in Hdead; [done..|congruence].
Qed.

(** Revoking rows keeps spent tokens spent. *)
Lemma revoke_keeps P now s s' token :
  (∀ x', stored s' x' <-> ∃ x, stored s x ∧ revoked_where P now x x') ->
  spent token s -> spent token s'.
Proof.
  intros Hst (r & Hr & Hdead & Hh). exists r. split; [|done]. apply Hst. exists r.
  split; [done|]. right. tauto.
Qed.

(** Issuing keeps spent tokens spent. *)
Lemma issue_keeps u d now draws s tokens s' token :
  repo_inv s -> IssueTokens u d now draws s = (Ok tokens, s') -> spent token s -> spent token s'.
Proof.
  intros Hinv Hi (r & Hr & Hd & Hh).
  destruct (IssueTokens_Ok _ _ _ _ _ _ _ Hinv Hi) as (_ & _ & Hst & _).
  exists r. rewrite Hst. tauto.
Qed.

Lemma RefreshTokens_Ok token d now draws s res s' :
  repo_inv s -> RefreshTokens token d now draws s = (Ok res, s') ->
  ∃ r s1, stored s r ∧ session_live r ∧ s_refresh_token_hash r = HashToken token ∧
    now < s_refresh_expires_at r ∧ s_device_id r = d ∧ rr_user_id res = s_user_id r ∧
    RevokeSession (s_session_id r) now s = (Ok tt, s1) ∧
    IssueTokens (s_user_id r) d now draws s1 = (Ok (rr_tokens res), s').
Proof.
  intros Hinv Hr. unfold RefreshTokens in Hr. minv Hr.
  destruct (FindByRefreshToken _ s) as [r|] eqn:Ef; [|done].
  apply (find_refresh_law _ _ _ Hinv) in Ef as (Hst & Hlive & Hh).
  destruct (Z.leb_spec (s_refresh_expires_at r) now); [done|].
  destruct (String.eqb_spec (s_device_id r) d) as [Ed|]; [|done]. simpl in Hr. minv Hr.
  destruct a. exists r, s0. by split_and!.
Qed.

(** What a successful refresh does to the sessions. *)
Lemma RefreshTokens_stored token d now draws s res s' :
  repo_inv s -> RefreshTokens token d now draws s = (Ok res, s') ->
  ∃ r s1, stored s r ∧ session_live r ∧ s_refresh_token_hash r = HashToken token ∧
    s_device_id r = d ∧ now < s_refresh_expires_at r ∧ rr_user_id res = s_user_id r ∧ repo_inv s1 ∧
    (∀ x', stored s1 x' <->
       ∃ x, stored s x ∧ revoked_where (λ y, s_session_id y = s_session_id r) now x x') ∧
    IssueTokens (s_user_id r) d now draws s1 = (Ok (rr_tokens res), s').
Proof.
  intros Hinv Hr.
  destruct (RefreshTokens_Ok _ _ _ _ _ _ _ Hinv Hr) as (r & s1 & Hst & Hl & Hh & Hexp & Hd & Hu & Hrev & Hi).
  destruct (revoke_law s (s_session_id r) now Hinv) as (Hinv1 & Hst1 & _). rewrite Hrev in *.
  exists r, s1. by split_and!.
Qed.

Lemma RefreshTokens_spends token d now draws s res s' :
  repo_inv s -> RefreshTokens token d now draws s = (Ok res, s') ->
  repo_inv s' ∧ ¬ spent token s ∧ spent token s' ∧ (∀ token', spent token' s -> spent token' s').
Proof.
  intros Hinv Hr.
  destruct (RefreshTokens_stored _ _ _ _ _ _ _ Hinv Hr)
    as (r & s1 & Hst & Hl & Hh & Hd & Hexp & Hu & Hinv1 & Hst1 & Hi).
  destruct (IssueTokens_Ok _ _ _ _ _ _ _ Hinv1 Hi) as (_ & Hinv' & _ & _).
  split; [done|]. split; [|split].
  - intros (y & Hy & Hdead & Hhy). rewrite (refresh_unique_law s y r Hinv) in Hdead; [done..|congruence].
  - apply (issue_keeps _ _ _ _ _ _ _ _ Hinv1 Hi). exists (set_session_revoked now r).
    split; [|done]. apply Hst1. exists r. split; [done|]. left. done.
  - intros token' Hs. apply (issue_keeps _ _ _ _ _ _ _ _ Hinv1 Hi). by eapply revoke_keeps.
Qed.

(** A failed refresh may have revoked the session (the insertion failed), never more. *)
Lemma RefreshTokens_Err_keeps token d now draws s e s' :
  repo_inv s -> RefreshTokens token d now draws s = (Err e, s') ->
  repo_inv s' ∧ (∀ token', spent token' s -> spent token' s').
Proof.
  intros Hinv Hr. unfold RefreshTokens in Hr.
  apply bind_Err in Hr as [[=]|(ses & s0 & [= <- <-] & Hr)].
  destruct (FindByRefreshToken _ s) as [r|]; [|by injection Hr as _ <-].
  destruct (s_refresh_expires_at r <=? now); [by injection Hr as _ <-|].
  destruct (negb _); [by injection Hr as _ <-|].
  destruct (revoke_law s (s_session_id r) now Hinv) as (Hinv1 & Hst1 & _).
  assert (Hk : ∀ s1, s1 = (RevokeSession (s_session_id r) now s).2 ->
    repo_inv s1 ∧ (∀ token', spent token' s -> spent token' s1)).
  { intros s1 ->. split; [done|]. intros token'. by eapply revoke_keeps. }
  apply bind_Err in Hr as [Hr|(u & s1 & Hrev & Hr)]; [apply Hk; by rewrite Hr|].
  apply bind_Err in Hr as [Hr|(t & s2 & _ & [=])].
  apply IssueTokens_Err in Hr as ->. apply Hk. by rewrite Hrev.
Qed.

(** ** Traces of the manager's operations *)

Inductive token_op :=
  | TIssue (u : UserId) (d : DeviceId) (now : Timestamp) (draws : TokenDraws)
  | TRefresh (token : string) (d : DeviceId) (now : Timestamp) (draws : TokenDraws)
  | TRevoke (id : string) (now : Timestamp)
  | TRevokeByAccess (token : string) (now : Timestamp)
  | TRevokeUser (u : UserId) (now : Timestamp)
  | TRevokeDevice (u : UserId) (d : DeviceId) (now : Timestamp).

(** The refresh token the operation accepted, if it accepted one. *)
Definition run_token_op (op : token_op) (s : S) : option string * S :=
  match op with
  | TIssue u d now draws => (None, (IssueTokens u d now draws s).2)
  | TRefresh token d now draws =>
      match RefreshTokens token d now draws s with
      | (Ok _, s') => (Some token, s')
      | (Err _, s') => (None, s')
      end
  | TRevoke id now => (None, (RevokeSession id now s).2)
  | TRevokeByAccess token now => (None, (RevokeByAccessToken token now s).2)
  | TRevokeUser u now => (None, (RevokeAllForUser u now s).2)
  | TRevokeDevice u d now => (None, (RevokeAllForDevice u d now s).2)
  end.

Fixpoint run_token_ops (ops : list token_op) (s : S) : list string * S :=
  match ops with
  | [] => ([], s)
  | op :: ops' =>
      let '(token, s1) := run_token_op op s in
      let '(tokens, s2) := run_token_ops ops' s1 in
      (option_list token ++ tokens, s2)
  end.

Definition keeps_spent (s s' : S) : Prop :=
  repo_inv s' ∧ ∀ token, spent token s -> spent token s'.

Lemma RevokeSession_keeps id now s : repo_inv s -> keeps_spent s (RevokeSession id now s).2.
Proof.
  intros Hinv. destruct (revoke_law s id now Hinv) as (Hinv' & Hst & _). split; [done|].
  intros token. by eapply revoke_keeps.
Qed.

Lemma RevokeByAccessToken_keeps token now s :
  repo_inv s -> keeps_spent s (RevokeByAccessToken token now s).2.
Proof.
  intros Hinv. unfold RevokeByAccessToken, bind.
  pose proof (ValidateAccessToken_state token now s) as Hs.
  destruct (ValidateAccessToken token now s) as [[r|e] s1]; simpl in Hs; subst s1; [|by split].
  by apply RevokeSession_keeps.
Qed.

Lemma run_token_op_keeps op s token s' :
  repo_inv s -> run_token_op op s = (token, s') ->
  keeps_spent s s' ∧ (∀ t, token = Some t -> ¬ spent t s ∧ spent t s').
Proof.
  intros Hinv. destruct op as [u d now draws|t d now draws|id now|t now|u now|u d now]; simpl.
  - intros [= <- <-]. split; [|done].
    destruct (IssueTokens u d now draws s) as [[tk|e] s1] eqn:Ei; simpl.
    + split; [by eapply IssueTokens_Ok|]. intros t. by eapply issue_keeps.
    + apply IssueTokens_Err in Ei as ->. by split.
  - destruct (RefreshTokens t d now draws s) as [[res|e] s1] eqn:Er; intros [= <- <-].
    + destruct (RefreshTokens_spends _ _ _ _ _ _ _ Hinv Er) as (Hi & Hn & Hsp & Hk).
      split; [by split|]. by intros t' [= <-].
    + split; [|done]. by eapply RefreshTokens_Err_keeps.
  - intros [= <- <-]. split; [by apply RevokeSession_keeps|done].
  - intros [= <- <-]. split; [by apply RevokeByAccessToken_keeps|done].
  - intros [= <- <-]. destruct (revoke_user_law s u now Hinv) as (Hi & _ & Hst).
    split; [|done]. split; [done|]. intros t. by eapply revoke_keeps.
  - intros [= <- <-]. destruct (revoke_device_law s u d now Hinv) as (Hi & _ & Hst).
    split; [|done]. split; [done|]. intros t. by eapply revoke_keeps.
Qed.

(** Over any interleaving of issuing, refreshing and revoking, with any
    arguments, a refresh token is accepted at most once: refreshing revokes the
    session the token belongs to, and no later session can carry the same hash. *)
Theorem refresh_token_single_use ops s :
  repo_inv s -> NoDup (run_token_ops ops s).1.
Proof.
  intros Hinv. enough (NoDup (run_token_ops ops s).1 ∧ ∀ t, t ∈ (run_token_ops ops s).1 -> ¬ spent t s)
    by tauto.
  revert s Hinv. induction ops as [|op ops IH]; intros s Hinv; simpl.
  { split; [constructor|]. by intros t ?%not_elem_of_nil. }
  destruct (run_token_op op s) as [token s1] eqn:E1.
  destruct (run_token_op_keeps _ _ _ _ Hinv E1) as [[Hinv1 Hmono] Ht].
  destruct (IH s1 Hinv1) as [Hnd Hfresh].
  destruct (run_token_ops ops s1) as [tokens s2]. simpl in *.
  destruct token as [t|]; simpl; [|split; [done|]; intros t' Ht' Hs; by apply (Hfresh t'), Hmono].
  destruct (Ht t eq_refl) as [Hn Hsp]. split.
  - apply NoDup_cons. split; [|done]. intros Hin. by apply (Hfresh t).
  - intros t'. rewrite elem_of_cons. intros [->|Hin]; [done|]. intros Hs. by apply (Hfresh t'), Hmono.
Qed.

(** A token pair that was issued authenticates its user and device exactly
    until the access token expires; at the expiry instant and after it the answer
    is [kExpired]. *)
Theorem issued_token_validates u d now draws s tokens s' t :
  repo_inv s -> IssueTokens u d now draws s = (Ok tokens, s') ->
  ValidateAccessToken (access_token tokens) t s' =
    if i64_add now (access_lifetime_seconds_ tm) <=? t
    then (Err (mkError kExpired "Access token expired"), s')
    else (Ok (issued_session u d now draws), s').
Proof.
  intros Hinv Hi. pose proof (issued_access _ _ _ _ _ _ _ (issued_session u d now draws) Hinv Hi) as [_ Ha].
  specialize (Ha eq_refl). destruct (IssueTokens_Ok _ _ _ _ _ _ _ Hinv Hi) as (_ & Hinv' & _ & _).
  unfold ValidateAccessToken, bind, gets.
  rewrite (proj2 (find_access_law s' _ (issued_session u d now draws) Hinv') Ha). simpl.
  by destruct (_ <=? t).
Qed.

(** C35: A successful refresh rotates: the presented refresh token and every access
    token of its session are refused afterwards, the new access token authenticates
    the same user on the same device, and no other session changes. *)
Theorem refresh_rotates token d now draws s res s' :
  repo_inv s -> RefreshTokens token d now draws s = (Ok res, s') ->
  (∀ d' t draws', RefreshTokens token d' t draws' s' =
     (Err (mkError kUnauthorized "Invalid refresh token"), s')) ∧
  access_session (access_token (rr_tokens res)) s' (issued_session (rr_user_id res) d now draws) ∧
  ∃ r, stored s r ∧ s_refresh_token_hash r = HashToken token ∧ s_device_id r = d ∧
    s_user_id r = rr_user_id res ∧
    (∀ x, stored s' x -> session_live x -> x = issued_session (rr_user_id res) d now draws ∨
                         (stored s x ∧ s_session_id x ≠ s_session_id r)) ∧
    (∀ x, stored s x -> s_session_id x ≠ s_session_id r -> stored s' x).
Proof.
  intros Hinv Hr. destruct (RefreshTokens_spends _ _ _ _ _ _ _ Hinv Hr) as (Hinv' & _ & Hsp & _).
  destruct (RefreshTokens_stored _ _ _ _ _ _ _ Hinv Hr)
    as (r & s1 & Hst & Hl & Hh & Hd & Hexp & Hu & Hinv1 & Hst1 & Hi).
  destruct (IssueTokens_Ok _ _ _ _ _ _ _ Hinv1 Hi) as (_ & _ & Hst' & _).
  split; [intros; by apply spent_rejected|]. rewrite Hu.
  split; [by eapply issued_access|]. exists r. split_and!; [done..| |].
  - intros x [Hx| ->]%Hst' Hlx; [|by left]. right.
    apply Hst1 in Hx as (y & Hy & [(_ & _ & ->)|[Hn ->]]); [done|]. tauto.
  - intros x Hx Hne. apply Hst'. left. apply Hst1. exists x. split; [done|]. right. tauto.
Qed.

(** After [RevokeAllForUser], an access token is accepted exactly when it was
    accepted before and belongs to another user. *)
Theorem revoke_user_locks_out u now s token t r :
  repo_inv s ->
  (ValidateAccessToken token t (RevokeAllForUser u now s).2).1 = Ok r <->
  (ValidateAccessToken token t s).1 = Ok r ∧ s_user_id r ≠ u.
Proof.
  intros Hinv. destruct (revoke_user_law s u now Hinv) as (Hinv' & _ & Hst).
  set (s' := (RevokeAllForUser u now s).2) in *.
  assert (Hv : ∀ s0, repo_inv s0 -> (ValidateAccessToken token t s0).1 = Ok r <->
    access_session token s0 r ∧ t < s_access_expires_at r).
  { intros s0 H0. pose proof (ValidateAccessToken_Ok token t s0 r s0 H0) as Hok.
    pose proof (ValidateAccessToken_state token t s0).
    destruct (ValidateAccessToken token t s0) as [x s2]; simpl in *; subst s2. split.
    - intros ->. by destruct (proj1 Hok eq_refl) as (? & ? & _).
    - intros [Ha Ht]. assert (E : (x, s0) = (Ok r, s0)) by by apply Hok. by injection E. }
  rewrite !Hv by done. unfold access_session. rewrite Hst. unfold revoked_where. split.
  - intros [((x & Hx & [(_ & _ & ->)|[Hn ->]]) & Hlive & Hh) Hlt]; [done|]. tauto.
  - intros [[(Hx & Hlive & Hh) Hlt] Hne]. split; [|done]. split; [|done].
    exists r. tauto.
Qed.
End TokenManager.

(** ** Instances on the sample database *)

#[local] Existing Instance rowid_engine.

Definition sample_tm : TokenManager := mkTokenManager 3600 86400 "pepper".
Definition sample_draws (n : Z) : TokenDraws := mkTokenDraws (n, 1, 2, 3) (n, 4, 5, 6) (n, 7).

(** The sample database after one login of the first user, and its tokens. *)
Definition sample_session_db : Database :=
  Eval vm_compute in (IssueTokens sample_tm "u1" "d1" 1000 (sample_draws 1) sample_db).2.
Definition sample_tokens (n : Z) : TokenPair :=
  mkTokenPair (GenerateToken (n, 1, 2, 3)) (GenerateToken (n, 4, 5, 6)).

Lemma sample_issued :
  IssueTokens sample_tm "u1" "d1" 1000 (sample_draws 1) sample_db = (Ok (sample_tokens 1), sample_session_db).
Proof. vm_compute. reflexivity. Qed.

(** The same database after the device has exchanged its refresh token. *)
Definition sample_refreshed_db : Database :=
  Eval vm_compute in (RefreshTokens sample_tm (refresh_token (sample_tokens 1)) "d1" 1001 (sample_draws 2)
    sample_session_db).2.

Lemma sample_refreshed :
  RefreshTokens sample_tm (refresh_token (sample_tokens 1)) "d1" 1001 (sample_draws 2) sample_session_db =
  (Ok (mkRefreshResult (sample_tokens 2) "u1"), sample_refreshed_db).
Proof. vm_compute. reflexivity. Qed.

Lemma sample_session_inv : repo_inv sample_session_db.
Proof. apply db_wf_eval. vm_compute. reflexivity. Qed.

Lemma refresh_token_single_use_witness :
  NoDup (run_token_ops sample_tm
    [TIssue "u1" "d1" 1000 (sample_draws 1);
     TRefresh (refresh_token (sample_tokens 1)) "d1" 1001 (sample_draws 2);
     TRefresh (refresh_token (sample_tokens 1)) "d1" 1002 (sample_draws 3)] sample_db).1.
Proof. apply refresh_token_single_use, sample_db_wf. Defined.

Lemma issued_token_validates_witness :
  (ValidateAccessToken sample_tm (access_token (sample_tokens 1)) 4599 sample_session_db).1 =
    Ok (issued_session sample_tm "u1" "d1" 1000 (sample_draws 1)) ∧
  (ValidateAccessToken sample_tm (access_token (sample_tokens 1)) 4600 sample_session_db).1 =
    Err (mkError kExpired "Access token expired").
Proof.
  split; (erewrite (issued_token_validates sample_tm); [|exact sample_db_wf|exact sample_issued]); reflexivity.
Defined.

Lemma refresh_rotates_witness :
  (RefreshTokens sample_tm (refresh_token (sample_tokens 1)) "d1" 1001 (sample_draws 2) sample_refreshed_db).1 =
    Err (mkError kUnauthorized "Invalid refresh token").
Proof.
  destruct (refresh_rotates sample_tm _ _ _ _ _ _ _ sample_session_inv sample_refreshed) as [Hr _].
  by rewrite Hr.
Defined.
