(* ===== verification/Auth.v ===== *)
(** * AuthService (lib/vox_auth/auth_service.cpp)

    Registration, login, logout, refresh and password change over the SQL
    repositories.  A request's clock reading and random draws are arguments; the
    hashing tasks submitted to the CPU pool are awaited at once, so a call runs
    as one sequence of repository calls. *)

From S2P Require Import Prelude Types Sql Database Samples Hex Uuid Users Devices Sessions Password Tokens.

Record RegisterRequest := mkRegisterRequest {
  rg_username : string;
  rg_password_derived_value : string;
  rg_device_id : string;
  rg_device_label : string;
  rg_identity_key_public : string;
  rg_signed_prekey_public : string;
  rg_signed_prekey_signature : string;
  rg_wrapped_sync_key : string;
  rg_sync_wrap_salt : string;
  rg_sync_wrap_params : string }.

Record LoginRequest := mkLoginRequest {
  lg_username : string;
  lg_password_derived_value : string;
  lg_device_id : string;
  lg_device_label : string;
  lg_identity_key_public : string;
  lg_signed_prekey_public : string;
  lg_signed_prekey_signature : string }.

(** [RegisterResponse] and [LoginResponse] have the same fields. *)
Record LoginResponse := mkLoginResponse {
  lr_user_id : UserId;
  lr_tokens : TokenPair;
  lr_device_status : string;
  lr_sync_key_version : Z }.

Record RefreshRequest := mkRefreshRequest { rf_refresh_token : string; rf_device_id : string }.

Record ChangePasswordRequest := mkChangePasswordRequest {
  cp_current_password_derived_value : string;
  cp_new_password_derived_value : string;
  cp_wrapped_sync_key : string;
  cp_sync_wrap_salt : string;
  cp_sync_wrap_params : string }.

(** The random values a request consumes. *)
Record AuthDraws := mkAuthDraws {
  ad_urandom : option (list Z);
  ad_user : Z * Z;
  ad_device : Z * Z;
  ad_tokens : TokenDraws }.

Section AuthService.
Context `{SqlEngine} `{Argon2} (hasher : PasswordHasher) (tokens : TokenManager).

Definition lift {A} (r : Result A) : M Database A :=
  match r with Ok a => mok a | Err e => rethrow e end.

Definition Register (request : RegisterRequest) (now : Timestamp) (draws : AuthDraws)
    : M Database LoginResponse :=
  if (rg_username request =s? "") || (rg_password_derived_value request =s? "")
  then throw kInvalidArgument "Username and password are required" else
  if (rg_wrapped_sync_key request =s? "") || (rg_sync_wrap_salt request =s? "")
     || (rg_sync_wrap_params request =s? "")
  then throw kInvalidArgument "wrapped_sync_key, sync_wrap_salt, and sync_wrap_params are required" else
  if (rg_identity_key_public request =s? "") || (rg_signed_prekey_public request =s? "")
     || (rg_signed_prekey_signature request =s? "")
  then throw kInvalidArgument "Device public key material is required" else
  let! existing := gets (FindByUsername (rg_username request)) in
  match existing with
  | Some _ => throw kAlreadyExists "Username already taken"
  | None =>
      let! hash_result := lift (Hash hasher (rg_password_derived_value request) (ad_urandom draws)) in
      let user_id := GenerateUuid (ad_user draws) in
      CreateUser (mkUserRecord user_id (rg_username request) (hr_salt hash_result)
                    (hr_verifier hash_result) now None 1 (rg_wrapped_sync_key request)
                    (rg_sync_wrap_salt request) (rg_sync_wrap_params request)) ;;!
      let device_id := if rg_device_id request =s? "" then GenerateUuid (ad_device draws)
                       else rg_device_id request in
      RegisterDevice (mkDeviceRecord device_id user_id (rg_identity_key_public request)
                        (rg_signed_prekey_public request) (rg_signed_prekey_signature request)
                        None 1 (rg_device_label request) now now None) ;;!
      let! token_result := IssueTokens tokens user_id device_id now (ad_tokens draws) in
      mok (mkLoginResponse user_id token_result "created" 1)
  end.

(** [Ok None]: the exception of [Verify] on a malformed salt leaves the function. *)
Definition Login (request : LoginRequest) (now : Timestamp) (draws : AuthDraws)
    : M Database (option LoginResponse) :=
  let! user := gets (FindByUsername (lg_username request)) in
  match user with
  | None => throw kUnauthorized "Invalid credentials"
  | Some user =>
    if decide (u_disabled_at user ≠ None) then throw kForbidden "Account is disabled" else
    match Verify hasher (lg_password_derived_value request) (u_password_salt user)
            (u_password_verifier user) with
    | None => mok None
    | Some false => throw kUnauthorized "Invalid credentials"
    | Some true =>
      let device_id := if lg_device_id request =s? "" then GenerateUuid (ad_device draws)
                       else lg_device_id request in
      let! existing_device := gets (FindByUserAndDevice (u_user_id user) device_id) in
      let! device_status :=
        match existing_device with
        | None =>
            if (lg_identity_key_public request =s? "") || (lg_signed_prekey_public request =s? "")
               || (lg_signed_prekey_signature request =s? "")
            then throw kInvalidArgument "identity_key_public, signed_prekey_public, and signed_prekey_signature are required for a new device"
            else
              RegisterDevice (mkDeviceRecord device_id (u_user_id user)
                                (lg_identity_key_public request) (lg_signed_prekey_public request)
                                (lg_signed_prekey_signature request) None 1
                                (lg_device_label request) now now None) ;;!
              mok "created"
        | Some _ => UpdateLastSeen (u_user_id user) device_id now ;;! mok "existing"
        end in
      let! token_result := IssueTokens tokens (u_user_id user) device_id now (ad_tokens draws) in
      mok (Some (mkLoginResponse (u_user_id user) token_result device_status (u_sync_key_version user)))
    end
  end.

Definition Logout (session_id : string) (now : Timestamp) : M Database unit :=
  RevokeSession session_id now.

Definition LogoutWithAccessToken (token : string) (now : Timestamp) : M Database unit :=
  RevokeByAccessToken tokens token now.

Definition Refresh (request : RefreshRequest) (now : Timestamp) (draws : AuthDraws)
    : M Database TokenPair :=
  let! result := RefreshTokens tokens (rf_refresh_token request) (rf_device_id request) now
                   (ad_tokens draws) in
  UpdateLastSeen (rr_user_id result) (rf_device_id request) now ;;!
  mok (rr_tokens result).

(** [Ok None] as in [Login]; otherwise the new version of the sync key. *)
Definition ChangePassword (user_id : UserId) (request : ChangePasswordRequest) (draws : AuthDraws)
    : M Database (option Z) :=
  let! user := gets (FindUserById user_id) in
  match user with
  | None => throw kNotFound "User not found"
  | Some user =>
    if (cp_wrapped_sync_key request =s? "") || (cp_sync_wrap_salt request =s? "")
       || (cp_sync_wrap_params request =s? "")
    then throw kInvalidArgument "wrapped_sync_key, sync_wrap_salt, and sync_wrap_params are required" else
    match Verify hasher (cp_current_password_derived_value request) (u_password_salt user)
            (u_password_verifier user) with
    | None => mok None
    | Some false => throw kUnauthorized "Invalid credentials"
    | Some true =>
      let! hash_result := lift (Hash hasher (cp_new_password_derived_value request) (ad_urandom draws)) in
      UpdatePasswordCredentials user_id (hr_salt hash_result) (hr_verifier hash_result) ;;!
      let new_ver := i32_add (u_sync_key_version user) 1 in
      SetSyncKeyBundle user_id (mkSyncKeyBundleRecord new_ver (cp_wrapped_sync_key request)
                                  (cp_sync_wrap_salt request) (cp_sync_wrap_params request)) ;;!
      mok (Some new_ver)
    end
  end.

(** Issuing tokens only adds a session. *)
Lemma IssueTokens_db u d now draws db pair db' :
  IssueTokens tokens u d now draws db = (Ok pair, db') ->
  db' = set_sessions (sql_insert (issued_session tokens u d now draws) (sessions db)) db.
Proof.
  unfold IssueTokens. intros Hi. minv Hi. by apply SessionRepository.CreateSession_Ok in E as ->.
Qed.

(** ** Integrity *)

Lemma lift_wf {A} (r : Result A) : preserves db_wf (lift r).
Proof. destruct r; [apply preserves_mok|apply preserves_rethrow]. Qed.

Lemma IssueTokens_wf u d now draws : preserves db_wf (IssueTokens tokens u d now draws).
Proof. unfold IssueTokens. preserve_step. apply SessionRepository.CreateSession_wf. Qed.

#[local] Hint Resolve lift_wf IssueTokens_wf CreateUser_wf RegisterDevice_wf UpdateLastSeen_wf
  SessionRepository.RevokeSession_wf UpdatePasswordCredentials_wf SetSyncKeyBundle_wf : vox.

Lemma Register_wf request now draws : preserves db_wf (Register request now draws).
Proof. unfold Register. preserve_step; auto with vox. Qed.

Lemma Login_wf request now draws : preserves db_wf (Login request now draws).
Proof. unfold Login. preserve_step; auto with vox. Qed.

Lemma LogoutWithAccessToken_wf token now : preserves db_wf (LogoutWithAccessToken token now).
Proof.
  unfold LogoutWithAccessToken, RevokeByAccessToken, ValidateAccessToken. preserve_step.
  apply SessionRepository.RevokeSession_wf.
Qed.

Lemma Refresh_wf request now draws : preserves db_wf (Refresh request now draws).
Proof.
  unfold Refresh, RefreshTokens. preserve_step; auto with vox.
Qed.

Lemma ChangePassword_wf u request draws : preserves db_wf (ChangePassword u request draws).
Proof. unfold ChangePassword. preserve_step; auto with vox. Qed.

(** ** Login against a known account *)

(** What the last part of [Login] does on a device that is already registered. *)
Definition login_on_device (user : UserRecord) (device_id : DeviceId) (now : Timestamp)
    (draws : AuthDraws) : M Database (option LoginResponse) :=
  UpdateLastSeen (u_user_id user) device_id now ;;!
  let! token_result := IssueTokens tokens (u_user_id user) device_id now (ad_tokens draws) in
  mok (Some (mkLoginResponse (u_user_id user) token_result "existing" (u_sync_key_version user))).

Lemma Login_account user request now draws db :
  nocase_unique db -> user ∈ users db -> nocase (u_username user) = nocase (lg_username request) ->
  u_disabled_at user = None ->
  (Verify hasher (lg_password_derived_value request) (u_password_salt user) (u_password_verifier user)
     = Some false ->
   Login request now draws db = (Err (mkError kUnauthorized "Invalid credentials"), db)) ∧
  (Verify hasher (lg_password_derived_value request) (u_password_salt user) (u_password_verifier user)
     = Some true -> lg_device_id request ≠ "" ->
   (u_user_id user, lg_device_id request) ∈ device_key <$> devices db ->
   Login request now draws db = login_on_device user (lg_device_id request) now draws db).
Proof.
  intros Hu Hin Hname Hdis. split.
  { intros Ev. unfold Login, bind at 1, gets at 1. rewrite (FindByUsername_elem user) by done.
    rewrite decide_False by naive_solver. by rewrite Ev. }
  intros Ev Hne Hdev. unfold Login, bind at 1, gets at 1. rewrite (FindByUsername_elem user) by done.
  rewrite decide_False by naive_solver. rewrite Ev.
  destruct (String.eqb_spec (lg_device_id request) "") as [E|_]; [done|]. cbv zeta.
  unfold bind at 1, gets at 1.
  destruct (FindByUserAndDevice (u_user_id user) (lg_device_id request) db) eqn:Ef; [done|].
  apply FindByUserAndDevice_None in Ef. done.
Qed.

Lemma lift_Ok {A} (r : Result A) db a db' : lift r db = (Ok a, db') <-> r = Ok a ∧ db' = db.
Proof. destruct r; unfold lift, mok, rethrow; naive_solver. Qed.

(** The device a registration binds. *)
Definition registered_device (request : RegisterRequest) (draws : AuthDraws) : DeviceId :=
  if rg_device_id request =s? "" then GenerateUuid (ad_device draws) else rg_device_id request.

Lemma registered_device_nonempty request draws : registered_device request draws ≠ "".
Proof.
  unfold registered_device. destruct (String.eqb_spec (rg_device_id request) "") as [|]; [|done].
  destruct (ad_device draws) as [h l]. rewrite GenerateUuid_fields.
  intros E. apply (f_equal String.length) in E. by rewrite string_length_app, length_hex_fixed in E.
Qed.

Lemma Register_Ok request now draws db resp db' :
  Register request now draws db = (Ok resp, db') ->
  ∃ hash, Hash hasher (rg_password_derived_value request) (ad_urandom draws) = Ok hash ∧
    let user := mkUserRecord (GenerateUuid (ad_user draws)) (rg_username request) (hr_salt hash)
                  (hr_verifier hash) now None 1 (rg_wrapped_sync_key request)
                  (rg_sync_wrap_salt request) (rg_sync_wrap_params request) in
    lr_user_id resp = u_user_id user ∧ lr_device_status resp = "created" ∧
    users db' = users db ++ [user] ∧
    (∀ x, x ∈ users db -> nocase (u_username x) ≠ nocase (rg_username request)) ∧
    (u_user_id user, registered_device request draws) ∈ device_key <$> devices db' ∧
    ∃ db1, IssueTokens tokens (u_user_id user) (registered_device request draws) now
             (ad_tokens draws) db1 = (Ok (lr_tokens resp), db').
Proof.
  unfold Register. intros Hr. do 3 (case_match; [done|]). minv Hr.
  destruct (FindByUsername _ db) as [|] eqn:Ef; [done|]. minv Hr.
  apply lift_Ok in E as [Eh ->]. exists a. split; [done|]. cbv zeta.
  destruct a0. apply CreateUser_Ok in E0 as [-> Hfresh]. apply RegisterDevice_Ok in E1 as [-> _].
  pose proof (IssueTokens_db _ _ _ _ _ _ _ E2) as ->. simpl.
  split_and!; [done|done|done| | |].
  - intros x Hx. by apply Hfresh.
  - unfold sql_insert. rewrite fmap_app, elem_of_app. right. by apply list_elem_of_singleton.
  - by eexists.
Qed.

Lemma Register_nocase_unique request now draws db resp db' :
  nocase_unique db -> Register request now draws db = (Ok resp, db') -> nocase_unique db'.
Proof.
  intros Hu Hr. destruct (Register_Ok _ _ _ _ _ _ Hr) as (hash & _ & _ & _ & Hus & Hfresh & _).
  unfold nocase_unique. rewrite Hus. by apply NoDup_fmap_sql_insert.
Qed.

(** The drawn session id and tokens are those of no stored session. *)
Definition unused_draws (draws : TokenDraws) (db : Database) : Prop :=
  ∀ x, x ∈ sessions db ->
    s_session_id x ≠ GenerateUuid (session_draw draws) ∧
    s_access_token_hash x ≠ HashToken tokens (GenerateToken (access_draw draws)) ∧
    s_refresh_token_hash x ≠ HashToken tokens (GenerateToken (refresh_draw draws)).

Lemma IssueTokens_succeeds u d now draws db :
  u ∈ u_user_id <$> users db -> (u, d) ∈ device_key <$> devices db -> unused_draws draws db ->
  ∃ pair db', IssueTokens tokens u d now draws db = (Ok pair, db').
Proof.
  intros Hu Hd Hfresh. set (row := new_session_row (issued_session tokens u d now draws)).
  assert (Ei : insert_sessions row db = inr (set_sessions (sql_insert row (sessions db)) db)).
  { unfold insert_sessions. rewrite (proj2 (sql_exists_false _ _)).
    - unfold has_user, has_device. by rewrite !bool_decide_true.
    - intros x (F1 & F2 & F3)%Hfresh [F|[F|F]]; [exact (F1 F)|exact (F2 F)|exact (F3 F)]. }
  eexists _, _. unfold IssueTokens, bind. cbn [CreateSession SessionRepository.sql_sessions].
  unfold SessionRepository.CreateSession, exec. fold row. by rewrite Ei.
Qed.

(** A login that reaches a registered device ends with a session that validates. *)
Lemma login_on_device_validates user d now draws db :
  db_wf db -> user ∈ users db -> (u_user_id user, d) ∈ device_key <$> devices db ->
  unused_draws (ad_tokens draws) db ->
  ∃ pair db', login_on_device user d now draws db =
    (Ok (Some (mkLoginResponse (u_user_id user) pair "existing" (u_sync_key_version user))), db') ∧
    ∀ t, ValidateAccessToken tokens (access_token pair) t db' =
      if i64_add now (access_lifetime_seconds_ tokens) <=? t
      then (Err (mkError kExpired "Access token expired"), db')
      else (Ok (issued_session tokens (u_user_id user) d now (ad_tokens draws)), db').
Proof.
  intros Hwf Hu Hd Hfresh. unfold login_on_device, UpdateLastSeen, bind, modify.
  set (db1 := set_devices _ db).
  destruct (IssueTokens_succeeds (u_user_id user) d now (ad_tokens draws) db1) as (pair & db' & Ei).
  - by apply list_elem_of_fmap_2.
  - unfold db1. cbn [set_devices devices]. by rewrite fmap_sql_update.
  - exact Hfresh.
  - rewrite Ei. exists pair, db'. split; [done|]. intros t. apply (issued_token_validates tokens _ _ _ _ db1); [|done].
    by apply (UpdateLastSeen_wf (u_user_id user) d now).
Qed.

(** C28: After a successful registration, a login with the same password and a
    username that differs at most in case, on the registered device, succeeds for
    that account, if the session id and the tokens drawn for it are not in use; the
    access token it hands out authenticates the account on that device until it
    expires, and from then on is answered with [kExpired].  A login with a password of
    another Argon2id hash is refused and changes nothing. *)
Theorem Register_then_Login request now draws db resp db' lreq now' draws' :
  db_wf db -> nocase_unique db -> urandom_ok (ad_urandom draws) ->
  Register request now draws db = (Ok resp, db') ->
  nocase (lg_username lreq) = nocase (rg_username request) ->
  lg_device_id lreq = registered_device request draws ->
  (lg_password_derived_value lreq = rg_password_derived_value request ->
   unused_draws (ad_tokens draws') db' ->
   ∃ resp' db'', Login lreq now' draws' db' = (Ok (Some resp'), db'') ∧
     lr_user_id resp' = lr_user_id resp ∧ lr_device_status resp' = "existing" ∧
     (∀ t, i64_add now' (access_lifetime_seconds_ tokens) <= t ->
        ValidateAccessToken tokens (access_token (lr_tokens resp')) t db''
          = (Err (mkError kExpired "Access token expired"), db'')) ∧
     ∃ session, s_user_id session = lr_user_id resp ∧ s_device_id session = registered_device request draws ∧
       ∀ t, t < i64_add now' (access_lifetime_seconds_ tokens) ->
         ValidateAccessToken tokens (access_token (lr_tokens resp')) t db'' = (Ok session, db'')) ∧
  (∃ user, user ∈ users db' ∧ u_user_id user = lr_user_id resp ∧ u_username user = rg_username request ∧
     ∀ salt, HexToBytes (u_password_salt user) = Some salt ->
       raw_hash hasher (lg_password_derived_value lreq) salt
         ≠ raw_hash hasher (rg_password_derived_value request) salt ->
       Login lreq now' draws' db' = (Err (mkError kUnauthorized "Invalid credentials"), db')).
Proof.
  intros Hwf Hu Hrand Hr Hname Hdev. pose proof (Register_nocase_unique _ _ _ _ _ _ Hu Hr) as Hu'.
  assert (Hwf' : db_wf db') by (pose proof (Register_wf request now draws db Hwf) as Hp; by rewrite Hr in Hp).
  destruct (Register_Ok _ _ _ _ _ _ Hr) as (hash & Hh & Huid & _ & Hus & _ & Hd & _).
  destruct (Hash_credential _ _ _ _ Hrand Hh) as (salt & hb & Hs & Hl & Hraw & Es & Ev).
  set (user := mkUserRecord _ _ _ _ _ _ _ _ _ _) in *.
  assert (Hin : user ∈ users db').
  { rewrite Hus, elem_of_app. right. by apply list_elem_of_singleton. }
  destruct (Login_account user lreq now' draws' db' Hu' Hin (eq_sym Hname) eq_refl) as [Hbad Hgood].
  pose proof (Verify_credential hasher _ _ _ _ _ (lg_password_derived_value lreq) Hs Hraw Es Ev) as Hv.
  split.
  - intros Hpw Hfresh. rewrite Hgood; [|etransitivity; [exact Hv|]; rewrite Hpw; by rewrite bool_decide_true
      |rewrite Hdev; apply registered_device_nonempty|by rewrite Hdev].
    rewrite Hdev, Huid. destruct (login_on_device_validates user (registered_device request draws) now' draws' db')
      as (pair & db'' & -> & Hval); [done..|].
    eexists _, db''. split; [done|]. do 2 (split; [done|]). split.
    + intros t Ht. cbn [lr_tokens]. by rewrite Hval, (proj2 (Z.leb_le _ _) Ht).
    + eexists. split; [|split; [|intros t Ht; cbn [lr_tokens]; by rewrite Hval, (proj2 (Z.leb_gt _ _) Ht)]]; done.
  - exists user. do 3 (split; [done|]). intros salt' Hs' Hne. apply Hbad. etransitivity; [exact Hv|]. f_equal.
    apply bool_decide_false. simpl in Hs'. rewrite Es, HexToBytes_BytesToHex in Hs' by done.
    by injection Hs' as <-.
Qed.

(** ** Password change *)

Lemma update_user_Ok user_id f db r db' :
  update_user user_id f db = (Ok r, db') ->
  db' = set_users (sql_update (λ x, u_user_id x = user_id) f (users db)) db.
Proof. unfold update_user. intros Hr. minv Hr. case_match; [done|]. by injection Hr as _ <-. Qed.

Lemma ChangePassword_Ok user_id request draws db ver db' :
  ChangePassword user_id request draws db = (Ok (Some ver), db') ->
  ∃ user hash, FindUserById user_id db = Some user ∧
    Hash hasher (cp_new_password_derived_value request) (ad_urandom draws) = Ok hash ∧
    Verify hasher (cp_current_password_derived_value request) (u_password_salt user)
      (u_password_verifier user) = Some true ∧
    ver = i32_add (u_sync_key_version user) 1 ∧
    (∀ x, x ∈ users db' <->
       (x ∈ users db ∧ u_user_id x ≠ user_id) ∨
       ∃ y, y ∈ users db ∧ u_user_id y = user_id ∧
         x = set_sync_bundle (mkSyncKeyBundleRecord ver (cp_wrapped_sync_key request)
                (cp_sync_wrap_salt request) (cp_sync_wrap_params request))
              (set_credentials (hr_salt hash) (hr_verifier hash) y)).
Proof.
  unfold ChangePassword. intros Hc. minv Hc.
  destruct (FindUserById user_id db) as [user|]; [|done]. case_match; [done|].
  destruct (Verify hasher _ _ _) as [[]|] eqn:Ev; [|done|done]. minv Hc.
  apply lift_Ok in E as [Eh ->]. apply update_user_Ok in E0 as ->. apply update_user_Ok in E1 as ->.
  exists user, a. split_and!; [done..|]. intros x. simpl.
  rewrite elem_of_sql_update. setoid_rewrite elem_of_sql_update. split.
  - intros (y & (z & Hz & ->) & ->). destruct (decide (u_user_id z = user_id)) as [Ez|Ez].
    + rewrite decide_True by done. right. by exists z.
    + rewrite decide_False by done. by left.
  - intros [[Hx Hne]|(y & Hy & Ey & ->)].
    + exists x. split; [exists x; by rewrite decide_False|by rewrite decide_False].
    + eexists. split; [exists y; split; [done|rewrite decide_True by done; reflexivity]|].
      by rewrite decide_True.
Qed.

(** C29: A successful password change requires the current password; it replaces
    the credential of that account and no other, the new password verifies and any
    other password only if Argon2id maps it to the same hash, and the version of
    the sync key bundle grows by one (in 32-bit arithmetic). *)
Theorem ChangePassword_replaces user_id request draws db ver db' :
  db_wf db -> urandom_ok (ad_urandom draws) ->
  ChangePassword user_id request draws db = (Ok (Some ver), db') ->
  ∃ user user' salt, user ∈ users db ∧ u_user_id user = user_id ∧
    Verify hasher (cp_current_password_derived_value request) (u_password_salt user)
      (u_password_verifier user) = Some true ∧
    user' ∈ users db' ∧ u_user_id user' = user_id ∧ u_username user' = u_username user ∧
    ver = i32_add (u_sync_key_version user) 1 ∧
    GetSyncKeyBundle user_id db' = Some (mkSyncKeyBundleRecord ver (cp_wrapped_sync_key request)
                                           (cp_sync_wrap_salt request) (cp_sync_wrap_params request)) ∧
    (∀ password, Verify hasher password (u_password_salt user') (u_password_verifier user') =
       Some (bool_decide (raw_hash hasher password salt =
                          raw_hash hasher (cp_new_password_derived_value request) salt))) ∧
    (∀ x, u_user_id x ≠ user_id -> x ∈ users db' <-> x ∈ users db).
Proof.
  intros Hwf Hrand Hc. destruct (ChangePassword_Ok _ _ _ _ _ _ Hc) as (user & hash & Hf & Hh & Hv & Hver & Hus).
  apply FindUserById_Some in Hf as [Hin Hid].
  destruct (Hash_credential _ _ _ _ Hrand Hh) as (salt & hb & Hs & Hl & Hraw & Es & Ev).
  pose proof (ChangePassword_wf user_id request draws db Hwf) as Hwf'. rewrite Hc in Hwf'. simpl in Hwf'.
  match type of Hus with context [set_sync_bundle ?b (set_credentials ?s ?v _)] =>
    set (user' := set_sync_bundle b (set_credentials s v user)) in * end.
  assert (Hin' : user' ∈ users db') by (apply Hus; right; by exists user).
  exists user, user', salt. split_and!; [done..| | |].
  - unfold GetSyncKeyBundle. rewrite <- Hid. change (u_user_id user) with (u_user_id user').
    by rewrite (FindUserById_elem user').
  - intros password. exact (Verify_credential hasher _ _ _ _ _ password Hs Hraw Es Ev).
  - intros x Hx. rewrite Hus. split; [|by left].
    intros [[? _]|(y & _ & Ey & ->)]; [done|]. by destruct Hx.
Qed.
End AuthService.

(** ** Instances on the sample database *)

#[local] Existing Instance rowid_engine.
#[local] Existing Instance toy_argon2.

Definition sample_hasher : PasswordHasher := mkPasswordHasher 3 65536 1.
Definition sample_auth_draws (n : Z) : AuthDraws :=
  mkAuthDraws (Some (seqZ n 16)) (n, 2) (n, 3) (sample_draws n).
Definition sample_register : RegisterRequest :=
  mkRegisterRequest "Carol" "pw" "d9" "phone" "ik" "spk" "sig" "wk" "ws" "wp".
Definition sample_login (name : string) : LoginRequest := mkLoginRequest name "pw" "d9" "phone" "" "" "".

Definition sample_registered_db : Database :=
  Eval vm_compute in (Register sample_hasher sample_tm sample_register 1000 (sample_auth_draws 1) sample_db).2.

Lemma sample_urandom n : 0 <= n <= 100 -> urandom_ok (ad_urandom (sample_auth_draws n)).
Proof.
  intros Hn. unfold urandom_ok. cbn [sample_auth_draws ad_urandom default]. unfold default. simpl.
  apply Forall_forall. intros b Hb. apply elem_of_seqZ in Hb. unfold is_byte. lia.
Qed.

Lemma Register_then_Login_witness :
  ∃ resp db', Login sample_hasher sample_tm (sample_login "cAROL") 2000 (sample_auth_draws 2) sample_registered_db
      = (Ok (Some resp), db') ∧ lr_device_status resp = "existing" ∧
    ∃ session, s_device_id session = "d9" ∧
      ValidateAccessToken sample_tm (access_token (lr_tokens resp)) 2001 db' = (Ok session, db').
Proof.
  assert (E : ∃ resp, Register sample_hasher sample_tm sample_register 1000 (sample_auth_draws 1) sample_db
    = (Ok resp, sample_registered_db)) by (eexists; vm_compute; reflexivity).
  destruct E as [resp E].
  destruct (Register_then_Login sample_hasher sample_tm sample_register 1000 (sample_auth_draws 1)
    sample_db resp sample_registered_db (sample_login "cAROL") 2000 (sample_auth_draws 2)) as [Hgood _].
  - apply db_wf_eval. vm_compute. reflexivity.
  - apply (bool_decide_unpack (nocase_unique sample_db)). vm_compute. exact I.
  - apply sample_urandom. lia.
  - exact E.
  - reflexivity.
  - reflexivity.
  - destruct Hgood as (resp' & db' & El & _ & Hst & _ & session & _ & Hd & Hval).
    + reflexivity.
    + unfold unused_draws. rewrite <- Forall_forall. apply (bool_decide_unpack _). vm_compute. exact I.
    + exists resp', db'. split; [exact El|]. split; [exact Hst|]. exists session. split; [exact Hd|].
      apply Hval. vm_compute. reflexivity.
Defined.

Lemma ChangePassword_replaces_witness :
  ∃ user' salt, user' ∈ users (ChangePassword sample_hasher "u1"
      (mkChangePasswordRequest "pw" "new" "wk2" "ws2" "wp2") (sample_auth_draws 1)
      (set_users [mkUserRecord "u1" "alice" "00" (BytesToHex (bytes_of_string "pw" ++ replicate 30 0))
                    1000 None 1 "wk" "ws" "wp"] CreateSchema)).2 ∧
    Verify sample_hasher "new" (u_password_salt user') (u_password_verifier user') =
    Some (bool_decide (raw_hash sample_hasher "new" salt = raw_hash sample_hasher "new" salt)).
Proof.
  destruct (ChangePassword_replaces sample_hasher "u1"
    (mkChangePasswordRequest "pw" "new" "wk2" "ws2" "wp2") (sample_auth_draws 1)
    (set_users [mkUserRecord "u1" "alice" "00" (BytesToHex (bytes_of_string "pw" ++ replicate 30 0))
                  1000 None 1 "wk" "ws" "wp"] CreateSchema) 2
    (ChangePassword sample_hasher "u1"
      (mkChangePasswordRequest "pw" "new" "wk2" "ws2" "wp2") (sample_auth_draws 1)
      (set_users [mkUserRecord "u1" "alice" "00" (BytesToHex (bytes_of_string "pw" ++ replicate 30 0))
                    1000 None 1 "wk" "ws" "wp"] CreateSchema)).2)
    as (user & user' & salt & _ & _ & _ & Hin & _ & _ & _ & _ & Hv & _).
  - apply db_wf_eval. vm_compute. reflexivity.
  - apply sample_urandom. lia.
  - vm_compute. reflexivity.
  - exists user', salt. split; [exact Hin|]. apply Hv.
Defined.
