(* ===== verification/Conversations.v ===== *)
(** * ConversationRepository (lib/vox_store/conversation_repository.cpp)

    Conversations, their members and the subscribers of channels, with the
    membership version each change bumps. *)

From S2P Require Import Prelude Types Sql Database Samples.

(** [ConversationRecord] as a listing returns it: the row and [last_activity_at]. *)
Record ConversationRecord := mkConversationRecord {
  cr_conversation : ConversationRow;
  cr_last_activity_at : option Timestamp }.

Definition set_removed_at (now : Timestamp) (m : MemberRecord) : MemberRecord :=
  mkMemberRecord (m_conversation_id m) (m_user_id m) (m_role m) (m_added_at m) (Some now).
Definition set_unsubscribed_at (now : Timestamp) (b : SubscriptionRow) : SubscriptionRow :=
  mkSubscriptionRow (b_conversation_id b) (b_user_id b) (b_subscribed_at b) (Some now).
(** [membership_version + 1], as [getInt64] reads it back: a sum that does not fit 64 bits is
    stored as a floating-point number, of which the largest integer is read. *)
Definition max_version : Z := 2 ^ 63 - 1.
Definition bump_version (c : ConversationRow) : ConversationRow :=
  mkConversationRow (c_conversation_id c) (c_type c) (c_created_by c) (c_created_at c) (c_policy_blob c)
    (if c_membership_version c <? max_version then c_membership_version c + 1 else c_membership_version c).

(** [conversation_id = ? AND user_id = ? AND removed_at IS NULL]. *)
Definition active_member (conv : ConversationId) (user : UserId) (m : MemberRecord) : Prop :=
  m_conversation_id m = conv ∧ m_user_id m = user ∧ m_removed_at m = None.
#[export] Instance active_member_dec c u m : Decision (active_member c u m).
Proof. unfold active_member. apply _. Defined.

(** [conversation_id = ? AND user_id = ? AND unsubscribed_at IS NULL]. *)
Definition active_subscription (conv : ConversationId) (user : UserId) (b : SubscriptionRow) : Prop :=
  b_conversation_id b = conv ∧ b_user_id b = user ∧ b_unsubscribed_at b = None.
#[export] Instance active_subscription_dec c u b : Decision (active_subscription c u b).
Proof. unfold active_subscription. apply _. Defined.

Module ConversationRepository.
Section ConversationRepository.
Context `{SqlEngine}.

Definition BumpMembershipVersion (conv_id : ConversationId) (db : Database) : Database :=
  set_conversations (sql_update (λ c, c_conversation_id c = conv_id) bump_version (conversations db)) db.

Definition CreateConversation (conv : ConversationRow) : M Database unit :=
  exec (λ e, if is_constraint e then mkError kAlreadyExists "Conversation already exists"
             else internal_error e)
    (insert_conversations conv).

Definition FindById (conv_id : ConversationId) (db : Database) : option ConversationRow :=
  first_row TConversations (filter (λ c, c_conversation_id c = conv_id) (conversations db)).

Definition AddMember (conv_id : ConversationId) (user_id : UserId) (role : MemberRole)
    (now : Timestamp) : M Database unit :=
  exec internal_error (upsert_conversation_members (mkMemberRecord conv_id user_id role now None)) ;;!
  modify (BumpMembershipVersion conv_id).

Definition RemoveMember (conv_id : ConversationId) (user_id : UserId) (now : Timestamp)
    : M Database unit :=
  let! n := gets (λ db, sql_count (active_member conv_id user_id) (conversation_members db)) in
  modify (λ db, set_conversation_members
                  (sql_update (active_member conv_id user_id) (set_removed_at now)
                     (conversation_members db)) db) ;;!
  if Nat.ltb 0 n then modify (BumpMembershipVersion conv_id) else mok tt.

Definition GetMembers (conv_id : ConversationId) (db : Database) : list MemberRecord :=
  scan TConversationMembers
    (filter (λ m, m_conversation_id m = conv_id ∧ m_removed_at m = None) (conversation_members db)).

(** [SELECT MAX(server_timestamp) ..]: [NULL] over no rows. *)
Definition last_activity (conv_id : ConversationId) (db : Database) : option Timestamp :=
  foldr (λ e acc, Some (match acc with None => e_server_timestamp e
                        | Some t => Z.max (e_server_timestamp e) t end)) None
    (filter (λ e, e_conversation_id e = conv_id) (encrypted_envelopes db)).

Definition GetConversationsForUser (user_id : UserId) (db : Database) : list ConversationRecord :=
  let joined :=
    m ← filter (λ m, m_user_id m = user_id ∧ m_removed_at m = None) (conversation_members db);
    filter (λ c, c_conversation_id c = m_conversation_id m) (conversations db) in
  (λ c : ConversationRow, mkConversationRecord c (last_activity (c_conversation_id c) db))
    <$> scan TConversations joined.

Definition IsUserInConversation (conv_id : ConversationId) (user_id : UserId) (db : Database) : bool :=
  match FindById conv_id db with
  | None => false
  | Some c =>
      if decide (c_type c = kChannel)
      then sql_exists (active_subscription conv_id user_id) (channel_subscriptions db)
      else sql_exists (active_member conv_id user_id) (conversation_members db)
  end.

Definition GetMember (conv_id : ConversationId) (user_id : UserId) (db : Database)
    : option MemberRecord :=
  first_row TConversationMembers (filter (active_member conv_id user_id) (conversation_members db)).

Definition Subscribe (conv_id : ConversationId) (user_id : UserId) (now : Timestamp)
    : M Database unit :=
  exec internal_error (upsert_channel_subscriptions (mkSubscriptionRow conv_id user_id now None)) ;;!
  modify (BumpMembershipVersion conv_id).

Definition Unsubscribe (conv_id : ConversationId) (user_id : UserId) (now : Timestamp)
    : M Database unit :=
  let! n := gets (λ db, sql_count (active_subscription conv_id user_id) (channel_subscriptions db)) in
  modify (λ db, set_channel_subscriptions
                  (sql_update (active_subscription conv_id user_id) (set_unsubscribed_at now)
                     (channel_subscriptions db)) db) ;;!
  if Nat.ltb 0 n then modify (BumpMembershipVersion conv_id) else mok tt.

Definition GetSubscribers (conv_id : ConversationId) (db : Database) : list UserId :=
  b_user_id <$> scan TChannelSubscriptions
    (filter (λ b, b_conversation_id b = conv_id ∧ b_unsubscribed_at b = None) (channel_subscriptions db)).

Definition GetMemberCount (conv_id : ConversationId) (db : Database) : nat :=
  sql_count (λ m, m_conversation_id m = conv_id ∧ m_removed_at m = None) (conversation_members db).

(** ** Integrity *)

Lemma BumpMembershipVersion_wf c db : db_wf db -> db_wf (BumpMembershipVersion c db).
Proof. intros Hwf. db_wf_solve. Qed.

Lemma CreateConversation_wf conv : preserves db_wf (CreateConversation conv).
Proof. apply preserves_exec. eauto with vox. Qed.

Lemma AddMember_wf c u r now : preserves db_wf (AddMember c u r now).
Proof.
  unfold AddMember. preserve_step.
  - apply preserves_exec. eauto with vox.
  - apply preserves_modify. apply BumpMembershipVersion_wf.
Qed.

Lemma RemoveMember_wf c u now : preserves db_wf (RemoveMember c u now).
Proof.
  unfold RemoveMember. preserve_step; apply preserves_modify.
  - intros db Hwf. db_wf_solve.
  - apply BumpMembershipVersion_wf.
Qed.

Lemma Subscribe_wf c u now : preserves db_wf (Subscribe c u now).
Proof.
  unfold Subscribe. preserve_step.
  - apply preserves_exec. eauto with vox.
  - apply preserves_modify. apply BumpMembershipVersion_wf.
Qed.

Lemma Unsubscribe_wf c u now : preserves db_wf (Unsubscribe c u now).
Proof.
  unfold Unsubscribe. preserve_step; apply preserves_modify.
  - intros db Hwf. db_wf_solve.
  - apply BumpMembershipVersion_wf.
Qed.

(** ** Lookups *)

Lemma FindById_Some c db x :
  FindById c db = Some x -> x ∈ conversations db ∧ c_conversation_id x = c.
Proof.
  intros Hf. apply (first_row_Some TConversations) in Hf. apply list_elem_of_filter in Hf. tauto.
Qed.

Lemma FindById_elem x db :
  db_wf db -> x ∈ conversations db -> FindById (c_conversation_id x) db = Some x.
Proof.
  intros [[] _ _] Hx. unfold FindById.
  rewrite (filter_key_singleton c_conversation_id _ _ x) by done. apply (first_row_singleton TConversations).
Qed.

Lemma GetMember_Some c u db m :
  GetMember c u db = Some m -> m ∈ conversation_members db ∧ active_member c u m.
Proof.
  intros Hf. apply (first_row_Some TConversationMembers) in Hf.
  apply list_elem_of_filter in Hf. tauto.
Qed.

Lemma GetMember_None c u db :
  GetMember c u db = None <-> ∀ m, m ∈ conversation_members db -> ¬ active_member c u m.
Proof. unfold GetMember. by rewrite (first_row_None TConversationMembers), filter_nil_iff. Qed.

Lemma elem_of_GetMembers c db m :
  m ∈ GetMembers c db <-> m ∈ conversation_members db ∧ m_conversation_id m = c ∧ m_removed_at m = None.
Proof.
  unfold GetMembers. rewrite (elem_of_scan TConversationMembers), list_elem_of_filter. tauto.
Qed.

Lemma elem_of_GetSubscribers c db u :
  u ∈ GetSubscribers c db <-> ∃ b, b ∈ channel_subscriptions db ∧ active_subscription c u b.
Proof.
  unfold GetSubscribers. rewrite list_elem_of_fmap. split.
  - intros (b & -> & Hb). apply (elem_of_scan TChannelSubscriptions), list_elem_of_filter in Hb.
    exists b. unfold active_subscription. tauto.
  - intros (b & Hb & Hc & Hu & Hn). exists b. split; [done|].
    apply (elem_of_scan TChannelSubscriptions), list_elem_of_filter. tauto.
Qed.

(** ** Who is in a conversation *)

(** The declarative reading: an active subscriber of a channel, an active member
    of any other conversation. *)
Definition participant (db : Database) (conv : ConversationId) (user : UserId) : Prop :=
  ∃ c, c ∈ conversations db ∧ c_conversation_id c = conv ∧
    if decide (c_type c = kChannel)
    then ∃ b, b ∈ channel_subscriptions db ∧ active_subscription conv user b
    else ∃ m, m ∈ conversation_members db ∧ active_member conv user m.

Lemma IsUserInConversation_true conv user db :
  db_wf db -> IsUserInConversation conv user db = true <-> participant db conv user.
Proof.
  intros Hwf. unfold IsUserInConversation, participant. destruct (FindById conv db) as [c|] eqn:Ef.
  - apply FindById_Some in Ef as [Hc <-]. split.
    + intros Hin. exists c. split; [done|]. split; [done|].
      case_decide; by apply (proj1 (sql_exists_true _ _)).
    + intros (c' & Hc' & E & Hin). destruct Hwf as [[] _ _].
      assert (c' = c) as -> by by eapply (NoDup_fmap_inj_on c_conversation_id).
      case_decide; by apply (proj2 (sql_exists_true _ _)).
  - split; [done|]. intros (c & Hc & <- & _). by rewrite (FindById_elem c) in Ef.
Qed.

(** ** Effect of the operations *)

(** An upsert leaves exactly the given row under its key. *)
Lemma AddMember_Ok conv user role now db db' :
  AddMember conv user role now db = (Ok tt, db') ->
  conversations db' = sql_update (λ c, c_conversation_id c = conv) bump_version (conversations db) ∧
  (∀ m, m ∈ conversation_members db' <->
     (m ∈ conversation_members db ∧ member_key m ≠ (conv, user)) ∨
     m = mkMemberRecord conv user role now None) ∧
  channel_subscriptions db' = channel_subscriptions db ∧
  users db' = users db ∧ devices db' = devices db ∧
  encrypted_envelopes db' = encrypted_envelopes db ∧ delivery_state db' = delivery_state db.
Proof.
  unfold AddMember. intros Ha. minv Ha. destruct a. apply exec_Ok in E.
  unfold upsert_conversation_members in E. simpl in E.
  destruct (sql_exists _ _) eqn:Ex.
  - injection E as <-. split_and!; try done. intros m. simpl. rewrite elem_of_sql_update.
    unfold member_key in *. simpl in *. split.
    + intros (x & Hx & ->). case_decide as Hk; [|by left]. right. injection Hk as -> ->. done.
    + intros [[Hm Hk]| ->]; [exists m; by rewrite decide_False|].
      apply sql_exists_true in Ex as (x & Hx & Hk). exists x. rewrite decide_True by done.
      injection Hk as -> ->. done.
  - destruct (negb _); [done|]. injection E as <-. split_and!; try done. intros m. simpl.
    rewrite elem_of_sql_insert. split; [|tauto]. intros [Hm|Hm]; [|by right]. left.
    split; [done|]. by apply (proj1 (sql_exists_false _ _) Ex).
Qed.

Lemma AddMember_Err conv user role now db e db' :
  AddMember conv user role now db = (Err e, db') -> db' = db.
Proof.
  unfold AddMember. intros Ha. apply bind_Err in Ha as [Ha|(? & ? & _ & [=])].
  by apply exec_Err in Ha as (? & _ & _ & ->).
Qed.

Lemma Subscribe_Ok conv user now db db' :
  Subscribe conv user now db = (Ok tt, db') ->
  conversations db' = sql_update (λ c, c_conversation_id c = conv) bump_version (conversations db) ∧
  (∀ b, b ∈ channel_subscriptions db' <->
     (b ∈ channel_subscriptions db ∧ subscription_key b ≠ (conv, user)) ∨
     b = mkSubscriptionRow conv user now None) ∧
  conversation_members db' = conversation_members db ∧
  users db' = users db ∧ devices db' = devices db ∧
  encrypted_envelopes db' = encrypted_envelopes db ∧ delivery_state db' = delivery_state db.
Proof.
  unfold Subscribe. intros Ha. minv Ha. destruct a. apply exec_Ok in E.
  unfold upsert_channel_subscriptions in E. simpl in E.
  destruct (sql_exists _ _) eqn:Ex.
  - injection E as <-. split_and!; try done. intros m. simpl. rewrite elem_of_sql_update.
    unfold subscription_key in *. simpl in *. split.
    + intros (x & Hx & ->). case_decide as Hk; [|by left]. right. injection Hk as -> ->. done.
    + intros [[Hm Hk]| ->]; [exists m; by rewrite decide_False|].
      apply sql_exists_true in Ex as (x & Hx & Hk). exists x. rewrite decide_True by done.
      injection Hk as -> ->. done.
  - destruct (negb _); [done|]. injection E as <-. split_and!; try done. intros m. simpl.
    rewrite elem_of_sql_insert. split; [|tauto]. intros [Hm|Hm]; [|by right]. left.
    split; [done|]. by apply (proj1 (sql_exists_false _ _) Ex).
Qed.

Lemma Subscribe_Err conv user now db e db' :
  Subscribe conv user now db = (Err e, db') -> db' = db.
Proof.
  unfold Subscribe. intros Ha. apply bind_Err in Ha as [Ha|(? & ? & _ & [=])].
  by apply exec_Err in Ha as (? & _ & _ & ->).
Qed.

Lemma RemoveMember_run conv user now db :
  RemoveMember conv user now db =
  (Ok tt,
   let db1 := set_conversation_members
                (sql_update (active_member conv user) (set_removed_at now) (conversation_members db)) db in
   if sql_exists (active_member conv user) (conversation_members db)
   then BumpMembershipVersion conv db1 else db1).
Proof.
  unfold RemoveMember, bind, gets, modify, mok, sql_count, sql_exists.
  by destruct (filter _ (conversation_members db)).
Qed.

Lemma Unsubscribe_run conv user now db :
  Unsubscribe conv user now db =
  (Ok tt,
   let db1 := set_channel_subscriptions
                (sql_update (active_subscription conv user) (set_unsubscribed_at now)
                   (channel_subscriptions db)) db in
   if sql_exists (active_subscription conv user) (channel_subscriptions db)
   then BumpMembershipVersion conv db1 else db1).
Proof.
  unfold Unsubscribe, bind, gets, modify, mok, sql_count, sql_exists.
  by destruct (filter _ (channel_subscriptions db)).
Qed.

(** ** The membership version *)

(** The rows that say who takes part in [conv]. *)
Definition roster (conv : ConversationId) (db : Database) : list MemberRecord * list SubscriptionRow :=
  (filter (λ m, m_conversation_id m = conv) (conversation_members db),
   filter (λ b, b_conversation_id b = conv) (channel_subscriptions db)).

(** What the versions say about a change of the store: no conversation goes away, no version
    decreases, and while the version of a conversation stays the same, short of the
    largest number, its roster does. *)
Definition version_sound (db db' : Database) : Prop :=
  ∀ c, c ∈ conversations db -> ∃ c', c' ∈ conversations db' ∧ c_conversation_id c' = c_conversation_id c ∧
    c_membership_version c <= c_membership_version c' ∧
    (c_membership_version c' = c_membership_version c -> c_membership_version c < max_version ->
     roster (c_conversation_id c) db' = roster (c_conversation_id c) db).

#[global] Instance version_sound_pre : PreOrder version_sound.
Proof.
  split.
  - intros db c Hc. exists c. split_and!; [done..|lia|done].
  - intros db1 db2 db3 H12 H23 c Hc. destruct (H12 c Hc) as (c2 & Hc2 & E2 & L2 & R2).
    destruct (H23 c2 Hc2) as (c3 & Hc3 & E3 & L3 & R3). rewrite E2 in *.
    exists c3. split_and!; [done|done|lia|]. intros E Hm. rewrite R3, R2 by lia. done.
Qed.

(** The rosters are untouched and conversations at most added. *)
Lemma version_sound_same db db' :
  (∀ c, c ∈ conversations db -> c ∈ conversations db') ->
  conversation_members db' = conversation_members db -> channel_subscriptions db' = channel_subscriptions db ->
  version_sound db db'.
Proof.
  intros Hc Em Es c Hin. exists c. split_and!; [by apply Hc|done|lia|]. intros _ _. unfold roster. by rewrite Em, Es.
Qed.

(** An operation that bumps the conversation whose roster it changes is sound. *)
Lemma version_sound_bump db db1 conv' :
  conversations db1 = conversations db ->
  (∀ conv, conv ≠ conv' -> roster conv db1 = roster conv db) ->
  version_sound db (BumpMembershipVersion conv' db1).
Proof.
  intros Ec Hr c Hc. unfold BumpMembershipVersion. cbn [conversations set_conversations]. rewrite Ec.
  destruct (decide (c_conversation_id c = conv')) as [E|Hne].
  - exists (bump_version c). split_and!.
    + apply elem_of_sql_update. exists c. by rewrite decide_True.
    + done.
    + simpl. destruct (Z.ltb_spec (c_membership_version c) max_version); lia.
    + intros Ev Hm. exfalso. simpl in Ev. destruct (Z.ltb_spec (c_membership_version c) max_version); lia.
  - exists c. split_and!; [|done|lia|].
    + apply elem_of_sql_update. exists c. by rewrite decide_False.
    + intros _ _. by apply Hr.
Qed.

Lemma CreateConversation_sound row db : version_sound db (CreateConversation row db).2.
Proof.
  unfold CreateConversation, exec, insert_conversations. destruct (sql_exists _ _); [reflexivity|].
  destruct (negb _); [reflexivity|]. apply version_sound_same; [|done|done]. intros c Hc. simpl.
  apply elem_of_sql_insert. by left.
Qed.

Lemma AddMember_sound conv user role now db : version_sound db (AddMember conv user role now db).2.
Proof.
  unfold AddMember, bind, exec, upsert_conversation_members.
  destruct (sql_exists _ _) eqn:Ex; [|destruct (negb _) eqn:En]; simpl; [|reflexivity|].
  - apply version_sound_bump; [done|]. intros c Hne. unfold roster. simpl. f_equal.
    apply (filter_sql_update_other m_conversation_id _ _ _ _ conv); [|done..].
    unfold member_key. simpl. congruence.
  - apply version_sound_bump; [done|]. intros c Hne. unfold roster. simpl. f_equal.
    by apply filter_sql_insert_other.
Qed.

Lemma Subscribe_sound conv user now db : version_sound db (Subscribe conv user now db).2.
Proof.
  unfold Subscribe, bind, exec, upsert_channel_subscriptions.
  destruct (sql_exists _ _) eqn:Ex; [|destruct (negb _) eqn:En]; simpl; [|reflexivity|].
  - apply version_sound_bump; [done|]. intros c Hne. unfold roster. simpl. f_equal.
    apply (filter_sql_update_other b_conversation_id _ _ _ _ conv); [|done..].
    unfold subscription_key. simpl. congruence.
  - apply version_sound_bump; [done|]. intros c Hne. unfold roster. simpl. f_equal.
    by apply filter_sql_insert_other.
Qed.

Lemma RemoveMember_sound conv user now db : version_sound db (RemoveMember conv user now db).2.
Proof.
  rewrite RemoveMember_run. cbv zeta. destruct (sql_exists _ _) eqn:Ex; simpl.
  - apply version_sound_bump; [done|]. intros c Hne. unfold roster. simpl. f_equal.
    apply (filter_sql_update_other m_conversation_id _ _ _ _ conv); [by intros m [? _]|done..].
  - apply version_sound_same; [done| |done]. simpl. apply sql_update_id, (proj1 (sql_exists_false _ _) Ex).
Qed.

Lemma Unsubscribe_sound conv user now db : version_sound db (Unsubscribe conv user now db).2.
Proof.
  rewrite Unsubscribe_run. cbv zeta. destruct (sql_exists _ _) eqn:Ex; simpl.
  - apply version_sound_bump; [done|]. intros c Hne. unfold roster. simpl. f_equal.
    apply (filter_sql_update_other b_conversation_id _ _ _ _ conv); [by intros m [? _]|done..].
  - apply version_sound_same; [done|done|]. simpl. apply sql_update_id, (proj1 (sql_exists_false _ _) Ex).
Qed.

Lemma GetMember_iff conv user db m :
  db_wf db -> GetMember conv user db = Some m <-> m ∈ conversation_members db ∧ active_member conv user m.
Proof.
  intros Hwf. split; [apply GetMember_Some|]. intros [Hm Ha]. destruct Hwf as [[] _ _].
  unfold GetMember. rewrite (filter_key_singleton member_key _ _ m); [|done..|].
  - apply (first_row_singleton TConversationMembers).
  - destruct Ha as (? & ? & _). intros y (? & ? & _). unfold member_key. congruence.
Qed.

Lemma members_RemoveMember conv user now db m :
  m ∈ conversation_members (RemoveMember conv user now db).2 <->
  ∃ x, x ∈ conversation_members db ∧
    m = if decide (active_member conv user x) then set_removed_at now x else x.
Proof.
  rewrite RemoveMember_run. cbv zeta. destruct (sql_exists _ _); apply elem_of_sql_update.
Qed.

(** Membership lookups follow the operations: after a successful [AddMember]
    the user is an active member with the given role, whether or not a row existed;
    after [RemoveMember] the user is no longer one; the memberships of every other
    user and conversation are the same.  [IsUserInConversation] decides exactly
    participation: an active subscription of a channel, an active membership of
    any other conversation. *)
Theorem membership_effects conv user db :
  db_wf db ->
  (∀ role now db', AddMember conv user role now db = (Ok tt, db') ->
     GetMember conv user db' = Some (mkMemberRecord conv user role now None) ∧
     ∀ c u m, (c, u) ≠ (conv, user) -> GetMember c u db' = Some m <-> GetMember c u db = Some m) ∧
  (∀ now, GetMember conv user (RemoveMember conv user now db).2 = None ∧
     ∀ c u m, (c, u) ≠ (conv, user) ->
       GetMember c u (RemoveMember conv user now db).2 = Some m <-> GetMember c u db = Some m) ∧
  (IsUserInConversation conv user db = true <-> participant db conv user).
Proof.
  intros Hwf. split_and!.
  - intros role now db' Ha. pose proof (AddMember_wf conv user role now db Hwf) as Hwf'.
    rewrite Ha in Hwf'. simpl in Hwf'. destruct (AddMember_Ok _ _ _ _ _ _ Ha) as (_ & Hm & _). split.
    + apply GetMember_iff; [done|]. split; [apply Hm; by right|done].
    + intros c u m Hne. rewrite !GetMember_iff, Hm by done. unfold active_member, member_key. split.
      * intros [[[Hin _]| ->] (Hc & Hu & Hr)]; [done|]. simpl in *. congruence.
      * intros [Hin (Hc & Hu & Hr)]. split; [|done]. left. split; [done|]. congruence.
  - intros now. pose proof (RemoveMember_wf conv user now db Hwf) as Hwf'. split.
    + apply GetMember_None. intros m (x & Hx & ->)%members_RemoveMember.
      case_decide as Ha; [|done]. by intros (_ & _ & ?).
    + intros c u m Hne. rewrite !GetMember_iff, members_RemoveMember by done. split.
      * intros [(x & Hx & ->) Ha]. case_decide as Hd; [by destruct Ha as (_ & _ & ?)|done].
      * intros [Hx Ha]. split; [|done]. exists m. rewrite decide_False; [done|].
        intros (Hc & Hu & _). destruct Ha as (Hc' & Hu' & _). congruence.
  - by apply IsUserInConversation_true.
Qed.
End ConversationRepository.

Section witnesses.
#[local] Existing Instance rowid_engine.

(** The sample accounts in one group. *)
Definition sample_group_db : Database :=
  set_conversation_members [mkMemberRecord "g1" "u1" kOwner 1000 None]
    (set_conversations [mkConversationRow "g1" kGroup "u1" 1000 "{}" 1] sample_db).

Lemma sample_group_db_wf : db_wf sample_group_db.
Proof. apply db_wf_eval. vm_compute. reflexivity. Qed.

Lemma membership_effects_witness :
  GetMember "g1" "u2" (AddMember "g1" "u2" kMember 1001 sample_group_db).2 =
  Some (mkMemberRecord "g1" "u2" kMember 1001 None).
Proof.
  apply (membership_effects "g1" "u2" sample_group_db sample_group_db_wf).
  vm_compute. reflexivity.
Defined.
End witnesses.
End ConversationRepository.
