(* ===== verification/Envelopes.v ===== *)
(** * EnvelopeRepository (lib/vox_store/envelope_repository.cpp)

    Stored envelopes and the delivery state of each target device, with the
    cursor pagination of both listings. *)

From S2P Require Import Prelude Types Sql Database Samples Hex Paging Conversations.

(** ** Cursors *)

(** The character [|]. *)
Definition bar : Ascii.ascii := ascii_of_byte 124.

Definition MakeEnvCursor (ts : Timestamp) (eid : EnvelopeId) : string :=
  print_int64 ts +:+ String bar eid.

(** [None]: the function returns [false]. *)
Definition ParseEnvCursor (cursor : string) : option (Timestamp * EnvelopeId) :=
  if cursor =s? "" then Some (0, "") else
  match split_at_char bar cursor with
  | None => None
  | Some (l, eid) =>
      if l =s? "" then None else
      match stoll l with
      | None => None
      | Some ts => if eid =s? "" then None else Some (ts, eid)
      end
  end.

Lemma ParseEnvCursor_Make ts eid :
  in_int64 ts -> eid ≠ "" -> ParseEnvCursor (MakeEnvCursor ts eid) = Some (ts, eid).
Proof.
  intros Hts Heid. unfold ParseEnvCursor, MakeEnvCursor.
  pose proof (print_int64_nonempty ts Hts) as Hne.
  destruct (String.eqb_spec (print_int64 ts +:+ String bar eid) "") as [E|_].
  { by destruct (print_int64 ts). }
  rewrite split_at_first by apply no_bar_print_int64.
  destruct (String.eqb_spec (print_int64 ts) "") as [E|_]; [done|].
  rewrite stoll_print by done. by destruct (String.eqb_spec eid "").
Qed.

(** ** The order of the listings *)

(** [ORDER BY server_timestamp ASC, envelope_id ASC]. *)
Definition env_key (e : EnvelopeRecord) : Timestamp * EnvelopeId := (e_server_timestamp e, e_envelope_id e).

Definition env_key_le (k1 k2 : Timestamp * EnvelopeId) : Prop :=
  k1.1 < k2.1 ∨ (k1.1 = k2.1 ∧ String.le k1.2 k2.2).

#[export] Instance env_key_le_dec : RelDecision env_key_le.
Proof. intros k1 k2. unfold env_key_le. apply _. Defined.
#[export] Instance env_key_le_po : PartialOrder env_key_le.
Proof.
  split; [split|].
  - intros [t i]. by right.
  - intros [t1 i1] [t2 i2] [t3 i3] [H1|[E1 L1]] [H2|[E2 L2]]; unfold env_key_le; simpl in *.
    + left. lia.
    + left. lia.
    + left. lia.
    + right. split; [congruence|]. by transitivity i2.
  - intros [t1 i1] [t2 i2] [H1|[E1 L1]] [H2|[E2 L2]]; simpl in *; [lia..|].
    f_equal; [done|]. by apply (anti_symm String.le).
Qed.
#[export] Instance env_key_le_total : Total env_key_le.
Proof.
  intros [t1 i1] [t2 i2]. unfold env_key_le. simpl.
  destruct (Z.lt_trichotomy t1 t2) as [|[->|]]; [tauto| |tauto].
  destruct (total String.le i1 i2); tauto.
Qed.

(** [(server_timestamp > ?) OR (server_timestamp = ? AND envelope_id > ?)]. *)
Definition after_cursor (last_ts : Timestamp) (last_eid : EnvelopeId) (e : EnvelopeRecord) : Prop :=
  last_ts < e_server_timestamp e ∨
  (e_server_timestamp e = last_ts ∧ String.ltb last_eid (e_envelope_id e) = true).
#[export] Instance after_cursor_dec t i e : Decision (after_cursor t i e).
Proof. unfold after_cursor. apply _. Defined.

Lemma string_ltb_le i1 i2 : String.ltb i1 i2 = true <-> String.le i1 i2 ∧ i2 ≠ i1.
Proof.
  unfold String.le, String.ltb, String.leb. destruct (String.compare i1 i2) eqn:E; simpl.
  - apply String.compare_eq_iff in E as ->. naive_solver.
  - split; [|done]. intros _. split; [done|]. intros ->.
    pose proof (String.compare_antisym i1 i1) as Ha. by rewrite E in Ha.
  - naive_solver.
Qed.

Lemma after_cursor_above ts eid e :
  after_cursor ts eid e <-> above env_key env_key_le (ts, eid) e.
Proof.
  unfold after_cursor, above, env_key_le, env_key. simpl. rewrite string_ltb_le. split.
  - intros [Hlt|[-> [Hle Hne]]]; [split; [by left|intros [= ? ?]; lia]|].
    split; [by right|]. congruence.
  - intros [[Hlt|[-> Hle]] Hne]; [by left|]. right. split; [done|]. split; [done|].
    intros E. by apply Hne; rewrite E.
Qed.

(** [ORDER BY server_timestamp ASC] alone. *)
Definition env_ts_le (x y : EnvelopeRecord) : Prop := e_server_timestamp x <= e_server_timestamp y.
#[export] Instance env_ts_le_dec : RelDecision env_ts_le := λ x y, Z_le_dec _ _.

(** [target_user_id = ? AND target_device_id = ? AND delivered_at IS NULL AND acked_at IS NULL]. *)
Definition is_pending (user : UserId) (device : DeviceId) (d : DeliveryStateRecord) : Prop :=
  ds_target_user_id d = user ∧ ds_target_device_id d = device ∧
  ds_delivered_at d = None ∧ ds_acked_at d = None.
#[export] Instance is_pending_dec u d x : Decision (is_pending u d x).
Proof. unfold is_pending. apply _. Defined.

Definition is_delivery (eid : EnvelopeId) (user : UserId) (device : DeviceId)
    (d : DeliveryStateRecord) : Prop :=
  ds_envelope_id d = eid ∧ ds_target_user_id d = user ∧ ds_target_device_id d = device.
#[export] Instance is_delivery_dec e u d x : Decision (is_delivery e u d x).
Proof. unfold is_delivery. apply _. Defined.

(** [retention_until IS NOT NULL AND retention_until < ?]. *)
Definition env_expired (now : Timestamp) (e : EnvelopeRecord) : Prop :=
  match e_retention_until e with Some t => t < now | None => False end.
#[export] Instance env_expired_dec now e : Decision (env_expired now e).
Proof. unfold env_expired. destruct (e_retention_until e); apply _. Defined.

Definition set_delivered_at (now : Timestamp) (d : DeliveryStateRecord) : DeliveryStateRecord :=
  mkDeliveryStateRecord (ds_envelope_id d) (ds_target_user_id d) (ds_target_device_id d)
    (ds_queued_at d) (Some now) (ds_acked_at d).
Definition set_acked_at (now : Timestamp) (d : DeliveryStateRecord) : DeliveryStateRecord :=
  mkDeliveryStateRecord (ds_envelope_id d) (ds_target_user_id d) (ds_target_device_id d)
    (ds_queued_at d) (ds_delivered_at d) (Some now).

Definition EnvelopePage := Page EnvelopeRecord.

Module EnvelopeRepository.
Section EnvelopeRepository.
Context `{SqlEngine}.

Definition StoreEnvelope (envelope : EnvelopeRecord) : M Database unit :=
  exec (λ e, if is_constraint e then mkError kDuplicate "Envelope already exists" else internal_error e)
    (insert_encrypted_envelopes envelope).

Definition AddDeliveryState (envelope_id : EnvelopeId) (target_user_id : UserId)
    (target_device_id : DeviceId) (now : Timestamp) : M Database unit :=
  exec internal_error
    (insert_delivery_state
       (mkDeliveryStateRecord envelope_id target_user_id target_device_id now None None)).

(** [FROM encrypted_envelopes e JOIN delivery_state d ON e.envelope_id = d.envelope_id
    WHERE ..] for the deliveries pending for a device. *)
Definition pending_rows (user_id : UserId) (device_id : DeviceId) (db : Database)
    : list EnvelopeRecord :=
  d ← filter (is_pending user_id device_id) (delivery_state db);
  filter (λ e, e_envelope_id e = ds_envelope_id d) (encrypted_envelopes db).

Definition GetPendingForDevice (user_id : UserId) (device_id : DeviceId) (limit : Z) (db : Database)
    : list EnvelopeRecord :=
  sql_limit (to_int64 limit)
    (sql_order_by env_ts_le (scan TEncryptedEnvelopes (pending_rows user_id device_id db))).

(** The part both cursored listings share: the rows selected with [LIMIT limit + 1]
    become a page and the cursor of its last row. *)
Definition make_page (limit : Z) (rows : list EnvelopeRecord) : EnvelopePage :=
  let has_more := limit <? Z.of_nat (length rows) in
  let envelopes := if has_more then removelast rows else rows in
  mkPage envelopes
    (match last envelopes with
     | Some e => MakeEnvCursor (e_server_timestamp e) (e_envelope_id e)
     | None => ""
     end) has_more.

(** The rows of a cursored query, before they are cut into a page. *)
Definition select_after (cursor : string) (limit : Z) (rows : list EnvelopeRecord) : EnvelopePage :=
  if cursor =s? "" then
    make_page limit
      (sql_limit (to_int64 (u64_add limit 1))
         (sql_order_by (key_le env_key env_key_le) (scan TEncryptedEnvelopes rows)))
  else
    match ParseEnvCursor cursor with
    | None => mkPage [] "" false
    | Some (last_ts, last_eid) =>
        make_page limit
          (sql_limit (to_int64 (u64_add limit 1))
             (sql_order_by (key_le env_key env_key_le)
                (scan TEncryptedEnvelopes (filter (after_cursor last_ts last_eid) rows))))
    end.

Definition GetPendingForDeviceCursored (user_id : UserId) (device_id : DeviceId) (cursor : string)
    (limit : Z) (db : Database) : EnvelopePage :=
  select_after cursor limit (pending_rows user_id device_id db).

Definition ListForConversation (conversation_id : ConversationId) (since_exclusive : Timestamp)
    (limit : Z) (db : Database) : list EnvelopeRecord :=
  sql_limit (to_int64 limit)
    (sql_order_by env_ts_le
       (scan TEncryptedEnvelopes
          (filter (λ e, e_conversation_id e = conversation_id ∧ since_exclusive < e_server_timestamp e)
             (encrypted_envelopes db)))).

Definition ListForConversationCursored (conversation_id : ConversationId) (cursor : string)
    (limit : Z) (db : Database) : EnvelopePage :=
  select_after cursor limit
    (filter (λ e, e_conversation_id e = conversation_id) (encrypted_envelopes db)).

(** [UPDATE delivery_state SET f WHERE ..], [kNotFound] when no row changed. *)
Definition update_delivery (eid : EnvelopeId) (user_id : UserId) (device_id : DeviceId)
    (f : DeliveryStateRecord -> DeliveryStateRecord) : M Database unit :=
  let! rows := gets (λ db, sql_count (is_delivery eid user_id device_id) (delivery_state db)) in
  modify (λ db, set_delivery_state (sql_update (is_delivery eid user_id device_id) f (delivery_state db)) db) ;;!
  if Nat.eqb rows 0 then throw kNotFound "Delivery state not found" else mok tt.

Definition MarkDelivered (eid : EnvelopeId) (user_id : UserId) (device_id : DeviceId)
    (now : Timestamp) : M Database unit :=
  update_delivery eid user_id device_id (set_delivered_at now).

Definition MarkAcked (eid : EnvelopeId) (user_id : UserId) (device_id : DeviceId)
    (now : Timestamp) : M Database unit :=
  update_delivery eid user_id device_id (set_acked_at now).

(** [envelope_id IN (SELECT envelope_id FROM encrypted_envelopes WHERE ..)]. *)
Definition in_conversation (conv : ConversationId) (db : Database) (d : DeliveryStateRecord) : Prop :=
  ds_envelope_id d ∈ e_envelope_id <$> filter (λ e, e_conversation_id e = conv) (encrypted_envelopes db).
#[export] Instance in_conversation_dec c db d : Decision (in_conversation c db d).
Proof. unfold in_conversation. apply _. Defined.

Definition DeletePendingDeliveryForUserInConversation (conversation_id : ConversationId)
    (user_id : UserId) : M Database unit :=
  modify (λ db, set_delivery_state
    (sql_delete (λ d, ds_target_user_id d = user_id ∧ in_conversation conversation_id db d)
       (delivery_state db)) db).

(** Both [DELETE]s run in one transaction; the number of deleted envelopes is returned. *)
Definition DeleteExpired (now : Timestamp) : M Database nat :=
  transaction (
    modify (λ db, set_delivery_state
      (sql_delete (λ d, ds_envelope_id d ∈ e_envelope_id <$> filter (env_expired now) (encrypted_envelopes db))
         (delivery_state db)) db) ;;!
    let! deleted := gets (λ db, sql_count (env_expired now) (encrypted_envelopes db)) in
    exec internal_error (λ db, fk_checked
      (set_encrypted_envelopes (sql_delete (env_expired now) (encrypted_envelopes db)) db)) ;;!
    mok deleted).

Definition CheckDuplicate (envelope_id : EnvelopeId) (db : Database) : bool :=
  sql_exists (λ e, e_envelope_id e = envelope_id) (encrypted_envelopes db).

Definition FindById (envelope_id : EnvelopeId) (db : Database) : option EnvelopeRecord :=
  first_row TEncryptedEnvelopes (filter (λ e, e_envelope_id e = envelope_id) (encrypted_envelopes db)).

Definition CountPendingForDevice (user_id : UserId) (device_id : DeviceId) (db : Database) : nat :=
  sql_count (is_pending user_id device_id) (delivery_state db).

(** ** Integrity *)

Lemma StoreEnvelope_wf envelope : preserves db_wf (StoreEnvelope envelope).
Proof. apply preserves_exec. eauto with vox. Qed.

Lemma AddDeliveryState_wf e u d now : preserves db_wf (AddDeliveryState e u d now).
Proof. apply preserves_exec. eauto with vox. Qed.

Lemma update_delivery_wf e u d f :
  (∀ x, delivery_key (f x) = delivery_key x) -> preserves db_wf (update_delivery e u d f).
Proof.
  intros Hf. unfold update_delivery. preserve_step. apply preserves_modify. intros db Hwf.
  assert (Hf1 : ∀ x, ds_envelope_id (f x) = ds_envelope_id x) by (intros x; specialize (Hf x); unfold delivery_key in Hf; congruence).
  assert (Hf2 : ∀ x, delivery_target (f x) = delivery_target x)
    by (intros x; specialize (Hf x); unfold delivery_key, delivery_target in *; congruence).
  destruct Hwf as [[] [] ?]. split; [split|split|]; simpl in *; rewrite ?fmap_sql_update by done; done.
Qed.

Lemma MarkDelivered_wf e u d now : preserves db_wf (MarkDelivered e u d now).
Proof. by apply update_delivery_wf. Qed.
Lemma MarkAcked_wf e u d now : preserves db_wf (MarkAcked e u d now).
Proof. by apply update_delivery_wf. Qed.

Lemma DeletePending_wf c u : preserves db_wf (DeletePendingDeliveryForUserInConversation c u).
Proof. apply preserves_modify. intros db Hwf. db_wf_solve. Qed.

(** ** Pagination *)

(** A page of [rows]. *)
Lemma make_page_spec limit rows :
  page_size limit ->
  let p := make_page limit (sql_limit (to_int64 (u64_add limit 1)) rows) in
  ∃ n, (0 < n)%nat ∧ pg_items p = take n rows ∧ pg_has_more p = bool_decide (n < length rows)%nat ∧
  ((n < length rows)%nat -> ∃ l1 e, rows = l1 ++ e :: drop n rows ∧
     pg_next_cursor p = MakeEnvCursor (e_server_timestamp e) (e_envelope_id e)).
Proof.
  intros Hl. unfold make_page. cbn [pg_items pg_next_cursor pg_has_more].
  destruct (cut_page limit rows Hl) as (n & Hn & Hk & Hm & Hlast). cbv zeta in *. exists n.
  split; [done|]. split; [exact Hk|]. split; [exact Hm|]. intros Hlt.
  destruct (Hlast Hlt) as (l1 & e & E & El). exists l1, e. by rewrite El.
Qed.

Section walk.
Context (rows : list EnvelopeRecord) (limit : Z).
Context (Hkeys : NoDup (env_key <$> rows)) (Hlimit : page_size limit).
Context (Htyped : Forall (λ e, in_int64 (e_server_timestamp e) ∧ e_envelope_id e ≠ "") rows).

(** The rows in listing order. *)
Definition listing : list EnvelopeRecord := sql_order_by (key_le env_key env_key_le) rows.

(** The rest of the listing a cursor stands for. *)
Definition env_denotes (c : string) (rest : list EnvelopeRecord) : Prop :=
  (c = "" ∧ rest = listing) ∨
  ∃ l1 e, listing = l1 ++ e :: rest ∧ c = MakeEnvCursor (e_server_timestamp e) (e_envelope_id e).

Lemma select_after_spec c rest :
  env_denotes c rest ->
  select_after c limit rows = make_page limit (sql_limit (to_int64 (u64_add limit 1)) rest).
Proof.
  pose proof (scan_perm TEncryptedEnvelopes rows : _ ≡ₚ rows) as Hscan.
  assert (Hall : sql_order_by (key_le env_key env_key_le) (scan TEncryptedEnvelopes rows) = listing).
  { rewrite (order_by_filter env_key env_key_le (λ _, True) rows);
      [by rewrite filter_all|done|by rewrite filter_all]. }
  intros [[-> ->]|(l1 & e & El & ->)]; unfold select_after.
  - simpl (_ =s? _). cbv iota. by rewrite Hall.
  - assert (He : e ∈ rows).
    { rewrite <- (order_by_perm env_key env_key_le rows). fold listing. rewrite El.
      apply elem_of_app. right. left. }
    rewrite Forall_forall in Htyped. destruct (Htyped e He) as [Hts Hid].
    pose proof (ParseEnvCursor_Make _ _ Hts Hid) as Hp.
    destruct (String.eqb_spec (MakeEnvCursor (e_server_timestamp e) (e_envelope_id e)) "") as [E|_].
    { rewrite E in Hp. simpl in Hp. injection Hp as _ Hbad. by rewrite <- Hbad in Hid. }
    rewrite Hp.
    rewrite (order_by_filter env_key env_key_le (after_cursor (e_server_timestamp e) (e_envelope_id e)) rows);
      [|done|apply (scan_perm TEncryptedEnvelopes)].
    fold listing. rewrite (list_filter_iff _ (above env_key env_key_le (env_key e)))
      by (intros x; apply after_cursor_above).
    assert (Hnd : NoDup (env_key <$> listing)).
    { unfold listing. by rewrite (order_by_perm env_key env_key_le rows). }
    pose proof (order_by_sorted env_key env_key_le rows) as Hs. fold listing in Hs.
    rewrite El in Hnd, Hs |- *. by rewrite (filter_above env_key env_key_le l1 e rest Hnd Hs).
Qed.

Lemma env_walk fuel :
  (length rows < fuel)%nat -> walk fuel (λ c, select_after c limit rows) "" = listing.
Proof.
  intros Hfuel.
  apply (walk_rest _ env_denotes); [|by left|].
  - intros c rest Hc. rewrite (select_after_spec c rest Hc).
    destruct (make_page_spec limit rest Hlimit) as (n & Hpos & Hi & Hm & Hn). exists n.
    split; [done|]. split; [done|]. split; [done|].
    intros Hlt. destruct (Hn Hlt) as (l1 & e & Er & Ec). right.
    destruct Hc as [[_ ->]|(l0 & e0 & El & _)].
    + by exists l1, e.
    + exists (l0 ++ e0 :: l1), e. split; [|done]. rewrite El, <- app_assoc. simpl. by rewrite <- Er.
  - unfold listing. rewrite (order_by_perm _ _ _ : _ ≡ₚ _). lia.
Qed.
End walk.

(** The columns hold 64-bit timestamps and non-empty ids. *)
Definition env_typed (db : Database) : Prop :=
  Forall (λ e, in_int64 (e_server_timestamp e) ∧ e_envelope_id e ≠ "") (encrypted_envelopes db).

Lemma env_typed_rows db rows :
  env_typed db -> (∀ e, e ∈ rows -> e ∈ encrypted_envelopes db) ->
  Forall (λ e, in_int64 (e_server_timestamp e) ∧ e_envelope_id e ≠ "") rows.
Proof.
  unfold env_typed. rewrite !Forall_forall. auto.
Qed.

Lemma NoDup_env_key (l : list EnvelopeRecord) : NoDup (e_envelope_id <$> l) -> NoDup (env_key <$> l).
Proof.
  intros Hn. apply (NoDup_fmap_1 snd). rewrite <- list_fmap_compose. exact Hn.
Qed.

Lemma elem_of_pending_rows u d db e :
  e ∈ pending_rows u d db <->
  e ∈ encrypted_envelopes db ∧ ∃ x, x ∈ delivery_state db ∧ is_pending u d x ∧ ds_envelope_id x = e_envelope_id e.
Proof.
  unfold pending_rows. rewrite (elem_of_join ds_envelope_id e_envelope_id), list_elem_of_fmap.
  split.
  - intros [He (x & E & Hx)]. apply list_elem_of_filter in Hx as [Hp Hx]. split; [done|]. by exists x.
  - intros [He (x & Hx & Hp & E)]. split; [done|]. exists x. by rewrite list_elem_of_filter.
Qed.

Lemma NoDup_pending_rows u d db : db_wf db -> NoDup (e_envelope_id <$> pending_rows u d db).
Proof.
  intros [[] _ _]. apply (NoDup_join ds_envelope_id e_envelope_id); [|done].
  apply (NoDup_fmap_filter _ (is_pending u d)) in pk_delivery.
  assert (Hall : Forall (is_pending u d) (filter (is_pending u d) (delivery_state db))).
  { apply Forall_forall. intros x Hx. by apply list_elem_of_filter in Hx as [? _]. }
  induction Hall as [|x l Hx Hl IH]; [constructor|].
  rewrite fmap_cons, NoDup_cons in pk_delivery. destruct pk_delivery as [Hnin Hnd].
  rewrite fmap_cons, NoDup_cons. split; [|by apply IH].
  intros (y & Ey & Hy)%list_elem_of_fmap. apply Hnin, list_elem_of_fmap. exists y. split; [|done].
  rewrite Forall_forall in Hl. specialize (Hl y Hy). unfold is_pending, delivery_key in *.
  unfold delivery_target in *. destruct_and!. congruence.
Qed.

Lemma length_pending_rows u d db :
  db_wf db -> (length (pending_rows u d db) <= length (delivery_state db))%nat.
Proof.
  intros Hwf. pose proof (NoDup_pending_rows u d db Hwf) as Hnd.
  rewrite <- (length_fmap e_envelope_id), <- (length_fmap ds_envelope_id (delivery_state db)).
  apply submseteq_length, NoDup_submseteq; [done|].
  intros i (e & -> & He)%list_elem_of_fmap. apply elem_of_pending_rows in He as (_ & x & Hx & _ & <-).
  by apply list_elem_of_fmap_2.
Qed.

(** A client that reads a conversation page by page, each request passing on the
    cursor of the previous page, receives every stored envelope of the
    conversation exactly once, in the order of (server timestamp, envelope id),
    whatever page size it asks for (but zero and the largest one) and whatever order the engine visits
    rows in; the walk ends after at most one page per envelope. *)
Theorem history_pages_enumerate conv limit db :
  db_wf db -> env_typed db -> page_size limit ->
  let rows := walk (S (length (encrypted_envelopes db)))
                (λ c, ListForConversationCursored conv c limit db) "" in
  rows ≡ₚ filter (λ e, e_conversation_id e = conv) (encrypted_envelopes db) ∧
  StronglySorted (key_le env_key env_key_le) rows.
Proof.
  intros Hwf Hty Hl. cbv zeta. unfold ListForConversationCursored.
  set (rs := filter (λ e, e_conversation_id e = conv) (encrypted_envelopes db)).
  assert (Hnd : NoDup (env_key <$> rs)).
  { apply NoDup_env_key. destruct Hwf as [[] _ _]. by apply NoDup_fmap_filter. }
  assert (Htr : Forall (λ e, in_int64 (e_server_timestamp e) ∧ e_envelope_id e ≠ "") rs)
    by (eapply env_typed_rows; [done|]; intros e He; by apply list_elem_of_filter in He as [_ ?]).
  rewrite env_walk; [|done..|].
  - split; [apply order_by_perm|apply order_by_sorted; apply _].
  - pose proof (length_filter (λ e, e_conversation_id e = conv) (encrypted_envelopes db)). subst rs. lia.
Qed.

(** The pending envelopes of a device, read page by page, are exactly the
    stored envelopes with an undelivered, unacknowledged delivery row for that
    device, each once, in the order of (server timestamp, envelope id). *)
Theorem pending_pages_enumerate user device limit db :
  db_wf db -> env_typed db -> page_size limit ->
  let rows := walk (S (length (delivery_state db)))
                (λ c, GetPendingForDeviceCursored user device c limit db) "" in
  NoDup rows ∧ StronglySorted (key_le env_key env_key_le) rows ∧
  ∀ e, e ∈ rows <-> e ∈ encrypted_envelopes db ∧
    ∃ x, x ∈ delivery_state db ∧ is_pending user device x ∧ ds_envelope_id x = e_envelope_id e.
Proof.
  intros Hwf Hty Hl. cbv zeta. unfold GetPendingForDeviceCursored.
  pose proof (NoDup_pending_rows user device db Hwf) as Hids.
  assert (Htr : Forall (λ e, in_int64 (e_server_timestamp e) ∧ e_envelope_id e ≠ "")
                  (pending_rows user device db)).
  { eapply env_typed_rows; [done|]. intros e He. by apply elem_of_pending_rows in He as [He _]. }
  rewrite env_walk; [|by apply NoDup_env_key|done|done|].
  - unfold listing. split; [|split; [apply order_by_sorted; apply _|]].
    + rewrite (order_by_perm _ _ _ : _ ≡ₚ _). by eapply NoDup_of_fmap.
    + intros e. rewrite (order_by_perm _ _ _ : _ ≡ₚ _). by apply elem_of_pending_rows.
  - pose proof (length_pending_rows user device db Hwf). lia.
Qed.

(** ** Retention *)

(** The store without the envelopes expired at [now]. *)
Definition without_expired (now : Timestamp) (db : Database) : Database :=
  set_encrypted_envelopes (sql_delete (env_expired now) (encrypted_envelopes db))
    (set_delivery_state
       (sql_delete (λ d, ds_envelope_id d ∈ e_envelope_id <$> filter (env_expired now) (encrypted_envelopes db))
          (delivery_state db)) db).

Lemma without_expired_wf now db : db_wf db -> db_wf (without_expired now db).
Proof.
  intros Hwf. db_wf_solve.
  intros x (d & -> & Hd)%list_elem_of_fmap. apply elem_of_sql_delete in Hd as [Hd Hno].
  assert (Hin : ds_envelope_id d ∈ e_envelope_id <$> encrypted_envelopes db)
    by (apply fk_delivery_envelope; by apply list_elem_of_fmap_2).
  apply list_elem_of_fmap in Hin as (e & Ee & He). apply list_elem_of_fmap. exists e. split; [done|].
  apply elem_of_sql_delete. split; [done|]. intros Hex. apply Hno. rewrite Ee.
  apply list_elem_of_fmap_2, list_elem_of_filter. done.
Qed.

Lemma DeleteExpired_run now db :
  db_wf db ->
  DeleteExpired now db = (Ok (sql_count (env_expired now) (encrypted_envelopes db)), without_expired now db).
Proof.
  intros Hwf. pose proof (wf_fk _ (without_expired_wf now db Hwf)) as Hfk.
  unfold DeleteExpired, transaction, bind, modify, gets, exec, fk_checked, mok. simpl.
  fold (without_expired now db). by rewrite decide_True.
Qed.

Lemma DeleteExpired_wf now : preserves db_wf (DeleteExpired now).
Proof. intros db Hwf. rewrite DeleteExpired_run by done. by apply without_expired_wf. Qed.

(** C27: The retention sweep never fails on a well-formed store: it removes exactly
    the envelopes whose retention ended before [now] together with their delivery
    rows, keeps every other envelope and delivery row, reports the number of
    envelopes removed, and leaves no dangling reference. *)
Theorem DeleteExpired_exact now db :
  db_wf db ->
  ∃ db', DeleteExpired now db = (Ok (length (filter (env_expired now) (encrypted_envelopes db))), db') ∧
    db_wf db' ∧
    (∀ e, e ∈ encrypted_envelopes db' <-> e ∈ encrypted_envelopes db ∧ ¬ env_expired now e) ∧
    (∀ d, d ∈ delivery_state db' <-> d ∈ delivery_state db ∧
       ∃ e, e ∈ encrypted_envelopes db' ∧ e_envelope_id e = ds_envelope_id d).
Proof.
  intros Hwf. exists (without_expired now db). rewrite DeleteExpired_run by done.
  pose proof (without_expired_wf now db Hwf) as Hwf'. split; [done|]. split; [done|]. split.
  { intros e. apply elem_of_sql_delete. }
  intros d. split.
  - intros Hd. assert (Hd' := Hd). simpl in Hd'. apply elem_of_sql_delete in Hd' as [Hd' _].
    split; [done|]. destruct Hwf' as [_ [] _].
    assert (Hin : ds_envelope_id d ∈ e_envelope_id <$> encrypted_envelopes (without_expired now db))
      by (apply fk_delivery_envelope; by apply list_elem_of_fmap_2).
    apply list_elem_of_fmap in Hin as (e & Ee & He). by exists e.
  - intros (Hd & e & He & Ee). simpl in *. apply elem_of_sql_delete in He as [He Hne].
    apply elem_of_sql_delete. split; [done|]. intros (e' & E' & He')%list_elem_of_fmap.
    apply list_elem_of_filter in He' as [Hex He']. destruct Hwf as [[] _ _].
    assert (e' = e) as -> by (apply (NoDup_fmap_inj_on e_envelope_id (encrypted_envelopes db)); congruence).
    done.
Qed.
End EnvelopeRepository.

Section witnesses.
#[local] Existing Instance rowid_engine.

Definition sample_envelope (id : string) (ts : Z) (retention : option Z) : EnvelopeRecord :=
  mkEnvelopeRecord id "g1" "u1" "d1" "ct" ts 0 retention None.

(** A group with three envelopes, two of them pending for the second device. *)
Definition sample_mail_db : Database :=
  set_delivery_state
    [mkDeliveryStateRecord "e2" "u2" "d2" 2000 None None; mkDeliveryStateRecord "e1" "u2" "d2" 2000 None None]
    (set_encrypted_envelopes
       [sample_envelope "e2" 2000 (Some 3000); sample_envelope "e1" 2000 None; sample_envelope "e0" 1500 None]
       (set_conversation_members [mkMemberRecord "g1" "u1" kOwner 1000 None; mkMemberRecord "g1" "u2" kMember 1000 None]
          ConversationRepository.sample_group_db)).

Lemma sample_mail_db_wf : db_wf sample_mail_db.
Proof. apply db_wf_eval. vm_compute. reflexivity. Qed.

Lemma sample_mail_db_typed : env_typed sample_mail_db.
Proof. repeat constructor; unfold in_int64; simpl; lia || done. Qed.

Lemma history_pages_enumerate_witness :
  walk 4 (λ c, ListForConversationCursored "g1" c 1 sample_mail_db) "" ≡ₚ
  encrypted_envelopes sample_mail_db.
Proof.
  apply (history_pages_enumerate "g1" 1 sample_mail_db);
    [apply sample_mail_db_wf|apply sample_mail_db_typed|done].
Defined.

Lemma pending_pages_enumerate_witness :
  NoDup (walk 3 (λ c, GetPendingForDeviceCursored "u2" "d2" c 1 sample_mail_db) "").
Proof.
  apply (pending_pages_enumerate "u2" "d2" 1 sample_mail_db);
    [apply sample_mail_db_wf|apply sample_mail_db_typed|done].
Defined.

(** With the two other page sizes a page is empty: with the largest one the page says that
    nothing is left, with zero that something is, from the start on. *)
Example largest_page_empty :
  ListForConversationCursored "g1" "" (2 ^ 64 - 1) sample_mail_db = mkPage [] "" false.
Proof. vm_compute. reflexivity. Qed.

Example zero_page_never_ends :
  ListForConversationCursored "g1" "" 0 sample_mail_db = mkPage [] "" true.
Proof. vm_compute. reflexivity. Qed.

Lemma DeleteExpired_exact_witness :
  ∃ db', DeleteExpired 3001 sample_mail_db = (Ok 1%nat, db') ∧ db_wf db'.
Proof.
  destruct (DeleteExpired_exact 3001 sample_mail_db sample_mail_db_wf) as (db' & E & Hwf & _).
  exists db'. split; [exact E|exact Hwf].
Defined.
End witnesses.
End EnvelopeRepository.
