(* ===== verification/Mailbox.v ===== *)
(** * The contract of IEnvelopeRepository (lib/vox_store/envelope_repository.hpp)

    The interface the relay service and the delivery manager use, as a class of
    operations on any store, and its contract as a second class: the store shows a
    [Mailbox], two finite maps, and every operation does to what the store shows what a
    short function does to the maps.  [EnvelopeRepository] on the tables of the database is
    an instance; sequences of calls are compared with the maps for any instance. *)

From S2P Require Import Prelude Types Sql Database Samples Hex Paging Envelopes.

(** ** A table as a finite map *)

Section as_map.
Context {R K : Type} `{Countable K} (key : R -> K).
Implicit Types l : list R.

Definition as_map l : gmap K R := list_to_map ((λ r, (key r, r)) <$> l).

Lemma as_map_keys l : ((λ r, (key r, r)) <$> l).*1 = key <$> l.
Proof. by rewrite <- list_fmap_compose. Qed.

Lemma lookup_as_map l k r : NoDup (key <$> l) -> as_map l !! k = Some r <-> r ∈ l ∧ key r = k.
Proof.
  intros Hnd. unfold as_map. rewrite <- elem_of_list_to_map by (by rewrite as_map_keys).
  rewrite list_elem_of_fmap. split.
  - intros (r' & [= -> ->] & Hr). done.
  - intros [Hr <-]. by exists r.
Qed.

Lemma as_map_eq l (m : gmap K R) :
  NoDup (key <$> l) -> (∀ k r, m !! k = Some r <-> r ∈ l ∧ key r = k) -> as_map l = m.
Proof. intros Hnd Hm. apply map_eq. intros k. apply option_eq. intros r. by rewrite lookup_as_map, Hm. Qed.

Lemma lookup_as_map_is_Some l k : NoDup (key <$> l) -> is_Some (as_map l !! k) <-> k ∈ key <$> l.
Proof.
  intros Hnd. rewrite list_elem_of_fmap. split.
  - intros [r Hr]. apply lookup_as_map in Hr as [Hr <-]; [|done]. by exists r.
  - intros (r & -> & Hr). exists r. by apply lookup_as_map.
Qed.

Lemma as_map_insert l r :
  NoDup (key <$> l) -> key r ∉ key <$> l -> as_map (sql_insert r l) = <[key r := r]> (as_map l).
Proof.
  intros Hnd Hno. assert (Hnd' : NoDup (key <$> sql_insert r l)).
  { apply NoDup_fmap_sql_insert; [done|]. intros x Hx E. apply Hno. rewrite <- E. by apply list_elem_of_fmap_2. }
  apply as_map_eq; [done|]. intros k x. rewrite lookup_insert_Some, lookup_as_map, elem_of_sql_insert by done. split.
  - intros [[<- <-]|(Hne & Hx & Ek)]; [by split; [right|]|by split; [left|]].
  - intros [[Hx| ->] Ek]; [|by left]. right. split; [|done]. intros E. apply Hno. rewrite E, <- Ek. by apply list_elem_of_fmap_2.
Qed.

Lemma as_map_delete l (P : R -> Prop) `{!∀ r, Decision (P r)} :
  NoDup (key <$> l) -> as_map (sql_delete P l) = filter (λ kr, ¬ P kr.2) (as_map l).
Proof.
  intros Hnd. apply as_map_eq; [by apply NoDup_fmap_sql_delete|]. intros k r.
  rewrite map_lookup_filter_Some, lookup_as_map, elem_of_sql_delete by done. simpl. tauto.
Qed.

Lemma as_map_update l (P : R -> Prop) `{!∀ r, Decision (P r)} f :
  (∀ r, key (f r) = key r) -> NoDup (key <$> l) ->
  as_map (sql_update P f l) = (λ r, if decide (P r) then f r else r) <$> as_map l.
Proof.
  intros Hf Hnd. apply as_map_eq; [by rewrite fmap_sql_update|]. intros k r.
  rewrite lookup_fmap_Some. unfold sql_update. rewrite list_elem_of_fmap. split.
  - intros (x & <- & [Hx Ek]%lookup_as_map); [|done]. split; [by exists x|]. case_decide; by rewrite ?Hf.
  - intros [(x & -> & Hx) Ek]. exists x. split; [done|]. apply lookup_as_map; [done|]. split; [done|].
    revert Ek. case_decide; by rewrite ?Hf.
Qed.

(** The rows of a selection, counted and listed. *)
Lemma as_map_filter l (P : R -> Prop) `{!∀ r, Decision (P r)} :
  NoDup (key <$> l) -> (map_to_list (filter (λ kr : K * R, P kr.2) (as_map l))).*2 ≡ₚ filter P l.
Proof.
  intros Hnd. apply NoDup_Permutation.
  - apply (NoDup_of_fmap key). rewrite <- list_fmap_compose.
    erewrite list_fmap_ext; [apply NoDup_fst_map_to_list|].
    intros i [k r] Hkr%list_elem_of_lookup_2%elem_of_map_to_list%map_lookup_filter_Some. simpl. destruct Hkr as [Hkr _]. by apply lookup_as_map in Hkr as [_ ?].
  - apply (NoDup_of_fmap key). by apply NoDup_fmap_filter.
  - intros r. rewrite list_elem_of_fmap, list_elem_of_filter. split.
    + intros ([k r'] & -> & Hkr%elem_of_map_to_list%map_lookup_filter_Some). simpl in *.
      destruct Hkr as [Hkr HP]. by apply lookup_as_map in Hkr as [? _].
    + intros [HP Hr]. exists (key r, r). split; [done|]. apply elem_of_map_to_list, map_lookup_filter_Some.
      split; [by apply lookup_as_map|done].
Qed.

Lemma as_map_count l (P : R -> Prop) `{!∀ r, Decision (P r)} :
  NoDup (key <$> l) -> sql_count P l = size (filter (λ kr : K * R, P kr.2) (as_map l)).
Proof.
  intros Hnd. unfold sql_count. rewrite <- (as_map_filter l P Hnd), length_fmap. by rewrite length_map_to_list.
Qed.
End as_map.

(** ** What a store of envelopes shows *)

Record Mailbox := mkMailbox {
  mb_envelopes : gmap EnvelopeId EnvelopeRecord;
  mb_deliveries : gmap (EnvelopeId * (UserId * DeviceId)) DeliveryStateRecord }.

(** What it knows of the other tables. *)
Record Knowledge := mkKnowledge {
  kn_conversation : ConversationId -> bool;
  kn_device : UserId * DeviceId -> bool }.

(** A result with the code of its error. *)
Definition outcome {A} (r : Result A) : ErrorCode + A :=
  match r with Ok a => inr a | Err e => inl (code e) end.

Section spec.
Implicit Types (k : Knowledge) (mb : Mailbox).

Definition spec_StoreEnvelope (e : EnvelopeRecord) k mb : (ErrorCode + unit) * Mailbox :=
  if bool_decide (is_Some (mb_envelopes mb !! e_envelope_id e)) ||
     negb (kn_conversation k (e_conversation_id e) && kn_device k (envelope_sender e))
  then (inl kDuplicate, mb)
  else (inr tt, mkMailbox (<[e_envelope_id e := e]> (mb_envelopes mb)) (mb_deliveries mb)).

Definition spec_AddDeliveryState (eid : EnvelopeId) (u : UserId) (d : DeviceId) (now : Timestamp) k mb
    : (ErrorCode + unit) * Mailbox :=
  if bool_decide (is_Some (mb_deliveries mb !! (eid, (u, d)))) ||
     negb (bool_decide (is_Some (mb_envelopes mb !! eid)) && kn_device k (u, d))
  then (inl kInternal, mb)
  else (inr tt, mkMailbox (mb_envelopes mb)
          (<[(eid, (u, d)) := mkDeliveryStateRecord eid u d now None None]> (mb_deliveries mb))).

Definition spec_mark (f : DeliveryStateRecord -> DeliveryStateRecord) (eid : EnvelopeId) (u : UserId) (d : DeviceId)
    k mb : (ErrorCode + unit) * Mailbox :=
  match mb_deliveries mb !! (eid, (u, d)) with
  | None => (inl kNotFound, mb)
  | Some r => (inr tt, mkMailbox (mb_envelopes mb) (<[(eid, (u, d)) := f r]> (mb_deliveries mb)))
  end.

(** The envelope [eid] is there and satisfies [P]. *)
Definition envelope_is (P : EnvelopeRecord -> Prop) mb (eid : EnvelopeId) : Prop :=
  match mb_envelopes mb !! eid with Some e => P e | None => False end.
#[export] Instance envelope_is_dec P `{!∀ e, Decision (P e)} mb eid : Decision (envelope_is P mb eid).
Proof. unfold envelope_is. destruct (mb_envelopes mb !! eid); apply _. Defined.

Definition spec_DeleteExpired (now : Timestamp) k mb : (ErrorCode + nat) * Mailbox :=
  (inr (size (filter (λ ke : EnvelopeId * EnvelopeRecord, env_expired now ke.2) (mb_envelopes mb))),
   mkMailbox (filter (λ ke, ¬ env_expired now ke.2) (mb_envelopes mb))
     (filter (λ kr, ¬ envelope_is (env_expired now) mb (ds_envelope_id kr.2)) (mb_deliveries mb))).

Definition spec_DeletePending (conv : ConversationId) (u : UserId) k mb : (ErrorCode + unit) * Mailbox :=
  (inr tt, mkMailbox (mb_envelopes mb)
     (filter (λ kr, ¬ (ds_target_user_id kr.2 = u ∧
                       envelope_is (λ e, e_conversation_id e = conv) mb (ds_envelope_id kr.2))) (mb_deliveries mb))).

(** A page of the rows above the cursor. *)
Definition spec_page (cursor : string) (limit : Z) (rows : list EnvelopeRecord) : EnvelopePage :=
  let sorted := sql_order_by (key_le env_key env_key_le) rows in
  let page l := EnvelopeRepository.make_page limit (sql_limit (to_int64 (u64_add limit 1)) l) in
  if cursor =s? "" then page sorted else
  match ParseEnvCursor cursor with
  | None => mkPage [] "" false
  | Some (ts, eid) => page (filter (after_cursor ts eid) sorted)
  end.

Definition envelopes_where (P : EnvelopeRecord -> Prop) `{!∀ e, Decision (P e)} mb : list EnvelopeRecord :=
  (map_to_list (filter (λ ke : EnvelopeId * EnvelopeRecord, P ke.2) (mb_envelopes mb))).*2.

(** The envelope waits for the device. *)
Definition waits (u : UserId) (d : DeviceId) mb (e : EnvelopeRecord) : Prop :=
  match mb_deliveries mb !! (e_envelope_id e, (u, d)) with Some r => is_pending u d r | None => False end.
#[export] Instance waits_dec u d mb e : Decision (waits u d mb e).
Proof. unfold waits. destruct (mb_deliveries mb !! _); apply _. Defined.
End spec.

(** ** The interface and its contract *)

Class IEnvelopeRepository (S : Type) := {
  StoreEnvelope : EnvelopeRecord -> M S unit;
  AddDeliveryState : EnvelopeId -> UserId -> DeviceId -> Timestamp -> M S unit;
  GetPendingForDevice : UserId -> DeviceId -> Z -> S -> list EnvelopeRecord;
  GetPendingForDeviceCursored : UserId -> DeviceId -> string -> Z -> S -> EnvelopePage;
  ListForConversation : ConversationId -> Timestamp -> Z -> S -> list EnvelopeRecord;
  ListForConversationCursored : ConversationId -> string -> Z -> S -> EnvelopePage;
  MarkDelivered : EnvelopeId -> UserId -> DeviceId -> Timestamp -> M S unit;
  MarkAcked : EnvelopeId -> UserId -> DeviceId -> Timestamp -> M S unit;
  DeleteExpired : Timestamp -> M S nat;
  DeletePendingDeliveryForUserInConversation : ConversationId -> UserId -> M S unit;
  CheckDuplicate : EnvelopeId -> S -> bool;
  FindById : EnvelopeId -> S -> option EnvelopeRecord;
  CountPendingForDevice : UserId -> DeviceId -> S -> nat }.

(** The call [c] does to the store what [f] does to what the store shows. *)
Definition realizes {S A} (valid : S -> Prop) (shows : S -> Mailbox) (knows : S -> Knowledge) (c : M S A)
    (f : Knowledge -> Mailbox -> (ErrorCode + A) * Mailbox) : Prop :=
  ∀ s, valid s -> valid (c s).2 ∧ knows (c s).2 = knows s ∧ (outcome (c s).1, shows (c s).2) = f (knows s) (shows s).

(** [l] lists the envelopes with [P], the oldest first, at most [limit] of them. *)
Definition lists_oldest (P : EnvelopeRecord -> Prop) `{!∀ e, Decision (P e)} (limit : Z) (mb : Mailbox)
    (l : list EnvelopeRecord) : Prop :=
  ∃ rows, rows ≡ₚ envelopes_where P mb ∧ StronglySorted env_ts_le rows ∧ l = sql_limit (to_int64 limit) rows.

Class EnvelopeContract (S : Type) `{IEnvelopeRepository S} := {
  valid : S -> Prop;
  shows : S -> Mailbox;
  knows : S -> Knowledge;
  store_law e : realizes valid shows knows (StoreEnvelope e) (spec_StoreEnvelope e);
  add_law eid u d now : realizes valid shows knows (AddDeliveryState eid u d now) (spec_AddDeliveryState eid u d now);
  delivered_law eid u d now : realizes valid shows knows (MarkDelivered eid u d now) (spec_mark (set_delivered_at now) eid u d);
  acked_law eid u d now : realizes valid shows knows (MarkAcked eid u d now) (spec_mark (set_acked_at now) eid u d);
  expire_law now : realizes valid shows knows (DeleteExpired now) (spec_DeleteExpired now);
  leave_law conv u : realizes valid shows knows (DeletePendingDeliveryForUserInConversation conv u) (spec_DeletePending conv u);
  duplicate_law eid s : valid s -> CheckDuplicate eid s = bool_decide (is_Some (mb_envelopes (shows s) !! eid));
  find_law eid s : valid s -> FindById eid s = mb_envelopes (shows s) !! eid;
  count_law u d s : valid s -> CountPendingForDevice u d s =
    size (filter (λ kr : EnvelopeId * (UserId * DeviceId) * DeliveryStateRecord, is_pending u d kr.2) (mb_deliveries (shows s)));
  pending_law u d limit s : valid s ->
    lists_oldest (waits u d (shows s)) limit (shows s) (GetPendingForDevice u d limit s);
  history_law conv since limit s : valid s ->
    lists_oldest (λ e, e_conversation_id e = conv ∧ since < e_server_timestamp e) limit (shows s)
      (ListForConversation conv since limit s);
  pending_page_law u d cursor limit s : valid s ->
    GetPendingForDeviceCursored u d cursor limit s = spec_page cursor limit (envelopes_where (waits u d (shows s)) (shows s));
  history_page_law conv cursor limit s : valid s ->
    ListForConversationCursored conv cursor limit s =
    spec_page cursor limit (envelopes_where (λ e, e_conversation_id e = conv) (shows s)) }.

(** ** Sequences of calls *)

Inductive store_call :=
  | CStore (e : EnvelopeRecord)
  | CAdd (eid : EnvelopeId) (u : UserId) (d : DeviceId) (now : Timestamp)
  | CDelivered (eid : EnvelopeId) (u : UserId) (d : DeviceId) (now : Timestamp)
  | CAcked (eid : EnvelopeId) (u : UserId) (d : DeviceId) (now : Timestamp)
  | CExpire (now : Timestamp)
  | CLeave (conv : ConversationId) (u : UserId)
  | CDuplicate (eid : EnvelopeId)
  | CFind (eid : EnvelopeId)
  | CCount (u : UserId) (d : DeviceId)
  | CPending (u : UserId) (d : DeviceId) (limit : Z)
  | CPendingPage (u : UserId) (d : DeviceId) (cursor : string) (limit : Z)
  | CHistory (conv : ConversationId) (since : Timestamp) (limit : Z)
  | CHistoryPage (conv : ConversationId) (cursor : string) (limit : Z).

Inductive store_answer :=
  | ADone (r : ErrorCode + unit)
  | ADeleted (r : ErrorCode + nat)
  | ABool (b : bool)
  | AFound (e : option EnvelopeRecord)
  | ACount (n : nat)
  | AList (l : list EnvelopeRecord)
  | APage (p : EnvelopePage).

(** The answer [a] to the call [c] and the maps [mb'] after it are the ones the maps
    [mb] prescribe. *)
Definition spec_call (k : Knowledge) (mb : Mailbox) (c : store_call) (a : store_answer) (mb' : Mailbox) : Prop :=
  let writes {A} (wrap : (ErrorCode + A) -> store_answer) f := ∃ r, a = wrap r ∧ (r, mb') = f k mb in
  match c with
  | CStore e => writes ADone (spec_StoreEnvelope e)
  | CAdd eid u d now => writes ADone (spec_AddDeliveryState eid u d now)
  | CDelivered eid u d now => writes ADone (spec_mark (set_delivered_at now) eid u d)
  | CAcked eid u d now => writes ADone (spec_mark (set_acked_at now) eid u d)
  | CExpire now => writes ADeleted (spec_DeleteExpired now)
  | CLeave conv u => writes ADone (spec_DeletePending conv u)
  | CDuplicate eid => mb' = mb ∧ a = ABool (bool_decide (is_Some (mb_envelopes mb !! eid)))
  | CFind eid => mb' = mb ∧ a = AFound (mb_envelopes mb !! eid)
  | CCount u d => mb' = mb ∧
      a = ACount (size (filter (λ kr : EnvelopeId * (UserId * DeviceId) * DeliveryStateRecord, is_pending u d kr.2)
                          (mb_deliveries mb)))
  | CPending u d limit => mb' = mb ∧ ∃ l, a = AList l ∧ lists_oldest (waits u d mb) limit mb l
  | CPendingPage u d cursor limit => mb' = mb ∧ a = APage (spec_page cursor limit (envelopes_where (waits u d mb) mb))
  | CHistory conv since limit => mb' = mb ∧ ∃ l, a = AList l ∧
      lists_oldest (λ e, e_conversation_id e = conv ∧ since < e_server_timestamp e) limit mb l
  | CHistoryPage conv cursor limit => mb' = mb ∧
      a = APage (spec_page cursor limit (envelopes_where (λ e, e_conversation_id e = conv) mb))
  end.

Inductive spec_calls (k : Knowledge) : Mailbox -> list store_call -> list store_answer -> Mailbox -> Prop :=
  | spec_calls_nil mb : spec_calls k mb [] [] mb
  | spec_calls_cons mb c a mb' cs answers mb'' :
      spec_call k mb c a mb' -> spec_calls k mb' cs answers mb'' -> spec_calls k mb (c :: cs) (a :: answers) mb''.

Section calls.
Context {S : Type} `{IEnvelopeRepository S}.
Implicit Types s : S.

Definition run_call (c : store_call) s : store_answer * S :=
  let writes {A} (wrap : (ErrorCode + A) -> store_answer) (m : M S A) := (wrap (outcome (m s).1), (m s).2) in
  match c with
  | CStore e => writes ADone (StoreEnvelope e)
  | CAdd eid u d now => writes ADone (AddDeliveryState eid u d now)
  | CDelivered eid u d now => writes ADone (MarkDelivered eid u d now)
  | CAcked eid u d now => writes ADone (MarkAcked eid u d now)
  | CExpire now => writes ADeleted (DeleteExpired now)
  | CLeave conv u => writes ADone (DeletePendingDeliveryForUserInConversation conv u)
  | CDuplicate eid => (ABool (CheckDuplicate eid s), s)
  | CFind eid => (AFound (FindById eid s), s)
  | CCount u d => (ACount (CountPendingForDevice u d s), s)
  | CPending u d limit => (AList (GetPendingForDevice u d limit s), s)
  | CPendingPage u d cursor limit => (APage (GetPendingForDeviceCursored u d cursor limit s), s)
  | CHistory conv since limit => (AList (ListForConversation conv since limit s), s)
  | CHistoryPage conv cursor limit => (APage (ListForConversationCursored conv cursor limit s), s)
  end.

Fixpoint run_calls (cs : list store_call) s : list store_answer * S :=
  match cs with
  | [] => ([], s)
  | c :: cs => let r := run_call c s in let rest := run_calls cs r.2 in (r.1 :: rest.1, rest.2)
  end.

Context `{!EnvelopeContract S}.

Lemma realizes_call {A} (m : M S A) f (wrap : (ErrorCode + A) -> store_answer) s :
  realizes valid shows knows m f -> valid s ->
  valid (m s).2 ∧ knows (m s).2 = knows s ∧
  ∃ r, wrap (outcome (m s).1) = wrap r ∧ (r, shows (m s).2) = f (knows s) (shows s).
Proof. intros Hm Hv. destruct (Hm s Hv) as (? & ? & ?). eauto. Qed.

Lemma run_call_spec c s : valid s ->
  let r := run_call c s in
  valid r.2 ∧ knows r.2 = knows s ∧ spec_call (knows s) (shows s) c r.1 (shows r.2).
Proof.
  intros Hv. cbv zeta. destruct c; cbn [run_call spec_call fst snd].
  - apply realizes_call; [apply store_law|done].
  - apply realizes_call; [apply add_law|done].
  - apply realizes_call; [apply delivered_law|done].
  - apply realizes_call; [apply acked_law|done].
  - apply realizes_call; [apply expire_law|done].
  - apply realizes_call; [apply leave_law|done].
  - by rewrite duplicate_law.
  - by rewrite find_law.
  - by rewrite count_law.
  - eauto 10 using pending_law.
  - by rewrite pending_page_law.
  - eauto 10 using history_law.
  - by rewrite history_page_law.
Qed.

(** Any store that keeps the contract answers any sequence of calls as the maps do. *)
Theorem run_calls_spec cs s : valid s ->
  let r := run_calls cs s in
  valid r.2 ∧ knows r.2 = knows s ∧ spec_calls (knows s) (shows s) cs r.1 (shows r.2).
Proof.
  revert s. induction cs as [|c cs IH]; intros s Hv; cbv zeta; [by repeat constructor|]. cbn [run_calls fst snd].
  destruct (run_call_spec c s Hv) as (Hv' & Hk & Hc). destruct (IH _ Hv') as (Hv'' & Hk' & Hcs).
  split; [done|]. split; [congruence|]. econstructor; [done|]. by rewrite <- Hk.
Qed.
End calls.

(** ** The tables *)

Section tables.
Context `{SqlEngine}.

#[export] Instance EnvelopeTables : IEnvelopeRepository Database := {|
  StoreEnvelope := EnvelopeRepository.StoreEnvelope;
  AddDeliveryState := EnvelopeRepository.AddDeliveryState;
  GetPendingForDevice := EnvelopeRepository.GetPendingForDevice;
  GetPendingForDeviceCursored := EnvelopeRepository.GetPendingForDeviceCursored;
  ListForConversation := EnvelopeRepository.ListForConversation;
  ListForConversationCursored := EnvelopeRepository.ListForConversationCursored;
  MarkDelivered := EnvelopeRepository.MarkDelivered;
  MarkAcked := EnvelopeRepository.MarkAcked;
  DeleteExpired := EnvelopeRepository.DeleteExpired;
  DeletePendingDeliveryForUserInConversation := EnvelopeRepository.DeletePendingDeliveryForUserInConversation;
  CheckDuplicate := EnvelopeRepository.CheckDuplicate;
  FindById := EnvelopeRepository.FindById;
  CountPendingForDevice := EnvelopeRepository.CountPendingForDevice |}.

Definition tables_show (db : Database) : Mailbox :=
  mkMailbox (as_map e_envelope_id (encrypted_envelopes db)) (as_map delivery_key (delivery_state db)).
Definition tables_know (db : Database) : Knowledge := mkKnowledge (has_conversation db) (has_device db).

Implicit Types db : Database.

Lemma envelope_is_tables P db eid : db_wf db ->
  envelope_is P (tables_show db) eid <-> ∃ e, e ∈ encrypted_envelopes db ∧ e_envelope_id e = eid ∧ P e.
Proof.
  intros [[] _ _]. unfold envelope_is. cbn [tables_show mb_envelopes].
  destruct (as_map e_envelope_id (encrypted_envelopes db) !! eid) as [e|] eqn:E.
  - apply lookup_as_map in E as [He Ee]; [|done]. split; [by exists e|]. intros (e' & He' & Ee' & HP).
    by replace e with e' by (apply (NoDup_fmap_inj_on e_envelope_id (encrypted_envelopes db)); congruence).
  - split; [done|]. intros (e & He & Ee & _).
    assert (Hs : as_map e_envelope_id (encrypted_envelopes db) !! eid = Some e) by by apply lookup_as_map.
    congruence.
Qed.

Lemma store_tables e : realizes db_wf tables_show tables_know (EnvelopeRepository.StoreEnvelope e) (spec_StoreEnvelope e).
Proof.
  intros db Hwf. split; [by apply EnvelopeRepository.StoreEnvelope_wf|].
  unfold EnvelopeRepository.StoreEnvelope, exec, insert_encrypted_envelopes, spec_StoreEnvelope.
  cbn [tables_show tables_know mb_envelopes mb_deliveries kn_conversation kn_device].
  pose proof (pk_envelopes _ (wf_keys _ Hwf)) as Hnd.
  rewrite (bool_decide_ext _ (e_envelope_id e ∈ e_envelope_id <$> encrypted_envelopes db)) by by apply lookup_as_map_is_Some.
  destruct (sql_exists _ _) eqn:Ex.
  - apply sql_exists_true in Ex as (x & Hx & Exx). rewrite bool_decide_true by (rewrite <- Exx; by apply list_elem_of_fmap_2).
    done.
  - assert (Hno : e_envelope_id e ∉ e_envelope_id <$> encrypted_envelopes db).
    { intros (x & E & Hx)%list_elem_of_fmap. by apply (proj1 (sql_exists_false _ _) Ex x Hx). }
    rewrite bool_decide_false by done. cbn [orb]. destruct (negb _); [done|]. split; [done|]. cbn [fst snd outcome].
    unfold tables_show. cbn [encrypted_envelopes delivery_state set_encrypted_envelopes]. by rewrite as_map_insert.
Qed.

Lemma add_tables eid u d now :
  realizes db_wf tables_show tables_know (EnvelopeRepository.AddDeliveryState eid u d now) (spec_AddDeliveryState eid u d now).
Proof.
  intros db Hwf. split; [by apply EnvelopeRepository.AddDeliveryState_wf|].
  unfold EnvelopeRepository.AddDeliveryState, exec, insert_delivery_state, spec_AddDeliveryState.
  cbn [tables_show tables_know mb_envelopes mb_deliveries kn_conversation kn_device].
  set (r := mkDeliveryStateRecord eid u d now None None). change (eid, (u, d)) with (delivery_key r).
  pose proof (pk_envelopes _ (wf_keys _ Hwf)) as Hne. pose proof (pk_delivery _ (wf_keys _ Hwf)) as Hnd.
  rewrite (bool_decide_ext _ (delivery_key r ∈ delivery_key <$> delivery_state db)) by by apply lookup_as_map_is_Some.
  rewrite (bool_decide_ext (is_Some _) (eid ∈ e_envelope_id <$> encrypted_envelopes db)) by by apply lookup_as_map_is_Some.
  destruct (sql_exists _ _) eqn:Ex.
  - apply sql_exists_true in Ex as (x & Hx & Exx). by rewrite bool_decide_true by (rewrite <- Exx; by apply list_elem_of_fmap_2).
  - assert (Hno : delivery_key r ∉ delivery_key <$> delivery_state db).
    { intros (x & E & Hx)%list_elem_of_fmap. by apply (proj1 (sql_exists_false _ _) Ex x Hx). }
    rewrite bool_decide_false by done. cbn [orb]. change (has_envelope db (ds_envelope_id r))
      with (bool_decide (eid ∈ e_envelope_id <$> encrypted_envelopes db)).
    change (has_device db (delivery_target r)) with (has_device db (u, d)).
    destruct (negb _); [done|]. split; [done|]. cbn [fst snd outcome].
    unfold tables_show. cbn [encrypted_envelopes delivery_state set_delivery_state]. by rewrite as_map_insert.
Qed.

Lemma mark_tables f eid u d :
  (∀ r, delivery_key (f r) = delivery_key r) ->
  realizes db_wf tables_show tables_know (EnvelopeRepository.update_delivery eid u d f) (spec_mark f eid u d).
Proof.
  intros Hf db Hwf. split; [by apply EnvelopeRepository.update_delivery_wf|].
  unfold EnvelopeRepository.update_delivery, bind, gets, modify, throw, mok.
  split; [by destruct (Nat.eqb (sql_count (is_delivery eid u d) (delivery_state db)) 0)|].
  pose proof (pk_delivery _ (wf_keys _ Hwf)) as Hnd.
  assert (Hk : ∀ r, is_delivery eid u d r <-> delivery_key r = (eid, (u, d))).
  { intros r. unfold is_delivery, delivery_key, delivery_target. naive_solver. }
  unfold spec_mark. cbn [tables_show mb_envelopes mb_deliveries].
  destruct (as_map delivery_key (delivery_state db) !! (eid, (u, d))) as [r|] eqn:E.
  - apply lookup_as_map in E as [Hr Er]; [|done].
    rewrite (proj2 (Nat.eqb_neq _ _) (sql_count_pos _ _ r Hr (proj2 (Hk r) Er))). cbn [fst snd outcome]. f_equal.
    unfold tables_show. cbn [encrypted_envelopes delivery_state set_delivery_state]. f_equal.
    rewrite as_map_update by done. apply map_eq. intros k. rewrite lookup_fmap.
    destruct (decide (k = (eid, (u, d)))) as [->|Hne].
    + rewrite lookup_insert_eq. rewrite (proj2 (lookup_as_map delivery_key (delivery_state db) (eid, (u, d)) r Hnd)) by done. simpl.
      by rewrite decide_True by by apply Hk.
    + rewrite lookup_insert_ne by done. destruct (as_map delivery_key (delivery_state db) !! k) as [x|] eqn:Ex; [|done].
      apply lookup_as_map in Ex as [_ Ex]; [|done]. simpl. rewrite decide_False; [done|]. rewrite Hk. congruence.
  - assert (Hno : ∀ r, r ∈ delivery_state db -> ¬ is_delivery eid u d r).
    { intros r Hr Hd%Hk. assert (as_map delivery_key (delivery_state db) !! (eid, (u, d)) = Some r) by by apply lookup_as_map. congruence. }
    rewrite (proj2 (sql_count_zero _ _) Hno), (sql_update_id _ _ _ Hno). cbn. by destruct db.
Qed.

(** The rows of the subqueries on the envelopes, as conditions on the maps. *)
Lemma envelope_in_tables P `{!∀ e, Decision (P e)} db eid : db_wf db ->
  eid ∈ e_envelope_id <$> filter P (encrypted_envelopes db) <-> envelope_is P (tables_show db) eid.
Proof.
  intros Hwf. rewrite envelope_is_tables by done. rewrite list_elem_of_fmap. split.
  - intros (e & -> & [HP He]%list_elem_of_filter). by exists e.
  - intros (e & He & <- & HP). exists e. by rewrite list_elem_of_filter.
Qed.

Lemma expire_tables now : realizes db_wf tables_show tables_know (EnvelopeRepository.DeleteExpired now) (spec_DeleteExpired now).
Proof.
  intros db Hwf. split; [by apply EnvelopeRepository.DeleteExpired_wf|].
  rewrite EnvelopeRepository.DeleteExpired_run by done. split; [done|]. cbn [fst snd outcome].
  unfold spec_DeleteExpired. pose proof Hwf as [[] _ _].
  rewrite (as_map_count e_envelope_id) by done. f_equal. unfold tables_show, EnvelopeRepository.without_expired.
  cbn [encrypted_envelopes delivery_state set_encrypted_envelopes set_delivery_state mb_deliveries mb_envelopes].
  rewrite !as_map_delete by done. f_equal. apply map_filter_ext. intros i r _. by rewrite envelope_in_tables.
Qed.

Lemma leave_tables conv u :
  realizes db_wf tables_show tables_know (EnvelopeRepository.DeletePendingDeliveryForUserInConversation conv u)
    (spec_DeletePending conv u).
Proof.
  intros db Hwf. split; [by apply EnvelopeRepository.DeletePending_wf|]. split; [done|].
  unfold spec_DeletePending, EnvelopeRepository.DeletePendingDeliveryForUserInConversation, modify. cbn [fst snd outcome].
  pose proof Hwf as [[] _ _]. f_equal. unfold tables_show.
  cbn [encrypted_envelopes delivery_state set_delivery_state mb_deliveries mb_envelopes].
  rewrite as_map_delete by done. f_equal. apply map_filter_ext. intros i r _. cbn [snd].
  unfold EnvelopeRepository.in_conversation. by rewrite envelope_in_tables.
Qed.

Lemma duplicate_tables eid db : db_wf db ->
  EnvelopeRepository.CheckDuplicate eid db = bool_decide (is_Some (mb_envelopes (tables_show db) !! eid)).
Proof.
  intros [[] _ _]. unfold EnvelopeRepository.CheckDuplicate. cbn [tables_show mb_envelopes].
  rewrite (bool_decide_ext _ (eid ∈ e_envelope_id <$> encrypted_envelopes db)) by by apply lookup_as_map_is_Some.
  apply eq_bool_prop_intro. rewrite !Is_true_true, sql_exists_true, bool_decide_eq_true, list_elem_of_fmap. naive_solver.
Qed.

Lemma find_tables eid db : db_wf db -> EnvelopeRepository.FindById eid db = mb_envelopes (tables_show db) !! eid.
Proof.
  intros [[] _ _]. unfold EnvelopeRepository.FindById. cbn [tables_show mb_envelopes]. symmetry.
  destruct (first_row _ _) as [e|] eqn:E.
  - apply first_row_Some, list_elem_of_filter in E as [Ee He]. by apply lookup_as_map.
  - apply first_row_None in E. destruct (as_map _ _ !! eid) as [e|] eqn:El; [|done].
    apply lookup_as_map in El as [He Ee]; [|done].
    assert (Hf : e ∈ filter (λ e, e_envelope_id e = eid) (encrypted_envelopes db)) by by apply list_elem_of_filter.
    rewrite E in Hf. by apply not_elem_of_nil in Hf.
Qed.

(** The rows a listing selects are the envelopes of the map with the condition. *)
Lemma where_tables P `{!∀ e, Decision (P e)} db : db_wf db ->
  envelopes_where P (tables_show db) ≡ₚ filter P (encrypted_envelopes db).
Proof. intros [[] _ _]. by apply as_map_filter. Qed.

Lemma waits_tables u d db e : db_wf db ->
  waits u d (tables_show db) e <->
  ∃ x, x ∈ delivery_state db ∧ is_pending u d x ∧ ds_envelope_id x = e_envelope_id e.
Proof.
  intros [[] _ _]. unfold waits. cbn [tables_show mb_deliveries].
  assert (Hk : ∀ x, is_pending u d x -> delivery_key x = (ds_envelope_id x, (u, d))) by by intros x (<- & <- & _).
  destruct (as_map _ _ !! _) as [r|] eqn:E.
  - apply lookup_as_map in E as [Hr Er]; [|done]. split; [intros Hp; exists r; split; [done|]; split; [done|]; by injection Er|].
    intros (x & Hx & Hp & Ex). replace r with x; [done|].
    apply (NoDup_fmap_inj_on delivery_key (delivery_state db)); [done..|]. by rewrite Er, (Hk x Hp), Ex.
  - split; [done|]. intros (x & Hx & Hp & Ex).
    assert (Hs : as_map delivery_key (delivery_state db) !! (e_envelope_id e, (u, d)) = Some x)
      by (apply lookup_as_map; [done|]; split; [done|]; by rewrite (Hk x Hp), Ex).
    congruence.
Qed.

Lemma pending_tables u d db : db_wf db ->
  EnvelopeRepository.pending_rows u d db ≡ₚ envelopes_where (waits u d (tables_show db)) (tables_show db).
Proof.
  intros Hwf. rewrite where_tables by done. apply NoDup_Permutation.
  - by eapply NoDup_of_fmap, EnvelopeRepository.NoDup_pending_rows.
  - destruct Hwf as [[] _ _]. by eapply NoDup_of_fmap, NoDup_fmap_filter.
  - intros e. rewrite EnvelopeRepository.elem_of_pending_rows, list_elem_of_filter, waits_tables by done. tauto.
Qed.

(** The two shapes of a listing. *)
Lemma oldest_tables P `{!∀ e, Decision (P e)} limit mb rows :
  rows ≡ₚ envelopes_where P mb ->
  lists_oldest P limit mb (sql_limit (to_int64 limit) (sql_order_by env_ts_le (scan TEncryptedEnvelopes rows))).
Proof.
  intros Hr. eexists. split; [|split; [|done]].
  - etransitivity; [apply merge_sort_Permutation|]. etransitivity; [apply (scan_perm TEncryptedEnvelopes)|done].
  - apply StronglySorted_merge_sort; unfold env_ts_le; [intros x y z; lia|intros x y; lia].
Qed.

Lemma page_tables cursor limit rows rows' :
  NoDup (env_key <$> rows) -> rows ≡ₚ rows' ->
  EnvelopeRepository.select_after cursor limit rows = spec_page cursor limit rows'.
Proof.
  intros Hnd Hr. assert (Hnd' : NoDup (env_key <$> rows')) by by rewrite <- Hr.
  assert (Hp : ∀ (P : EnvelopeRecord -> Prop) `{!∀ e, Decision (P e)},
    sql_order_by (key_le env_key env_key_le) (scan TEncryptedEnvelopes (filter P rows)) =
    filter P (sql_order_by (key_le env_key env_key_le) rows')).
  { intros P HP. apply (order_by_filter env_key env_key_le P rows'); [done|].
    etransitivity; [apply (scan_perm TEncryptedEnvelopes)|]. by rewrite Hr. }
  unfold EnvelopeRepository.select_after, spec_page. destruct (cursor =s? "").
  - specialize (Hp (λ _, True) _). rewrite !filter_all in Hp by done. by rewrite Hp.
  - destruct (ParseEnvCursor cursor) as [[ts eid]|]; [|done]. by rewrite Hp.
Qed.

#[export, program] Instance EnvelopeTablesContract : EnvelopeContract Database := {|
  valid := db_wf; shows := tables_show; knows := tables_know;
  store_law := store_tables; add_law := add_tables; expire_law := expire_tables; leave_law := leave_tables;
  duplicate_law := duplicate_tables; find_law := find_tables |}.
Next Obligation. intros. by apply mark_tables. Qed.
Next Obligation. intros. by apply mark_tables. Qed.
Next Obligation. intros u d db [[] _ _]. by apply (as_map_count delivery_key). Qed.
Next Obligation. intros u d limit db Hwf. by apply oldest_tables, pending_tables. Qed.
Next Obligation. intros conv since limit db Hwf. apply oldest_tables. by rewrite where_tables. Qed.
Next Obligation.
  intros u d cursor limit db Hwf. apply page_tables; [|by apply pending_tables].
  by apply EnvelopeRepository.NoDup_env_key, EnvelopeRepository.NoDup_pending_rows.
Qed.
Next Obligation.
  intros conv cursor limit db Hwf. apply page_tables; [|by rewrite where_tables].
  destruct Hwf as [[] _ _]. by apply EnvelopeRepository.NoDup_env_key, NoDup_fmap_filter.
Qed.

(** C22: The envelope repository on the tables is two finite maps to its clients.  Whatever
    sequence of the thirteen calls of IEnvelopeRepository runs on a well-formed store
    (stores and deliveries that are accepted or refused, marks, leaves, sweeps, lookups,
    counts, and the four listings, with any cursor and any limit, zero and out of range
    ones included), every answer and the maps after every call are the ones the
    functions on the maps prescribe, and the order in which the engine visits rows shows
    in no answer but in the place of envelopes with the same timestamp in the listings
    that order by timestamp alone. *)
Theorem envelope_store_refines (cs : list store_call) (db : Database) :
  db_wf db ->
  let r := run_calls cs db in
  db_wf r.2 ∧ tables_know r.2 = tables_know db ∧
  spec_calls (tables_know db) (tables_show db) cs r.1 (tables_show r.2).
Proof. exact (run_calls_spec (EnvelopeContract0 := EnvelopeTablesContract) cs db). Qed.
End tables.

Section witnesses.
#[local] Existing Instance rowid_engine.

(** A store, a refused second store, a delivery, a page, an acknowledgement, a count, a
    sweep and a lookup. *)
Definition sample_calls : list store_call :=
  [CStore (EnvelopeRepository.sample_envelope "e9" 2500 (Some 2600));
   CStore (EnvelopeRepository.sample_envelope "e9" 2700 None);
   CAdd "e9" "u2" "d2" 2500; CPendingPage "u2" "d2" "2000|e1" 1; CAcked "e2" "u2" "d2" 2550;
   CCount "u2" "d2"; CExpire 4000; CFind "e9"].

Lemma envelope_store_refines_witness :
  ∃ answers mb, answers = [ADone (inr tt); ADone (inl kDuplicate); ADone (inr tt);
      APage (mkPage [EnvelopeRepository.sample_envelope "e2" 2000 (Some 3000)] "2000|e2" true);
      ADone (inr tt); ACount 2; ADeleted (inr 2%nat); AFound None] ∧
    spec_calls (tables_know EnvelopeRepository.sample_mail_db) (tables_show EnvelopeRepository.sample_mail_db)
      sample_calls answers mb.
Proof.
  destruct (envelope_store_refines sample_calls EnvelopeRepository.sample_mail_db EnvelopeRepository.sample_mail_db_wf)
    as (_ & _ & Hr). eexists _, _. split; [|exact Hr]. vm_compute. reflexivity.
Defined.
End witnesses.
