(* ===== verification/SyncState.v ===== *)
(** * SyncStateRepository (lib/vox_store/sync_state_repository.cpp)

    Per-account encrypted records with optimistic versions, and their paging by
    row id. *)

From S2P Require Import Prelude Types Sql Database Samples Hex Paging.

Record SyncRecordRow := mkSyncRecordRow {
  sr_row_id : Z;
  sr_record_id : string;
  sr_ciphertext : string;
  sr_content_hash : string;
  sr_version : Z;
  sr_deleted : bool;
  sr_server_updated_at : Timestamp }.

Record SyncPutResult := mkSyncPutResult {
  sp_record_id : string;
  sp_version : Z;
  sp_server_updated_at : Timestamp;
  sp_deleted : bool }.

Definition SyncChangesPage := Page SyncRecordRow.

(** ** Cursors *)

(** All characters are digits, at least one of them: their value. *)
Fixpoint all_digits (s : string) (acc : option Z) : option Z :=
  match s with
  | EmptyString => acc
  | String c s' =>
      match dec_value c with
      | Some d => all_digits s' (Some (10 * default 0 acc + d))
      | None => None
      end
  end.

(** [std::from_chars] into an [std::int64_t], consuming the whole text: an optional
    minus sign and digits, no white space, in range. *)
Definition from_chars_all (s : string) : option Z :=
  v ← match s with
      | String c s' => if byte_of_ascii c =? 45 then Z.opp <$> all_digits s' None
                       else all_digits s None
      | EmptyString => None
      end;
  if (- 2 ^ 63 <=? v) && (v <? 2 ^ 63) then Some v else None.

Definition ParseCursorId (cursor : string) : option Z :=
  if cursor =s? "" then Some 0 else from_chars_all cursor.

Lemma all_digits_print fuel n rest :
  0 <= n < 10 ^ Z.of_nat fuel -> (0 < fuel)%nat ->
  all_digits (print_nonneg fuel n +:+ rest) None = all_digits rest (Some n).
Proof.
  assert (Hdigit : ∀ d r acc, 0 <= d < 10 ->
    all_digits (dec_digit d +:+ r) acc = all_digits r (Some (10 * default 0 acc + d))).
  { intros d r acc Hd. change (dec_digit d +:+ r) with (String (ascii_of_byte (48 + d)) r).
    cbn [all_digits]. by rewrite dec_value_digit. }
  revert n rest. induction fuel as [|fuel IH]; intros n rest Hn Hf; [lia|]. cbn [print_nonneg].
  destruct (Z.ltb_spec n 10) as [Hlt|Hge]; [by rewrite Hdigit by lia|].
  rewrite Nat2Z.inj_succ, Z.pow_succ_r in Hn by lia.
  rewrite string_app_assoc, IH.
  - pose proof (Z.mod_pos_bound n 10 ltac:(lia)). pose proof (Z.div_mod n 10 ltac:(lia)).
    rewrite Hdigit by lia. do 2 f_equal. unfold default. simpl. lia.
  - split; [apply Z.div_pos|apply Z.div_lt_upper_bound]; lia.
  - destruct fuel; [|lia]. simpl in Hn. lia.
Qed.

(** [std::to_string] of a row id reads back. *)
Lemma ParseCursorId_print n : 0 <= n < 2 ^ 63 -> ParseCursorId (print_int64 n) = Some n.
Proof.
  intros Hn. assert (H20 : 2 ^ 63 < 10 ^ Z.of_nat 20) by done.
  assert (Hne : print_int64 n ≠ "") by (apply print_int64_nonempty; unfold in_int64; lia).
  unfold ParseCursorId. destruct (String.eqb_spec (print_int64 n) "") as [E0|_]; [exfalso; exact (Hne E0)|].
  unfold print_int64. rewrite (proj2 (Z.ltb_ge n 0)) by lia.
  pose proof (all_digits_print 20 n "" ltac:(lia) ltac:(lia)) as E. rewrite string_app_nil in E.
  destruct (print_nonneg_head 20 n) as (d & s & Ep & Hd); [lia..|]. rewrite Ep in *.
  assert (Hb : byte_of_ascii (ascii_of_byte (48 + d)) = 48 + d)
    by (apply byte_of_ascii_of_byte; unfold is_byte; lia).
  assert (Hr : (- 2 ^ 63 <=? n) && (n <? 2 ^ 63) = true).
  { apply andb_true_iff. split; [apply Z.leb_le|apply Z.ltb_lt]; lia. }
  unfold from_chars_all. rewrite Hb.
  rewrite (proj2 (Z.eqb_neq (48 + d) 45)) by lia. rewrite E. cbn -[Z.pow]. by rewrite Hr.
Qed.

Definition kInitialRecordVersion : Z := 1.

Definition is_sync_record (user : UserId) (collection record_id : string) (y : SyncRow) : Prop :=
  y_user_id y = user ∧ y_collection y = collection ∧ y_record_id y = record_id.
#[export] Instance is_sync_record_dec u c r y : Decision (is_sync_record u c r y).
Proof. unfold is_sync_record. apply _. Defined.

Definition set_sync_content (ciphertext content_hash : string) (version : Z) (deleted : bool)
    (now : Timestamp) (y : SyncRow) : SyncRow :=
  mkSyncRow (y_id y) (y_user_id y) (y_collection y) (y_record_id y) ciphertext content_hash version
    deleted now.

Module SyncStateRepository.
Section SyncStateRepository.
Context `{SqlEngine}.

Definition to_record_row (y : SyncRow) : SyncRecordRow :=
  mkSyncRecordRow (y_id y) (y_record_id y) (y_ciphertext y) (y_content_hash y) (y_version y)
    (y_deleted y) (y_server_updated_at y).

Definition ListChangesAfterCursor (user_id : UserId) (collection cursor : string) (limit : Z)
    (db : Database) : SyncChangesPage :=
  match ParseCursorId cursor with
  | None => mkPage [] "" false
  | Some after_id =>
      let rows := sql_limit (to_int64 (u64_add limit 1))
        (sql_order_by (key_le y_id Z.le)
           (scan TSyncRecords
              (filter (λ y, y_user_id y = user_id ∧ y_collection y = collection ∧ after_id < y_id y)
                 (sync_records db)))) in
      let has_more := limit <? Z.of_nat (length rows) in
      let changes := if has_more then removelast rows else rows in
      mkPage (to_record_row <$> changes)
        (match last changes with
         | Some y => print_int64 (y_id y)
         | None => if cursor =s? "" then "" else cursor
         end) has_more
  end.

Definition UpsertRecord (user_id : UserId) (collection record_id ciphertext content_hash : string)
    (base_version : Z) (server_now : Timestamp) : M Database SyncPutResult :=
  transaction (
    let! found := gets (λ db, first_row TSyncRecords
                    (filter (is_sync_record user_id collection record_id) (sync_records db))) in
    match found with
    | Some y =>
        let current := y_version y in
        if negb (current =? base_version)
        then throw kDuplicate "Version conflict for sync record"
        else
          let new_ver := i32_add current 1 in
          modify (λ db, set_sync_records
            (sql_update (is_sync_record user_id collection record_id)
               (set_sync_content ciphertext content_hash new_ver false server_now) (sync_records db)) db) ;;!
          mok (mkSyncPutResult record_id new_ver server_now false)
    | None =>
        if negb (base_version =? 0) then throw kDuplicate "Version conflict for sync record"
        else
          exec internal_error (insert_sync_records (λ id,
            mkSyncRow id user_id collection record_id ciphertext content_hash kInitialRecordVersion
              false server_now)) ;;!
          mok (mkSyncPutResult record_id 1 server_now false)
    end).

Definition TombstoneRecord (user_id : UserId) (collection record_id : string) (base_version : Z)
    (server_now : Timestamp) : M Database SyncPutResult :=
  transaction (
    let! found := gets (λ db, first_row TSyncRecords
                    (filter (is_sync_record user_id collection record_id) (sync_records db))) in
    match found with
    | None => throw kNotFound "Sync record not found"
    | Some y =>
        let current := y_version y in
        if negb (current =? base_version)
        then throw kDuplicate "Version conflict for sync record"
        else
          let new_ver := i32_add current 1 in
          modify (λ db, set_sync_records
            (sql_update (is_sync_record user_id collection record_id)
               (set_sync_content "" "" new_ver true server_now) (sync_records db)) db) ;;!
          mok (mkSyncPutResult record_id new_ver server_now true)
    end).

(** ** Integrity *)

Lemma insert_sync_records_wf mk db db' :
  (∀ id, y_id (mk id) = id) -> db_wf db -> insert_sync_records mk db = inr db' -> db_wf db'.
Proof.
  intros Hid Hwf Hi. unfold insert_sync_records in Hi. cbv zeta in Hi.
  destruct (Z.leb _ _); [done|]. destruct (sql_exists _ _) eqn:Ex; [done|]. destruct (negb _) eqn:Eu; [done|]. injection Hi as <-.
  apply negb_false_iff, has_user_true in Eu.
  destruct Hwf as [[] [] Hseq]. rewrite Forall_forall in Hseq.
  split; [split|split|]; simpl; auto with vox.
  - apply NoDup_fmap_sql_insert; [done|]. intros y Hy. rewrite Hid. specialize (Hseq y Hy). lia.
  - apply NoDup_fmap_sql_insert; [done|]. intros y Hy. by apply (proj1 (sql_exists_false _ _) Ex).
  - apply Forall_forall. intros y [Hy| ->]%elem_of_sql_insert; [specialize (Hseq y Hy); lia|].
    rewrite Hid. lia.
Qed.

Lemma set_sync_content_wf u c r ct h v d now db :
  db_wf db -> db_wf (set_sync_records (sql_update (is_sync_record u c r)
                                        (set_sync_content ct h v d now) (sync_records db)) db).
Proof.
  intros [[] [] Hseq]. split; [split|split|]; simpl; rewrite ?fmap_sql_update by done; auto.
  rewrite Forall_forall in *. intros y (x & Hx & ->)%elem_of_sql_update.
  specialize (Hseq x Hx). by case_decide.
Qed.

Lemma UpsertRecord_wf u c r ct h b now : preserves db_wf (UpsertRecord u c r ct h b now).
Proof.
  apply preserves_transaction. preserve_step.
  - apply preserves_modify. intros db. apply set_sync_content_wf.
  - apply preserves_exec. intros db db'. by apply insert_sync_records_wf.
Qed.

Lemma TombstoneRecord_wf u c r b now : preserves db_wf (TombstoneRecord u c r b now).
Proof.
  apply preserves_transaction. preserve_step.
  apply preserves_modify. intros db. apply set_sync_content_wf.
Qed.

(** ** Optimistic versions *)

(** The version a client must present to change a record: 0 when there is none. *)
Definition current_version (key : UserId * (string * string)) (db : Database) : Z :=
  match filter (λ y, sync_key y = key) (sync_records db) with
  | y :: _ => y_version y
  | [] => 0
  end.

Lemma find_sync_record u c r db :
  db_wf db ->
  match first_row TSyncRecords (filter (is_sync_record u c r) (sync_records db)) with
  | Some y => y ∈ sync_records db ∧ sync_key y = (u, (c, r)) ∧
              current_version (u, (c, r)) db = y_version y
  | None => (∀ y, y ∈ sync_records db -> sync_key y ≠ (u, (c, r))) ∧ current_version (u, (c, r)) db = 0
  end.
Proof.
  intros [[] _ _]. assert (Hiff : ∀ y, is_sync_record u c r y <-> sync_key y = (u, (c, r)))
    by (intros y; unfold is_sync_record, sync_key; naive_solver).
  unfold current_version.
  rewrite (list_filter_iff (is_sync_record u c r) (λ y, sync_key y = (u, (c, r)))) by done.
  destruct (filter (λ y, sync_key y = (u, (c, r))) (sync_records db)) as [|y l] eqn:E.
  - rewrite (proj2 (first_row_None TSyncRecords []) eq_refl). split; [|done].
    by apply (filter_nil_iff _ _).
  - assert (Hy : y ∈ filter (λ y, sync_key y = (u, (c, r))) (sync_records db)) by (rewrite E; left).
    apply list_elem_of_filter in Hy as [Hk Hy].
    assert (E1 := E). rewrite (filter_key_singleton sync_key _ _ y) in E1 by (done || congruence).
    injection E1 as <-. by rewrite (first_row_singleton TSyncRecords).
Qed.

(** The version after the content of one record is replaced. *)
Lemma current_version_update u c r ct h v d now db key :
  db_wf db -> (∃ y, y ∈ sync_records db ∧ sync_key y = (u, (c, r))) ->
  current_version key (set_sync_records (sql_update (is_sync_record u c r)
                         (set_sync_content ct h v d now) (sync_records db)) db) =
  if decide (key = (u, (c, r))) then v else current_version key db.
Proof.
  intros Hwf (y & Hy & Hk). unfold current_version. simpl. destruct (decide (key = (u, (c, r)))) as [->|Hne].
  - rewrite <- Hk. set (y' := set_sync_content ct h v d now y).
    rewrite (filter_key_singleton sync_key _ _ y'); [done| | |done|by intros z ->].
    + destruct Hwf as [[] _ _]. by rewrite fmap_sql_update.
    + apply elem_of_sql_update. exists y. split; [done|]. rewrite decide_True; [done|].
      unfold is_sync_record, sync_key in *. naive_solver.
  - rewrite (filter_sql_update_other sync_key _ _ _ _ (u, (c, r))); [done| |done|done].
    unfold is_sync_record, sync_key. by intros z (-> & -> & ->).
Qed.

(** Writes of any accounts to any records. *)
Inductive sync_op :=
  | SUpsert (u : UserId) (c r ct h : string) (base : Z) (now : Timestamp)
  | STombstone (u : UserId) (c r : string) (base : Z) (now : Timestamp).

(** An accepted write: the record, the version it was based on, the new version. *)
Definition run_sync_op (op : sync_op) (db : Database)
    : option ((UserId * (string * string)) * (Z * Z)) * Database :=
  match op with
  | SUpsert u c r ct h base now =>
      match UpsertRecord u c r ct h base now db with
      | (Ok res, db') => (Some ((u, (c, r)), (base, sp_version res)), db')
      | (Err _, db') => (None, db')
      end
  | STombstone u c r base now =>
      match TombstoneRecord u c r base now db with
      | (Ok res, db') => (Some ((u, (c, r)), (base, sp_version res)), db')
      | (Err _, db') => (None, db')
      end
  end.

Fixpoint run_sync_ops (ops : list sync_op) (db : Database)
    : list ((UserId * (string * string)) * (Z * Z)) * Database :=
  match ops with
  | [] => ([], db)
  | op :: ops' =>
      let '(w, db1) := run_sync_op op db in
      let '(ws, db2) := run_sync_ops ops' db1 in
      (option_list w ++ ws, db2)
  end.

(** What one operation does to the version of every record. *)
Definition advances (w : option ((UserId * (string * string)) * (Z * Z))) (db db' : Database) : Prop :=
  db_wf db' ∧
  match w with
  | Some (k, (base, new)) => base = current_version k db ∧ new = i32_add base 1 ∧
      ∀ key, current_version key db' = if decide (key = k) then new else current_version key db
  | None => ∀ key, current_version key db' = current_version key db
  end.

Lemma UpsertRecord_advances u c r ct h base now db w db' :
  db_wf db -> run_sync_op (SUpsert u c r ct h base now) db = (w, db') -> advances w db db'.
Proof.
  intros Hwf Hrun. pose proof (UpsertRecord_wf u c r ct h base now db Hwf) as Hwf'.
  simpl in Hrun. unfold advances. pose proof (find_sync_record u c r db Hwf) as Hf.
  unfold UpsertRecord, transaction, bind, gets in Hrun, Hwf'.
  destruct (first_row TSyncRecords _) as [y|] eqn:Ey.
  - destruct Hf as (Hy & Hk & Hv). destruct (Z.eqb_spec (y_version y) base) as [E|E]; simpl in *;
      injection Hrun as <- <-; [|done].
    split; [done|]. split; [congruence|]. split; [congruence|].
    intros key. rewrite current_version_update by (done || by exists y). done.
  - destruct Hf as [Hno Hv]. destruct (Z.eqb_spec base 0) as [->|E]; simpl in *;
      [|by injection Hrun as <- <-].
    unfold exec, insert_sync_records in *. destruct (Z.leb _ _); [by injection Hrun as <- <-|]. simpl in *.
    destruct (sql_exists _ _) eqn:Ex; [by injection Hrun as <- <-|].
    destruct (negb _); [by injection Hrun as <- <-|]. simpl in *. injection Hrun as <- <-.
    split; [done|]. split; [done|]. split; [done|]. intros key. unfold current_version. simpl.
    destruct (decide (key = (u, (c, r)))) as [->|Hne].
    + unfold sql_insert. rewrite filter_app.
      rewrite (proj2 (filter_nil_iff _ _)) by exact Hno. rewrite filter_cons, decide_True by done. done.
    + by rewrite (filter_sql_insert_other sync_key).
Qed.

Lemma TombstoneRecord_advances u c r base now db w db' :
  db_wf db -> run_sync_op (STombstone u c r base now) db = (w, db') -> advances w db db'.
Proof.
  intros Hwf Hrun. pose proof (TombstoneRecord_wf u c r base now db Hwf) as Hwf'.
  simpl in Hrun. unfold advances. pose proof (find_sync_record u c r db Hwf) as Hf.
  unfold TombstoneRecord, transaction, bind, gets in Hrun, Hwf'.
  destruct (first_row TSyncRecords _) as [y|] eqn:Ey; [|by injection Hrun as <- <-].
  destruct Hf as (Hy & Hk & Hv). destruct (Z.eqb_spec (y_version y) base) as [E|E]; simpl in *;
    injection Hrun as <- <-; [|done].
  split; [done|]. split; [congruence|]. split; [congruence|].
  intros key. rewrite current_version_update by (done || by exists y). done.
Qed.

(** Accepted writes of one record, each based on the version the previous produced. *)
Fixpoint version_chain (v : Z) (ws : list (Z * Z)) : Prop :=
  match ws with
  | [] => True
  | (base, new) :: ws' => base = v ∧ new = i32_add v 1 ∧ version_chain new ws'
  end.

(** C25: Writes to a record are serialised by its version: whatever clients write, in
    whatever interleaving, the accepted writes of each record form one chain in
    which every write was based on the version the previous one produced.  Two
    clients that start from the same version cannot both succeed. *)
Theorem sync_writes_chain ops db key :
  db_wf db ->
  version_chain (current_version key db)
    ((λ w, w.2) <$> filter (λ w, w.1 = key) (run_sync_ops ops db).1).
Proof.
  revert db. induction ops as [|op ops IH]; intros db Hwf; simpl; [done|].
  destruct (run_sync_op op db) as [w db1] eqn:E1.
  assert (Ha : advances w db db1).
  { destruct op; [by eapply UpsertRecord_advances|by eapply TombstoneRecord_advances]. }
  destruct Ha as [Hwf1 Ha]. specialize (IH db1 Hwf1).
  destruct (run_sync_ops ops db1) as [ws db2]. simpl in *.
  destruct w as [[k [base new]]|]; simpl; [|by rewrite Ha in IH].
  destruct Ha as (Hb & Hn & Hcur). rewrite filter_cons. simpl. rewrite Hcur in IH.
  destruct (decide (k = key)) as [->|Hne].
  - rewrite decide_True in IH by done. simpl. split; [done|]. split; [congruence|done].
  - by rewrite decide_False in IH by congruence.
Qed.

(** ** Paging *)

(** The records of a collection, and their listing order. *)
Definition collection_rows (u : UserId) (c : string) (db : Database) : list SyncRow :=
  filter (λ y, y_user_id y = u ∧ y_collection y = c) (sync_records db).
Definition collection_listing (u : UserId) (c : string) (db : Database) : list SyncRow :=
  sql_order_by (key_le y_id Z.le) (collection_rows u c db).

(** The ids [AUTOINCREMENT] assigns. *)
Definition sync_typed (db : Database) : Prop := Forall (λ y, 0 < y_id y < 2 ^ 63) (sync_records db).

(** The rows after an id, in listing order. *)
Lemma select_sync_after u c after_id db :
  db_wf db ->
  sql_order_by (key_le y_id Z.le)
    (scan TSyncRecords (filter (λ y, y_user_id y = u ∧ y_collection y = c ∧ after_id < y_id y)
                          (sync_records db))) =
  filter (λ y, after_id < y_id y) (collection_listing u c db).
Proof.
  intros [[] _ _]. apply (order_by_filter y_id Z.le); [apply _..| |].
  - by apply NoDup_fmap_filter.
  - rewrite (scan_perm TSyncRecords _ : _ ≡ₚ _). unfold collection_rows. rewrite list_filter_filter.
    erewrite list_filter_iff; [reflexivity|]. naive_solver.
Qed.

Lemma NoDup_collection_listing u c db : db_wf db -> NoDup (y_id <$> collection_listing u c db).
Proof.
  intros [[] _ _]. unfold collection_listing. rewrite (order_by_perm y_id Z.le _ : _ ≡ₚ _).
  by apply NoDup_fmap_filter.
Qed.

Definition sync_denotes (u : UserId) (c : string) (db : Database) (cursor : string)
    (rest : list SyncRecordRow) : Prop :=
  ∃ rows, rest = to_record_row <$> rows ∧
    ((cursor = "" ∧ rows = collection_listing u c db) ∨
     ∃ l1 y, collection_listing u c db = l1 ++ y :: rows ∧ cursor = print_int64 (y_id y)).

Lemma sync_page_spec u c limit db cursor rest :
  db_wf db -> sync_typed db -> page_size limit -> sync_denotes u c db cursor rest ->
  let p := ListChangesAfterCursor u c cursor limit db in
  ∃ n, (0 < n)%nat ∧ pg_items p = take n rest ∧ pg_has_more p = bool_decide (n < length rest)%nat ∧
  ((n < length rest)%nat -> sync_denotes u c db (pg_next_cursor p) (drop n rest)).
Proof.
  intros Hwf Hty Hl (rows & -> & Hc). cbv zeta.
  assert (Hsel : ∃ after_id, ParseCursorId cursor = Some after_id ∧
    filter (λ y, after_id < y_id y) (collection_listing u c db) = rows).
  { assert (Hin : ∀ y, y ∈ collection_listing u c db -> 0 < y_id y < 2 ^ 63).
    { intros y Hy. unfold collection_listing in Hy. rewrite (order_by_perm y_id Z.le _ : _ ≡ₚ _) in Hy.
      apply list_elem_of_filter in Hy as [_ Hy]. unfold sync_typed in Hty.
      rewrite Forall_forall in Hty. by apply Hty. }
    destruct Hc as [[-> ->]|(l1 & y & E & ->)].
    - exists 0. split; [done|]. apply filter_all. intros y Hy. by apply Hin.
    - assert (Hy : y ∈ collection_listing u c db) by (rewrite E; apply elem_of_app; right; left).
      exists (y_id y). split; [apply ParseCursorId_print; specialize (Hin y Hy); lia|].
      pose proof (NoDup_collection_listing u c db Hwf) as Hnd.
      pose proof (order_by_sorted y_id Z.le (collection_rows u c db)) as Hs.
      fold (collection_listing u c db) in Hs. rewrite E in *.
      rewrite <- (filter_above y_id Z.le l1 y rows Hnd Hs) at 2.
      apply list_filter_iff. intros x. unfold above. lia. }
  destruct Hsel as (after_id & Hp & Hrows). unfold ListChangesAfterCursor. rewrite Hp. cbv zeta.
  rewrite select_sync_after, Hrows by done.
  destruct (cut_page limit rows Hl) as (n & Hpos & Hk & Hm & Hlast). cbv zeta in *. exists n.
  cbn [pg_items pg_next_cursor pg_has_more]. rewrite Hk, length_fmap, <- fmap_take.
  split; [done|]. split; [done|]. split; [exact Hm|]. intros Hn. destruct (Hlast Hn) as (l2 & y & E & Ey).
  rewrite Hk in Ey. rewrite Ey. exists (drop n rows). rewrite fmap_drop. split; [done|]. right.
  destruct Hc as [[_ ->]|(l1 & y0 & E0 & _)].
  - by exists l2, y.
  - exists (l1 ++ y0 :: l2), y. split; [|done]. rewrite E0, <- app_assoc. simpl. by rewrite <- E.
Qed.

(** Reading a collection page by page from the empty cursor returns every record
    of the account's collection exactly once, tombstones included, in the order
    the records were first created, for every page size but zero and the largest one. *)
Theorem sync_pages_enumerate u c limit db :
  db_wf db -> sync_typed db -> page_size limit ->
  walk (S (length (sync_records db))) (λ cur, ListChangesAfterCursor u c cur limit db) "" =
    to_record_row <$> collection_listing u c db ∧
  collection_listing u c db ≡ₚ filter (λ y, y_user_id y = u ∧ y_collection y = c) (sync_records db) ∧
  StronglySorted (key_le y_id Z.le) (collection_listing u c db).
Proof.
  intros Hwf Hty Hl. split; [|split; [apply order_by_perm|apply order_by_sorted; apply _]].
  apply (walk_rest _ (sync_denotes u c db)); [| |].
  - intros cur rest Hd. by apply sync_page_spec.
  - exists (collection_listing u c db). split; [done|]. by left.
  - rewrite length_fmap. unfold collection_listing. rewrite (order_by_perm y_id Z.le _ : _ ≡ₚ _).
    pose proof (length_filter (λ y, y_user_id y = u ∧ y_collection y = c) (sync_records db)).
    unfold collection_rows. lia.
Qed.

(** A client that has read past a record's row never sees later changes of that
    record: updating or tombstoning an existing record keeps its row id, so every
    page after a cursor at or beyond that id is the same before and after. *)
Theorem sync_update_invisible u c r y ct h v d now cursor after_id limit db :
  db_wf db -> y ∈ sync_records db -> is_sync_record u c r y ->
  ParseCursorId cursor = Some after_id -> y_id y <= after_id ->
  ListChangesAfterCursor u c cursor limit
    (set_sync_records (sql_update (is_sync_record u c r) (set_sync_content ct h v d now) (sync_records db)) db)
  = ListChangesAfterCursor u c cursor limit db.
Proof.
  intros Hwf Hy Hr Hp Hle. unfold ListChangesAfterCursor. rewrite Hp. cbv zeta. simpl sync_records.
  assert (Ef : filter (λ x, y_user_id x = u ∧ y_collection x = c ∧ after_id < y_id x)
      (sql_update (is_sync_record u c r) (set_sync_content ct h v d now) (sync_records db)) =
    filter (λ x, y_user_id x = u ∧ y_collection x = c ∧ after_id < y_id x) (sync_records db));
    [|by rewrite Ef].
  assert (Hid : ∀ x, x ∈ sync_records db -> is_sync_record u c r x -> y_id x <= after_id).
  { intros x Hx (Hxu & Hxc & Hxr). destruct Hr as (Hyu & Hyc & Hyr). destruct Hwf as [[] _ _].
    rewrite (NoDup_fmap_inj_on sync_key _ x y uq_sync); [done..|]. unfold sync_key. congruence. }
  clear Hwf Hy Hr. unfold sql_update. induction (sync_records db) as [|x l IH]; [done|].
  rewrite fmap_cons, !filter_cons, IH by (intros z Hz; apply Hid; by right).
  destruct (decide (is_sync_record u c r x)) as [Hx|Hx]; [|done].
  assert (y_id x <= after_id) by (apply Hid; [left|done]). rewrite !decide_False by (simpl; lia). done.
Qed.
End SyncStateRepository.

Section witnesses.
#[local] Existing Instance rowid_engine.

Definition sample_sync_db : Database :=
  set_sync [mkSyncRow 1 "u1" "contacts" "r1" "ct" "h" 1 false 1000;
            mkSyncRow 2 "u1" "contacts" "r2" "ct" "h" 3 true 1000] 2 sample_db.

Lemma sample_sync_db_wf : db_wf sample_sync_db.
Proof. apply db_wf_eval. vm_compute. reflexivity. Qed.

Lemma sync_writes_chain_witness :
  version_chain 1 ((λ w, w.2) <$> filter (λ w, w.1 = ("u1", ("contacts", "r1")))
    (run_sync_ops [SUpsert "u1" "contacts" "r1" "x" "h" 1 1001; SUpsert "u1" "contacts" "r1" "y" "h" 1 1002;
                   STombstone "u1" "contacts" "r1" 2 1003] sample_sync_db).1).
Proof. apply (sync_writes_chain _ sample_sync_db ("u1", ("contacts", "r1"))), sample_sync_db_wf. Defined.

Lemma sync_pages_enumerate_witness :
  walk 3 (λ cur, ListChangesAfterCursor "u1" "contacts" cur 1 sample_sync_db) "" =
  to_record_row <$> collection_listing "u1" "contacts" sample_sync_db.
Proof.
  apply (sync_pages_enumerate "u1" "contacts" 1 sample_sync_db);
    [apply sample_sync_db_wf|repeat constructor; simpl; lia|done].
Defined.

Lemma sync_update_invisible_witness :
  ListChangesAfterCursor "u1" "contacts" "2" 10
    (set_sync_records (sql_update (is_sync_record "u1" "contacts" "r1")
       (set_sync_content "new" "h" 2 false 1001) (sync_records sample_sync_db)) sample_sync_db) =
  ListChangesAfterCursor "u1" "contacts" "2" 10 sample_sync_db.
Proof.
  apply (sync_update_invisible "u1" "contacts" "r1" (mkSyncRow 1 "u1" "contacts" "r1" "ct" "h" 1 false 1000)
           _ _ _ _ _ _ 2); [apply sample_sync_db_wf|left|done|reflexivity|simpl; lia].
Defined.
End witnesses.
End SyncStateRepository.
