(* ===== verification/Attachments.v ===== *)
(** * Attachments (lib/vox_store/attachment_repository.cpp,
      lib/vox_attachments/attachment_service.cpp)

    The metadata table and the upload protocol over it: quota and membership
    checks, chunked writes into a blob file, finalisation, download and expiry.
    The blob directory is a finite map from paths to contents; what the operating
    system may refuse is the class [Disk]. *)

From S2P Require Import Prelude Types Sql Database Samples Hex Uuid Conversations.
Import ConversationRepository.

(** ** The repository *)

Definition att_expired (now : Timestamp) (a : AttachmentRow) : Prop :=
  match a_retention_until a with Some t => t < now | None => False end.
#[export] Instance att_expired_dec now a : Decision (att_expired now a).
Proof. unfold att_expired. destruct (a_retention_until a); apply _. Defined.

(** The [INSERT] stores no hash and [upload_complete = 0]. *)
Definition new_attachment_row (a : AttachmentRow) : AttachmentRow :=
  mkAttachmentRow (a_attachment_id a) (a_user_id a) (a_conversation_id a) (a_file_size a)
    (a_mime_hint a) None (a_blob_path a) false (a_created_at a) (a_retention_until a).

Definition set_upload_complete (hash : string) (a : AttachmentRow) : AttachmentRow :=
  mkAttachmentRow (a_attachment_id a) (a_user_id a) (a_conversation_id a) (a_file_size a)
    (a_mime_hint a) (Some hash) (a_blob_path a) true (a_created_at a) (a_retention_until a).

Module AttachmentRepository.
Section AttachmentRepository.
Context `{SqlEngine}.

Definition CreateAttachmentMeta (record : AttachmentRow) : M Database unit :=
  exec internal_error (insert_attachment_metadata (new_attachment_row record)).

Definition GetAttachmentMeta (attachment_id : AttachmentId) (db : Database) : option AttachmentRow :=
  first_row TAttachmentMetadata
    (filter (λ a, a_attachment_id a = attachment_id) (attachment_metadata db)).

Definition MarkUploadComplete (attachment_id : AttachmentId) (ciphertext_hash : string)
    : M Database unit :=
  let! rows := gets (λ db, sql_count (λ a, a_attachment_id a = attachment_id) (attachment_metadata db)) in
  modify (λ db, set_attachment_metadata
                  (sql_update (λ a, a_attachment_id a = attachment_id)
                     (set_upload_complete ciphertext_hash) (attachment_metadata db)) db) ;;!
  if Nat.eqb rows 0 then throw kNotFound "Attachment not found" else mok tt.

Definition DeleteAttachment (attachment_id : AttachmentId) : M Database unit :=
  let! rows := gets (λ db, sql_count (λ a, a_attachment_id a = attachment_id) (attachment_metadata db)) in
  modify (λ db, set_attachment_metadata
                  (sql_delete (λ a, a_attachment_id a = attachment_id) (attachment_metadata db)) db) ;;!
  if Nat.eqb rows 0 then throw kNotFound "Attachment not found" else mok tt.

(** [COALESCE(SUM(file_size), 0)] over the completed uploads. *)
Definition GetStorageUsedByUser (user_id : UserId) (db : Database) : Z :=
  foldr (λ a acc, a_file_size a + acc) 0
    (filter (λ a, a_user_id a = user_id ∧ a_upload_complete a = true) (attachment_metadata db)).

Definition GetExpired (now : Timestamp) (db : Database) : list AttachmentRow :=
  scan TAttachmentMetadata (filter (att_expired now) (attachment_metadata db)).

Definition DeleteExpired (now : Timestamp) : M Database nat :=
  let! rows := gets (λ db, sql_count (att_expired now) (attachment_metadata db)) in
  modify (λ db, set_attachment_metadata
                  (sql_delete (att_expired now) (attachment_metadata db)) db) ;;!
  mok rows.

Lemma CreateAttachmentMeta_wf record : preserves db_wf (CreateAttachmentMeta record).
Proof. apply preserves_exec. eauto with vox. Qed.
Lemma MarkUploadComplete_wf id h : preserves db_wf (MarkUploadComplete id h).
Proof.
  unfold MarkUploadComplete. preserve_step. apply preserves_modify. intros db Hwf. db_wf_solve.
Qed.
Lemma DeleteAttachment_wf id : preserves db_wf (DeleteAttachment id).
Proof. unfold DeleteAttachment. preserve_step. apply preserves_modify. intros db Hwf. db_wf_solve. Qed.
Lemma DeleteExpiredAttachments_wf now : preserves db_wf (DeleteExpired now).
Proof. unfold DeleteExpired. preserve_step. apply preserves_modify. intros db Hwf. db_wf_solve. Qed.

Lemma GetAttachmentMeta_Some id db a :
  GetAttachmentMeta id db = Some a -> a ∈ attachment_metadata db ∧ a_attachment_id a = id.
Proof.
  intros Hf. apply (first_row_Some TAttachmentMetadata), list_elem_of_filter in Hf. tauto.
Qed.

Lemma GetAttachmentMeta_elem a db :
  db_wf db -> a ∈ attachment_metadata db -> GetAttachmentMeta (a_attachment_id a) db = Some a.
Proof.
  intros [[] _ _] Ha. unfold GetAttachmentMeta.
  rewrite (filter_key_singleton a_attachment_id _ _ a) by done.
  apply (first_row_singleton TAttachmentMetadata).
Qed.

Lemma GetAttachmentMeta_None id db :
  GetAttachmentMeta id db = None <-> id ∉ a_attachment_id <$> attachment_metadata db.
Proof.
  unfold GetAttachmentMeta. rewrite (first_row_None TAttachmentMetadata), filter_nil_iff, list_elem_of_fmap.
  naive_solver.
Qed.
End AttachmentRepository.
End AttachmentRepository.

(** ** The service *)

(** What the file system may refuse, and the damage of a failed write. *)
Class Disk := {
  can_open : string -> bool;
  can_write : string -> bool;
  can_remove : string -> bool;
  torn_write : Z -> list Z -> list Z -> list Z
}.

Record AttachmentWorld := mkAttachmentWorld {
  aw_db : Database;
  aw_blobs : gmap string (list Z) }.

Definition set_aw_db (db : Database) (w : AttachmentWorld) : AttachmentWorld :=
  mkAttachmentWorld db (aw_blobs w).
Definition set_aw_blobs (b : gmap string (list Z)) (w : AttachmentWorld) : AttachmentWorld :=
  mkAttachmentWorld (aw_db w) b.

Record AttachmentConfig := mkAttachmentConfig {
  max_upload_size_bytes : Z;
  max_storage_per_user_bytes : Z;
  attachment_retention_seconds : Z;
  blob_storage_path : string }.

(** [operator/] of [std::filesystem::path]: one separator between the parts. *)
Fixpoint ends_with_slash (s : string) : bool :=
  match s with
  | EmptyString => false
  | String c EmptyString => Ascii.eqb c (ascii_of_byte 47)
  | String _ s' => ends_with_slash s'
  end.
Definition path_join (dir file : string) : string :=
  if (dir =s? "") || ends_with_slash dir then dir +:+ file else dir +:+ "/" +:+ file.

Record InitUploadResponse := mkInitUploadResponse { iu_attachment_id : AttachmentId; iu_blob_path : string }.

(** [file.seekp(offset); file.write(data)]: a gap before the offset reads as zeros;
    writing no bytes leaves the file alone. *)
Definition write_at (offset : nat) (data content : list Z) : list Z :=
  match data with
  | [] => content
  | _ => take offset (content ++ replicate (offset - length content) 0) ++ data
         ++ drop (offset + length data) content
  end.

Module AttachmentService.
Section AttachmentService.
Context `{SqlEngine} `{Disk} (config : AttachmentConfig).

Definition on_db {A} (c : M Database A) : M AttachmentWorld A := zoom aw_db set_aw_db c.

Definition InitUpload (user_id : UserId) (conversation_id : ConversationId) (file_size : Z)
    (mime_hint : string) (now : Timestamp) (draw : Z * Z) : M AttachmentWorld InitUploadResponse :=
  if file_size <=? 0 then throw kInvalidArgument "File size must be positive" else
  if to_int64 (max_upload_size_bytes config) <? file_size
  then throw kQuotaExceeded "File exceeds maximum upload size" else
  let! used := gets (λ w, AttachmentRepository.GetStorageUsedByUser user_id (aw_db w)) in
  if to_int64 (max_storage_per_user_bytes config) <? i64_add used file_size
  then throw kQuotaExceeded "User storage quota exceeded" else
  let! is_member := gets (λ w, IsUserInConversation conversation_id user_id (aw_db w)) in
  if negb is_member then throw kForbidden "User is not a member of this conversation" else
  let attachment_id := GenerateUuid draw in
  let blob_path := path_join (blob_storage_path config) (attachment_id +:+ ".blob") in
  let retention := if 0 <? attachment_retention_seconds config
                   then Some (i64_add now (attachment_retention_seconds config)) else None in
  on_db (AttachmentRepository.CreateAttachmentMeta
           (mkAttachmentRow attachment_id user_id conversation_id file_size mime_hint None blob_path
              false now retention)) ;;!
  mok (mkInitUploadResponse attachment_id blob_path).

Definition WriteChunk (attachment_id : AttachmentId) (offset : Z) (data : list Z)
    : M AttachmentWorld unit :=
  let! meta := gets (λ w, AttachmentRepository.GetAttachmentMeta attachment_id (aw_db w)) in
  match meta with
  | None => throw kNotFound "Attachment not found"
  | Some meta =>
    if a_upload_complete meta then throw kInvalidArgument "Upload already complete" else
    let path := a_blob_path meta in
    if negb (can_open path) then throw kInternal "Cannot open blob file" else
    (* the second open creates the file when the first found none *)
    modify (λ w, set_aw_blobs (<[path := default [] (aw_blobs w !! path)]> (aw_blobs w)) w) ;;!
    if offset <? 0 then throw kInternal "Failed to write chunk" else
    if negb (can_write path) then
      modify (λ w, set_aw_blobs (alter (torn_write offset data) path (aw_blobs w)) w) ;;!
      throw kInternal "Failed to write chunk"
    else
      modify (λ w, set_aw_blobs (alter (write_at (Z.to_nat offset) data) path (aw_blobs w)) w)
  end.

Definition FinalizeUpload (attachment_id : AttachmentId) (ciphertext_hash : string)
    : M AttachmentWorld unit :=
  let! meta := gets (λ w, AttachmentRepository.GetAttachmentMeta attachment_id (aw_db w)) in
  match meta with
  | None => throw kNotFound "Attachment not found"
  | Some meta =>
    if a_upload_complete meta then throw kInvalidArgument "Upload already finalized" else
    let! blob := gets (λ w, aw_blobs w !! a_blob_path meta) in
    match blob with
    | None => throw kInternal "Blob file not found on disk"
    | Some _ => on_db (AttachmentRepository.MarkUploadComplete attachment_id ciphertext_hash)
    end
  end.

Definition GetAttachment (attachment_id : AttachmentId) (user_id : UserId) : M AttachmentWorld string :=
  let! meta := gets (λ w, AttachmentRepository.GetAttachmentMeta attachment_id (aw_db w)) in
  match meta with
  | None => throw kNotFound "Attachment not found"
  | Some meta =>
    if negb (a_upload_complete meta) then throw kNotFound "Attachment upload not complete" else
    let! is_member := gets (λ w, IsUserInConversation (a_conversation_id meta) user_id (aw_db w)) in
    if negb is_member then throw kForbidden "Not authorized to access this attachment" else
    mok (a_blob_path meta)
  end.

(** [std::filesystem::remove] of one blob; a failure is only logged. *)
Definition remove_blob (blobs : gmap string (list Z)) (a : AttachmentRow) : gmap string (list Z) :=
  if can_remove (a_blob_path a) then delete (a_blob_path a) blobs else blobs.

Definition DeleteExpired (now : Timestamp) : M AttachmentWorld nat :=
  let! expired := gets (λ w, AttachmentRepository.GetExpired now (aw_db w)) in
  modify (λ w, set_aw_blobs (foldl remove_blob (aw_blobs w) expired) w) ;;!
  on_db (AttachmentRepository.DeleteExpired now).

(** ** Admission *)

Lemma InitUpload_Ok user conv size mime now draw w r w' :
  InitUpload user conv size mime now draw w = (Ok r, w') ->
  0 < size <= to_int64 (max_upload_size_bytes config) ∧
  i64_add (AttachmentRepository.GetStorageUsedByUser user (aw_db w)) size
    <= to_int64 (max_storage_per_user_bytes config) ∧
  IsUserInConversation conv user (aw_db w) = true ∧
  r = mkInitUploadResponse (GenerateUuid draw)
        (path_join (blob_storage_path config) (GenerateUuid draw +:+ ".blob")) ∧
  aw_blobs w' = aw_blobs w ∧
  ∃ a, attachment_metadata (aw_db w') = attachment_metadata (aw_db w) ++ [a] ∧
    a_attachment_id a = GenerateUuid draw ∧ a_user_id a = user ∧ a_conversation_id a = conv ∧
    a_file_size a = size ∧ a_upload_complete a = false ∧ a_blob_path a = iu_blob_path r ∧
    GenerateUuid draw ∉ a_attachment_id <$> attachment_metadata (aw_db w).
Proof.
  unfold InitUpload. intros Hr.
  destruct (Z.leb_spec size 0); [done|]. destruct (Z.ltb_spec (to_int64 (max_upload_size_bytes config)) size); [done|].
  minv Hr. destruct (Z.ltb_spec (to_int64 (max_storage_per_user_bytes config)) (i64_add
    (AttachmentRepository.GetStorageUsedByUser user (aw_db w)) size)); [done|].
  minv Hr. destruct (IsUserInConversation conv user (aw_db w)) eqn:Em; [|done]. simpl in Hr. minv Hr.
  unfold on_db, zoom, AttachmentRepository.CreateAttachmentMeta, exec in E.
  unfold insert_attachment_metadata in E. simpl in E. destruct (sql_exists _ _) eqn:Ex; [done|].
  destruct (negb _); [done|]. injection E as <- <-.
  split_and!; try done. eexists. split; [reflexivity|]. split_and!; try done.
  intros (x & Ek & Hx)%list_elem_of_fmap. by apply (proj1 (sql_exists_false _ _) Ex x Hx).
Qed.

(** ** Reading back chunks *)

Lemma lookup_write_at offset data content i :
  data ≠ [] ->
  write_at offset data content !! i =
  if decide (offset <= i < offset + length data)%nat then data !! (i - offset)%nat
  else if decide (i < length content)%nat then content !! i
  else if decide (i < offset)%nat then Some 0 else None.
Proof.
  intros Hd. unfold write_at. destruct data as [|b l] eqn:Ed; [done|]. rewrite <- Ed in *. clear Ed Hd b l.
  set (pre := take offset (content ++ replicate (offset - length content) 0)).
  assert (Hpre : length pre = offset).
  { unfold pre. rewrite length_take, length_app, length_replicate. lia. }
  destruct (Nat.lt_ge_cases i offset) as [Hi|Hi].
  - rewrite lookup_app_l by lia. rewrite decide_False by lia. unfold pre. rewrite lookup_take_lt by done.
    destruct (decide (i < length content)%nat); [by rewrite lookup_app_l|].
    rewrite lookup_app_r, decide_True by lia. apply lookup_replicate. lia.
  - rewrite lookup_app_r, Hpre by lia.
    destruct (Nat.lt_ge_cases i (offset + length data)) as [Hi2|Hi2].
    + rewrite lookup_app_l by lia. by rewrite decide_True by lia.
    + rewrite lookup_app_r, lookup_drop, decide_False by lia.
      replace (offset + length data + (i - offset - length data))%nat with i by lia.
      destruct (decide (i < length content)%nat); [done|]. rewrite decide_False by lia.
      apply lookup_ge_None. lia.
Qed.

(** ** The state of the uploads *)

(** Blobs live under paths derived from the attachment ids. *)
Definition paths_ok (w : AttachmentWorld) : Prop :=
  ∀ a, a ∈ attachment_metadata (aw_db w) ->
    a_blob_path a = path_join (blob_storage_path config) (a_attachment_id a +:+ ".blob").

Lemma string_app_cancel_l (s t1 t2 : string) : s +:+ t1 = s +:+ t2 -> t1 = t2.
Proof. induction s as [|c s IH]; [done|]. intros [= E]. by apply IH. Qed.

Lemma blob_name_inj (id1 id2 : string) : id1 +:+ ".blob" = id2 +:+ ".blob" -> id1 = id2.
Proof.
  intros E. assert (Hl : String.length id1 = String.length id2).
  { apply (f_equal String.length) in E. rewrite !string_length_app in E. lia. }
  by apply string_app_inj_length in E as [-> _].
Qed.

Lemma path_join_inj dir f1 f2 : path_join dir f1 = path_join dir f2 -> f1 = f2.
Proof.
  unfold path_join. destruct (_ || _).
  - apply string_app_cancel_l.
  - intros E. apply string_app_cancel_l in E. by apply (string_app_cancel_l "/") in E.
Qed.

Inductive upload_op :=
  | UInit (user : UserId) (conv : ConversationId) (size : Z) (mime : string) (now : Timestamp) (draw : Z * Z)
  | UWrite (id : AttachmentId) (offset : Z) (data : list Z)
  | UFinalize (id : AttachmentId) (hash : string).

Definition run_upload_op (w : AttachmentWorld) (op : upload_op) : AttachmentWorld :=
  match op with
  | UInit user conv size mime now draw => (InitUpload user conv size mime now draw w).2
  | UWrite id offset data => (WriteChunk id offset data w).2
  | UFinalize id hash => (FinalizeUpload id hash w).2
  end.

Definition uploads_ok (w : AttachmentWorld) : Prop := db_wf (aw_db w) ∧ paths_ok w.

(** The attachment [a] is complete and its blob holds [content]. *)
Definition sealed (a : AttachmentRow) (content : option (list Z)) (w : AttachmentWorld) : Prop :=
  a ∈ attachment_metadata (aw_db w) ∧ a_upload_complete a = true ∧ aw_blobs w !! a_blob_path a = content.

(** What every operation of an upload keeps. *)
Definition keeps_sealed {A} (c : M AttachmentWorld A) : Prop :=
  ∀ a content, preserves (λ w, uploads_ok w ∧ sealed a content w) c.

Lemma InitUpload_keeps user conv size mime now draw :
  keeps_sealed (InitUpload user conv size mime now draw).
Proof.
  intros a content. unfold InitUpload. preserve_step.
  intros w [[Hwf Hp] (Ha & Hc & Hb)]. unfold on_db, zoom.
  match goal with |- context [AttachmentRepository.CreateAttachmentMeta ?r (aw_db w)] => set (rec := r) end.
  pose proof (AttachmentRepository.CreateAttachmentMeta_wf rec (aw_db w) Hwf) as Hw.
  destruct (AttachmentRepository.CreateAttachmentMeta rec (aw_db w)) as [[[]|e] db'] eqn:Ec; simpl in *.
  - apply exec_Ok in Ec. unfold insert_attachment_metadata in Ec.
    destruct (sql_exists _ _); [done|]. destruct (negb _); [done|]. injection Ec as <-. split; [split; [done|]|].
    + intros y [Hy| ->]%elem_of_sql_insert; [by apply Hp|done].
    + split; [apply elem_of_sql_insert; by left|done].
  - apply exec_Err in Ec as (? & _ & _ & ->). done.
Qed.

(** A change of blobs that does not touch a path. *)
Lemma sealed_blobs a content blobs w :
  uploads_ok w -> sealed a content w -> blobs !! a_blob_path a = aw_blobs w !! a_blob_path a ->
  uploads_ok (set_aw_blobs blobs w) ∧ sealed a content (set_aw_blobs blobs w).
Proof. intros Hok (Ha & Hc & Hb) Hl. split; [done|]. split; [done|]. split; [done|]. simpl. congruence. Qed.

(** Attachments with different ids have different blob files. *)
Lemma distinct_paths a b w :
  paths_ok w -> a ∈ attachment_metadata (aw_db w) -> b ∈ attachment_metadata (aw_db w) ->
  a_attachment_id a ≠ a_attachment_id b -> a_blob_path a ≠ a_blob_path b.
Proof.
  intros Hp Ha Hb Hne E. rewrite (Hp a Ha), (Hp b Hb) in E.
  by apply path_join_inj, blob_name_inj in E.
Qed.

Lemma WriteChunk_keeps id offset data : keeps_sealed (WriteChunk id offset data).
Proof.
  intros a content w [Hok Hs]. unfold WriteChunk, bind, gets, modify.
  destruct (AttachmentRepository.GetAttachmentMeta id (aw_db w)) as [b|] eqn:Em; [|done].
  apply AttachmentRepository.GetAttachmentMeta_Some in Em as [Hb Hid].
  destruct (a_upload_complete b) eqn:Ecb; [done|].
  assert (Hne : a_blob_path b ≠ a_blob_path a).
  { destruct Hok as [Hwf Hp], Hs as (Ha & Hc & _). apply (distinct_paths b a w); [done..|].
    intros E. destruct Hwf as [[] _ _].
    rewrite (NoDup_fmap_inj_on a_attachment_id _ b a pk_attachments) in Ecb by done. congruence. }
  destruct (negb (can_open (a_blob_path b))); [done|].
  set (w1 := set_aw_blobs _ w).
  assert (H1 : uploads_ok w1 ∧ sealed a content w1).
  { apply sealed_blobs; [done..|]. by rewrite lookup_insert_ne. }
  destruct H1 as [Hok1 Hs1].
  destruct (offset <? 0); [done|]. destruct (negb (can_write (a_blob_path b))); simpl.
  - apply (sealed_blobs a content (alter (torn_write offset data) (a_blob_path b) (aw_blobs w1)) w1);
      [done..|]. by rewrite lookup_alter_ne.
  - apply (sealed_blobs a content (alter (write_at (Z.to_nat offset) data) (a_blob_path b) (aw_blobs w1)) w1);
      [done..|]. by rewrite lookup_alter_ne.
Qed.

Lemma FinalizeUpload_keeps id hash : keeps_sealed (FinalizeUpload id hash).
Proof.
  intros a content w [Hok Hs]. unfold FinalizeUpload, bind, gets.
  destruct (AttachmentRepository.GetAttachmentMeta id (aw_db w)) as [b|] eqn:Em; [|done].
  apply AttachmentRepository.GetAttachmentMeta_Some in Em as [Hb Hid].
  destruct (a_upload_complete b) eqn:Ecb; [done|].
  destruct (aw_blobs w !! a_blob_path b); [|done]. unfold on_db, zoom.
  destruct Hok as [Hwf Hp], Hs as (Ha & Hc & Hbl).
  pose proof (AttachmentRepository.MarkUploadComplete_wf id hash (aw_db w) Hwf) as Hw.
  assert (Em2 : attachment_metadata (AttachmentRepository.MarkUploadComplete id hash (aw_db w)).2 =
    sql_update (λ x, a_attachment_id x = id) (set_upload_complete hash) (attachment_metadata (aw_db w))).
  { unfold AttachmentRepository.MarkUploadComplete, bind, gets, modify. by case_match. }
  destruct (AttachmentRepository.MarkUploadComplete id hash (aw_db w)) as [r db']. simpl in *.
  assert (Hida : a_attachment_id a ≠ id).
  { intros E. destruct Hwf as [[] _ _].
    rewrite (NoDup_fmap_inj_on a_attachment_id _ b a pk_attachments) in Ecb by congruence. congruence. }
  split; [split; [done|]|].
  - intros y. simpl. rewrite Em2. intros (x & Hx & ->)%elem_of_sql_update.
    case_decide; simpl; by apply Hp.
  - split; [|done]. simpl. rewrite Em2. apply elem_of_sql_update. exists a. by rewrite decide_False.
Qed.

(** C33: Once an upload is finalised, its metadata and the bytes of its blob never
    change under any further sequence of uploads, chunk writes and finalisations,
    by anyone: chunk writes to it are refused and other attachments live under
    other paths. *)
Theorem finalized_upload_immutable ops w a content :
  uploads_ok w -> sealed a content w ->
  uploads_ok (foldl run_upload_op w ops) ∧ sealed a content (foldl run_upload_op w ops).
Proof.
  revert w. induction ops as [|op ops IH]; intros w Hok Hs; [done|]. simpl.
  assert (Hk : uploads_ok (run_upload_op w op) ∧ sealed a content (run_upload_op w op)).
  { destruct op; simpl; [by apply InitUpload_keeps|by apply WriteChunk_keeps|by apply FinalizeUpload_keeps]. }
  destruct Hk. by apply IH.
Qed.

(** A chunk that was written reads back: position by position the blob holds
    the data at the given offset, the previous content elsewhere and zeros in a
    gap; no other blob and no metadata changes. *)
Theorem WriteChunk_reads_back id offset data w w' :
  data ≠ [] -> WriteChunk id offset data w = (Ok tt, w') ->
  0 <= offset ∧ aw_db w' = aw_db w ∧
  ∃ a content, AttachmentRepository.GetAttachmentMeta id (aw_db w) = Some a ∧
    a_upload_complete a = false ∧ aw_blobs w' !! a_blob_path a = Some content ∧
    (∀ p, p ≠ a_blob_path a -> aw_blobs w' !! p = aw_blobs w !! p) ∧
    ∀ i, content !! i =
      let old := default [] (aw_blobs w !! a_blob_path a) in
      if decide (Z.to_nat offset <= i < Z.to_nat offset + length data)%nat
      then data !! (i - Z.to_nat offset)%nat
      else if decide (i < length old)%nat then old !! i
      else if decide (i < Z.to_nat offset)%nat then Some 0 else None.
Proof.
  intros Hd Hw. unfold WriteChunk in Hw. minv Hw.
  destruct (AttachmentRepository.GetAttachmentMeta id (aw_db w)) as [a|] eqn:Em; [|done].
  destruct (a_upload_complete a) eqn:Ec; [done|]. destruct (negb (can_open _)); [done|]. minv Hw.
  destruct (Z.ltb_spec offset 0); [done|]. destruct (negb (can_write _)); [minv Hw|].
  unfold modify in Hw. injection Hw as <-.
  split; [done|]. split; [done|]. eexists a, _. split; [done|]. split; [done|]. simpl. split_and!.
  - rewrite lookup_alter_eq, lookup_insert_eq. reflexivity.
  - intros p Hp. by rewrite lookup_alter_ne, lookup_insert_ne.
  - intros i. by rewrite lookup_write_at.
Qed.

(** C34: A download is granted exactly for finished uploads to participants of the
    attachment's conversation, and returns that attachment's blob. *)
Theorem GetAttachment_authorized id user w path :
  db_wf (aw_db w) ->
  GetAttachment id user w = (Ok path, w) <->
  ∃ a, a ∈ attachment_metadata (aw_db w) ∧ a_attachment_id a = id ∧ a_upload_complete a = true ∧
    participant (aw_db w) (a_conversation_id a) user ∧ path = a_blob_path a.
Proof.
  intros Hwf. unfold GetAttachment, bind, gets. split.
  - destruct (AttachmentRepository.GetAttachmentMeta id (aw_db w)) as [a|] eqn:Em; [|done].
    apply AttachmentRepository.GetAttachmentMeta_Some in Em as [Ha Hid].
    destruct (a_upload_complete a) eqn:Ec; [|done]. simpl.
    destruct (IsUserInConversation (a_conversation_id a) user (aw_db w)) eqn:Ei; [|done].
    intros [= <-]. exists a. split_and!; try done. by apply IsUserInConversation_true.
  - intros (a & Ha & <- & Hc & Hp & ->). rewrite AttachmentRepository.GetAttachmentMeta_elem by done.
    rewrite Hc. simpl. by rewrite (proj2 (IsUserInConversation_true _ _ _ Hwf) Hp).
Qed.

(** An upload is only admitted with a positive size within the upload limit, for
    a participant of the conversation, and when the account's finished uploads
    plus this one fit the storage quota (in 64-bit arithmetic); it then exists,
    unfinished, under a fresh id. *)
Theorem InitUpload_admits user conv size mime now draw w r w' :
  db_wf (aw_db w) -> InitUpload user conv size mime now draw w = (Ok r, w') ->
  0 < size <= to_int64 (max_upload_size_bytes config) ∧
  i64_add (AttachmentRepository.GetStorageUsedByUser user (aw_db w)) size
    <= to_int64 (max_storage_per_user_bytes config) ∧
  participant (aw_db w) conv user ∧
  AttachmentRepository.GetAttachmentMeta (iu_attachment_id r) (aw_db w) = None ∧
  ∃ a, AttachmentRepository.GetAttachmentMeta (iu_attachment_id r) (aw_db w') = Some a ∧
    a_user_id a = user ∧ a_conversation_id a = conv ∧ a_file_size a = size ∧
    a_upload_complete a = false ∧ a_blob_path a = iu_blob_path r.
Proof.
  intros Hwf Hi.
  destruct (InitUpload_Ok _ _ _ _ _ _ _ _ _ Hi)
    as (Hs & Hq & Hm & -> & _ & a & Hmeta & Hid & Hu & Hc & Hf & Hcomp & Hpath & Hfresh).
  split; [done|]. split; [done|]. split; [by apply IsUserInConversation_true|]. split.
  { by apply AttachmentRepository.GetAttachmentMeta_None. }
  exists a. split; [|done]. cbn [iu_attachment_id]. unfold AttachmentRepository.GetAttachmentMeta.
  rewrite Hmeta, filter_app, filter_cons, decide_True, filter_nil by done.
  rewrite (proj2 (filter_nil_iff _ _)); [apply (first_row_singleton TAttachmentMetadata)|].
  intros x Hx E. apply Hfresh. rewrite <- E. by apply list_elem_of_fmap_2.
Qed.
End AttachmentService.

Section witnesses.
#[local] Existing Instance rowid_engine.

(** A disk that refuses nothing. *)
Definition reliable_disk : Disk := {|
  can_open := λ _, true; can_write := λ _, true; can_remove := λ _, true;
  torn_write := λ _ _ c, c
|}.
#[local] Existing Instance reliable_disk.

Definition sample_att_config : AttachmentConfig := mkAttachmentConfig 100 150 0 "blobs".
Definition sample_upload_path : string := path_join "blobs" (GenerateUuid (1, 2) +:+ ".blob").
Definition sample_att_world : AttachmentWorld := mkAttachmentWorld sample_group_db ∅.
(** One finished upload. *)
Definition sample_sealed_world : AttachmentWorld :=
  foldl (run_upload_op sample_att_config) sample_att_world
    [UInit "u1" "g1" 80 "" 2000 (1, 2); UWrite (GenerateUuid (1, 2)) 0 [1; 2; 3];
     UFinalize (GenerateUuid (1, 2)) "hash"].
Definition sample_attachment (complete : bool) : AttachmentRow :=
  mkAttachmentRow (GenerateUuid (1, 2)) "u1" "g1" 80 "" (if complete then Some "hash" else None)
    sample_upload_path complete 2000 None.

Lemma sample_sealed_ok : uploads_ok sample_att_config sample_sealed_world.
Proof.
  split; [apply db_wf_eval; vm_compute; reflexivity|].
  intros a Ha. assert (E : attachment_metadata (aw_db sample_sealed_world) = [sample_attachment true])
    by (vm_compute; reflexivity).
  rewrite E in Ha. apply list_elem_of_singleton in Ha as ->. reflexivity.
Qed.

Lemma finalized_upload_immutable_witness :
  sealed (sample_attachment true) (Some [1; 2; 3])
    (foldl (run_upload_op sample_att_config) sample_sealed_world
       [UWrite (GenerateUuid (1, 2)) 1 [9]; UInit "u1" "g1" 10 "" 2001 (3, 4)]).
Proof.
  apply (finalized_upload_immutable sample_att_config _ _ (sample_attachment true));
    [exact sample_sealed_ok|].
  assert (E : attachment_metadata (aw_db sample_sealed_world) = [sample_attachment true])
    by (vm_compute; reflexivity).
  split; [rewrite E; left|]. split; [reflexivity|]. vm_compute. reflexivity.
Defined.

(** The state after the upload was admitted. *)
Definition sample_admitted_world : AttachmentWorld :=
  foldl (run_upload_op sample_att_config) sample_att_world [UInit "u1" "g1" 80 "" 2000 (1, 2)].

Lemma WriteChunk_reads_back_witness :
  aw_db (WriteChunk (GenerateUuid (1, 2)) 2 [7] sample_admitted_world).2 = aw_db sample_admitted_world.
Proof.
  apply (WriteChunk_reads_back (GenerateUuid (1, 2)) 2 [7] sample_admitted_world
           (WriteChunk (GenerateUuid (1, 2)) 2 [7] sample_admitted_world).2); [done|].
  vm_compute. reflexivity.
Defined.

Lemma GetAttachment_authorized_witness :
  GetAttachment (GenerateUuid (1, 2)) "u1" sample_sealed_world = (Ok sample_upload_path, sample_sealed_world).
Proof.
  apply (GetAttachment_authorized (GenerateUuid (1, 2)) "u1" sample_sealed_world); [apply sample_sealed_ok|].
  exists (sample_attachment true).
  assert (E : attachment_metadata (aw_db sample_sealed_world) = [sample_attachment true])
    by (vm_compute; reflexivity).
  split; [rewrite E; left|]. split; [reflexivity|]. split; [reflexivity|]. split; [|reflexivity].
  apply IsUserInConversation_true; [apply sample_sealed_ok|]. vm_compute. reflexivity.
Defined.

Lemma InitUpload_admits_witness :
  participant (aw_db sample_att_world) "g1" "u1".
Proof.
  apply (InitUpload_admits sample_att_config "u1" "g1" 80 "" 2000 (1, 2) sample_att_world
           (mkInitUploadResponse (GenerateUuid (1, 2)) sample_upload_path)
           (InitUpload sample_att_config "u1" "g1" 80 "" 2000 (1, 2) sample_att_world).2);
    [apply sample_group_db_wf|vm_compute; reflexivity].
Defined.

(** The quota counts finished uploads only: two uploads of 80 bytes are admitted
    against a quota of 150 when both start before either is finished. *)
Example quota_admits_two_unfinished_uploads :
  AttachmentRepository.GetStorageUsedByUser "u1"
    (aw_db (foldl (run_upload_op sample_att_config) sample_att_world
       [UInit "u1" "g1" 80 "" 2000 (1, 2); UInit "u1" "g1" 80 "" 2000 (3, 4);
        UWrite (GenerateUuid (1, 2)) 0 [1]; UWrite (GenerateUuid (3, 4)) 0 [1];
        UFinalize (GenerateUuid (1, 2)) "h"; UFinalize (GenerateUuid (3, 4)) "h"])) = 160.
Proof. vm_compute. reflexivity. Qed.
End witnesses.
End AttachmentService.
