(* ===== verification/ShardMap.v ===== *)
(** * ShardMap (lib/vox_common/shard_map.hpp)

    A map split over [ShardCount] unordered maps by the hash of the key.  Each
    operation holds the mutex of one shard (or of one shard at a time), so a call
    that touches one shard is atomic.  The component promises a map: the
    abstraction [contents] and the refinement theorem below. *)

From S2P Require Import Prelude.

Section ShardMap.
Context {K V : Type} `{Countable K} (hash : K -> N) (ShardCount : nat).

(** The state is the list of the maps of the shards, in array order. *)
#[local] Notation shards := (list (gmap K V)).

Definition empty_shards : shards := replicate ShardCount ∅.

(** [std::hash<Key>{}(key) % ShardCount]. *)
Definition GetShard (key : K) : nat := N.to_nat (hash key mod N.of_nat ShardCount).

Definition WithShard {A} (key : K) (fn : gmap K V -> A * gmap K V) (s : shards) : option A * shards :=
  match s !! GetShard key with
  | Some m => let '(a, m') := fn m in (Some a, <[GetShard key := m']> s)
  | None => (None, s)
  end.

Definition Insert (key : K) (value : V) (s : shards) : shards :=
  alter (<[key := value]>) (GetShard key) s.

Definition Find (key : K) (s : shards) : option V := m ← s !! GetShard key; m !! key.

Definition Erase (key : K) (s : shards) : bool * shards :=
  (bool_decide (is_Some (Find key s)), alter (delete key) (GetShard key) s).

Definition Contains (key : K) (s : shards) : bool := bool_decide (is_Some (Find key s)).

(** The pairs [ForEach] passes to its function, shard by shard. *)
Definition ForEach (s : shards) : list (K * V) := m ← s; map_to_list m.

Definition Size (s : shards) : nat := foldr (λ m total, (size m + total)%nat) 0%nat s.

(** ** The abstract map *)

Definition contents (s : shards) : gmap K V := foldr (∪) ∅ s.

(** Every key sits in the shard its hash selects. *)
Definition well_sharded (s : shards) : Prop :=
  length s = ShardCount ∧
  ∀ i m k, s !! i = Some m -> is_Some (m !! k) -> GetShard k = i.

Hypothesis ShardCount_pos : (0 < ShardCount)%nat.

Lemma GetShard_lt key : (GetShard key < ShardCount)%nat.
Proof. unfold GetShard. pose proof (N.mod_lt (hash key) (N.of_nat ShardCount)). lia. Qed.

Lemma empty_well_sharded : well_sharded empty_shards ∧ contents empty_shards = ∅.
Proof.
  split.
  - split; [apply length_replicate|]. intros i m k Hi Hk. apply lookup_replicate_1 in Hi as [-> _].
    rewrite lookup_empty in Hk. by destruct Hk.
  - unfold contents, empty_shards. clear ShardCount_pos.
    induction ShardCount as [|n IH]; [done|]. simpl. by rewrite IH, map_empty_union.
Qed.

Lemma foldr_union_lookup (l : shards) i m k :
  l !! i = Some m -> (∀ j m', l !! j = Some m' -> j ≠ i -> m' !! k = None) ->
  foldr (∪) ∅ l !! k = m !! k.
Proof.
  revert i. induction l as [|m0 l IH]; intros i Hi Hothers; [done|]. simpl.
  destruct i as [|i]; simpl in Hi.
  - injection Hi as ->.
    assert (Hl : foldr (∪) ∅ l !! k = None).
    { assert (Hn : ∀ j m', l !! j = Some m' -> m' !! k = None)
        by (intros j m' Hj; by apply (Hothers (S j))).
      clear IH Hothers. induction l as [|m1 l IH]; [apply lookup_empty|]. simpl.
      rewrite lookup_union, (Hn 0%nat m1 eq_refl), IH; [done|].
      intros j m' Hj. by apply (Hn (S j)). }
    rewrite lookup_union, Hl. by destruct (m !! k).
  - rewrite lookup_union, (Hothers 0%nat m0 eq_refl) by lia.
    rewrite (IH i Hi); [by destruct (m !! k)|]. intros j m' Hj Hne. apply (Hothers (S j)); [done|lia].
Qed.

Lemma lookup_contents s k :
  well_sharded s -> ∃ m, s !! GetShard k = Some m ∧ contents s !! k = m !! k.
Proof.
  intros [Hlen Hw]. destruct (lookup_lt_is_Some_2 s (GetShard k)) as [m Hm].
  { rewrite Hlen. apply GetShard_lt. }
  exists m. split; [done|]. apply (foldr_union_lookup s (GetShard k)); [done|].
  intros j m' Hj Hne. destruct (m' !! k) eqn:E; [|done]. exfalso. apply Hne. symmetry.
  by apply (Hw j m' k Hj).
Qed.

Lemma Find_contents key s : well_sharded s -> Find key s = contents s !! key.
Proof.
  intros Hw. destruct (lookup_contents s key Hw) as (m & Hm & ->). unfold Find. by rewrite Hm.
Qed.

(** Changing one key in its shard. *)
Lemma alter_shard key (f : gmap K V -> gmap K V) s :
  well_sharded s -> (∀ m k, k ≠ key -> f m !! k = m !! k) ->
  well_sharded (alter f (GetShard key) s) ∧
  (∀ k, k ≠ key -> contents (alter f (GetShard key) s) !! k = contents s !! k) ∧
  (∀ m, s !! GetShard key = Some m -> contents (alter f (GetShard key) s) !! key = f m !! key).
Proof.
  intros Hw Hf. assert (Hw' : well_sharded (alter f (GetShard key) s)).
  { destruct Hw as [Hlen Hw]. split; [etrans; [apply length_alter|exact Hlen]|]. intros i m k Hi Hk.
    destruct (decide (i = GetShard key)) as [->|Hne].
    - rewrite list_lookup_alter_eq in Hi.
      destruct (s !! GetShard key) as [m0|] eqn:E0; simpl in Hi; [|done]. injection Hi as <-.
      destruct (decide (k = key)) as [->|Hk']; [done|]. rewrite Hf in Hk by done. by apply (Hw _ m0).
    - rewrite list_lookup_alter_ne in Hi by done. by apply (Hw i m). }
  split; [done|]. split.
  - intros k Hk. destruct (lookup_contents _ k Hw') as (m' & Hm' & ->).
    destruct (lookup_contents _ k Hw) as (m & Hm & ->).
    destruct (decide (GetShard k = GetShard key)) as [E|E].
    + rewrite E in *. rewrite list_lookup_alter_eq, Hm in Hm'. injection Hm' as <-. by apply Hf.
    + rewrite list_lookup_alter_ne in Hm' by done. congruence.
  - intros m Hm. destruct (lookup_contents _ key Hw') as (m' & Hm' & ->).
    rewrite list_lookup_alter_eq, Hm in Hm'. by injection Hm' as <-.
Qed.

Lemma Insert_contents key v s :
  well_sharded s -> well_sharded (Insert key v s) ∧ contents (Insert key v s) = <[key := v]> (contents s).
Proof.
  intros Hw. destruct (alter_shard key (<[key := v]>) s Hw) as (Hw' & Hne & Heq).
  { intros m k Hk. by rewrite lookup_insert_ne. }
  split; [done|]. apply map_eq. intros k. destruct (decide (k = key)) as [->|Hk].
  - destruct (lookup_contents s key Hw) as (m & Hm & _). unfold Insert.
    by rewrite (Heq m Hm), !lookup_insert_eq.
  - unfold Insert. by rewrite Hne, lookup_insert_ne.
Qed.

Lemma Erase_contents key s :
  well_sharded s ->
  (Erase key s).1 = bool_decide (is_Some (contents s !! key)) ∧
  well_sharded (Erase key s).2 ∧ contents (Erase key s).2 = delete key (contents s).
Proof.
  intros Hw. simpl. rewrite Find_contents by done. split; [done|].
  destruct (alter_shard key (delete key) s Hw) as (Hw' & Hne & Heq).
  { intros m k Hk. by rewrite lookup_delete_ne. }
  split; [done|]. apply map_eq. intros k. destruct (decide (k = key)) as [->|Hk].
  - destruct (lookup_contents s key Hw) as (m & Hm & _). by rewrite (Heq m Hm), !lookup_delete_eq.
  - by rewrite Hne, lookup_delete_ne.
Qed.

(** ** Iteration *)

Lemma Size_length_ForEach s : Size s = length (ForEach s).
Proof.
  unfold Size, ForEach. induction s as [|m s IH]; [done|].
  rewrite bind_cons, length_app. simpl. by rewrite IH, length_map_to_list.
Qed.

Lemma elem_of_ForEach s k v : well_sharded s -> (k, v) ∈ ForEach s <-> contents s !! k = Some v.
Proof.
  intros Hw. unfold ForEach. rewrite list_elem_of_bind. destruct (lookup_contents s k Hw) as (m & Hm & ->).
  split.
  - intros (m' & Hkv & Hin). apply elem_of_map_to_list in Hkv.
    apply list_elem_of_lookup_1 in Hin as [i Hi]. destruct Hw as [_ Hw].
    assert (GetShard k = i) as <- by (apply (Hw i m'); [done|by eexists]). congruence.
  - intros Hk. exists m. split; [by apply elem_of_map_to_list|]. by eapply list_elem_of_lookup_2.
Qed.

Lemma NoDup_ForEach s : well_sharded s -> NoDup (fst <$> ForEach s).
Proof.
  intros [_ Hw]. unfold ForEach.
  assert (Hd : ∀ i j m m' k, s !! i = Some m -> s !! j = Some m' ->
    is_Some (m !! k) -> is_Some (m' !! k) -> i = j).
  { intros i j m m' k Hi Hj Hk Hk'. rewrite <- (Hw i m k), <- (Hw j m' k); done. }
  clear Hw. induction s as [|m s IH]; [constructor|]. rewrite bind_cons, fmap_app.
  apply NoDup_app. split; [apply NoDup_fst_map_to_list|]. split.
  - intros k ((k1 & v1) & -> & Hin1)%list_elem_of_fmap ((k2 & v2) & E & Hin2)%list_elem_of_fmap.
    simpl in *. subst k2. apply elem_of_map_to_list in Hin1.
    apply list_elem_of_bind in Hin2 as (m' & Hkv & Hm'). apply elem_of_map_to_list in Hkv.
    apply list_elem_of_lookup_1 in Hm' as [j Hj].
    by specialize (Hd 0%nat (S j) m m' k1 eq_refl Hj (mk_is_Some _ _ Hin1) (mk_is_Some _ _ Hkv)).
  - apply IH. intros i j m1 m2 k Hi Hj H1 H2.
    specialize (Hd (S i) (S j) m1 m2 k Hi Hj H1 H2). lia.
Qed.

Lemma ForEach_contents s : well_sharded s -> ForEach s ≡ₚ map_to_list (contents s).
Proof.
  intros Hw. apply NoDup_Permutation.
  - eapply NoDup_fmap_1, NoDup_ForEach, Hw.
  - apply NoDup_map_to_list.
  - intros [k v]. by rewrite elem_of_ForEach, elem_of_map_to_list.
Qed.

(** C40: A sharded map is a map: whatever the hash function and the number of shards,
    [Insert], [Erase], [Find], [Contains], [ForEach] and [Size] act on the shards as
    insertion, deletion, lookup, membership, enumeration and cardinality act on
    the one map they represent, and keep every key in its shard. *)
Theorem ShardMap_refines s key v :
  well_sharded s ->
  Find key s = contents s !! key ∧
  Contains key s = bool_decide (key ∈ dom (contents s)) ∧
  (well_sharded (Insert key v s) ∧ contents (Insert key v s) = <[key := v]> (contents s)) ∧
  ((Erase key s).1 = bool_decide (key ∈ dom (contents s)) ∧
   well_sharded (Erase key s).2 ∧ contents (Erase key s).2 = delete key (contents s)) ∧
  ForEach s ≡ₚ map_to_list (contents s) ∧
  Size s = size (contents s).
Proof.
  intros Hw. split; [by apply Find_contents|]. split.
  { unfold Contains. rewrite Find_contents by done. apply bool_decide_ext. symmetry. apply elem_of_dom. }
  split; [by apply Insert_contents|]. split.
  { destruct (Erase_contents key s Hw) as (E & Hw' & Hc). split; [|done]. rewrite E.
    apply bool_decide_ext. symmetry. apply elem_of_dom. }
  split; [by apply ForEach_contents|].
  by rewrite Size_length_ForEach, (ForEach_contents s Hw), length_map_to_list.
Qed.
End ShardMap.

Lemma ShardMap_refines_witness :
  Find (λ k : N, k) 4 5%N (Insert (λ k : N, k) 4 5%N "x" (Insert (λ k : N, k) 4 1%N "y" (empty_shards 4))) =
  contents (Insert (λ k : N, k) 4 5%N "x" (Insert (λ k : N, k) 4 1%N "y" (empty_shards 4))) !! 5%N.
Proof.
  apply (ShardMap_refines (λ k : N, k) 4 ltac:(lia) _ 5%N "z").
  apply Insert_contents; [lia|]. apply Insert_contents; [lia|]. apply empty_well_sharded.
Defined.
