(* ===== verification/Delivery.v ===== *)
(** * DeliveryManager (lib/vox_relay/delivery_manager.cpp)

    The in-memory queue of each device, keyed by [DeviceScopeKey] in a [ShardMap]
    (which refines a map, file ShardMap), and the fallback to [delivery_state]
    rows.  Each operation holds the mutex of the queue it touches. *)

From S2P Require Import Prelude Types Sql Database Samples Paging Envelopes.

Record QueuedEnvelope := mkQueuedEnvelope {
  q_envelope_id : EnvelopeId;
  q_conversation_id : ConversationId;
  q_sender_user_id : UserId;
  q_sender_device_id : DeviceId;
  q_ciphertext : string;
  q_server_timestamp : Timestamp;
  q_envelope_type : Z;
  q_ordering_epoch : option Z }.

#[export] Instance QueuedEnvelope_eq_dec : EqDecision QueuedEnvelope.
Proof. solve_decision. Defined.

(** The state the relay shares: the database, the queues and whatever the enqueue
    hook acts on (the WebSocket registry), of type [Hook]. *)
Record RelayWorld (Hook : Type) := mkRelayWorld {
  rw_db : Database;
  rw_queues : gmap string (list QueuedEnvelope);
  rw_hook : Hook }.
Arguments mkRelayWorld {Hook} rw_db rw_queues rw_hook.
Arguments rw_db {Hook} _.
Arguments rw_queues {Hook} _.
Arguments rw_hook {Hook} _.

Definition set_rw_db {Hook} (db : Database) (w : RelayWorld Hook) : RelayWorld Hook :=
  mkRelayWorld db (rw_queues w) (rw_hook w).
Definition set_rw_queues {Hook} (q : gmap string (list QueuedEnvelope)) (w : RelayWorld Hook)
    : RelayWorld Hook :=
  mkRelayWorld (rw_db w) q (rw_hook w).
Definition set_rw_hook {Hook} (h : Hook) (w : RelayWorld Hook) : RelayWorld Hook :=
  mkRelayWorld (rw_db w) (rw_queues w) h.

(** A repository call made by a relay component. *)
Definition on_relay_db {Hook A} (c : M Database A) : M (RelayWorld Hook) A := zoom rw_db set_rw_db c.

Module DeliveryManager.
Section DeliveryManager.
Context `{SqlEngine} {Hook : Type}.
Context (enqueue_hook_ : option (string -> QueuedEnvelope -> Hook -> Hook)).
Context (max_queue_per_device_ : Z).
Implicit Types w : RelayWorld Hook.

Definition GetOrCreateQueue (user_id : UserId) (device_id : DeviceId)
    : M (RelayWorld Hook) (list QueuedEnvelope) := λ w,
  let key := DeviceScopeKey user_id device_id in
  match rw_queues w !! key with
  | Some q => (Ok q, w)
  | None => (Ok [], set_rw_queues (<[key := []]> (rw_queues w)) w)
  end.

Definition Enqueue (user_id : UserId) (device_id : DeviceId) (envelope : QueuedEnvelope)
    : M (RelayWorld Hook) unit :=
  let key := DeviceScopeKey user_id device_id in
  let! pending := GetOrCreateQueue user_id device_id in
  if max_queue_per_device_ <=? Z.of_nat (length pending) then
    throw kQueueFull "Device queue full, use offline delivery"
  else
    modify (λ w, set_rw_queues (<[key := pending ++ [envelope]]> (rw_queues w)) w) ;;!
    match enqueue_hook_ with
    | Some hook => modify (λ w, set_rw_hook (hook key envelope (rw_hook w)) w)
    | None => mok tt
    end.

Definition Dequeue (user_id : UserId) (device_id : DeviceId) (max_count : Z) (w : RelayWorld Hook)
    : list QueuedEnvelope * RelayWorld Hook :=
  let key := DeviceScopeKey user_id device_id in
  match rw_queues w !! key with
  | None => ([], w)
  | Some pending =>
      let count := Z.to_nat (Z.min max_count (Z.of_nat (length pending))) in
      (take count pending, set_rw_queues (<[key := drop count pending]> (rw_queues w)) w)
  end.

Definition Acknowledge (user_id : UserId) (device_id : DeviceId) (envelope_id : EnvelopeId)
    (now : Timestamp) : M (RelayWorld Hook) unit :=
  on_relay_db (EnvelopeRepository.MarkAcked envelope_id user_id device_id now).

(** A failed [AddDeliveryState] is only logged. *)
Definition SwitchToOffline (user_id : UserId) (device_id : DeviceId) (now : Timestamp)
    (w : RelayWorld Hook) : RelayWorld Hook :=
  let key := DeviceScopeKey user_id device_id in
  match rw_queues w !! key with
  | None => w
  | Some pending =>
      let db := foldl (λ db env,
        (EnvelopeRepository.AddDeliveryState (q_envelope_id env) user_id device_id now db).2)
        (rw_db w) pending in
      set_rw_queues (<[key := []]> (rw_queues w)) (set_rw_db db w)
  end.

Definition QueueSize (user_id : UserId) (device_id : DeviceId) (w : RelayWorld Hook) : nat :=
  match rw_queues w !! DeviceScopeKey user_id device_id with
  | None => 0
  | Some pending => length pending
  end.

Definition PurgeConversationFromDeviceQueue (conversation_id : ConversationId) (user_id : UserId)
    (device_id : DeviceId) (w : RelayWorld Hook) : RelayWorld Hook :=
  let key := DeviceScopeKey user_id device_id in
  match rw_queues w !! key with
  | None => w
  | Some pending =>
      set_rw_queues
        (<[key := filter (λ q, q_conversation_id q ≠ conversation_id) pending]> (rw_queues w)) w
  end.

(** ** The queue of a key *)

(** A missing queue is an empty one. *)
Definition queue_at (key : string) (w : RelayWorld Hook) : list QueuedEnvelope :=
  default [] (rw_queues w !! key).

Definition queue_of (user : UserId) (device : DeviceId) (w : RelayWorld Hook) : list QueuedEnvelope :=
  queue_at (DeviceScopeKey user device) w.

Definition has_room (user : UserId) (device : DeviceId) (w : RelayWorld Hook) : Prop :=
  Z.of_nat (length (queue_of user device w)) < max_queue_per_device_.
#[export] Instance has_room_dec u d w : Decision (has_room u d w).
Proof. unfold has_room. apply _. Defined.

Definition run_hook (key : string) (env : QueuedEnvelope) (h : Hook) : Hook :=
  match enqueue_hook_ with Some hook => hook key env h | None => h end.

Lemma queue_at_insert key q k w :
  queue_at k (set_rw_queues (<[key := q]> (rw_queues w)) w) = if decide (k = key) then q else queue_at k w.
Proof.
  unfold queue_at. simpl. case_decide as Hk; [by rewrite Hk, lookup_insert_eq|by rewrite lookup_insert_ne].
Qed.

(** Every outcome of [Enqueue]: with room the envelope goes to the back of the
    device's queue and the hook runs; without, no queue changes. *)
Lemma Enqueue_run u d env w :
  ∃ w', Enqueue u d env w =
    (if decide (has_room u d w) then Ok tt
     else Err (mkError kQueueFull "Device queue full, use offline delivery"), w') ∧
    rw_db w' = rw_db w ∧
    rw_hook w' = (if decide (has_room u d w) then run_hook (DeviceScopeKey u d) env (rw_hook w) else rw_hook w) ∧
    ∀ k, queue_at k w' =
      if decide (k = DeviceScopeKey u d ∧ has_room u d w) then queue_at k w ++ [env] else queue_at k w.
Proof.
  unfold Enqueue, run_hook, bind. set (key := DeviceScopeKey u d).
  assert (Hg : ∃ w1, GetOrCreateQueue u d w = (Ok (queue_at key w), w1) ∧ rw_db w1 = rw_db w ∧
    rw_hook w1 = rw_hook w ∧ ∀ k, queue_at k w1 = queue_at k w).
  { unfold GetOrCreateQueue, queue_at. fold key. destruct (rw_queues w !! key) eqn:E; [by exists w|].
    eexists. split; [done|]. split; [done|]. split; [done|]. intros k. simpl.
    destruct (decide (k = key)) as [->|]; [by rewrite lookup_insert_eq, E|by rewrite lookup_insert_ne]. }
  destruct Hg as (w1 & -> & Hdb & Hh & Hq).
  destruct (decide (has_room u d w)) as [Hr|Hr]; unfold has_room, queue_of in Hr; fold key in Hr.
  - destruct (Z.leb_spec max_queue_per_device_ (Z.of_nat (length (queue_at key w)))) as [?|_]; [lia|].
    unfold modify, mok. destruct enqueue_hook_ as [hook|]; eexists; (split; [reflexivity|]);
      simpl; rewrite ?Hh, ?Hdb; (split; [done|]); (split; [done|]); intros k; unfold queue_at in *; simpl;
      (destruct (decide (k = key)) as [->|Hk];
       [by rewrite lookup_insert_eq, decide_True|
        rewrite lookup_insert_ne, Hq, decide_False by (tauto || congruence); done]).
  - destruct (Z.leb_spec max_queue_per_device_ (Z.of_nat (length (queue_at key w)))) as [_|?]; [|lia].
    exists w1. split; [done|]. split; [done|]. split; [done|]. intros k. rewrite decide_False by tauto. apply Hq.
Qed.

Lemma Dequeue_run u d n w :
  (Dequeue u d n w).1 ++ queue_of u d (Dequeue u d n w).2 = queue_of u d w ∧
  (∀ k, k ≠ DeviceScopeKey u d -> queue_at k (Dequeue u d n w).2 = queue_at k w) ∧
  length (Dequeue u d n w).1 = Z.to_nat (Z.min n (Z.of_nat (length (queue_of u d w)))) ∧
  rw_db (Dequeue u d n w).2 = rw_db w ∧ rw_hook (Dequeue u d n w).2 = rw_hook w.
Proof.
  unfold Dequeue, queue_of, queue_at. destruct (rw_queues w !! DeviceScopeKey u d) as [q|] eqn:E; simpl.
  - rewrite lookup_insert_eq. simpl. split; [apply take_drop|]. split.
    + intros k Hk. by rewrite lookup_insert_ne.
    + rewrite length_take. split; [lia|done].
  - rewrite E. split; [done|]. split; [done|]. split; [simpl; lia|done].
Qed.

Lemma PurgeConversation_run c u d w :
  rw_db (PurgeConversationFromDeviceQueue c u d w) = rw_db w ∧
  rw_hook (PurgeConversationFromDeviceQueue c u d w) = rw_hook w ∧
  ∀ k, queue_at k (PurgeConversationFromDeviceQueue c u d w) =
    if decide (k = DeviceScopeKey u d) then filter (λ q, q_conversation_id q ≠ c) (queue_at k w)
    else queue_at k w.
Proof.
  unfold PurgeConversationFromDeviceQueue, queue_at.
  destruct (rw_queues w !! DeviceScopeKey u d) as [q|] eqn:E; simpl;
    (split; [done|]); (split; [done|]); intros k; case_decide as Hk; subst.
  - by rewrite lookup_insert_eq, E.
  - by rewrite lookup_insert_ne.
  - by rewrite E.
  - done.
Qed.

Lemma SwitchToOffline_queues u d now w k :
  queue_at k (SwitchToOffline u d now w) = if decide (k = DeviceScopeKey u d) then [] else queue_at k w.
Proof.
  unfold SwitchToOffline, queue_at. destruct (rw_queues w !! DeviceScopeKey u d) as [q|] eqn:E; simpl;
    case_decide as Hk; subst.
  - by rewrite lookup_insert_eq.
  - by rewrite lookup_insert_ne.
  - by rewrite E.
  - done.
Qed.

(** ** Sequences of calls *)

Inductive delivery_op :=
  | OEnqueue (u : UserId) (d : DeviceId) (env : QueuedEnvelope)
  | ODequeue (u : UserId) (d : DeviceId) (max_count : Z)
  | OAcknowledge (u : UserId) (d : DeviceId) (e : EnvelopeId) (now : Timestamp)
  | OSwitchToOffline (u : UserId) (d : DeviceId) (now : Timestamp)
  | OPurge (c : ConversationId) (u : UserId) (d : DeviceId).

(** The envelopes a call accepts into a queue and those it hands out, with the key
    of the queue. *)
Record delivery_events := mkEvents {
  accepted : list (string * QueuedEnvelope);
  handed_out : list (string * QueuedEnvelope) }.

Definition run_delivery_op (op : delivery_op) (w : RelayWorld Hook) : delivery_events * RelayWorld Hook :=
  match op with
  | OEnqueue u d env =>
      match Enqueue u d env w with
      | (Ok _, w') => (mkEvents [(DeviceScopeKey u d, env)] [], w')
      | (Err _, w') => (mkEvents [] [], w')
      end
  | ODequeue u d n =>
      let '(l, w') := Dequeue u d n w in (mkEvents [] ((λ e, (DeviceScopeKey u d, e)) <$> l), w')
  | OAcknowledge u d e now => (mkEvents [] [], (Acknowledge u d e now w).2)
  | OSwitchToOffline u d now => (mkEvents [] [], SwitchToOffline u d now w)
  | OPurge c u d => (mkEvents [] [], PurgeConversationFromDeviceQueue c u d w)
  end.

Fixpoint run_delivery_ops (ops : list delivery_op) (w : RelayWorld Hook)
    : delivery_events * RelayWorld Hook :=
  match ops with
  | [] => (mkEvents [] [], w)
  | op :: ops' =>
      let '(ev, w1) := run_delivery_op op w in
      let '(ev', w2) := run_delivery_ops ops' w1 in
      (mkEvents (accepted ev ++ accepted ev') (handed_out ev ++ handed_out ev'), w2)
  end.

(** The calls that drop envelopes from the queue of [key]. *)
Definition discards (key : string) (op : delivery_op) : Prop :=
  match op with
  | OSwitchToOffline u d _ | OPurge _ u d => DeviceScopeKey u d = key
  | _ => False
  end.

Definition at_key (key : string) (l : list (string * QueuedEnvelope)) : list QueuedEnvelope :=
  snd <$> filter (λ p, p.1 = key) l.

Definition queues_bounded (w : RelayWorld Hook) : Prop :=
  ∀ k, Z.of_nat (length (queue_at k w)) <= max_queue_per_device_.

Lemma at_key_app key l1 l2 : at_key key (l1 ++ l2) = at_key key l1 ++ at_key key l2.
Proof. unfold at_key. by rewrite filter_app, fmap_app. Qed.

Lemma at_key_tagged key k (l : list QueuedEnvelope) :
  at_key key ((λ e, (k, e)) <$> l) = if decide (k = key) then l else [].
Proof.
  unfold at_key. induction l as [|e l IH]; [by case_decide|].
  rewrite fmap_cons, filter_cons. simpl. revert IH. case_decide as Hk; intros IH; [|done].
  rewrite fmap_cons. simpl. by f_equal.
Qed.

Lemma run_delivery_op_fifo op w ev w' key :
  run_delivery_op op w = (ev, w') -> ¬ discards key op ->
  queue_at key w ++ at_key key (accepted ev) = at_key key (handed_out ev) ++ queue_at key w'.
Proof.
  intros Hrun Hd. destruct op as [u d env|u d n|u d e now|u d now|c u d]; simpl in Hrun, Hd.
  - destruct (Enqueue_run u d env w) as (w1 & E & _ & _ & Hq). rewrite E in Hrun. specialize (Hq key).
    destruct (decide (has_room u d w)) as [Hr|Hr]; injection Hrun as <- <-; rewrite Hq; simpl.
    + change [(DeviceScopeKey u d, env)] with ((λ e, (DeviceScopeKey u d, e)) <$> [env]).
      rewrite at_key_tagged. repeat case_decide; try naive_solver. by rewrite app_nil_r.
    + rewrite decide_False by tauto. apply app_nil_r.
  - destruct (Dequeue_run u d n w) as (Hq & Hne & _). destruct (Dequeue u d n w) as [l w1].
    injection Hrun as <- <-. simpl in *. rewrite app_nil_r, at_key_tagged. case_decide as Hk.
    + subst key. done.
    + simpl. symmetry. apply Hne. congruence.
  - injection Hrun as <- <-. simpl. rewrite app_nil_r. unfold Acknowledge, on_relay_db, zoom.
    by destruct (EnvelopeRepository.MarkAcked _ _ _ _ _).
  - injection Hrun as <- <-. simpl. rewrite app_nil_r, SwitchToOffline_queues, decide_False; [done|congruence].
  - injection Hrun as <- <-. simpl. destruct (PurgeConversation_run c u d w) as (_ & _ & Hq).
    rewrite app_nil_r, Hq, decide_False; [done|congruence].
Qed.

Lemma run_delivery_op_bounded op w : queues_bounded w -> queues_bounded (run_delivery_op op w).2.
Proof.
  intros Hb k. specialize (Hb k). destruct op as [u d env|u d n|u d e now|u d now|c u d]; simpl.
  - destruct (Enqueue_run u d env w) as (w1 & -> & _ & _ & Hq). specialize (Hq k).
    destruct (decide (has_room u d w)) as [Hr|Hr]; simpl; rewrite Hq; [|by rewrite decide_False by tauto].
    case_decide as Hk; [|done]. destruct Hk as [-> _]. rewrite length_app. simpl.
    unfold has_room, queue_of in Hr. lia.
  - destruct (Dequeue_run u d n w) as (Hq & Hne & _). destruct (Dequeue u d n w) as [l w1]. simpl in *.
    destruct (decide (k = DeviceScopeKey u d)) as [->|Hk]; [|by rewrite Hne].
    apply (f_equal length) in Hq. rewrite length_app in Hq. unfold queue_of in Hq. lia.
  - unfold Acknowledge, on_relay_db, zoom. by destruct (EnvelopeRepository.MarkAcked _ _ _ _ _).
  - rewrite SwitchToOffline_queues. case_decide; simpl; lia.
  - destruct (PurgeConversation_run c u d w) as (_ & _ & ->). case_decide; [|done].
    pose proof (length_filter (λ q, q_conversation_id q ≠ c) (queue_at k w)). lia.
Qed.

(** C14: The queue of a device is a bounded FIFO.  Over any sequence of calls on any
    devices, the envelopes accepted for a device are handed out to it exactly once
    and in the order they were accepted, the rest still being queued, as long as
    its queue is not purged or switched offline; and no call takes a queue over
    [max_queue_per_device]. *)
Theorem delivery_queue_fifo ops w key :
  queues_bounded w ->
  let '(ev, w') := run_delivery_ops ops w in
  queues_bounded w' ∧
  (Forall (λ op, ¬ discards key op) ops ->
   queue_at key w ++ at_key key (accepted ev) = at_key key (handed_out ev) ++ queue_at key w').
Proof.
  revert w. induction ops as [|op ops IH]; intros w Hb; simpl.
  { split; [done|]. intros _. apply app_nil_r. }
  pose proof (run_delivery_op_bounded op w Hb) as Hb1.
  destruct (run_delivery_op op w) as [ev w1] eqn:E1. specialize (IH w1 Hb1).
  destruct (run_delivery_ops ops w1) as [ev' w2]. destruct IH as [Hb2 IH]. split; [done|].
  intros [Hop Hops]%Forall_cons. simpl. rewrite !at_key_app, app_assoc.
  rewrite (run_delivery_op_fifo op w ev w1 key E1 Hop), <- !app_assoc. f_equal. by apply IH.
Qed.

(** ** Going offline *)

(** The row [SwitchToOffline] adds for an envelope. *)
Definition offline_row (u : UserId) (d : DeviceId) (now : Timestamp) (e : EnvelopeId)
    : DeliveryStateRecord := mkDeliveryStateRecord e u d now None None.

Lemma AddDeliveryState_run e u d now db :
  e ∈ e_envelope_id <$> encrypted_envelopes db -> (u, d) ∈ device_key <$> devices db ->
  (EnvelopeRepository.AddDeliveryState e u d now db).2 =
  if decide ((e, (u, d)) ∈ delivery_key <$> delivery_state db) then db
  else set_delivery_state (sql_insert (offline_row u d now e) (delivery_state db)) db.
Proof.
  intros He Hd. unfold EnvelopeRepository.AddDeliveryState, exec, insert_delivery_state.
  fold (offline_row u d now e).
  rewrite (proj2 (has_envelope_true db _)), (proj2 (has_device_true db _)) by done. simpl.
  case_decide as Hk; destruct (sql_exists _ _) eqn:Ex; try done; exfalso.
  - apply list_elem_of_fmap in Hk as (r & Er & Hr).
    by apply (proj1 (sql_exists_false _ _) Ex r Hr).
  - apply Hk. apply sql_exists_true in Ex as (r & Hr & Er).
    change ((e, (u, d))) with (delivery_key (offline_row u d now e)). rewrite <- Er.
    by apply list_elem_of_fmap_2.
Qed.

(** The delivery rows after the loop of [SwitchToOffline]; no other table changes. *)
Lemma persist_rows u d now pending db :
  (u, d) ∈ device_key <$> devices db ->
  Forall (λ q, q_envelope_id q ∈ e_envelope_id <$> encrypted_envelopes db) pending ->
  let db' := foldl (λ db env,
    (EnvelopeRepository.AddDeliveryState (q_envelope_id env) u d now db).2) db pending in
  (∃ t, db' = set_delivery_state t db) ∧
  ∀ r, r ∈ delivery_state db' <-> r ∈ delivery_state db ∨
    ∃ q, q ∈ pending ∧ r = offline_row u d now (q_envelope_id q) ∧
      delivery_key r ∉ delivery_key <$> delivery_state db.
Proof.
  revert db. induction pending as [|q pending IH]; intros db Hd Hq; simpl.
  { split; [exists (delivery_state db); by destruct db|]. intros r. split; [by left|].
    intros [Hr|(q & Hq' & _)]; [done|by apply not_elem_of_nil in Hq']. }
  apply Forall_cons in Hq as [Hq Hpending].
  pose proof (AddDeliveryState_run (q_envelope_id q) u d now db Hq Hd) as ->.
  case_decide as Hk.
  - destruct (IH db Hd Hpending) as [Hframe Hrows]. split; [done|]. intros r. rewrite Hrows.
    setoid_rewrite elem_of_cons. split; [naive_solver|].
    intros [Hr|(q' & [->|Hq'] & -> & Hno)]; [by left|done|]. right. by exists q'.
  - match goal with |- context [foldl _ ?d0 _] => set (db1 := d0) end.
    destruct (IH db1 Hd Hpending) as [[t Ht] Hrows]. split; [exists t; by rewrite Ht|].
    intros r. rewrite Hrows. subst db1. simpl. rewrite elem_of_sql_insert. setoid_rewrite elem_of_cons.
    unfold sql_insert. setoid_rewrite fmap_app. setoid_rewrite elem_of_app. simpl. split.
    + intros [[Hr| ->]|(q' & Hq' & -> & Hno)]; [by left| |]; right; [by exists q; auto|].
      exists q'. split; [by right|]. tauto.
    + intros [Hr|(q' & [->|Hq'] & -> & Hno)]; [by do 2 left|by left; right|].
      destruct (decide (q_envelope_id q' = q_envelope_id q)) as [->|Hne]; [by left; right|].
      right. exists q'. split; [done|]. split; [done|]. intros [?|Heq%list_elem_of_singleton]; [done|].
      unfold offline_row, delivery_key in Heq. simpl in Heq. congruence.
Qed.

(** Switching a device offline loses no message.  Every envelope of its queue that
    has no delivery row yet gets one and is then among the device's pending
    envelopes, the rows that existed are kept, no other row appears, the queue is
    left empty, and no other queue and no other table changes. *)
Theorem SwitchToOffline_persists u d now w :
  (u, d) ∈ device_key <$> devices (rw_db w) ->
  Forall (λ q, q_envelope_id q ∈ e_envelope_id <$> encrypted_envelopes (rw_db w)) (queue_of u d w) ->
  let w' := SwitchToOffline u d now w in
  queue_of u d w' = [] ∧
  (∀ k, k ≠ DeviceScopeKey u d -> queue_at k w' = queue_at k w) ∧
  (∃ t, rw_db w' = set_delivery_state t (rw_db w)) ∧
  (∀ r, r ∈ delivery_state (rw_db w') <-> r ∈ delivery_state (rw_db w) ∨
    ∃ q, q ∈ queue_of u d w ∧ r = offline_row u d now (q_envelope_id q) ∧
      delivery_key r ∉ delivery_key <$> delivery_state (rw_db w)) ∧
  (∀ q, q ∈ queue_of u d w ->
    (q_envelope_id q, (u, d)) ∉ delivery_key <$> delivery_state (rw_db w) ->
    ∃ e, e ∈ EnvelopeRepository.pending_rows u d (rw_db w') ∧ e_envelope_id e = q_envelope_id q).
Proof.
  intros Hd Hq w'. unfold queue_of. split.
  { unfold w'. by rewrite SwitchToOffline_queues, decide_True. }
  split. { intros k Hk. unfold w'. by rewrite SwitchToOffline_queues, decide_False. }
  assert (Hdb : rw_db w' = foldl (λ db env,
    (EnvelopeRepository.AddDeliveryState (q_envelope_id env) u d now db).2) (rw_db w) (queue_of u d w)).
  { unfold w', SwitchToOffline, queue_of, queue_at. by destruct (rw_queues w !! DeviceScopeKey u d). }
  destruct (persist_rows u d now (queue_of u d w) (rw_db w) Hd Hq) as [[t Ht] Hrows].
  cbv zeta in *. rewrite <- Hdb in Ht, Hrows. split; [by exists t|]. split; [done|].
  intros q Hin Hno. assert (He := proj1 (Forall_forall _ _) Hq q Hin). simpl in He.
  apply list_elem_of_fmap in He as (e & Ee & He). exists e. split; [|done].
  apply EnvelopeRepository.elem_of_pending_rows. split; [by rewrite Ht|].
  exists (offline_row u d now (q_envelope_id q)). split; [|by rewrite <- Ee].
  apply Hrows. right. by exists q.
Qed.
End DeliveryManager.

Section witnesses.
#[local] Existing Instance rowid_engine.

(** A hook that records its calls. *)
Definition log_hook : option (string -> QueuedEnvelope -> list (string * QueuedEnvelope) ->
    list (string * QueuedEnvelope)) := Some (λ k e log, log ++ [(k, e)]).

Definition sample_queued (id : string) : QueuedEnvelope :=
  mkQueuedEnvelope id "g1" "u1" "d1" "ct" 2000 0 None.

(** The second device has one envelope queued and two delivery rows. *)
Definition sample_relay_world : RelayWorld (list (string * QueuedEnvelope)) :=
  mkRelayWorld EnvelopeRepository.sample_mail_db {[ DeviceScopeKey "u2" "d2" := [sample_queued "e0"] ]} [].

Lemma sample_relay_bounded : queues_bounded 2 sample_relay_world.
Proof.
  intros k. unfold queue_at. simpl. destruct (decide (k = DeviceScopeKey "u2" "d2")) as [->|Hk].
  - rewrite lookup_singleton_eq. simpl. lia.
  - rewrite lookup_singleton_ne by done. simpl. lia.
Qed.

Lemma delivery_queue_fifo_witness :
  let '(ev, w') := run_delivery_ops log_hook 2
    [OEnqueue "u2" "d2" (sample_queued "e1"); OEnqueue "u2" "d2" (sample_queued "e2"); ODequeue "u2" "d2" 1]
    sample_relay_world in
  [sample_queued "e0"; sample_queued "e1"] =
  at_key (DeviceScopeKey "u2" "d2") (handed_out ev) ++ queue_at (DeviceScopeKey "u2" "d2") w'.
Proof.
  apply (delivery_queue_fifo log_hook 2
    [OEnqueue "u2" "d2" (sample_queued "e1"); OEnqueue "u2" "d2" (sample_queued "e2"); ODequeue "u2" "d2" 1]
    sample_relay_world (DeviceScopeKey "u2" "d2") sample_relay_bounded).
  repeat constructor; intros [].
Defined.

Lemma SwitchToOffline_persists_witness :
  ∃ e, e ∈ EnvelopeRepository.pending_rows "u2" "d2"
             (rw_db (SwitchToOffline "u2" "d2" 2500 sample_relay_world)) ∧ e_envelope_id e = "e0".
Proof.
  apply (SwitchToOffline_persists "u2" "d2" 2500 sample_relay_world) with (q := sample_queued "e0").
  - apply (bool_decide_unpack _). vm_compute. exact I.
  - apply (bool_decide_unpack _). vm_compute. exact I.
  - apply (bool_decide_unpack _). vm_compute. exact I.
  - apply (bool_decide_unpack _). vm_compute. exact I.
Defined.
End witnesses.
End DeliveryManager.
