(* ===== verification/Relay.v ===== *)
(** * RelayService (lib/vox_relay/relay_service.cpp)

    Sending an envelope: who may post to a conversation, storing the envelope and
    fanning it out to the devices of the participants, through the in-memory
    queues or, when a queue is full, through [delivery_state] rows. *)

From S2P Require Import Prelude Types Sql Database Samples Hex Paging Uuid Devices Conversations Envelopes Delivery.

Record SendMessageRequest := mkSendMessageRequest {
  sm_sender_user_id : UserId;
  sm_sender_device_id : DeviceId;
  sm_conversation_id : ConversationId;
  sm_ciphertext : string;
  sm_envelope_id : string;
  sm_envelope_type : Z;
  sm_ordering_epoch : option Z }.

Record SendMessageResponse := mkSendMessageResponse {
  sr_envelope_id : EnvelopeId;
  sr_server_timestamp : Timestamp;
  sr_delivered_to_count : nat }.

(** [s.find(needle) != std::string::npos]. *)
Fixpoint string_find (needle s : string) : bool :=
  String.prefix needle s ||
  match s with
  | EmptyString => false
  | String _ s' => string_find needle s'
  end.

(** A JSON string literal without escapes. *)
Definition quoted (s : string) : string :=
  String (ascii_of_byte 34) (s +:+ String (ascii_of_byte 34) EmptyString).

(** The member of a policy blob that lets every subscriber of a channel post. *)
Definition kPostPolicyEveryone : string := quoted "channel_post_policy" +:+ ":" +:+ quoted "everyone".

Module RelayService.
Import DeliveryManager.
Section RelayService.
Context `{SqlEngine} {Hook : Type}.
Context (enqueue_hook_ : option (string -> QueuedEnvelope -> Hook -> Hook)).
Context (max_queue_per_device_ message_retention_seconds : Z).
Implicit Types w : RelayWorld Hook.

Definition request_envelope_id (request : SendMessageRequest) (draw : Z * Z) : EnvelopeId :=
  if sm_envelope_id request =s? "" then GenerateUuid draw else sm_envelope_id request.

(** The checks up to the duplicate check: the conversation the message goes to. *)
Definition check_post (request : SendMessageRequest) (envelope_id : EnvelopeId)
    : M (RelayWorld Hook) ConversationRow :=
  if sm_ciphertext request =s? "" then throw kInvalidArgument "Ciphertext is required" else
  let! sender_device := gets (λ w, FindByUserAndDevice (sm_sender_user_id request)
                                     (sm_sender_device_id request) (rw_db w)) in
  match sender_device with
  | None => throw kUnauthorized "Sender device not found"
  | Some sender_device =>
    let! conv := gets (λ w, ConversationRepository.FindById (sm_conversation_id request) (rw_db w)) in
    match conv with
    | None => throw kNotFound "Conversation not found"
    | Some conv =>
      let! is_member := gets (λ w, ConversationRepository.IsUserInConversation
        (sm_conversation_id request) (d_user_id sender_device) (rw_db w)) in
      if negb is_member then throw kForbidden "Sender is not a member of this conversation" else
      (if decide (c_type conv = kChannel) then
         let! subscribed := gets (λ w, ConversationRepository.IsUserInConversation
           (sm_conversation_id request) (d_user_id sender_device) (rw_db w)) in
         if negb subscribed then throw kForbidden "Not subscribed to channel" else
         let admins_only := negb (string_find kPostPolicyEveryone (c_policy_blob conv)) in
         if admins_only then
           let! member := gets (λ w, ConversationRepository.GetMember
             (sm_conversation_id request) (d_user_id sender_device) (rw_db w)) in
           match member with
           | None => throw kForbidden "Only admins/owners can publish to this channel"
           | Some m =>
               if bool_decide (m_role m ≠ kOwner) && bool_decide (m_role m ≠ kAdmin)
               then throw kForbidden "Only admins/owners can publish to this channel"
               else mok tt
           end
         else mok tt
       else mok tt) ;;!
      let! duplicate := gets (λ w, EnvelopeRepository.CheckDuplicate envelope_id (rw_db w)) in
      if duplicate then throw kDuplicate "Duplicate envelope" else mok conv
    end
  end.

Definition make_envelope (request : SendMessageRequest) (envelope_id : EnvelopeId) (now : Timestamp)
    : EnvelopeRecord :=
  mkEnvelopeRecord envelope_id (sm_conversation_id request) (sm_sender_user_id request)
    (sm_sender_device_id request) (sm_ciphertext request) now (sm_envelope_type request)
    (if 0 <? message_retention_seconds then Some (i64_add now message_retention_seconds) else None)
    (sm_ordering_epoch request).

Definition make_queued (request : SendMessageRequest) (envelope_id : EnvelopeId) (now : Timestamp)
    : QueuedEnvelope :=
  mkQueuedEnvelope envelope_id (sm_conversation_id request) (sm_sender_user_id request)
    (sm_sender_device_id request) (sm_ciphertext request) now (sm_envelope_type request)
    (sm_ordering_epoch request).

Definition target_users (conv : ConversationRow) (conv_id : ConversationId) (db : Database) : list UserId :=
  if decide (c_type conv = kChannel) then ConversationRepository.GetSubscribers conv_id db
  else m_user_id <$> ConversationRepository.GetMembers conv_id db.

(** [Enqueue], or a delivery row when the queue refuses the envelope. *)
Definition deliver_to (queued : QueuedEnvelope) (now : Timestamp) (uid : UserId) (device_id : DeviceId)
    (delivered_count : nat) : M (RelayWorld Hook) nat :=
  let! enqueue_result := attempt (Enqueue enqueue_hook_ max_queue_per_device_ uid device_id queued) in
  match enqueue_result with
  | Ok _ => mok (S delivered_count)
  | Err _ =>
      attempt (on_relay_db
        (EnvelopeRepository.AddDeliveryState (q_envelope_id queued) uid device_id now)) ;;!
      mok delivered_count
  end.

(** The nested loops over the target users and their devices. *)
Definition fan_out (request : SendMessageRequest) (queued : QueuedEnvelope) (now : Timestamp)
    (users : list UserId) : M (RelayWorld Hook) nat :=
  for_fold users (λ delivered_count uid,
    let! user_devices := gets (λ w, GetDevicesForUser uid (rw_db w)) in
    for_fold user_devices (λ delivered_count dev,
      match d_revoked_at dev with
      | Some _ => mok delivered_count
      | None =>
          if (d_user_id dev =s? sm_sender_user_id request) && (d_device_id dev =s? sm_sender_device_id request)
          then mok delivered_count
          else deliver_to queued now uid (d_device_id dev) delivered_count
      end) delivered_count) 0%nat.

Definition SendEnvelope (request : SendMessageRequest) (now : Timestamp) (draw : Z * Z)
    : M (RelayWorld Hook) SendMessageResponse :=
  let envelope_id := request_envelope_id request draw in
  let! conv := check_post request envelope_id in
  on_relay_db (EnvelopeRepository.StoreEnvelope (make_envelope request envelope_id now)) ;;!
  let! targets := gets (λ w, target_users conv (sm_conversation_id request) (rw_db w)) in
  let! delivered_count := fan_out request (make_queued request envelope_id now) now targets in
  mok (mkSendMessageResponse envelope_id now delivered_count).

Definition SyncOffline (user_id : UserId) (device_id : DeviceId) (limit : Z) (w : RelayWorld Hook)
    : list EnvelopeRecord :=
  EnvelopeRepository.GetPendingForDevice user_id device_id limit (rw_db w).

Definition AcknowledgeEnvelope (user_id : UserId) (device_id : DeviceId) (envelope_id : EnvelopeId)
    (now : Timestamp) : M (RelayWorld Hook) unit :=
  Acknowledge user_id device_id envelope_id now.

(** ** Who may post *)

(** The declarative reading of the checks. *)
Definition may_post (request : SendMessageRequest) (envelope_id : EnvelopeId) (db : Database) : Prop :=
  sm_ciphertext request ≠ "" ∧
  (sm_sender_user_id request, sm_sender_device_id request) ∈ device_key <$> devices db ∧
  ConversationRepository.participant db (sm_conversation_id request) (sm_sender_user_id request) ∧
  (∀ c, c ∈ conversations db -> c_conversation_id c = sm_conversation_id request ->
     c_type c = kChannel ->
     string_find kPostPolicyEveryone (c_policy_blob c) = true ∨
     ∃ m, m ∈ conversation_members db ∧
       active_member (sm_conversation_id request) (sm_sender_user_id request) m ∧
       (m_role m = kOwner ∨ m_role m = kAdmin)) ∧
  envelope_id ∉ e_envelope_id <$> encrypted_envelopes db.

Lemma check_post_state request eid w : (check_post request eid w).2 = w.
Proof.
  unfold check_post, bind, gets, throw, mok. repeat (case_match; simplify_eq/=; try done).
Qed.

Lemma FindByUserAndDevice_is_Some u d db :
  (u, d) ∈ device_key <$> devices db <-> ∃ x, FindByUserAndDevice u d db = Some x.
Proof.
  destruct (FindByUserAndDevice u d db) as [x|] eqn:E.
  - split; [by exists x|]. intros _. apply FindByUserAndDevice_Some in E as (Hx & <- & <-).
    apply list_elem_of_fmap. by exists x.
  - apply FindByUserAndDevice_None in E. split; [done|]. by intros [? ?].
Qed.

(** The role check of a channel, read off the members table. *)
Lemma GetMember_publisher conv user db :
  db_wf db ->
  (∃ m, ConversationRepository.GetMember conv user db = Some m ∧
     bool_decide (m_role m ≠ kOwner) && bool_decide (m_role m ≠ kAdmin) = false) <->
  ∃ m, m ∈ conversation_members db ∧ active_member conv user m ∧ (m_role m = kOwner ∨ m_role m = kAdmin).
Proof.
  intros Hwf. split.
  - intros (m & [Hm Ha]%ConversationRepository.GetMember_Some & Hr). exists m. split; [done|].
    split; [done|]. destruct (m_role m); auto. by vm_compute in Hr.
  - intros (m & Hm & Ha & Hr). exists m. split; [by apply ConversationRepository.GetMember_iff|].
    by destruct Hr as [-> | ->].
Qed.

Lemma check_post_Ok request eid w c w' :
  db_wf (rw_db w) -> check_post request eid w = (Ok c, w') ->
  may_post request eid (rw_db w) ∧ w' = w ∧
  c ∈ conversations (rw_db w) ∧ c_conversation_id c = sm_conversation_id request.
Proof.
  intros Hwf Ha. pose proof (check_post_state request eid w) as Hs. rewrite Ha in Hs. simpl in Hs. subst w'.
  unfold check_post in Ha. destruct (sm_ciphertext request =s? "") eqn:Ect; [done|].
  apply String.eqb_neq in Ect. minv Ha. destruct (FindByUserAndDevice _ _ _) as [dev|] eqn:Edev; [|done].
  minv Ha. destruct (ConversationRepository.FindById _ _) as [conv|] eqn:Ec; [|done]. minv Ha.
  destruct (ConversationRepository.IsUserInConversation _ _ _) eqn:Ein; [|done]. simpl in Ha. minv Ha.
  destruct (EnvelopeRepository.CheckDuplicate _ _) eqn:Edup; [done|]. minv Ha.
  rename s into w, conv into c.
  apply FindByUserAndDevice_Some in Edev as (Hdev & Hu & Hd). rewrite Hu in *.
  apply ConversationRepository.FindById_Some in Ec as [Hc Hcid].
  apply ConversationRepository.IsUserInConversation_true in Ein; [|done].
  split; [|done]. split; [done|]. split.
  { apply list_elem_of_fmap. exists dev. unfold device_key. by rewrite Hu, Hd. }
  split; [done|]. split.
  - intros c' Hc' Hid Hch. assert (c' = c) as ->.
    { destruct Hwf as [[] _ _]. apply (NoDup_fmap_inj_on c_conversation_id (conversations (rw_db w))); congruence. }
    rewrite decide_True in E by done. minv E. destruct (negb _) eqn:Es; [done|].
    destruct (string_find _ _) eqn:Ep; [by left|right]. simpl in E. minv E.
    destruct (ConversationRepository.GetMember _ _ _) as [m|] eqn:Em; [|done].
    apply (GetMember_publisher (sm_conversation_id request) (sm_sender_user_id request) (rw_db w) Hwf).
    exists m. split; [done|]. by destruct (_ && _).
  - intros (e & Ee & He)%list_elem_of_fmap. by apply (proj1 (sql_exists_false _ _) Edup e).
Qed.

Lemma check_post_may_post request eid w :
  db_wf (rw_db w) -> may_post request eid (rw_db w) -> ∃ c, check_post request eid w = (Ok c, w).
Proof.
  intros Hwf (Hct & [dev Hdev]%FindByUserAndDevice_is_Some & Hin & Hpub & Hdup).
  apply (ConversationRepository.IsUserInConversation_true _ _ _ Hwf) in Hin.
  assert (Hc : ∃ c, ConversationRepository.FindById (sm_conversation_id request) (rw_db w) = Some c).
  { unfold ConversationRepository.IsUserInConversation in Hin. case_match; [by eexists|done]. }
  destruct Hc as [c Hc]. exists c. apply String.eqb_neq in Hct.
  pose proof (FindByUserAndDevice_Some _ _ _ _ Hdev) as (_ & Hu & _).
  unfold check_post, bind, gets. rewrite Hct, Hdev, Hc, Hu, Hin. simpl.
  assert (Hnd : EnvelopeRepository.CheckDuplicate eid (rw_db w) = false).
  { apply (proj2 (sql_exists_false _ _)). intros e He Ee. apply Hdup. rewrite <- Ee. by apply list_elem_of_fmap_2. }
  unfold mok. case_decide as Hch; [|by simpl; rewrite Hnd]. cbv beta. rewrite Hin. simpl.
  pose proof (ConversationRepository.FindById_Some _ _ _ Hc) as [Hcin Hcid].
  destruct (Hpub c Hcin Hcid Hch) as [-> | Hm]; [by simpl; rewrite Hnd|].
  apply (GetMember_publisher _ _ _ Hwf) in Hm as (m & Em & Er).
  destruct (negb _); simpl; rewrite ?Em, ?Er; simpl; by rewrite Hnd.
Qed.

(** ** The fan-out *)

Definition scope (t : UserId * DeviceId) : string := DeviceScopeKey t.1 t.2.

(** Where one envelope goes for one device. *)
Lemma deliver_to_run queued now u d n w :
  (u, d) ∈ device_key <$> devices (rw_db w) ->
  q_envelope_id queued ∈ e_envelope_id <$> encrypted_envelopes (rw_db w) ->
  (q_envelope_id queued, (u, d)) ∉ delivery_key <$> delivery_state (rw_db w) ->
  ∃ w', deliver_to queued now u d n w =
      (Ok (if decide (has_room max_queue_per_device_ u d w) then S n else n), w') ∧
    (∀ k, queue_at k w' =
       if decide (k = DeviceScopeKey u d ∧ has_room max_queue_per_device_ u d w)
       then queue_at k w ++ [queued] else queue_at k w) ∧
    rw_db w' = if decide (has_room max_queue_per_device_ u d w) then rw_db w
      else set_delivery_state
             (sql_insert (offline_row u d now (q_envelope_id queued)) (delivery_state (rw_db w))) (rw_db w).
Proof.
  intros Hd He Hno. unfold deliver_to, bind, attempt.
  destruct (Enqueue_run enqueue_hook_ max_queue_per_device_ u d queued w) as (w1 & -> & Hdb & _ & Hq).
  destruct (decide (has_room max_queue_per_device_ u d w)) as [Hr|Hr]; [by exists w1|].
  pose proof (AddDeliveryState_run (q_envelope_id queued) u d now (rw_db w) He Hd) as Hadd.
  rewrite decide_False in Hadd by done. rewrite <- Hdb in Hadd at 1.
  unfold on_relay_db, zoom. destruct (EnvelopeRepository.AddDeliveryState _ _ _ _ _) as [r db'].
  simpl in Hadd. subst db'. exists (set_rw_db (set_delivery_state
    (sql_insert (offline_row u d now (q_envelope_id queued)) (delivery_state (rw_db w))) (rw_db w)) w1).
  split; [done|]. split; [exact Hq|done].
Qed.

Definition deliver_all (queued : QueuedEnvelope) (now : Timestamp) (ts : list (UserId * DeviceId))
    (n : nat) : M (RelayWorld Hook) nat :=
  for_fold ts (λ n t, deliver_to queued now t.1 t.2 n) n.

(** A device whose queue is not touched keeps its room. *)
Lemma has_room_ext u d w w' :
  queue_of u d w' = queue_of u d w ->
  has_room max_queue_per_device_ u d w' <-> has_room max_queue_per_device_ u d w.
Proof. unfold has_room. by intros ->. Qed.

Lemma deliver_all_run queued now ts : ∀ n w,
  NoDup (scope <$> ts) -> ts ⊆ (device_key <$> devices (rw_db w)) ->
  q_envelope_id queued ∈ e_envelope_id <$> encrypted_envelopes (rw_db w) ->
  (∀ t, t ∈ ts -> (q_envelope_id queued, t) ∉ delivery_key <$> delivery_state (rw_db w)) ->
  ∃ w', deliver_all queued now ts n w =
      (Ok (n + length (filter (λ t, has_room max_queue_per_device_ t.1 t.2 w) ts))%nat, w') ∧
    (∀ t, t ∈ ts -> queue_of t.1 t.2 w' =
       if decide (has_room max_queue_per_device_ t.1 t.2 w) then queue_of t.1 t.2 w ++ [queued]
       else queue_of t.1 t.2 w) ∧
    (∀ k, k ∉ scope <$> ts -> queue_at k w' = queue_at k w) ∧
    rw_db w' = set_delivery_state
      (delivery_state (rw_db w) ++ ((λ t, offline_row t.1 t.2 now (q_envelope_id queued)) <$>
         filter (λ t, ¬ has_room max_queue_per_device_ t.1 t.2 w) ts)) (rw_db w).
Proof.
  induction ts as [|[u d] ts IH]; intros n w Hnd Hsub He Hno.
  { exists w. simpl. rewrite Nat.add_0_r, app_nil_r. split; [done|]. split; [by intros t ?%not_elem_of_nil|].
    split; [done|]. by destruct w as [[]]. }
  rewrite fmap_cons, NoDup_cons in Hnd. destruct Hnd as [Hfresh Hnd].
  destruct (deliver_to_run queued now u d n w) as (w1 & E1 & Hq1 & Hdb1).
  { apply Hsub. left. } { done. } { apply Hno. left. }
  assert (Hother : ∀ t, t ∈ ts -> queue_of t.1 t.2 w1 = queue_of t.1 t.2 w).
  { intros t Ht. unfold queue_of. rewrite Hq1, decide_False; [done|]. intros [E _]. apply Hfresh.
    change (scope (u, d)) with (DeviceScopeKey u d). rewrite <- E. by apply (list_elem_of_fmap_2 scope). }
  assert (Hroom : ∀ t, t ∈ ts -> has_room max_queue_per_device_ t.1 t.2 w1 <-> has_room max_queue_per_device_ t.1 t.2 w).
  { intros t Ht. by apply has_room_ext, Hother. }
  destruct (IH (if decide (has_room max_queue_per_device_ u d w) then S n else n) w1)
    as (w' & E' & Hin & Hout & Hdb'); [done|..].
  { intros t Ht. rewrite Hdb1. case_decide; apply Hsub; by right. }
  { rewrite Hdb1. by case_decide. }
  { intros t Ht. rewrite Hdb1. case_decide; [by apply Hno; right|]. simpl. unfold sql_insert.
    rewrite fmap_app, elem_of_app. intros [Hk|Hk%list_elem_of_singleton]; [by apply (Hno t); [right|]|].
    apply Hfresh. replace (u, d) with t by by injection Hk. by apply list_elem_of_fmap_2. }
  exists w'. unfold deliver_all in *. cbn [for_fold fst snd]. unfold bind at 1. rewrite E1, E'. split_and!.
  - rewrite filter_cons. simpl. rewrite (filter_ext_on _ _ _ Hroom).
    destruct (decide (has_room max_queue_per_device_ u d w)); simpl; do 2 f_equal; lia.
  - intros t [->|Ht]%elem_of_cons.
    + simpl. unfold queue_of. rewrite (Hout (DeviceScopeKey u d) Hfresh), Hq1.
      repeat case_decide; tauto.
    + rewrite (Hin t Ht), (Hother t Ht). destruct (Hroom t Ht). repeat case_decide; tauto.
  - intros k Hk. rewrite fmap_cons, not_elem_of_cons in Hk. destruct Hk as [Hk Hks].
    rewrite Hout, Hq1, decide_False; [done| |done]. by intros [-> _].
  - rewrite Hdb', Hdb1, filter_cons.
    rewrite (filter_ext_on (λ t, ¬ has_room max_queue_per_device_ t.1 t.2 w1)
      (λ t, ¬ has_room max_queue_per_device_ t.1 t.2 w)) by (intros t Ht; by rewrite Hroom).
    destruct (decide (has_room max_queue_per_device_ u d w)) as [Hr|Hr]; simpl.
    + by rewrite decide_False by tauto.
    + rewrite decide_True by done. simpl. unfold sql_insert. by rewrite <- app_assoc.
Qed.

(** The devices the loops deliver to. *)
Definition deliverable (request : SendMessageRequest) (dev : DeviceRecord) : Prop :=
  d_revoked_at dev = None ∧ device_key dev ≠ (sm_sender_user_id request, sm_sender_device_id request).
#[export] Instance deliverable_dec request dev : Decision (deliverable request dev).
Proof. unfold deliverable. apply _. Defined.

Definition user_targets (request : SendMessageRequest) (db : Database) (u : UserId)
    : list (UserId * DeviceId) :=
  (λ dev, (u, d_device_id dev)) <$> filter (deliverable request) (GetDevicesForUser u db).

Definition targets (request : SendMessageRequest) (us : list UserId) (db : Database)
    : list (UserId * DeviceId) :=
  u ← us; user_targets request db u.

Lemma for_fold_app {S A B} (l1 l2 : list A) (body : B -> A -> M S B) b s :
  for_fold (l1 ++ l2) body b s = bind (for_fold l1 body b) (for_fold l2 body) s.
Proof.
  revert b s. induction l1 as [|x l1 IH]; intros b s; [done|]. simpl. unfold bind in *.
  destruct (body b x s) as [[b'|e] s']; [apply IH|done].
Qed.

Lemma device_loop_targets request queued now u devs n w :
  for_fold devs (λ delivered_count dev,
      match d_revoked_at dev with
      | Some _ => mok delivered_count
      | None =>
          if (d_user_id dev =s? sm_sender_user_id request) && (d_device_id dev =s? sm_sender_device_id request)
          then mok delivered_count
          else deliver_to queued now u (d_device_id dev) delivered_count
      end) n w =
  deliver_all queued now ((λ dev, (u, d_device_id dev)) <$> filter (deliverable request) devs) n w.
Proof.
  revert n w. induction devs as [|dev devs IH]; intros n w; [done|]. simpl. rewrite filter_cons.
  unfold bind at 1. destruct (d_revoked_at dev) eqn:Er.
  { rewrite decide_False by (unfold deliverable; rewrite Er; naive_solver). apply IH. }
  destruct (String.eqb_spec (d_user_id dev) (sm_sender_user_id request)) as [Eu|Eu];
    destruct (String.eqb_spec (d_device_id dev) (sm_sender_device_id request)) as [Ed|Ed]; simpl.
  { rewrite decide_False by (unfold deliverable, device_key; rewrite Eu, Ed; tauto). apply IH. }
  all: rewrite decide_True by (unfold deliverable, device_key; split; [done|congruence]);
    unfold deliver_all; cbn [for_fold]; rewrite fmap_cons; cbn [for_fold fst snd]; unfold bind at 1;
    (destruct (deliver_to _ _ _ _ _ _) as [[n'|e] w']; [apply IH|done]).
Qed.

Lemma deliver_all_devices queued now ts n w n' w' :
  deliver_all queued now ts n w = (Ok n', w') -> devices (rw_db w') = devices (rw_db w).
Proof.
  intros Hd. enough (Hp : preserves (λ x : RelayWorld Hook, devices (rw_db x) = devices (rw_db w))
    (deliver_all queued now ts n)) by (specialize (Hp w eq_refl); by rewrite Hd in Hp).
  apply preserves_for_fold. intros n1 [u d] _ w1 Hw1. unfold deliver_to, bind, attempt.
  destruct (Enqueue_run enqueue_hook_ max_queue_per_device_ (u, d).1 (u, d).2 queued w1) as (w2 & -> & Hdb & _).
  case_decide; simpl; [congruence|]. unfold on_relay_db, zoom, EnvelopeRepository.AddDeliveryState, exec,
    insert_delivery_state. repeat case_match; simplify_eq/=; congruence.
Qed.

Lemma fan_out_targets request queued now us w :
  fan_out request queued now us w = deliver_all queued now (targets request us (rw_db w)) 0 w.
Proof.
  unfold fan_out. generalize 0%nat. revert w. induction us as [|u us IH]; intros w n; [done|].
  unfold targets. rewrite bind_cons. unfold deliver_all. rewrite for_fold_app. cbn [for_fold].
  unfold bind at 1 2 4, gets. rewrite device_loop_targets. fold (user_targets request (rw_db w) u).
  fold (deliver_all queued now (user_targets request (rw_db w) u) n).
  destruct (deliver_all _ _ _ n w) as [[n'|e] w'] eqn:E; [|done].
  apply deliver_all_devices in E. rewrite IH. unfold targets, deliver_all, user_targets, GetDevicesForUser.
  by rewrite E.
Qed.

(** User ids are UUIDs: they do not contain the separator of [DeviceScopeKey]. *)
Definition user_ids_ok (db : Database) : Prop :=
  Forall (λ x, contains_char (Ascii.ascii_of_nat 31) (u_user_id x) = false) (users db).

Lemma scope_inj db t1 t2 :
  db_wf db -> user_ids_ok db -> t1 ∈ device_key <$> devices db -> t2 ∈ device_key <$> devices db ->
  scope t1 = scope t2 -> t1 = t2.
Proof.
  intros [_ [] _] Hok H1 H2 E.
  assert (Hu : ∀ t, t ∈ device_key <$> devices db -> contains_char (Ascii.ascii_of_nat 31) t.1 = false).
  { intros t (x & -> & Hx)%list_elem_of_fmap. unfold device_key. simpl.
    assert (Hin : d_user_id x ∈ u_user_id <$> users db) by (apply fk_devices_user; by apply list_elem_of_fmap_2).
    apply list_elem_of_fmap in Hin as (y & -> & Hy). by apply (proj1 (Forall_forall _ _) Hok y). }
  destruct t1 as [u1 d1], t2 as [u2 d2].
  destruct (app_sep_inj (Ascii.ascii_of_nat 31) u1 u2 d1 d2 (Hu _ H1) (Hu _ H2) E) as [-> ->]. done.
Qed.

Lemma elem_of_target_users c conv db u :
  db_wf db -> c ∈ conversations db -> c_conversation_id c = conv ->
  u ∈ target_users c conv db <-> ConversationRepository.participant db conv u.
Proof.
  intros Hwf Hc Hid. unfold target_users, ConversationRepository.participant. split.
  - intros Hu. exists c. split; [done|]. split; [done|]. case_decide.
    + by apply ConversationRepository.elem_of_GetSubscribers.
    + apply list_elem_of_fmap in Hu as (m & -> & Hm).
      apply ConversationRepository.elem_of_GetMembers in Hm as (Hm & Hmc & Hmr). by exists m.
  - intros (c' & Hc' & Hid' & Hu). assert (c' = c) as ->.
    { destruct Hwf as [[] _ _]. apply (NoDup_fmap_inj_on c_conversation_id (conversations db)); congruence. }
    case_decide; [by apply ConversationRepository.elem_of_GetSubscribers|].
    destruct Hu as (m & Hm & Hmc & <- & Hmr). apply list_elem_of_fmap_2.
    by apply ConversationRepository.elem_of_GetMembers.
Qed.

Lemma NoDup_fst_fixed {R} (f : R -> string * string) (c : string) (P : R -> Prop) `{!∀ x, Decision (P x)} l :
  (∀ x, P x -> (f x).1 = c) -> NoDup (f <$> l) -> NoDup ((λ x, (f x).2) <$> filter P l).
Proof.
  intros HP Hnd. apply (NoDup_fmap_filter f P) in Hnd.
  assert (Hall : Forall (λ x, (f x).1 = c) (filter P l)).
  { apply Forall_forall. intros x [Hx _]%list_elem_of_filter. by apply HP. }
  induction (filter P l) as [|x l' IH]; [constructor|]. apply Forall_cons in Hall as [Hx Hall].
  rewrite fmap_cons, NoDup_cons in Hnd. rewrite fmap_cons, NoDup_cons. destruct Hnd as [Hnin Hnd].
  split; [|by apply IH].
  intros (y & Ey & Hy)%list_elem_of_fmap. apply Hnin, list_elem_of_fmap. exists y. split; [|done].
  pose proof (proj1 (Forall_forall _ _) Hall y Hy) as Hyc. simpl in Hyc.
  destruct (f x), (f y); simpl in *; congruence.
Qed.

Lemma NoDup_target_users c conv db : db_wf db -> NoDup (target_users c conv db).
Proof.
  intros [[] _ _]. unfold target_users. case_decide.
  - unfold ConversationRepository.GetSubscribers.
    rewrite (scan_perm TChannelSubscriptions _ : _ ≡ₚ _).
    refine (NoDup_fst_fixed subscription_key conv _ _ _ _); [by intros x [? _]|done].
  - unfold ConversationRepository.GetMembers. rewrite (scan_perm TConversationMembers _ : _ ≡ₚ _).
    refine (NoDup_fst_fixed member_key conv _ _ _ _); [by intros x [? _]|done].
Qed.

(** The devices that must receive a message: the live devices of the participants,
    the sending device excepted. *)
Definition recipient (request : SendMessageRequest) (db : Database) (t : UserId * DeviceId) : Prop :=
  ConversationRepository.participant db (sm_conversation_id request) t.1 ∧
  (∃ dev, dev ∈ devices db ∧ device_key dev = t ∧ d_revoked_at dev = None) ∧
  t ≠ (sm_sender_user_id request, sm_sender_device_id request).

Lemma elem_of_targets request us db t :
  t ∈ targets request us db <->
  t.1 ∈ us ∧ (∃ dev, dev ∈ devices db ∧ device_key dev = t ∧ d_revoked_at dev = None) ∧
  t ≠ (sm_sender_user_id request, sm_sender_device_id request).
Proof.
  unfold targets. rewrite list_elem_of_bind. unfold user_targets. setoid_rewrite list_elem_of_fmap.
  setoid_rewrite list_elem_of_filter. setoid_rewrite elem_of_GetDevicesForUser. unfold deliverable. split.
  - intros (u & (dev & -> & (Hr & Hs) & Hdev & <-) & Hu). simpl. split; [done|]. split; [by exists dev|done].
  - intros (Hu & (dev & Hdev & <- & Hr) & Hs). exists (d_user_id dev). split; [|done].
    exists dev. done.
Qed.

Lemma NoDup_targets request us db : db_wf db -> NoDup us -> NoDup (targets request us db).
Proof.
  intros Hwf. unfold targets. induction us as [|u us IH]; intros Hnd; [constructor|].
  apply NoDup_cons in Hnd as [Hu Hnd]. rewrite bind_cons. apply NoDup_app. split_and!; [|..|by apply IH].
  - unfold user_targets. rewrite (list_fmap_compose d_device_id (pair u) _). apply NoDup_fmap_2; [congruence|].
    apply NoDup_fmap_filter, NoDup_GetDevicesForUser, Hwf.
  - intros t (dev & -> & _)%list_elem_of_fmap Ht.
    apply (elem_of_targets request us db) in Ht as [Hin _]. done.
Qed.

(** ** Sending *)

Lemma deliver_all_total queued now ts n w : ∃ n' w', deliver_all queued now ts n w = (Ok n', w').
Proof.
  revert n w. induction ts as [|[u d] ts IH]; intros n w; [by exists n, w|].
  unfold deliver_all in *. cbn [for_fold]. unfold bind at 1.
  assert (Hd : ∃ n' w', deliver_to queued now (u, d).1 (u, d).2 n w = (Ok n', w')).
  { unfold deliver_to, bind, attempt, mok. destruct (Enqueue _ _ _ _ _ w) as [[]]; [by eexists _, _|].
    destruct (on_relay_db _ _) as [[]]; by eexists _, _. }
  destruct Hd as (n' & w' & ->). apply IH.
Qed.

(** The store after the envelope has been recorded. *)
Definition stored (request : SendMessageRequest) (eid : EnvelopeId) (now : Timestamp) (db : Database)
    : Database :=
  set_encrypted_envelopes (sql_insert (make_envelope request eid now) (encrypted_envelopes db)) db.

Lemma StoreEnvelope_may_post request eid now w :
  may_post request eid (rw_db w) ->
  on_relay_db (EnvelopeRepository.StoreEnvelope (make_envelope request eid now)) w =
  (Ok tt, set_rw_db (stored request eid now (rw_db w)) w).
Proof.
  intros (_ & Hd & (c & Hc & Hcid & _) & _ & Hfresh). unfold on_relay_db, zoom,
    EnvelopeRepository.StoreEnvelope, exec, insert_encrypted_envelopes.
  rewrite (proj2 (sql_exists_false _ _)).
  2: { intros e He Ee. apply Hfresh. change eid with (e_envelope_id (make_envelope request eid now)).
       rewrite <- Ee. by apply list_elem_of_fmap_2. }
  rewrite (proj2 (has_conversation_true _ _)), (proj2 (has_device_true _ _)); [done|done|].
  simpl. rewrite <- Hcid. by apply list_elem_of_fmap_2.
Qed.

Lemma SendEnvelope_total request now draw w :
  db_wf (rw_db w) -> may_post request (request_envelope_id request draw) (rw_db w) ->
  ∃ c n w', SendEnvelope request now draw w =
      (Ok (mkSendMessageResponse (request_envelope_id request draw) now n), w') ∧
    c ∈ conversations (rw_db w) ∧ c_conversation_id c = sm_conversation_id request ∧
    deliver_all (make_queued request (request_envelope_id request draw) now) now
      (targets request (target_users c (sm_conversation_id request) (rw_db w)) (rw_db w)) 0
      (set_rw_db (stored request (request_envelope_id request draw) now (rw_db w)) w) = (Ok n, w').
Proof.
  intros Hwf Hp. destruct (check_post_may_post request (request_envelope_id request draw) w Hwf Hp) as [c Ea].
  destruct (check_post_Ok _ _ _ _ _ Hwf Ea) as (_ & _ & Hc & Hcid).
  exists c. unfold SendEnvelope, bind at 1. rewrite Ea. unfold bind at 1.
  rewrite (StoreEnvelope_may_post _ _ _ _ Hp). unfold bind at 1, gets. unfold bind. rewrite fan_out_targets.
  match goal with |- context [deliver_all ?q ?t ?l 0 ?w1] =>
    destruct (deliver_all_total q t l 0 w1) as (n & w' & E) end.
  exists n, w'. rewrite E. split_and!; try done.
Qed.

(** C4: Sending succeeds exactly for those who may post: the ciphertext is not empty,
    the sending device is registered, its user takes part in the conversation
    (subscribes, for a channel), in a channel the policy opens posting to everyone
    or the user is an owner or admin, and the envelope id is new.  Any other
    request is refused without changing the database, a queue or a subscriber. *)
Theorem SendEnvelope_authorized request now draw w :
  db_wf (rw_db w) ->
  ((∃ resp w', SendEnvelope request now draw w = (Ok resp, w')) <->
   may_post request (request_envelope_id request draw) (rw_db w)) ∧
  (∀ e w', SendEnvelope request now draw w = (Err e, w') -> w' = w).
Proof.
  intros Hwf. assert (Hok : ∀ resp w', SendEnvelope request now draw w = (Ok resp, w') ->
    may_post request (request_envelope_id request draw) (rw_db w)).
  { intros resp w' Hs. unfold SendEnvelope in Hs. apply bind_Ok in Hs as (c & w1 & Ea & _).
    by apply check_post_Ok in Ea as [? _]. }
  split; [split|].
  - intros (resp & w' & Hs). by eapply Hok.
  - intros Hp. destruct (SendEnvelope_total request now draw w Hwf Hp) as (_ & n & w' & Hs & _). by eexists _, _.
  - intros e w' Hs. pose proof (check_post_state request (request_envelope_id request draw) w) as Hst.
    destruct (check_post request (request_envelope_id request draw) w) as [[c|e'] w1] eqn:Ea; simpl in Hst; subst w1.
    + apply check_post_Ok in Ea as [Hp _]; [|done].
      destruct (SendEnvelope_total request now draw w Hwf Hp) as (_ & n & w2 & Hs2 & _). congruence.
    + unfold SendEnvelope, bind at 1 in Hs. rewrite Ea in Hs. by injection Hs.
Qed.

(** An envelope that is not stored has no delivery row. *)
Lemma fresh_no_delivery eid db t :
  db_wf db -> eid ∉ e_envelope_id <$> encrypted_envelopes db ->
  (eid, t) ∉ delivery_key <$> delivery_state db.
Proof.
  intros [_ [] _] Hfresh (r & E & Hr)%list_elem_of_fmap. apply Hfresh.
  injection E as -> _. by apply fk_delivery_envelope, list_elem_of_fmap_2.
Qed.

Lemma no_offline_row eid now t ts rows :
  (eid, t) ∉ delivery_key <$> rows -> t ∉ ts ->
  (eid, t) ∉ delivery_key <$> (rows ++ ((λ t, offline_row t.1 t.2 now eid) <$> ts)).
Proof.
  intros Hno Hts. rewrite fmap_app, elem_of_app. intros [Hk|Hk]; [done|].
  apply list_elem_of_fmap in Hk as (r & Er & (t' & -> & Ht')%list_elem_of_fmap).
  injection Er as ->. by destruct t'.
Qed.

Lemma elem_of_targets_recipient request c db t :
  db_wf db -> c ∈ conversations db -> c_conversation_id c = sm_conversation_id request ->
  t ∈ targets request (target_users c (sm_conversation_id request) db) db <-> recipient request db t.
Proof.
  intros Hwf Hc Hid. rewrite elem_of_targets. unfold recipient. by rewrite elem_of_target_users.
Qed.

Lemma recipient_device request db t : recipient request db t -> t ∈ device_key <$> devices db.
Proof. intros (_ & (dev & Hdev & <- & _) & _). by apply list_elem_of_fmap_2. Qed.

(** Where the devices of the store stand after a fan-out. *)
Definition fanned_out (request : SendMessageRequest) (eid : EnvelopeId) (now : Timestamp)
    (w w' : RelayWorld Hook) (t : UserId * DeviceId) : Prop :=
  let untouched := queue_of t.1 t.2 w' = queue_of t.1 t.2 w in
  let no_row := (eid, t) ∉ delivery_key <$> delivery_state (rw_db w') in
  (recipient request (rw_db w) t ∧ has_room max_queue_per_device_ t.1 t.2 w ∧
   queue_of t.1 t.2 w' = queue_of t.1 t.2 w ++ [make_queued request eid now] ∧ no_row) ∨
  (recipient request (rw_db w) t ∧ ¬ has_room max_queue_per_device_ t.1 t.2 w ∧
   untouched ∧ offline_row t.1 t.2 now eid ∈ delivery_state (rw_db w')) ∨
  (¬ recipient request (rw_db w) t ∧ untouched ∧ no_row).

Lemma SendEnvelope_effect request now draw w resp w' :
  db_wf (rw_db w) -> user_ids_ok (rw_db w) ->
  SendEnvelope request now draw w = (Ok resp, w') ->
  let eid := request_envelope_id request draw in
  sr_envelope_id resp = eid ∧ sr_server_timestamp resp = now ∧
  encrypted_envelopes (rw_db w') = encrypted_envelopes (rw_db w) ++ [make_envelope request eid now] ∧
  (∀ t, t ∈ device_key <$> devices (rw_db w) -> fanned_out request eid now w w' t) ∧
  delivery_state (rw_db w) `prefix_of` delivery_state (rw_db w') ∧
  (∃ l, NoDup l ∧ sr_delivered_to_count resp = length l ∧
     ∀ t, t ∈ l <-> recipient request (rw_db w) t ∧ has_room max_queue_per_device_ t.1 t.2 w).
Proof.
  intros Hwf Hids Hs eid.
  assert (Hp : may_post request eid (rw_db w)).
  { unfold SendEnvelope in Hs. apply bind_Ok in Hs as (c & w1 & Ea & _). by apply check_post_Ok in Ea as [? _]. }
  destruct (SendEnvelope_total request now draw w Hwf Hp) as (c & n & w2 & Hs2 & Hc & Hcid & Hd).
  rewrite Hs in Hs2. injection Hs2 as -> <-. fold eid in Hd.
  set (ts := targets request (target_users c (sm_conversation_id request) (rw_db w)) (rw_db w)) in Hd.
  assert (Hts : ∀ t, t ∈ ts <-> recipient request (rw_db w) t) by (intros t; by apply elem_of_targets_recipient).
  assert (Hfresh : ∀ t, (eid, t) ∉ delivery_key <$> delivery_state (rw_db w))
    by (intros t; apply fresh_no_delivery; [done|by destruct Hp as (_ & _ & _ & _ & ?)]).
  assert (Hnd : NoDup ts) by (apply NoDup_targets, NoDup_target_users; done).
  assert (Hscope : ∀ t1 t2, t1 ∈ device_key <$> devices (rw_db w) -> t2 ∈ ts -> scope t1 = scope t2 -> t1 = t2).
  { intros t1 t2 H1 H2%Hts%recipient_device E. by eapply scope_inj. }
  destruct (deliver_all_run (make_queued request eid now) now ts 0
    (set_rw_db (stored request eid now (rw_db w)) w)) as (w3 & Hd3 & Hin & Hout & Hdb).
  { apply NoDup_fmap_2_strong; [|done]. intros t1 t2 H1 H2 E.
    apply (Hscope t1 t2); [|done|done]. by apply recipient_device with request, Hts. }
  { intros t Ht. by apply recipient_device with request, Hts. }
  { simpl. unfold stored, sql_insert. simpl. rewrite fmap_app, elem_of_app. right. by apply list_elem_of_singleton. }
  { intros t _. apply Hfresh. }
  rewrite Hd in Hd3. injection Hd3 as -> <-. simpl in *. rewrite Hdb. simpl. split_and!; try done.
  - intros t Ht. unfold fanned_out.
    destruct (decide (t ∈ ts)) as [Hrec|Hrec].
    + specialize (Hin t Hrec). rewrite Hdb. simpl. apply Hts in Hrec as Hr.
      destruct (decide (has_room max_queue_per_device_ t.1 t.2 w)) as [Hroom|Hroom].
      * left. rewrite decide_True in Hin by done. split_and!; try done.
        apply no_offline_row; [done|]. by intros [? _]%list_elem_of_filter.
      * right; left. rewrite decide_False in Hin by done. split_and!; try done.
        apply elem_of_app. right. apply list_elem_of_fmap. exists t. split; [done|].
        by apply list_elem_of_filter.
    + right; right. split; [by rewrite <- Hts|]. split.
      * apply (Hout (scope t)). intros (t2 & E & H2)%list_elem_of_fmap. apply Hrec. by rewrite (Hscope t t2).
      * rewrite Hdb. apply no_offline_row; [done|]. by intros [_ ?]%list_elem_of_filter.
  - by apply prefix_app_r.
  - exists (filter (λ t, has_room max_queue_per_device_ t.1 t.2 w) ts).
    split; [by apply NoDup_filter|]. split; [done|].
    intros t. rewrite list_elem_of_filter, Hts. tauto.
Qed.

(** C2: A sent message reaches exactly the right devices.  The envelope is stored, and
    every live device of every participant other than the sending device gets it
    once: at the back of its queue if that has room, and otherwise as a pending
    delivery row.  No other registered device's queue or delivery rows change, the
    rows already there are kept, and the response counts the queued deliveries. *)
Theorem SendEnvelope_fan_out request now draw w resp w' :
  db_wf (rw_db w) -> user_ids_ok (rw_db w) ->
  SendEnvelope request now draw w = (Ok resp, w') ->
  let eid := request_envelope_id request draw in
  sr_envelope_id resp = eid ∧ sr_server_timestamp resp = now ∧
  encrypted_envelopes (rw_db w') = encrypted_envelopes (rw_db w) ++ [make_envelope request eid now] ∧
  (∀ t, t ∈ device_key <$> devices (rw_db w) -> fanned_out request eid now w w' t) ∧
  delivery_state (rw_db w) `prefix_of` delivery_state (rw_db w') ∧
  (∃ l, NoDup l ∧ sr_delivered_to_count resp = length l ∧
     ∀ t, t ∈ l <-> recipient request (rw_db w) t ∧ has_room max_queue_per_device_ t.1 t.2 w).
Proof. apply SendEnvelope_effect. Qed.

(** A device that got a message through its queue has no trace of it in the store:
    the listing of its pending envelopes does not contain the message, and
    acknowledging it is refused with [kNotFound]. *)
Theorem queued_message_not_pending request now draw w resp w' t now' :
  db_wf (rw_db w) -> user_ids_ok (rw_db w) ->
  SendEnvelope request now draw w = (Ok resp, w') ->
  recipient request (rw_db w) t -> has_room max_queue_per_device_ t.1 t.2 w ->
  (∀ e limit, e ∈ SyncOffline t.1 t.2 limit w' -> e_envelope_id e ≠ sr_envelope_id resp) ∧
  AcknowledgeEnvelope t.1 t.2 (sr_envelope_id resp) now' w' =
    (Err (mkError kNotFound "Delivery state not found"), w').
Proof.
  intros Hwf Hids Hs Hr Hroom.
  destruct (SendEnvelope_effect _ _ _ _ _ _ Hwf Hids Hs) as (-> & _ & _ & Ht & _).
  specialize (Ht t (recipient_device _ _ _ Hr)).
  set (eid := request_envelope_id request draw) in *.
  assert (Hno : (eid, t) ∉ delivery_key <$> delivery_state (rw_db w')) by (unfold fanned_out in Ht; tauto).
  assert (Hnone : ∀ x, x ∈ delivery_state (rw_db w') -> ¬ is_delivery eid t.1 t.2 x).
  { intros x Hx (E & Eu & Ed). apply Hno, list_elem_of_fmap. exists x. split; [|done].
    unfold delivery_key, delivery_target. rewrite E, Eu, Ed. by destruct t. }
  split.
  - intros e limit He Ee. unfold SyncOffline, EnvelopeRepository.GetPendingForDevice in He.
    eapply elem_of_prefix in He; [|apply sql_limit_prefix]. unfold sql_order_by in He.
    rewrite (merge_sort_Permutation _ _ : _ ≡ₚ _) in He. apply (proj1 (elem_of_scan TEncryptedEnvelopes _ _)) in He.
    apply EnvelopeRepository.elem_of_pending_rows in He as (_ & x & Hx & (Hu & Hd & _) & Ex).
    apply (Hnone x Hx). unfold is_delivery. by rewrite Ex, Ee.
  - unfold AcknowledgeEnvelope, Acknowledge, on_relay_db, zoom, EnvelopeRepository.MarkAcked,
      EnvelopeRepository.update_delivery, bind, gets, modify, throw.
    rewrite (proj2 (sql_count_zero _ _) Hnone), (sql_update_id _ _ _ Hnone). simpl. by destruct w' as [[]].
Qed.
End RelayService.

Section witnesses.
#[local] Existing Instance rowid_engine.

Definition sample_send : SendMessageRequest := mkSendMessageRequest "u1" "d1" "g1" "hello" "e9" 0 None.

Definition sample_response : SendMessageResponse := mkSendMessageResponse "e9" 2600 1.

Definition sample_sent_world : RelayWorld (list (string * QueuedEnvelope)) :=
  (SendEnvelope log_hook 2 0 sample_send 2600 (0, 0) sample_relay_world).2.

Lemma sample_send_runs :
  SendEnvelope log_hook 2 0 sample_send 2600 (0, 0) sample_relay_world = (Ok sample_response, sample_sent_world).
Proof. vm_compute. reflexivity. Qed.

Lemma sample_ids_ok : user_ids_ok (rw_db sample_relay_world).
Proof. apply (bool_decide_unpack _). vm_compute. exact I. Qed.

Lemma sample_recipient : recipient sample_send (rw_db sample_relay_world) ("u2", "d2").
Proof.
  split; [|split; [|done]].
  - apply ConversationRepository.IsUserInConversation_true; [apply EnvelopeRepository.sample_mail_db_wf|].
    vm_compute. reflexivity.
  - exists (sample_device "u2" "d2"). split; [|done]. right. left.
Qed.

Lemma SendEnvelope_authorized_witness :
  may_post sample_send "e9" (rw_db sample_relay_world).
Proof.
  apply (SendEnvelope_authorized log_hook 2 0 sample_send 2600 (0, 0) sample_relay_world);
    [apply EnvelopeRepository.sample_mail_db_wf|].
  exists sample_response, sample_sent_world. apply sample_send_runs.
Defined.

Lemma SendEnvelope_fan_out_witness :
  fanned_out 2 sample_send "e9" 2600 sample_relay_world sample_sent_world ("u2", "d2").
Proof.
  destruct (SendEnvelope_fan_out log_hook 2 0 sample_send 2600 (0, 0) sample_relay_world sample_response
    sample_sent_world EnvelopeRepository.sample_mail_db_wf sample_ids_ok sample_send_runs)
    as (_ & _ & _ & Ht & _).
  apply Ht. apply (bool_decide_unpack _). vm_compute. exact I.
Defined.

Lemma queued_message_not_pending_witness :
  AcknowledgeEnvelope "u2" "d2" "e9" 2700 sample_sent_world =
    (Err (mkError kNotFound "Delivery state not found"), sample_sent_world).
Proof.
  apply (queued_message_not_pending log_hook 2 0 sample_send 2600 (0, 0) sample_relay_world sample_response
    sample_sent_world ("u2", "d2") 2700);
    [apply EnvelopeRepository.sample_mail_db_wf|apply sample_ids_ok|apply sample_send_runs|apply sample_recipient|].
  apply (bool_decide_unpack _). vm_compute. exact I.
Defined.
End witnesses.
End RelayService.
