(* ===== verification/Schema.v ===== *)
(** * Opening a database file (lib/vox_store/database.cpp)

    The constructor of [Database]: the pragmas, the retried [CreateSchema] and
    [MigrateLegacySchema], at the level of the schema.  A connection is the tables of
    the file with their columns; a statement changes them or throws.  What the outside
    makes a statement throw (another process holding the file, a full disk) is a
    function [fault] of the statement's number, so a run of the constructor is a run
    against any such environment.  The rows are the subject of Database and Migration. *)

From S2P Require Import Prelude Types Relay.

(** ** Statements *)

Record SqliteError := mkSqliteError { getErrorCode : Z; what : string }.

Definition SQLITE_ERROR : Z := 1.
Definition SQLITE_BUSY : Z := 5.
Definition SQLITE_LOCKED : Z := 6.

(** A table: its columns in order, and how many of them form the primary key. *)
Record Table := mkTable { t_columns : list string; t_key : nat }.

Record Conn := mkConn { c_tables : gmap string Table; c_foreign_keys : bool }.

Inductive stmt :=
  | CREATE_TABLE (if_not_exists : bool) (name : string) (columns : list string) (key : nat)
  | ADD_COLUMN (table column : string)
  | RENAME_TO (table name : string)
  | DROP_TABLE (table : string)
  | INSERT_SELECT (table : string) (columns : list string) (sources : list (string * list string))
  | INSERT_SELECT_ALL (table source : string)
  (** [BEGIN], [COMMIT], [CREATE INDEX IF NOT EXISTS] and the other pragmas. *)
  | OTHER (text : string).

Definition sqlite_error (m : string) : SqliteError := mkSqliteError SQLITE_ERROR m.

(** All the columns are columns of the table. *)
Definition has_columns (tables : gmap string Table) (name : string) (columns : list string) : bool :=
  match tables !! name with
  | None => false
  | Some t => bool_decide (columns ⊆ t_columns t)
  end.

(** What a statement does, when nothing from outside stops it. *)
Definition apply_stmt (st : stmt) (c : Conn) : SqliteError + Conn :=
  let tables := c_tables c in
  let put ts := inr (mkConn ts (c_foreign_keys c)) in
  match st with
  | CREATE_TABLE ine name columns key =>
      match tables !! name with
      | Some _ => if ine then inr c else inl (sqlite_error ("table " +:+ name +:+ " already exists"))
      | None => put (<[name := mkTable columns key]> tables)
      end
  | ADD_COLUMN table column =>
      match tables !! table with
      | None => inl (sqlite_error ("no such table: " +:+ table))
      | Some t =>
          if decide (column ∈ t_columns t) then inl (sqlite_error ("duplicate column name: " +:+ column))
          else put (<[table := mkTable (t_columns t ++ [column]) (t_key t)]> tables)
      end
  | RENAME_TO table name =>
      match tables !! table, tables !! name with
      | None, _ => inl (sqlite_error ("no such table: " +:+ table))
      | Some _, Some _ => inl (sqlite_error ("there is already another table: " +:+ name))
      | Some t, None => put (<[name := t]> (delete table tables))
      end
  | DROP_TABLE table =>
      match tables !! table with
      | None => inl (sqlite_error ("no such table: " +:+ table))
      | Some _ => put (delete table tables)
      end
  | INSERT_SELECT table columns sources =>
      if has_columns tables table columns && forallb (λ s, has_columns tables s.1 s.2) sources
      then inr c else inl (sqlite_error "no such column")
  | INSERT_SELECT_ALL table source =>
      match tables !! table, tables !! source with
      | Some t, Some s =>
          if Nat.eqb (length (t_columns t)) (length (t_columns s)) then inr c
          else inl (sqlite_error ("table " +:+ table +:+ " has another number of columns"))
      | _, _ => inl (sqlite_error "no such table")
      end
  | OTHER _ => inr c
  end.

(** ** Exceptions *)

(** A run: the connection, the statements executed so far and the time slept. *)
Record OpenRun := mkOpenRun { r_conn : Conn; r_executed : nat; r_slept_ms : Z }.

Definition X (A : Type) : Type := OpenRun -> (SqliteError + A) * OpenRun.

Definition xret {A} (a : A) : X A := λ r, (inr a, r).
Definition xthrow {A} (e : SqliteError) : X A := λ r, (inl e, r).
Definition xbind {A B} (c : X A) (k : A -> X B) : X B :=
  λ r, match c r with (inr a, r') => k a r' | (inl e, r') => (inl e, r') end.
(** [try { c } catch (const SQLite::Exception& e) { h(e) }]. *)
Definition xcatch {A} (c : X A) (h : SqliteError -> X A) : X A :=
  λ r, match c r with (inr a, r') => (inr a, r') | (inl e, r') => h e r' end.

Notation "c '>>' k" := (xbind c (λ _, k)) (at level 100, right associativity) : vox_scope.

(** [std::this_thread::sleep_for]. *)
Definition sleep_ms (ms : Z) : X unit :=
  λ r, (inr tt, mkOpenRun (r_conn r) (r_executed r) (r_slept_ms r + ms)).

Section Database.
Context (fault : nat -> option SqliteError).

(** One more statement; [f] is its effect. *)
Definition executes {A} (f : Conn -> (SqliteError + A) * Conn) : X A := λ r,
  match fault (r_executed r) with
  | Some e => (inl e, mkOpenRun (r_conn r) (S (r_executed r)) (r_slept_ms r))
  | None =>
      let '(res, c) := f (r_conn r) in (res, mkOpenRun c (S (r_executed r)) (r_slept_ms r))
  end.

Definition db_exec (st : stmt) : X unit :=
  executes (λ c, match apply_stmt st c with inl e => (inl e, c) | inr c' => (inr tt, c') end).

Fixpoint db_exec_all (l : list stmt) : X unit :=
  match l with
  | [] => xret tt
  | st :: l' => db_exec st >> db_exec_all l'
  end.

(** [PRAGMA foreign_keys=..]: a flag of the connection; the file is not touched. *)
Definition PRAGMA_foreign_keys (on : bool) : X unit :=
  λ r, (inr tt, mkOpenRun (mkConn (c_tables (r_conn r)) on) (r_executed r) (r_slept_ms r)).

(** A query that returns one number. *)
Definition query (f : Conn -> nat) : X nat := executes (λ c, (inr (f c), c)).

(** [SQLite::Transaction]: an exception in the body rolls the tables back. *)
Definition db_transaction (body : X unit) : X unit := λ r,
  match (db_exec (OTHER "BEGIN") >> body >> db_exec (OTHER "COMMIT")) r with
  | (inl e, r') =>
      (inl e, mkOpenRun (mkConn (c_tables (r_conn r)) (c_foreign_keys (r_conn r'))) (r_executed r') (r_slept_ms r'))
  | res => res
  end.

(** ** The schema *)

Definition users_columns : list string :=
  ["user_id"; "username"; "password_salt"; "password_verifier"; "created_at"; "disabled_at";
   "sync_key_version"; "wrapped_sync_key"; "sync_wrap_salt"; "sync_wrap_params"].
Definition devices_columns : list string :=
  ["user_id"; "device_id"; "identity_key_public"; "signed_prekey_public"; "signed_prekey_signature";
   "last_prekey_refresh_at"; "client_protocol_version"; "device_label"; "created_at"; "last_seen_at"; "revoked_at"].
Definition prekeys_columns : list string := ["prekey_id"; "user_id"; "device_id"; "prekey_public"; "consumed_at"].
Definition sessions_columns : list string :=
  ["session_id"; "user_id"; "device_id"; "access_token_hash"; "refresh_token_hash"; "access_expires_at";
   "refresh_expires_at"; "created_at"; "revoked_at"].
Definition conversations_columns : list string :=
  ["conversation_id"; "type"; "created_by"; "created_at"; "policy_blob"; "membership_version"].
Definition members_columns : list string := ["conversation_id"; "user_id"; "role"; "added_at"; "removed_at"].
Definition subscriptions_columns : list string :=
  ["conversation_id"; "user_id"; "subscribed_at"; "unsubscribed_at"].
Definition envelopes_columns : list string :=
  ["envelope_id"; "conversation_id"; "sender_user_id"; "sender_device_id"; "ciphertext"; "server_timestamp";
   "envelope_type"; "retention_until"; "ordering_epoch"].
Definition delivery_columns : list string :=
  ["envelope_id"; "target_user_id"; "target_device_id"; "queued_at"; "delivered_at"; "acked_at"].
Definition attachments_columns : list string :=
  ["attachment_id"; "user_id"; "conversation_id"; "file_size"; "mime_hint"; "ciphertext_hash"; "blob_path";
   "upload_complete"; "created_at"; "retention_until"].
Definition sync_columns : list string :=
  ["id"; "user_id"; "collection"; "record_id"; "ciphertext"; "content_hash"; "version"; "deleted"; "server_updated_at"].

(** [std::strstr(msg, "duplicate") == nullptr] decides whether the exception passes. *)
Definition try_exec (st : stmt) : X unit :=
  xcatch (db_exec st) (λ e, if string_find "duplicate" (what e) then xret tt else xthrow e).

Fixpoint try_exec_all (l : list stmt) : X unit :=
  match l with
  | [] => xret tt
  | st :: l' => try_exec st >> try_exec_all l'
  end.

(** A table set aside, created anew, filled by [copy] and dropped. *)
Definition rebuild (table : string) (columns : list string) (key : nat) (copy : stmt) : list stmt :=
  [RENAME_TO table (table +:+ "_old"); CREATE_TABLE false table columns key; copy; DROP_TABLE (table +:+ "_old")].

Definition copy_devices : stmt := INSERT_SELECT "devices" devices_columns [("devices_old", devices_columns)].
Definition copy_prekeys : stmt :=
  INSERT_SELECT "one_time_prekeys" prekeys_columns
    [("one_time_prekeys_old", ["prekey_id"; "device_id"; "prekey_public"; "consumed_at"]);
     ("devices", ["user_id"; "device_id"])].
Definition copy_envelopes : stmt :=
  INSERT_SELECT "encrypted_envelopes" envelopes_columns
    [("encrypted_envelopes_old", ["envelope_id"; "conversation_id"; "sender_device_id"; "ciphertext";
        "server_timestamp"; "envelope_type"; "retention_until"; "ordering_epoch"]);
     ("devices", ["user_id"; "device_id"])].
Definition copy_delivery : stmt :=
  INSERT_SELECT "delivery_state" delivery_columns
    [("delivery_state_old", ["envelope_id"; "target_device_id"; "queued_at"; "delivered_at"; "acked_at"]);
     ("devices", ["user_id"; "device_id"])].

(** The five tables, with the owner of each device. *)
Definition rebuild_tables : list stmt :=
  rebuild "devices" devices_columns 2 copy_devices ++
  rebuild "one_time_prekeys" prekeys_columns 1 copy_prekeys ++
  rebuild "sessions" sessions_columns 1 (INSERT_SELECT_ALL "sessions" "sessions_old") ++
  rebuild "encrypted_envelopes" envelopes_columns 1 copy_envelopes ++
  rebuild "delivery_state" delivery_columns 3 copy_delivery.

Definition MigrateDevicesCompositePrimaryKey : X unit :=
  xbind (query (λ c, match c_tables c !! "devices" with Some _ => 1 | None => 0 end)%nat) (λ n,
  if Nat.eqb n 0 then xret tt else
  xbind (query (λ c, match c_tables c !! "devices" with Some t => t_key t | None => 0%nat end)) (λ pk,
  if Nat.leb 2 pk then xret tt else
  PRAGMA_foreign_keys false >>
  db_transaction (db_exec_all rebuild_tables) >>
  PRAGMA_foreign_keys true)).

(** The columns later versions added. *)
Definition added_columns : list stmt :=
  [ADD_COLUMN "users" "sync_key_version"; ADD_COLUMN "users" "wrapped_sync_key";
   ADD_COLUMN "users" "sync_wrap_salt"; ADD_COLUMN "users" "sync_wrap_params";
   ADD_COLUMN "devices" "device_label"; ADD_COLUMN "devices" "created_at";
   ADD_COLUMN "devices" "last_seen_at"; ADD_COLUMN "devices" "revoked_at";
   ADD_COLUMN "conversations" "membership_version"].

Definition MigrateLegacySchema : X unit :=
  MigrateDevicesCompositePrimaryKey >> try_exec_all added_columns.

Definition create_tables : list stmt :=
  [CREATE_TABLE true "users" users_columns 1;
   CREATE_TABLE true "devices" devices_columns 2;
   CREATE_TABLE true "one_time_prekeys" prekeys_columns 1;
   CREATE_TABLE true "sessions" sessions_columns 1;
   CREATE_TABLE true "conversations" conversations_columns 1;
   CREATE_TABLE true "conversation_members" members_columns 2;
   CREATE_TABLE true "channel_subscriptions" subscriptions_columns 2;
   CREATE_TABLE true "encrypted_envelopes" envelopes_columns 1].

Definition create_more_tables : list stmt :=
  [CREATE_TABLE true "delivery_state" delivery_columns 3;
   CREATE_TABLE true "attachment_metadata" attachments_columns 1;
   CREATE_TABLE true "sync_records" sync_columns 1;
   OTHER "CREATE INDEX IF NOT EXISTS idx_sync_records_user_coll_time"].

Definition CreateSchema : X unit :=
  db_exec_all create_tables >>
  try_exec (ADD_COLUMN "encrypted_envelopes" "ordering_epoch") >>
  db_exec_all create_more_tables >>
  MigrateLegacySchema.

(** ** The constructor *)

Definition kSchemaInitMaxAttempts : Z := 8.
Definition kSchemaInitBackoffBaseMs : Z := 250.

Definition is_busy (e : SqliteError) : bool :=
  (getErrorCode e =? SQLITE_BUSY) || (getErrorCode e =? SQLITE_LOCKED).

Lemma is_busy_iff e : is_busy e = true <-> getErrorCode e = SQLITE_BUSY ∨ getErrorCode e = SQLITE_LOCKED.
Proof. unfold is_busy. rewrite orb_true_iff, !Z.eqb_eq. done. Qed.

(** The iterations from [attempt] on, [remaining] of them. *)
Fixpoint init_loop (remaining : nat) (attempt : Z) : X unit :=
  match remaining with
  | 0%nat => xret tt
  | S remaining' =>
      xcatch CreateSchema (λ e,
        if (attempt <? kSchemaInitMaxAttempts) && is_busy e
        then sleep_ms (kSchemaInitBackoffBaseMs * attempt) >> init_loop remaining' (attempt + 1)
        else xthrow e)
  end.

Definition Database_ctor : X unit :=
  db_exec (OTHER "PRAGMA journal_mode=WAL") >>
  PRAGMA_foreign_keys true >>
  db_exec (OTHER "PRAGMA synchronous=NORMAL") >>
  init_loop (Z.to_nat kSchemaInitMaxAttempts) 1.
End Database.

(** The handler SQLite calls while the file is locked: 0 gives up. *)
Definition kSqliteBusyHandlerMaxInvocations : Z := 300.
Definition SqliteBusyHandler (attempt : Z) : Z :=
  if kSqliteBusyHandlerMaxInvocations <? attempt then 0 else 1.

(** ** Which files can be opened *)

(** The key of the devices table is [device_id] alone. *)
Definition legacy (c : Conn) : bool :=
  match c_tables c !! "devices" with Some t => Nat.ltb (t_key t) 2 | None => false end.

Definition has_column (c : Conn) (table column : string) : Prop :=
  ∃ t, c_tables c !! table = Some t ∧ column ∈ t_columns t.

Definition has_table (c : Conn) (table : string) : Prop := is_Some (c_tables c !! table).

(** The tables of the current schema. *)
Definition schema : list (string * list string) :=
  [("users", users_columns); ("devices", devices_columns); ("one_time_prekeys", prekeys_columns);
   ("sessions", sessions_columns); ("conversations", conversations_columns);
   ("conversation_members", members_columns); ("channel_subscriptions", subscriptions_columns);
   ("encrypted_envelopes", envelopes_columns); ("delivery_state", delivery_columns);
   ("attachment_metadata", attachments_columns); ("sync_records", sync_columns)].

(** The columns a table of an earlier version has at least; with the single device key
    the owner columns are missing and the devices table is the last of its kind. *)
Definition base_schema (single_key : bool) : list (string * list string) :=
  [("users", take 6 users_columns);
   ("devices", if single_key then devices_columns else take 7 devices_columns);
   ("one_time_prekeys", if single_key then ["prekey_id"; "device_id"; "prekey_public"; "consumed_at"] else prekeys_columns);
   ("sessions", sessions_columns); ("conversations", take 5 conversations_columns);
   ("conversation_members", members_columns); ("channel_subscriptions", subscriptions_columns);
   ("encrypted_envelopes", if single_key
      then ["envelope_id"; "conversation_id"; "sender_device_id"; "ciphertext"; "server_timestamp";
            "envelope_type"; "retention_until"]
      else take 8 envelopes_columns);
   ("delivery_state", if single_key
      then ["envelope_id"; "target_device_id"; "queued_at"; "delivered_at"; "acked_at"] else delivery_columns);
   ("attachment_metadata", attachments_columns); ("sync_records", sync_columns)].

Definition old_tables : list string :=
  ["devices_old"; "one_time_prekeys_old"; "sessions_old"; "encrypted_envelopes_old"; "delivery_state_old"].

(** A file the constructor can bring up to date, a partial run of [CreateSchema] included:
    not every file an earlier server left is one. *)
Record upgradable (c : Conn) : Prop := {
  up_base table cols t : (table, cols) ∈ base_schema (legacy c) -> c_tables c !! table = Some t ->
    cols ⊆ t_columns t;
  up_legacy : legacy c = true ->
    (∀ table, table ∈ old_tables -> c_tables c !! table = None) ∧
    ∀ t, c_tables c !! "sessions" = Some t -> length (t_columns t) = length sessions_columns;
  up_foreign_keys : c_foreign_keys c = false -> legacy c = true }.

(** The current schema, with references checked. *)
Definition complete (c : Conn) : Prop :=
  (∀ table cols column, (table, cols) ∈ schema -> column ∈ cols -> has_column c table column) ∧
  legacy c = false ∧ c_foreign_keys c = true.

(** ** Statements that only add *)

(** [c'] has the tables of [c], with more columns but for the sessions, and new ones
    of the current schema; the keys stay. *)
Record grows (c c' : Conn) : Prop := {
  gr_old table t : c_tables c !! table = Some t ->
    ∃ t', c_tables c' !! table = Some t' ∧ t_columns t ⊆ t_columns t' ∧ t_key t' = t_key t ∧
      (table = "sessions" -> t_columns t' = t_columns t);
  gr_new table t' : c_tables c' !! table = Some t' -> c_tables c !! table = None ->
    ∃ cols, (table, cols) ∈ schema ∧ cols ⊆ t_columns t' ∧ (table = "devices" -> t_key t' = 2%nat) ∧
      (table = "sessions" -> t_columns t' = cols);
  gr_foreign_keys : c_foreign_keys c' = c_foreign_keys c }.

#[export] Instance grows_refl : Reflexive grows.
Proof. intros c. split; [|congruence|done]. intros table t Ht. exists t. done. Qed.

#[export] Instance grows_trans : Transitive grows.
Proof.
  intros c1 c2 c3 [O12 N12 F12] [O23 N23 F23]. split; [| |congruence].
  - intros table t Ht. destruct (O12 table t Ht) as (t2 & H2 & Hs2 & Hk2 & Hss2).
    destruct (O23 table t2 H2) as (t3 & H3 & Hs3 & Hk3 & Hss3). exists t3. split; [done|].
    split; [by etrans|]. split; [congruence|]. intros E. rewrite Hss3, Hss2; done.
  - intros table t' Ht' Hnone. destruct (c_tables c2 !! table) as [t2|] eqn:E2; [|by apply N23].
    destruct (N12 table t2 E2 Hnone) as (cols & Hin & Hsub & Hk & Hss).
    destruct (O23 table t2 E2) as (t3 & H3 & Hs3 & Hk3 & Hss3). rewrite Ht' in H3. injection H3 as <-.
    exists cols. split; [done|]. split; [by etrans|]. split.
    + intros E. by rewrite Hk3, Hk.
    + intros E. by rewrite Hss3, Hss.
Qed.

Lemma grows_table c c' table : grows c c' -> has_table c table -> has_table c' table.
Proof. intros [Ho _ _] [t Ht]. destruct (Ho table t Ht) as (t' & E & _). by exists t'. Qed.

Lemma grows_column c c' table column :
  grows c c' -> has_column c table column -> has_column c' table column.
Proof.
  intros [Ho _ _] (t & Ht & Hc). destruct (Ho table t Ht) as (t' & Ht' & Hs & _). exists t'. auto.
Qed.

Lemma grows_legacy c c' : grows c c' -> legacy c' = legacy c.
Proof.
  intros [Ho Hn _]. unfold legacy. destruct (c_tables c !! "devices") as [t|] eqn:E.
  - destruct (Ho _ t E) as (t' & -> & _ & -> & _). done.
  - destruct (c_tables c' !! "devices") as [t'|] eqn:E'; [|done].
    destruct (Hn _ t' E' E) as (_ & _ & _ & Hk & _). by rewrite (Hk eq_refl).
Qed.

(** A table of the current schema has the columns of its predecessors; none is one
    of the tables set aside. *)
Lemma base_in_schema b table cols cols' :
  (table, cols) ∈ base_schema b -> (table, cols') ∈ schema -> cols ⊆ cols'.
Proof.
  assert (Hall : Forall (λ x : string * list string, Forall (λ y : string * list string, x.1 = y.1 -> x.2 ⊆ y.2) schema) (base_schema b))
    by (destruct b; apply (bool_decide_unpack _); vm_compute; exact I).
  intros Hb Hs. rewrite Forall_forall in Hall. specialize (Hall _ Hb). rewrite Forall_forall in Hall.
  by apply (Hall _ Hs).
Qed.

Lemma old_not_in_schema table cols : table ∈ old_tables -> (table, cols) ∉ schema.
Proof.
  assert (Hall : Forall (λ x, Forall (λ y : string * list string, x ≠ y.1) schema) old_tables)
    by (apply (bool_decide_unpack _); vm_compute; exact I).
  intros Ho Hs. rewrite Forall_forall in Hall. specialize (Hall _ Ho). rewrite Forall_forall in Hall.
  by apply (Hall _ Hs).
Qed.

Lemma schema_sessions cols : ("sessions", cols) ∈ schema -> cols = sessions_columns.
Proof.
  intros Hin. unfold schema in Hin. repeat (apply elem_of_cons in Hin as [E|Hin]; [by injection E|]).
  by apply not_elem_of_nil in Hin.
Qed.

Lemma grows_upgradable c c' : grows c c' -> upgradable c -> upgradable c'.
Proof.
  intros Hg [Hb Hl Hf]. pose proof (grows_legacy c c' Hg) as El. destruct Hg as [Ho Hn Hfk].
  split; rewrite El; [| |by rewrite Hfk].
  - intros table cols t' Hin Ht'. destruct (c_tables c !! table) as [t|] eqn:E.
    + destruct (Ho table t E) as (t2 & E2 & Hs & _). rewrite Ht' in E2. injection E2 as <-.
      etrans; [by eapply Hb|done].
    + destruct (Hn table t' Ht' E) as (cols' & Hin' & Hs & _). etrans; [by eapply base_in_schema|done].
  - intros Hleg. destruct (Hl Hleg) as [Hold Hses]. split.
    + intros table Hin. destruct (c_tables c' !! table) as [t'|] eqn:E; [|done].
      destruct (Hn table t' E (Hold table Hin)) as (cols & Hs & _). by apply old_not_in_schema in Hs.
    + intros t' Ht'. destruct (c_tables c !! "sessions") as [t|] eqn:E.
      * destruct (Ho _ t E) as (t2 & E2 & _ & _ & Hs). rewrite Ht' in E2. injection E2 as <-.
        rewrite Hs by done. by apply Hses.
      * destruct (Hn _ t' Ht' E) as (cols & Hin & _ & _ & Hs). rewrite Hs by done.
        by rewrite (schema_sessions cols Hin).
Qed.

(** The statements of [CreateSchema] outside the rebuild. *)
Definition adds (st : stmt) : Prop :=
  match st with
  | CREATE_TABLE true table cols key => (table, cols) ∈ schema ∧ (table = "devices" -> key = 2%nat)
  | ADD_COLUMN table _ => table ≠ "sessions"
  | OTHER _ => True
  | _ => False
  end.

Lemma apply_grows st c c' : adds st -> apply_stmt st c = inr c' -> grows c c'.
Proof.
  destruct st as [[] table cols key|table column| | | | |]; simpl; try done.
  - intros [Hin Hk]. destruct (c_tables c !! table) as [t|] eqn:E; intros [= <-]; [done|].
    split; simpl; [| |done].
    + intros u t Ht. exists t. rewrite lookup_insert_ne by congruence. done.
    + intros u t'. rewrite lookup_insert_Some. intros [[<- <-]|[_ Ht]]; [|congruence].
      intros _. exists cols. done.
  - intros Hne. destruct (c_tables c !! table) as [t|] eqn:E; [|done].
    case_decide as Hin; [done|]. intros [= <-]. split; simpl; [| |done].
    + intros u t0 Ht0. destruct (decide (u = table)) as [->|Hu].
      * rewrite lookup_insert_eq. eexists. split; [done|]. rewrite E in Ht0. injection Ht0 as ->. simpl.
        split; [set_solver|done].
      * rewrite lookup_insert_ne by done. exists t0. done.
    + intros u t'. rewrite lookup_insert_Some. intros [[<- <-]|[_ Ht]]; congruence.
  - by intros _ [= <-].
Qed.

(** ** The rebuild, when nothing stops it *)

Fixpoint apply_stmts (l : list stmt) (c : Conn) : SqliteError + Conn :=
  match l with
  | [] => inr c
  | st :: l' => match apply_stmt st c with inl e => inl e | inr c' => apply_stmts l' c' end
  end.

Lemma apply_stmts_app l1 l2 c c' :
  apply_stmts l1 c = inr c' -> apply_stmts (l1 ++ l2) c = apply_stmts l2 c'.
Proof.
  revert c. induction l1 as [|st l1 IH]; intros c; simpl; [by intros [= ->]|].
  destruct (apply_stmt st c) as [e|c1]; [done|]. apply IH.
Qed.

Lemma app_ne (s : string) a t : (s +:+ String a t) ≠ s.
Proof. induction s as [|b s IH]; [done|]. by intros [= E]. Qed.

(** One table: the others keep theirs. *)
Lemma rebuild_apply table columns key copy c t :
  c_tables c !! table = Some t -> c_tables c !! (table +:+ "_old") = None ->
  (∀ ts fk, ts !! table = Some (mkTable columns key) -> ts !! (table +:+ "_old") = Some t ->
     (∀ u, u ≠ table -> u ≠ table +:+ "_old" -> ts !! u = c_tables c !! u) ->
     apply_stmt copy (mkConn ts fk) = inr (mkConn ts fk)) ->
  ∃ c', apply_stmts (rebuild table columns key copy) c = inr c' ∧ c_foreign_keys c' = c_foreign_keys c ∧
    ∀ u, c_tables c' !! u = if decide (u = table) then Some (mkTable columns key) else c_tables c !! u.
Proof.
  intros Ht Hold Hcopy. set (old := table +:+ "_old") in *. assert (Hne : old ≠ table) by apply app_ne.
  assert (Hc : c_tables c !! old = None) by done.
  eexists. unfold rebuild. fold old. cbn [apply_stmts apply_stmt]. rewrite Ht, Hold. cbn [c_tables c_foreign_keys].
  rewrite lookup_insert_ne, lookup_delete_eq by done. rewrite Hcopy.
  - cbn [apply_stmt c_tables]. rewrite lookup_insert_ne, lookup_insert_eq by done. split; [done|].
    split; [done|]. intros u. cbn [c_tables]. destruct (decide (u = old)) as [->|Hu].
    + rewrite lookup_delete_eq, decide_False; done.
    + rewrite lookup_delete_ne by done. case_decide as E; [subst; by rewrite lookup_insert_eq|].
      rewrite !lookup_insert_ne, lookup_delete_ne by done. done.
  - by rewrite lookup_insert_eq.
  - by rewrite lookup_insert_ne, lookup_insert_eq by done.
  - intros u H1 H2. by rewrite !lookup_insert_ne, lookup_delete_ne by done.
Qed.

(** Membership in a literal list. *)
Ltac solve_in := apply (bool_decide_unpack _); vm_compute; exact I.

(** The tables after the rebuild. *)
Definition rebuilt : list (string * Table) :=
  [("devices", mkTable devices_columns 2); ("one_time_prekeys", mkTable prekeys_columns 1);
   ("sessions", mkTable sessions_columns 1); ("encrypted_envelopes", mkTable envelopes_columns 1);
   ("delivery_state", mkTable delivery_columns 3)].

Lemma copy_apply table columns key sources ts fk :
  ts !! table = Some (mkTable columns key) ->
  (∀ name cols, (name, cols) ∈ sources -> ∃ t, ts !! name = Some t ∧ cols ⊆ t_columns t) ->
  apply_stmt (INSERT_SELECT table columns sources) (mkConn ts fk) = inr (mkConn ts fk).
Proof.
  intros Ht Hs. cbn [apply_stmt c_tables]. unfold has_columns at 1. rewrite Ht. simpl.
  rewrite bool_decide_true by done. simpl.
  assert (Hf : forallb (λ s, has_columns ts s.1 s.2) sources = true); [|by rewrite Hf].
  apply forallb_forall. intros [name cols] Hin%list_elem_of_In. unfold has_columns. simpl.
  destruct (Hs name cols Hin) as (t & -> & Hsub). by apply bool_decide_true.
Qed.

(** A table filled from its predecessor and the owner of the device. *)
Lemma rebuild_join table columns key cols c t :
  c_tables c !! table = Some t -> c_tables c !! (table +:+ "_old") = None -> cols ⊆ t_columns t ->
  c_tables c !! "devices" = Some (mkTable devices_columns 2) -> "devices" ≠ table -> "devices" ≠ table +:+ "_old" ->
  ∃ c', apply_stmts (rebuild table columns key
          (INSERT_SELECT table columns [(table +:+ "_old", cols); ("devices", ["user_id"; "device_id"])])) c = inr c' ∧
    c_foreign_keys c' = c_foreign_keys c ∧
    ∀ u, c_tables c' !! u = if decide (u = table) then Some (mkTable columns key) else c_tables c !! u.
Proof.
  intros Ht Hold Hcols Hdev Hne Hne'. apply (rebuild_apply _ _ _ _ _ t Ht Hold).
  intros ts fk H1 H2 H3. apply (copy_apply _ _ key); [done|].
  intros name cs [[= -> ->]|Hin]%elem_of_cons; [by exists t|].
  apply list_elem_of_singleton in Hin as [= -> ->]. rewrite H3 by done. eexists. split; [exact Hdev|].
  simpl. set_solver.
Qed.

Lemma envelope_copy_columns t :
  ["envelope_id"; "conversation_id"; "sender_device_id"; "ciphertext"; "server_timestamp"; "envelope_type";
   "retention_until"] ⊆ t_columns t -> "ordering_epoch" ∈ t_columns t ->
  ["envelope_id"; "conversation_id"; "sender_device_id"; "ciphertext"; "server_timestamp"; "envelope_type";
   "retention_until"; "ordering_epoch"] ⊆ t_columns t.
Proof.
  intros Hc Hep x Hx. repeat (apply elem_of_cons in Hx as [->|Hx]; [(apply Hc; solve_in) || done|]).
  by apply not_elem_of_nil in Hx.
Qed.

Lemma rebuild_tables_apply c :
  upgradable c -> legacy c = true ->
  (∀ table, table ∈ ["devices"; "one_time_prekeys"; "sessions"; "encrypted_envelopes"; "delivery_state"] ->
     has_table c table) ->
  has_column c "encrypted_envelopes" "ordering_epoch" ->
  ∃ c', apply_stmts rebuild_tables c = inr c' ∧ c_foreign_keys c' = c_foreign_keys c ∧
    ∀ u, c_tables c' !! u =
      match list_find (λ x, x.1 = u) rebuilt with Some (_, (_, t)) => Some t | None => c_tables c !! u end.
Proof.
  intros [Hb Hl _] Hleg Hpres (te & He & Hep). rewrite Hleg in Hb. destruct (Hl Hleg) as [Hold Hses].
  destruct (Hpres "devices" ltac:(solve_in)) as [td Hd], (Hpres "one_time_prekeys" ltac:(solve_in)) as [tk Hk],
    (Hpres "sessions" ltac:(solve_in)) as [ts Hs], (Hpres "delivery_state" ltac:(solve_in)) as [tv Hv].
  destruct (rebuild_apply "devices" devices_columns 2 copy_devices c td Hd (Hold "devices_old" ltac:(solve_in)))
    as (c1 & A1 & F1 & L1).
  { intros ts0 fk H1 H2 H3. apply (copy_apply _ _ 2); [done|]. intros name cols Hin.
    apply list_elem_of_singleton in Hin as [= -> ->]. exists td. split; [done|]. apply (Hb "devices"); [solve_in|done]. }
  destruct (rebuild_join "one_time_prekeys" prekeys_columns 1 ["prekey_id"; "device_id"; "prekey_public"; "consumed_at"] c1 tk)
    as (c2 & A2 & F2 & L2);
    [rewrite L1; exact Hk|rewrite L1; apply Hold; solve_in|apply (Hb "one_time_prekeys"); [solve_in|done]|by rewrite L1|done..|].
  assert (L2' : ∀ u, u ≠ "devices" -> u ≠ "one_time_prekeys" -> c_tables c2 !! u = c_tables c !! u)
    by (intros u ? ?; by rewrite L2, decide_False, L1, decide_False).
  destruct (rebuild_apply "sessions" sessions_columns 1 (INSERT_SELECT_ALL "sessions" "sessions_old") c2 ts)
    as (c3 & A3 & F3 & L3); [by rewrite L2'|rewrite L2' by done; apply Hold; solve_in| |].
  { intros ts0 fk H1 H2 H3. cbn [apply_stmt c_tables]. change ("sessions" +:+ "_old") with "sessions_old" in H2.
    rewrite H1, H2. by rewrite (Hses ts Hs). }
  assert (L3' : ∀ u, u ≠ "devices" -> u ≠ "one_time_prekeys" -> u ≠ "sessions" -> c_tables c3 !! u = c_tables c !! u)
    by (intros u ? ? ?; by rewrite L3, decide_False, L2').
  assert (D3 : c_tables c3 !! "devices" = Some (mkTable devices_columns 2)) by by rewrite L3, L2, L1.
  destruct (rebuild_join "encrypted_envelopes" envelopes_columns 1 ["envelope_id"; "conversation_id";
    "sender_device_id"; "ciphertext"; "server_timestamp"; "envelope_type"; "retention_until"; "ordering_epoch"] c3 te)
    as (c4 & A4 & F4 & L4); [by rewrite L3'|rewrite L3' by done; apply Hold; solve_in| |done..|].
  { apply envelope_copy_columns; [|done]. apply (Hb "encrypted_envelopes"); [solve_in|done]. }
  destruct (rebuild_join "delivery_state" delivery_columns 3
    ["envelope_id"; "target_device_id"; "queued_at"; "delivered_at"; "acked_at"] c4 tv) as (c5 & A5 & F5 & L5);
    [by rewrite L4, decide_False, L3'|rewrite L4, decide_False, L3' by done; apply Hold; solve_in
    |apply (Hb "delivery_state"); [solve_in|done]|by rewrite L4|done..|].
  exists c5. split.
  - unfold rebuild_tables. rewrite (apply_stmts_app _ _ _ _ A1), (apply_stmts_app _ _ _ _ A2),
      (apply_stmts_app _ _ _ _ A3), (apply_stmts_app _ _ _ _ A4). exact A5.
  - split; [congruence|]. intros u. rewrite L5, L4, L3, L2, L1. unfold rebuilt. simpl.
    repeat (case_decide; subst; try done; simpl).
Qed.

(** ** Runs against an environment *)

Section runs.
Context (fault : nat -> option SqliteError).
(** What SQLite says of a busy, locked or unwritable file does not speak of duplicates. *)
Context (Hmsg : ∀ n e, fault n = Some e -> string_find "duplicate" (what e) = false).

(** The environment threw [e] at one of the statements of this part of the run. *)
Definition blamed (r r' : OpenRun) (e : SqliteError) : Prop :=
  ∃ n, (r_executed r <= n < r_executed r')%nat ∧ fault n = Some e.

(** From an upgradable file that satisfies [P]: the file stays upgradable, a normal
    return establishes [Q], and only the environment makes the computation throw. *)
Definition triple {A} (P : Conn -> Prop) (m : X A) (Q : A -> Conn -> Prop) : Prop :=
  ∀ r, upgradable (r_conn r) -> P (r_conn r) ->
    let '(res, r') := m r in
    upgradable (r_conn r') ∧ (r_executed r <= r_executed r')%nat ∧ r_slept_ms r' = r_slept_ms r ∧
    match res with inr a => Q a (r_conn r') | inl e => blamed r r' e end.

Lemma triple_bind {A B} P Q R (m : X A) (k : A -> X B) :
  triple P m Q -> (∀ a, triple (Q a) (k a) R) -> triple P (xbind m k) R.
Proof.
  intros Hm Hk r Hu HP. unfold xbind. specialize (Hm r Hu HP).
  destruct (m r) as [[e|a] r1]; [done|]. destruct Hm as (Hu1 & Hle1 & Hs1 & HQ).
  specialize (Hk a r1 Hu1 HQ). destruct (k a r1) as [res r2]. destruct Hk as (Hu2 & Hle2 & Hs2 & HR).
  split; [done|]. split; [lia|]. split; [congruence|]. destruct res as [e|b]; [|done].
  destruct HR as (n & Hn & E). exists n. split; [lia|done].
Qed.

Lemma triple_ret {A} (a : A) (P : Conn -> Prop) : triple P (xret a) (λ _, P).
Proof. intros r Hu HP. done. Qed.

Lemma triple_weaken {A} (P P' : Conn -> Prop) (Q Q' : A -> Conn -> Prop) m :
  (∀ c, upgradable c -> P' c -> P c) -> (∀ a c, upgradable c -> Q a c -> Q' a c) -> triple P m Q -> triple P' m Q'.
Proof.
  intros HP HQ Hm r Hu Hp. specialize (Hm r Hu (HP _ Hu Hp)). destruct (m r) as [[e|a] r']; [done|].
  destruct Hm as (? & ? & ? & ?). split_and!; auto.
Qed.

Lemma triple_query (P : Conn -> Prop) f : triple P (query fault f) (λ n c, P c ∧ n = f c).
Proof.
  intros r Hu HP. unfold query, executes. destruct (fault (r_executed r)) as [e|] eqn:E; simpl.
  - split; [done|]. split; [lia|]. split; [done|]. exists (r_executed r). split; [simpl; lia|done].
  - split; [done|]. split; [lia|done].
Qed.

(** What is known of the file: tables, columns, and that it has the composite key. *)
Definition facts (ts : list string) (cs : list (string * string)) (b : bool) (c : Conn) : Prop :=
  (∀ t, t ∈ ts -> has_table c t) ∧ (∀ x, x ∈ cs -> has_column c x.1 x.2) ∧ (b = true -> legacy c = false).

Lemma facts_grows ts cs b c c' : grows c c' -> facts ts cs b c -> facts ts cs b c'.
Proof.
  intros Hg (Ht & Hc & Hl). split_and!.
  - intros t Hin. by eapply grows_table, Ht.
  - intros x Hin. by eapply grows_column, Hc.
  - intros Hb. rewrite (grows_legacy c c' Hg). auto.
Qed.

(** A statement that adds and cannot fail by itself. *)
Lemma triple_exec st ts cs b (Q : Conn -> Prop) :
  adds st ->
  (∀ c, facts ts cs b c -> ∃ c', apply_stmt st c = inr c' ∧ (facts ts cs b c' -> Q c')) ->
  triple (facts ts cs b) (db_exec fault st) (λ _, Q).
Proof.
  intros Hadd Hst r Hu HP. unfold db_exec, executes.
  destruct (fault (r_executed r)) as [e|] eqn:E; simpl.
  - split; [done|]. split; [lia|]. split; [done|]. exists (r_executed r). split; [simpl; lia|done].
  - destruct (Hst _ HP) as (c' & Ea & HQ). rewrite Ea. simpl. pose proof (apply_grows st _ _ Hadd Ea) as Hg.
    split; [by eapply grows_upgradable|]. split; [lia|]. split; [done|]. by eapply HQ, facts_grows.
Qed.

Lemma triple_create ts cs b table cols key :
  (table, cols) ∈ schema -> (table = "devices" -> key = 2%nat) ->
  triple (facts ts cs b) (db_exec fault (CREATE_TABLE true table cols key)) (λ _, facts (table :: ts) cs b).
Proof.
  intros Hin Hk. apply triple_exec; [done|]. intros c Hf. simpl.
  assert (Hnew : ∀ c', has_table c' table -> facts ts cs b c' -> facts (table :: ts) cs b c').
  { intros c' Ht (H1 & H2 & H3). split; [|done]. intros t [->|Ht']%elem_of_cons; auto. }
  destruct (c_tables c !! table) as [t|] eqn:E; eexists; (split; [done|]); apply Hnew.
  - by exists t.
  - unfold has_table. simpl. rewrite lookup_insert_eq. by eexists.
Qed.

Lemma triple_other ts cs b text : triple (facts ts cs b) (db_exec fault (OTHER text)) (λ _, facts ts cs b).
Proof. apply triple_exec; [done|]. intros c Hf. by exists c. Qed.

(** [try_exec] leaves the column in the table, whoever added it. *)
Lemma triple_add ts cs b table column :
  table ∈ ts -> table ≠ "sessions" ->
  triple (facts ts cs b) (try_exec fault (ADD_COLUMN table column)) (λ _, facts ts ((table, column) :: cs) b).
Proof.
  intros Hin Hne r Hu HP. unfold try_exec, xcatch, db_exec, executes.
  assert (Hnew : ∀ c', has_column c' table column -> facts ts cs b c' -> facts ts ((table, column) :: cs) b c').
  { intros c' Hc (H1 & H2 & H3). split; [done|]. split; [|done]. intros x [->|Hx]%elem_of_cons; auto. }
  destruct (fault (r_executed r)) as [e|] eqn:E.
  - rewrite (Hmsg _ _ E). simpl. split; [done|]. split; [lia|]. split; [done|].
    exists (r_executed r). split; [simpl; lia|done].
  - destruct HP as (Ht & Hrest). destruct (Ht table Hin) as [t Et].
    destruct (apply_stmt (ADD_COLUMN table column) (r_conn r)) as [e|c'] eqn:Ea.
    + cbn [apply_stmt] in Ea. rewrite Et in Ea. case_decide as Hcol; [|done]. injection Ea as <-.
      simpl. split; [done|]. split; [lia|]. split; [done|]. apply Hnew; [by exists t|done].
    + simpl. pose proof (apply_grows (ADD_COLUMN table column) _ _ Hne Ea) as Hg.
      split; [by eapply grows_upgradable|]. split; [lia|]. split; [done|].
      apply Hnew; [|by eapply facts_grows].
      cbn [apply_stmt] in Ea. rewrite Et in Ea. case_decide; [done|]. injection Ea as <-.
      eexists. simpl. rewrite lookup_insert_eq. split; [done|]. simpl. set_solver.
Qed.

(** ** The rebuild in its transaction *)

Lemma apply_foreign_keys st c c' : apply_stmt st c = inr c' -> c_foreign_keys c' = c_foreign_keys c.
Proof. destruct st; simpl; repeat case_match; intros; simplify_eq; done. Qed.

(** Statements that succeed by themselves: the effect, or the environment stopped them. *)
Lemma exec_all_run l c' : ∀ r, apply_stmts l (r_conn r) = inr c' ->
  let '(res, r') := db_exec_all fault l r in
  (r_executed r <= r_executed r')%nat ∧ r_slept_ms r' = r_slept_ms r ∧
  c_foreign_keys (r_conn r') = c_foreign_keys (r_conn r) ∧
  match res with inr _ => r_conn r' = c' | inl e => blamed r r' e end.
Proof.
  induction l as [|st l IH]; intros r Ha; simpl in Ha.
  { injection Ha as <-. simpl. auto. }
  destruct (apply_stmt st (r_conn r)) as [e|c1] eqn:E1; [done|]. simpl. unfold xbind, db_exec, executes.
  destruct (fault (r_executed r)) as [e|] eqn:Ef.
  { simpl. split; [lia|]. split; [done|]. split; [done|]. exists (r_executed r). split; [simpl; lia|done]. }
  rewrite E1. specialize (IH (mkOpenRun c1 (S (r_executed r)) (r_slept_ms r)) Ha). unfold db_exec_all in IH.
  destruct (db_exec_all fault l _) as [res r'] eqn:El. unfold db_exec_all in El. rewrite El in IH. simpl in IH.
  destruct IH as (Hle & Hs & Hfk & Hres). split; [lia|]. split; [done|].
  split; [rewrite Hfk; by eapply apply_foreign_keys|]. destruct res as [e|u]; [|done].
  destruct Hres as (n & Hn & En). exists n. simpl in Hn. split; [lia|done].
Qed.

Lemma exec_all_snoc l st r : db_exec_all fault (l ++ [st]) r = (db_exec_all fault l >> db_exec fault st) r.
Proof.
  revert r. induction l as [|st' l IH]; intros r; simpl; unfold xbind.
  - unfold xret. by destruct (db_exec fault st r) as [[e|[]] r'].
  - destruct (db_exec fault st' r) as [[e|u] r']; [done|]. by rewrite IH.
Qed.

(** Commits the effect, or leaves the tables. *)
Lemma transaction_run l c' r : apply_stmts l (r_conn r) = inr c' ->
  let '(res, r') := db_transaction fault (db_exec_all fault l) r in
  (r_executed r <= r_executed r')%nat ∧ r_slept_ms r' = r_slept_ms r ∧
  match res with
  | inr _ => r_conn r' = c'
  | inl e => blamed r r' e ∧ r_conn r' = r_conn r
  end.
Proof.
  intros Ha. unfold db_transaction.
  assert (E : (db_exec fault (OTHER "BEGIN") >> db_exec_all fault l >> db_exec fault (OTHER "COMMIT")) r =
    db_exec_all fault (OTHER "BEGIN" :: l ++ [OTHER "COMMIT"]) r).
  { simpl. unfold xbind at 1 3. destruct (db_exec fault (OTHER "BEGIN") r) as [[e|u] r1]; [done|].
    by rewrite exec_all_snoc. }
  assert (Ha' : apply_stmts (OTHER "BEGIN" :: l ++ [OTHER "COMMIT"]) (r_conn r) = inr c').
  { simpl. by rewrite (apply_stmts_app _ _ _ _ Ha). }
  rewrite E. pose proof (exec_all_run _ c' r Ha') as Hrun.
  destruct (db_exec_all fault _ r) as [[e|u] r']; destruct Hrun as (Hle & Hs & Hfk & Hres); [|done].
  split; [done|]. split; [done|]. split; [done|]. simpl. rewrite Hfk. by destruct (r_conn r).
Qed.

(** The rebuilt tables are of the current kind; the other tables do not depend on the
    kind of key. *)
Lemma rebuilt_base table cols t : (table, cols) ∈ base_schema false -> (table, t) ∈ rebuilt -> cols ⊆ t_columns t.
Proof.
  assert (Hall : Forall (λ x : string * list string, Forall (λ y : string * Table, x.1 = y.1 -> x.2 ⊆ t_columns y.2) rebuilt)
    (base_schema false)) by (apply (bool_decide_unpack _); vm_compute; exact I).
  intros Hb Hs. rewrite Forall_forall in Hall. specialize (Hall _ Hb). rewrite Forall_forall in Hall.
  by apply (Hall _ Hs).
Qed.

Lemma base_not_rebuilt table cols :
  (table, cols) ∈ base_schema false -> table ∉ rebuilt.*1 -> (table, cols) ∈ base_schema true.
Proof.
  assert (Hall : Forall (λ x : string * list string, x.1 ∉ rebuilt.*1 -> x ∈ base_schema true) (base_schema false))
    by (apply (bool_decide_unpack _); vm_compute; exact I).
  intros Hb. rewrite Forall_forall in Hall. exact (Hall _ Hb).
Qed.

Lemma rebuilt_upgradable c c' :
  (∀ u, c_tables c' !! u =
      match list_find (λ x, x.1 = u) rebuilt with Some (_, (_, t)) => Some t | None => c_tables c !! u end) ->
  upgradable c -> legacy c = true -> c_foreign_keys c' = true ->
  upgradable c' ∧ legacy c' = false ∧ ∀ t, has_table c t -> has_table c' t.
Proof.
  intros Hl [Hb _ _] Hleg Hfk. rewrite Hleg in Hb.
  assert (El : legacy c' = false) by (unfold legacy; by rewrite Hl). split; [|split; [done|]].
  - split; rewrite El; [|done|congruence]. intros table cols t Hin Ht. rewrite Hl in Ht.
    destruct (list_find (λ x, x.1 = table) rebuilt) as [[i [u tb]]|] eqn:Ef.
    + injection Ht as <-. apply list_find_Some in Ef as (Hi & Heq & _). simpl in Heq. subst u.
      apply list_elem_of_lookup_2 in Hi. by eapply rebuilt_base.
    + apply (Hb table); [|done]. apply base_not_rebuilt; [done|].
      intros ([u tb] & -> & Hu)%list_elem_of_fmap. apply list_find_None in Ef.
      rewrite Forall_forall in Ef. by apply (Ef _ Hu).
  - intros t [x Hx]. unfold has_table. rewrite Hl. destruct (list_find _ _) as [[i [u tb]]|]; by eexists.
Qed.

Definition migrated_tables : list string :=
  ["devices"; "one_time_prekeys"; "sessions"; "encrypted_envelopes"; "delivery_state"].

(** The epoch column, which the statement before the migration has seen to. *)
Definition epoch : list (string * string) := [("encrypted_envelopes", "ordering_epoch")].

Lemma triple_rebuild ts :
  migrated_tables ⊆ ts ->
  triple (λ c, facts ts epoch false c ∧ legacy c = true)
    (PRAGMA_foreign_keys false >> db_transaction fault (db_exec_all fault rebuild_tables) >> PRAGMA_foreign_keys true)
    (λ _, facts ts epoch true).
Proof.
  intros Hts r Hu [(Ht & Hc & _) Hleg]. unfold xbind at 1, PRAGMA_foreign_keys at 1. cbv beta iota.
  set (r1 := mkOpenRun (mkConn (c_tables (r_conn r)) false) (r_executed r) (r_slept_ms r)).
  assert (Hu1 : upgradable (r_conn r1)) by (destruct Hu; by split).
  destruct (rebuild_tables_apply (r_conn r1) Hu1 Hleg) as (c' & Ha & Hfk & Hl).
  { intros t Hin. by apply Ht, Hts. } { apply (Hc ("encrypted_envelopes", "ordering_epoch")). left. }
  pose proof (transaction_run rebuild_tables c' r1 Ha) as Hrun. unfold xbind.
  destruct (db_transaction fault _ r1) as [[e|u] r2]; destruct Hrun as (Hle & Hs & Hres).
  - destruct Hres as [Hbl ->]. done.
  - unfold PRAGMA_foreign_keys. simpl. destruct (rebuilt_upgradable (r_conn r) (mkConn (c_tables (r_conn r2)) true))
      as (Hu2 & El & Hkeep); [by rewrite Hres|done..|].
    split; [done|]. split; [exact Hle|]. split; [exact Hs|]. split; [|split; [|done]].
    + intros t Hin. by apply Hkeep, Ht.
    + intros x ->%list_elem_of_singleton. exists (mkTable envelopes_columns 1). simpl. rewrite Hres, Hl.
      split; [done|solve_in].
Qed.

Lemma triple_migrate ts :
  migrated_tables ⊆ ts ->
  triple (facts ts epoch false) (MigrateDevicesCompositePrimaryKey fault) (λ _, facts ts epoch true).
Proof.
  intros Hts. unfold MigrateDevicesCompositePrimaryKey.
  assert (Hdev : ∀ c, facts ts epoch false c -> has_table c "devices").
  { intros c (Ht & _). apply Ht, Hts. solve_in. }
  eapply triple_bind; [apply triple_query|]. intros n. cbv beta. destruct (Nat.eqb_spec n 0) as [->|_].
  { intros r _ [Hf Hn]. destruct (Hdev _ Hf) as [t Ht]. by rewrite Ht in Hn. }
  eapply (triple_weaken (facts ts epoch false)); [by intros c _ [Hf _]|intros a c _ Hq; exact Hq|].
  eapply triple_bind; [apply triple_query|]. intros pk. cbv beta. destruct (Nat.leb_spec 2 pk) as [Hpk|Hpk].
  - intros r Hu [Hf Hn]. simpl. split; [done|]. split; [done|]. split; [done|].
    destruct Hf as (H1 & H2 & _). split; [done|]. split; [done|]. intros _. unfold legacy.
    destruct (c_tables (r_conn r) !! "devices"); [|done]. apply Nat.ltb_ge. lia.
  - eapply triple_weaken; [|intros a c _ Hq; exact Hq|by apply triple_rebuild].
    intros c _ [Hf Hn]. split; [done|]. unfold legacy. destruct (Hdev _ Hf) as [t Ht]. rewrite Ht in Hn |- *.
    apply Nat.ltb_lt. lia.
Qed.

(** ** [CreateSchema] *)

Lemma triple_create_all l : ∀ ts cs b,
  Forall (λ st, adds st ∧ match st with CREATE_TABLE _ _ _ _ | OTHER _ => True | _ => False end) l ->
  triple (facts ts cs b) (db_exec_all fault l)
    (λ _, facts (foldl (λ ts st, match st with CREATE_TABLE _ t _ _ => t :: ts | _ => ts end) ts l) cs b).
Proof.
  induction l as [|st l IH]; intros ts cs b Hl; [apply triple_ret|].
  apply Forall_cons in Hl as [[Hst Hk] Hl]. simpl. eapply triple_bind; [|intros u; by apply IH].
  destruct st as [[] t cols key| | | | | |]; try done.
  - destruct Hst. by apply triple_create.
  - apply triple_other.
Qed.

Lemma triple_add_all l ts b : ∀ cs,
  Forall (λ st, match st with ADD_COLUMN t _ => t ∈ ts ∧ t ≠ "sessions" | _ => False end) l ->
  triple (facts ts cs b) (try_exec_all fault l)
    (λ _, facts ts (foldl (λ cs st, match st with ADD_COLUMN t c => (t, c) :: cs | _ => cs end) cs l) b).
Proof.
  induction l as [|st l IH]; intros cs Hl; [apply triple_ret|].
  apply Forall_cons in Hl as [Hst Hl]. simpl. eapply triple_bind; [|intros u; by apply IH].
  destruct st as [|t c| | | | |]; try done. destruct Hst. by apply triple_add.
Qed.

(** All the tables, and the columns that later versions added, make the schema. *)
Lemma facts_complete ts cs c :
  upgradable c -> facts ts cs true c -> schema.*1 ⊆ ts ->
  Forall (λ x : string * list string, Forall (λ col, (x.1, col) ∈ cs ∨
    Exists (λ y : string * list string, y.1 = x.1 ∧ col ∈ y.2) (base_schema false)) x.2) schema ->
  complete c.
Proof.
  intros Hu (Ht & Hc & Hl) Hts Hall. specialize (Hl eq_refl). split; [|split; [done|]].
  - intros table cols column Hin Hcol. rewrite Forall_forall in Hall. specialize (Hall _ Hin).
    rewrite Forall_forall in Hall. destruct (Hall _ Hcol) as [Hx|([tb bs] & Hb & Etb & Hcb)%Exists_exists];
      [by apply (Hc _ Hx)|]. cbn [fst snd] in Etb, Hcb. subst tb.
    destruct (Ht table) as [t Et]; [apply Hts; exact (list_elem_of_fmap_2 fst _ _ Hin)|].
    exists t. split; [done|]. destruct Hu as [Hbase _ _]. rewrite Hl in Hbase. by apply (Hbase table bs t).
  - destruct (c_foreign_keys c) eqn:E; [done|]. destruct Hu as [_ _ Hf]. rewrite Hf in Hl; done.
Qed.

Lemma triple_CreateSchema : triple (λ _, True) (CreateSchema fault) (λ _, complete).
Proof.
  unfold CreateSchema, MigrateLegacySchema.
  apply (triple_weaken (facts [] [] false) _ (λ _, complete) _);
    [intros c _ _; split; [by intros t ?%not_elem_of_nil|split; [by intros t ?%not_elem_of_nil|done]]|done|].
  eapply triple_bind; [apply triple_create_all; repeat constructor; solve_in || (intros; done)|]. intros u1. cbn [foldl create_tables].
  eapply triple_bind; [apply triple_add; [solve_in|done]|]. intros u2.
  eapply triple_bind; [apply triple_create_all; repeat constructor; solve_in || (intros; done)|]. intros u3. cbn [foldl create_more_tables].
  eapply triple_bind; [apply triple_migrate; solve_in|]. intros u4.
  eapply triple_weaken; [intros c _ Hp; exact Hp| |apply triple_add_all; repeat constructor; solve_in || done].
  intros u5 c Hu Hf. eapply facts_complete; [done|exact Hf|solve_in|solve_in].
Qed.

(** ** The retries *)

(** One attempt. *)
Lemma attempt_cases r :
  upgradable (r_conn r) ->
  (∃ r', CreateSchema fault r = (inr tt, r') ∧ complete (r_conn r') ∧ r_slept_ms r' = r_slept_ms r) ∨
  (∃ e r', CreateSchema fault r = (inl e, r') ∧ upgradable (r_conn r') ∧ blamed r r' e ∧
     r_slept_ms r' = r_slept_ms r).
Proof.
  intros Hu. pose proof (triple_CreateSchema r Hu I) as H.
  destruct (CreateSchema fault r) as [[e|[]] r']; destruct H as (Hu' & _ & Hs & Hres).
  - right. by exists e, r'.
  - left. by exists r'.
Qed.

(** The time slept by the attempts before the last one, in units of the backoff. *)
Fixpoint backoffs (remaining : nat) (attempt : Z) : Z :=
  match remaining with
  | 0%nat | 1%nat => 0
  | S remaining' => attempt + backoffs remaining' (attempt + 1)
  end.

Lemma init_loop_cases remaining : ∀ attempt r,
  upgradable (r_conn r) -> attempt + Z.of_nat remaining = kSchemaInitMaxAttempts + 1 -> (0 < remaining)%nat ->
  (∃ r', init_loop fault remaining attempt r = (inr tt, r') ∧ complete (r_conn r')) ∨
  (∃ e r', init_loop fault remaining attempt r = (inl e, r') ∧ upgradable (r_conn r') ∧ blamed r r' e ∧
     (is_busy e = true -> r_slept_ms r' = r_slept_ms r + kSchemaInitBackoffBaseMs * backoffs remaining attempt)).
Proof.
  induction remaining as [|n IH]; intros attempt r Hu Hsum Hpos; [lia|]. cbn [init_loop]. unfold xcatch.
  destruct (attempt_cases r Hu) as [(r1 & -> & Hc & _)|(e & r1 & -> & Hu1 & Hb & Hs)]; [left; by exists r1|].
  destruct (attempt <? kSchemaInitMaxAttempts) eqn:Elt, (is_busy e) eqn:Ebusy; simpl.
  - apply Z.ltb_lt in Elt. unfold xbind, sleep_ms.
    set (r2 := mkOpenRun (r_conn r1) (r_executed r1) (r_slept_ms r1 + kSchemaInitBackoffBaseMs * attempt)).
    destruct (IH (attempt + 1) r2) as [(r3 & -> & Hc)|(e' & r3 & -> & Hu3 & (k & Hk & Ek) & Hs3)];
      [exact Hu1|lia|lia|left; by exists r3|].
    right. exists e', r3. split; [done|]. split; [done|]. split.
    + destruct Hb as (k0 & Hk0 & _). exists k. simpl in Hk. split; [lia|done].
    + intros Hb'. rewrite (Hs3 Hb'). simpl. rewrite Hs. destruct n as [|n']; [lia|]. simpl. lia.
  - right. exists e, r1. split; [done|]. split; [done|]. split; [done|congruence].
  - apply Z.ltb_ge in Elt. right. exists e, r1. split; [done|]. split; [done|]. split; [done|].
    intros _. assert (n = 0%nat) as -> by lia. simpl. lia.
  - right. exists e, r1. split; [done|]. split; [done|]. split; [done|congruence].
Qed.

(** Fewer interruptions than attempts, each of them a busy or locked file. *)
Lemma init_loop_survives remaining : ∀ attempt r (l : list nat),
  upgradable (r_conn r) -> attempt + Z.of_nat remaining = kSchemaInitMaxAttempts + 1 ->
  (∀ n e, fault n = Some e -> is_busy e = true ∧ ((r_executed r <= n)%nat -> n ∈ l)) ->
  (length l < remaining)%nat ->
  ∃ r', init_loop fault remaining attempt r = (inr tt, r') ∧ complete (r_conn r').
Proof.
  induction remaining as [|n IH]; intros attempt r l Hu Hsum Hf Hl; [lia|]. cbn [init_loop]. unfold xcatch.
  destruct (attempt_cases r Hu) as [(r1 & -> & Hc & _)|(e & r1 & -> & Hu1 & (k & Hk & Ek) & _)]; [by exists r1|].
  destruct (Hf k e Ek) as [Hbusy Hin]. specialize (Hin (proj1 Hk)).
  assert (Hlen : (length (filter (λ i, r_executed r1 <= i)%nat l) < length l)%nat).
  { apply (length_filter_lt _ l k Hin). lia. }
  rewrite Hbusy, (proj2 (Z.ltb_lt _ _)) by lia. cbn [andb]. unfold xbind, sleep_ms.
  eapply (IH (attempt + 1) _ (filter (λ i, r_executed r1 <= i)%nat l)); [exact Hu1|lia| |lia].
  intros i e' Ei. destruct (Hf i e' Ei) as [Hb' Hi]. split; [done|]. cbn [r_executed]. intros Hle.
  apply list_elem_of_filter. split; [done|]. apply Hi. lia.
Qed.

(** ** Opening a file *)

Definition opened (ts : gmap string Table) : OpenRun := mkOpenRun (mkConn ts false) 0 0.

(** After the two pragmas that may throw. *)
Lemma ctor_after_pragmas ts :
  Database_ctor fault (opened ts) =
  match fault 0%nat with
  | Some e => (inl e, mkOpenRun (mkConn ts false) 1 0)
  | None =>
      match fault 1%nat with
      | Some e => (inl e, mkOpenRun (mkConn ts true) 2 0)
      | None => init_loop fault 8 1 (mkOpenRun (mkConn ts true) 2 0)
      end
  end.
Proof.
  unfold Database_ctor, xbind, db_exec, executes, PRAGMA_foreign_keys, opened.
  change (Z.to_nat kSchemaInitMaxAttempts) with 8%nat.
  cbn [r_executed r_conn r_slept_ms apply_stmt c_tables]. destruct (fault 0%nat); [done|].
  cbn [r_executed r_conn r_slept_ms apply_stmt c_tables]. by destruct (fault 1%nat).
Qed.

(** C15: Opening an [upgradable] file.  Each table of the file has at least the columns of
    [base_schema]; in a file with the single device key the devices table has all of its
    current columns, the sessions table as many columns as the rebuild copies, and no
    table of an interrupted rebuild is in the way.  An empty file and what an interrupted
    opening leaves are such files; one with the single key and an older devices table is not
    ([older_file_refused]).  Whatever the environment does meanwhile: if the constructor
    returns, the file has every table and column of the current schema, with the
    composite device key and references checked; if it throws, the exception is one the
    environment raised, never one of its own statements, and a busy file is reported only
    after eight attempts and the backoffs between them, seven seconds in all (or at
    once, by the first pragmas). *)
Theorem opening_upgrades ts res r' :
  upgradable (mkConn ts true) -> Database_ctor fault (opened ts) = (res, r') ->
  match res with
  | inr _ => complete (r_conn r')
  | inl e => (∃ n, (n < r_executed r')%nat ∧ fault n = Some e) ∧
      (getErrorCode e = SQLITE_BUSY ∨ getErrorCode e = SQLITE_LOCKED ->
       (r_executed r' <= 2)%nat ∨ r_slept_ms r' = 7000)
  end.
Proof.
  intros Hu. rewrite ctor_after_pragmas. destruct (fault 0%nat) as [e0|] eqn:E0.
  { intros [= <- <-]. split; [exists 0%nat; by split; [simpl; lia|]|]. intros _. left. simpl. lia. }
  destruct (fault 1%nat) as [e1|] eqn:E1.
  { intros [= <- <-]. split; [exists 1%nat; by split; [simpl; lia|]|]. intros _. left. simpl. lia. }
  destruct (init_loop_cases 8 1 (mkOpenRun (mkConn ts true) 2 0) Hu eq_refl ltac:(lia))
    as [(r1 & -> & Hc)|(e & r1 & -> & _ & (n & Hn & En) & Hs)]; intros [= <- <-]; [done|].
  split; [exists n; by split; [lia|]|]. intros Hb%is_busy_iff. right. by rewrite (Hs Hb).
Qed.

(** C20: Up to seven interruptions by a busy or locked file, wherever they strike in the
    sequence of statements after the pragmas, do not keep the server from starting:
    every attempt takes up what the previous one left. *)
Theorem opening_survives_busy ts (l : list nat) :
  upgradable (mkConn ts true) ->
  (∀ n e, fault n = Some e ->
     n ∈ l ∧ (2 <= n)%nat ∧ (getErrorCode e = SQLITE_BUSY ∨ getErrorCode e = SQLITE_LOCKED)) ->
  (length l <= 7)%nat ->
  ∃ r', Database_ctor fault (opened ts) = (inr tt, r') ∧ complete (r_conn r').
Proof.
  intros Hu Hf Hl. rewrite ctor_after_pragmas.
  destruct (fault 0%nat) as [e|] eqn:E0; [destruct (Hf _ _ E0) as (_ & ? & _); lia|].
  destruct (fault 1%nat) as [e|] eqn:E1; [destruct (Hf _ _ E1) as (_ & ? & _); lia|].
  apply (init_loop_survives 8 1 _ l); [done|done| |simpl; lia].
  intros n e En. destruct (Hf n e En) as (Hn & _ & Hb%is_busy_iff). done.
Qed.
End runs.

(** ** Concrete runs *)

(** A new file gets the eleven tables, in one attempt. *)
Example new_file_schema :
  let '(res, r) := Database_ctor (λ _, None) (opened ∅) in
  res = inr tt ∧ r_slept_ms r = 0 ∧ size (c_tables (r_conn r)) = 11%nat ∧
  c_tables (r_conn r) !! "devices" = Some (mkTable devices_columns 2).
Proof. vm_compute. auto. Qed.

(** The file of the last version with the single device key. *)
Definition single_key_file : gmap string Table :=
  list_to_map ((λ x, (x.1, mkTable x.2 1)) <$> base_schema true).

Definition locked_error : SqliteError := mkSqliteError SQLITE_BUSY "database is locked".

(** The environment interrupts the rebuild twice. *)
Definition two_faults (n : nat) : option SqliteError :=
  if decide (n = 20 ∨ n = 50)%nat then Some locked_error else None.

Lemma single_key_file_upgradable : upgradable (mkConn single_key_file true).
Proof.
  assert (Hbase : Forall (λ x : string * list string, match single_key_file !! x.1 with
      | Some t => x.2 ⊆ t_columns t | None => True end) (base_schema true))
    by (repeat constructor; vm_compute; by intros ? ?).
  split; [|intros _; split|done].
  - change (legacy (mkConn single_key_file true)) with true. intros table cols t Hin Ht.
    rewrite Forall_forall in Hbase. specialize (Hbase _ Hin). simpl in Hbase, Ht. by rewrite Ht in Hbase.
  - intros table Hin. repeat (apply elem_of_cons in Hin as [->|Hin]; [done|]). by apply not_elem_of_nil in Hin.
  - intros t [= <-]. done.
Qed.

Lemma two_faults_msg n e : two_faults n = Some e -> string_find "duplicate" (what e) = false.
Proof. unfold two_faults. case_decide; [|done]. by intros [= <-]. Qed.

Lemma opening_upgrades_witness :
  complete (r_conn (Database_ctor two_faults (opened single_key_file)).2).
Proof.
  assert (E : (Database_ctor two_faults (opened single_key_file)).1 = inr tt) by (vm_compute; reflexivity).
  pose proof (opening_upgrades two_faults two_faults_msg single_key_file
    (Database_ctor two_faults (opened single_key_file)).1 (Database_ctor two_faults (opened single_key_file)).2
    single_key_file_upgradable (surjective_pairing _)) as H.
  rewrite E in H. exact H.
Defined.

Lemma opening_survives_busy_witness :
  ∃ r', Database_ctor two_faults (opened single_key_file) = (inr tt, r') ∧ complete (r_conn r').
Proof.
  apply (opening_survives_busy two_faults two_faults_msg single_key_file [20; 50]%nat single_key_file_upgradable);
    [|simpl; lia].
  intros n e. unfold two_faults. case_decide as Hn; [|done]. intros [= <-]. split; [|split; [lia|by left]].
  destruct Hn as [-> | ->]; [left|right; left].
Defined.

(** A file from before the devices had labels and a revocation time cannot be opened:
    the rebuild names columns that are only added after it. *)
Example older_file_refused :
  let ts := <["devices" := mkTable (take 7 devices_columns) 1]> single_key_file in
  (Database_ctor (λ _, None) (opened ts)).1 = inl (sqlite_error "no such column").
Proof. vm_compute. reflexivity. Qed.
