(* ===== verification/ConversationService.v ===== *)
(** * ConversationService (lib/vox_relay/conversation_service.cpp)

    Creating conversations and changing who takes part in them, under the roles
    and size limits of the server.  The operations that only call repositories run
    on the database; those that also purge queues run on the relay's state. *)

From S2P Require Import Prelude Types Sql Database Samples Uuid Devices Conversations Envelopes Delivery Relay.

(** [std::ranges::sort], then [std::ranges::unique] and [erase]. *)
Fixpoint unique (l : list string) : list string :=
  match l with
  | x :: (y :: _) as l' => if x =s? y then unique l' else x :: unique l'
  | _ => l
  end.

Definition SortUnique (ids : list UserId) : list UserId := unique (sql_order_by String.le ids).

(** The loop over the admins of a new channel; [None] at a repeated id. *)
Fixpoint see_admins (admins : list UserId) (seen : gset string) (total : nat) : option (gset string * nat) :=
  match admins with
  | [] => Some (seen, total)
  | a :: admins' => if decide (a ∈ seen) then None else see_admins admins' ({[ a ]} ∪ seen) (S total)
  end.

(** The loop over the subscribers, which skips the ids already seen. *)
Fixpoint see_subscribers (subs : list UserId) (seen : gset string) (total : nat) : nat :=
  match subs with
  | [] => total
  | s :: subs' =>
      if decide (s ∈ seen) then see_subscribers subs' seen total
      else see_subscribers subs' ({[ s ]} ∪ seen) (S total)
  end.

(** The policy of a new channel. *)
Definition kNewChannelPolicy : string :=
  "{" +:+ quoted "title" +:+ ":" +:+ quoted "" +:+ "," +:+ quoted "channel_post_policy" +:+ ":" +:+
  quoted "admins_only" +:+ "}".

Lemma elem_of_unique l x : x ∈ unique l <-> x ∈ l.
Proof.
  induction l as [|y [|z l] IH]; [done..|].
  change (unique (y :: z :: l)) with (if y =s? z then unique (z :: l) else y :: unique (z :: l)).
  destruct (String.eqb_spec y z) as [->|Hne]; rewrite ?elem_of_cons, IH, ?elem_of_cons; tauto.
Qed.

Lemma NoDup_unique l : StronglySorted String.le l -> NoDup (unique l).
Proof.
  induction l as [|y [|z l] IH]; intros Hs; [constructor|apply NoDup_singleton|].
  change (unique (y :: z :: l)) with (if y =s? z then unique (z :: l) else y :: unique (z :: l)).
  apply StronglySorted_inv in Hs as [Hs Hy].
  destruct (String.eqb_spec y z) as [->|Hne]; [by apply IH|]. apply NoDup_cons. split; [|by apply IH].
  rewrite elem_of_unique, elem_of_cons. intros [->|Hin]; [done|]. apply Hne.
  apply Forall_cons in Hy as [Hyz _]. apply StronglySorted_inv in Hs as [_ Hz].
  apply (anti_symm String.le); [done|]. by apply (proj1 (Forall_forall _ _) Hz).
Qed.

Lemma SortUnique_spec ids : NoDup (SortUnique ids) ∧ ∀ u, u ∈ SortUnique ids <-> u ∈ ids.
Proof.
  split.
  - apply NoDup_unique. apply StronglySorted_merge_sort; apply _.
  - intros u. unfold SortUnique, sql_order_by. by rewrite elem_of_unique, (merge_sort_Permutation _ _ : _ ≡ₚ _).
Qed.

(** The counting loops: the number of distinct ids. *)
Lemma see_admins_spec admins : ∀ seen total seen' total',
  see_admins admins seen total = Some (seen', total') ->
  NoDup admins ∧ (∀ a, a ∈ admins -> a ∉ seen) ∧ seen' = list_to_set admins ∪ seen ∧
  total' = (total + length admins)%nat.
Proof.
  induction admins as [|a admins IH]; intros seen total seen' total' Hs; simpl in Hs.
  { injection Hs as <- <-. split; [constructor|]. split; [by intros a ?%not_elem_of_nil|].
    split; [set_solver|simpl; lia]. }
  case_decide as Ha; [done|]. apply IH in Hs as (Hnd & Hfresh & -> & ->). split_and!.
  - apply NoDup_cons. split; [|done]. intros Hin. apply (Hfresh a Hin). set_solver.
  - intros b [->|Hb]%elem_of_cons; [done|]. specialize (Hfresh b Hb). set_solver.
  - simpl. set_solver.
  - simpl. lia.
Qed.

Lemma gset_size_fresh (x : string) (X : gset string) : x ∉ X -> size ({[ x ]} ∪ X) = S (size X).
Proof. intros Hx. rewrite size_union, size_singleton; [done|set_solver]. Qed.

Lemma see_subscribers_spec subs : ∀ seen total,
  see_subscribers subs seen total = (total + size (list_to_set subs ∖ seen : gset string))%nat.
Proof.
  induction subs as [|s subs IH]; intros seen total; simpl.
  { replace (∅ ∖ seen) with (∅ : gset string) by set_solver. rewrite size_empty. lia. }
  case_decide as Hs; rewrite IH.
  - do 2 f_equal. set_solver.
  - replace (({[ s ]} ∪ list_to_set subs) ∖ seen)
      with ({[ s ]} ∪ (list_to_set subs ∖ ({[ s ]} ∪ seen)) : gset string).
    + rewrite (gset_size_fresh s) by set_solver. lia.
    + apply set_eq. intros x. destruct (decide (x = s)); set_solver.
Qed.

Module ConversationService.
Import DeliveryManager.
Section ConversationService.
Context `{SqlEngine} {Hook : Type} (max_group_size max_channel_size : Z).
Implicit Types w : RelayWorld Hook.

Definition PurgeMemberDelivery (conv_id : ConversationId) (user_id : UserId) : M (RelayWorld Hook) unit :=
  attempt (on_relay_db (EnvelopeRepository.DeletePendingDeliveryForUserInConversation conv_id user_id)) ;;!
  let! devs := gets (λ w, GetDevicesForUser user_id (rw_db w)) in
  for_each devs (λ d, modify (PurgeConversationFromDeviceQueue conv_id (d_user_id d) (d_device_id d))).

Definition CreateDm (user_a user_b created_by : UserId) (now : Timestamp) (draw : Z * Z)
    : M Database ConversationId :=
  if negb (created_by =s? user_a) && negb (created_by =s? user_b) then
    throw kForbidden "Creator must be one of the participants"
  else
  let conv_id := GenerateUuid draw in
  ConversationRepository.CreateConversation (mkConversationRow conv_id kDm created_by now "" 0) ;;!
  if user_a =s? user_b then
    ConversationRepository.AddMember conv_id user_a kOwner now ;;!
    mok conv_id
  else
    let owner := if created_by =s? user_a then user_a else user_b in
    let other := if owner =s? user_a then user_b else user_a in
    ConversationRepository.AddMember conv_id owner kOwner now ;;!
    ConversationRepository.AddMember conv_id other kMember now ;;!
    mok conv_id.

Definition CreateGroup (created_by : UserId) (members : list UserId) (now : Timestamp) (draw : Z * Z)
    : M Database ConversationId :=
  let member_user_ids := SortUnique members in
  if Nat.ltb (length member_user_ids) 2 then
    throw kInvalidArgument "Group requires at least two members"
  else if negb (bool_decide (created_by ∈ member_user_ids)) then
    throw kInvalidArgument "Creator must be included in members"
  else if max_group_size <? Z.of_nat (length member_user_ids) then
    throw kQuotaExceeded "Group exceeds configured maximum member count"
  else
  let conv_id := GenerateUuid draw in
  ConversationRepository.CreateConversation (mkConversationRow conv_id kGroup created_by now "" 0) ;;!
  for_each member_user_ids (λ uid,
    let role := if uid =s? created_by then kOwner else kMember in
    ConversationRepository.AddMember conv_id uid role now) ;;!
  mok conv_id.

Definition CreateChannel (created_by : UserId) (admin_user_ids subscriber_user_ids : list UserId)
    (now : Timestamp) (draw : Z * Z) : M Database ConversationId :=
  if bool_decide (admin_user_ids = []) then
    throw kInvalidArgument "Channel requires at least one admin"
  else if negb (bool_decide (created_by ∈ admin_user_ids)) then
    throw kInvalidArgument "Creator must be listed as admin"
  else
  match see_admins admin_user_ids ∅ 0 with
  | None => throw kInvalidArgument "Duplicate admin user id"
  | Some (seen, total) =>
    if max_channel_size <? Z.of_nat (see_subscribers subscriber_user_ids seen total) then
      throw kQuotaExceeded "Channel exceeds configured maximum subscriber count"
    else
    let conv_id := GenerateUuid draw in
    ConversationRepository.CreateConversation
      (mkConversationRow conv_id kChannel created_by now kNewChannelPolicy 0) ;;!
    for_each admin_user_ids (λ uid,
      let role := if uid =s? created_by then kOwner else kAdmin in
      ConversationRepository.AddMember conv_id uid role now ;;!
      ConversationRepository.Subscribe conv_id uid now) ;;!
    for_each subscriber_user_ids (λ uid,
      if bool_decide (uid ∈ admin_user_ids) then mok tt
      else ConversationRepository.Subscribe conv_id uid now) ;;!
    mok conv_id
  end.

Definition ActorCanManageMembers (conv : ConversationRow) (actor : UserId) (db : Database) : bool :=
  match ConversationRepository.GetMember (c_conversation_id conv) actor db with
  | None => false
  | Some m => bool_decide (m_role m = kOwner) || bool_decide (m_role m = kAdmin)
  end.

Definition AddMember (conv_id : ConversationId) (actor_user_id new_user_id : UserId) (role : MemberRole)
    (now : Timestamp) : M Database unit :=
  let! conv := gets (ConversationRepository.FindById conv_id) in
  match conv with
  | None => throw kNotFound "Conversation not found"
  | Some conv =>
    match c_type conv with
    | kDm => throw kInvalidArgument "Cannot add members to a DM"
    | kChannel => throw kInvalidArgument "Use channel subscribe for channel membership"
    | kGroup =>
      let! can := gets (ActorCanManageMembers conv actor_user_id) in
      if negb can then throw kForbidden "Insufficient permissions" else
      let! count := gets (ConversationRepository.GetMemberCount conv_id) in
      if max_group_size <=? Z.of_nat count then throw kQuotaExceeded "Group is full" else
      ConversationRepository.AddMember conv_id new_user_id role now
    end
  end.

Definition RemoveMember (conv_id : ConversationId) (actor_user_id target_user_id : UserId)
    (now : Timestamp) : M (RelayWorld Hook) unit :=
  let! conv := gets (λ w, ConversationRepository.FindById conv_id (rw_db w)) in
  match conv with
  | None => throw kNotFound "Conversation not found"
  | Some conv =>
    match c_type conv with
    | kDm => throw kInvalidArgument "Cannot remove members from a DM"
    | kChannel => throw kInvalidArgument "Use channel unsubscribe"
    | kGroup =>
      let! can := gets (λ w, ActorCanManageMembers conv actor_user_id (rw_db w)) in
      if negb can then throw kForbidden "Insufficient permissions" else
      on_relay_db (ConversationRepository.RemoveMember conv_id target_user_id now) ;;!
      PurgeMemberDelivery conv_id target_user_id
    end
  end.

Definition SubscribeChannel (conv_id : ConversationId) (user_id : UserId) (now : Timestamp)
    : M Database unit :=
  let! conv := gets (ConversationRepository.FindById conv_id) in
  match conv with
  | None => throw kNotFound "Conversation not found"
  | Some conv =>
    if negb (bool_decide (c_type conv = kChannel)) then
      throw kInvalidArgument "Not a channel conversation"
    else
    let! subs := gets (ConversationRepository.GetSubscribers conv_id) in
    if bool_decide (user_id ∈ subs) then ConversationRepository.Subscribe conv_id user_id now
    else if max_channel_size <=? Z.of_nat (length subs) then
      throw kQuotaExceeded "Channel subscriber limit reached"
    else ConversationRepository.Subscribe conv_id user_id now
  end.

Definition UnsubscribeChannel (conv_id : ConversationId) (user_id : UserId) (now : Timestamp)
    : M (RelayWorld Hook) unit :=
  let! conv := gets (λ w, ConversationRepository.FindById conv_id (rw_db w)) in
  match conv with
  | None => throw kNotFound "Conversation not found"
  | Some conv =>
    if negb (bool_decide (c_type conv = kChannel)) then
      throw kInvalidArgument "Not a channel conversation"
    else
    let! m := gets (λ w, ConversationRepository.GetMember conv_id user_id (rw_db w)) in
    if match m with
       | Some m => bool_decide (m_role m = kOwner) || bool_decide (m_role m = kAdmin)
       | None => false
       end
    then throw kForbidden "Admins cannot unsubscribe; remove admin role first"
    else
      on_relay_db (ConversationRepository.Unsubscribe conv_id user_id now) ;;!
      PurgeMemberDelivery conv_id user_id
  end.

Definition ListForUser (user_id : UserId) (db : Database) : list ConversationRecord :=
  ConversationRepository.GetConversationsForUser user_id db.

(** ** Creating a conversation *)

Lemma CreateConversation_Ok conv db r db' :
  ConversationRepository.CreateConversation conv db = (Ok r, db') ->
  db' = set_conversations (sql_insert conv (conversations db)) db ∧
  c_conversation_id conv ∉ c_conversation_id <$> conversations db ∧
  c_created_by conv ∈ u_user_id <$> users db.
Proof.
  destruct r. intros Hc%exec_Ok. unfold insert_conversations in Hc.
  destruct (sql_exists _ _) eqn:Ex; [done|]. destruct (negb _) eqn:Eu; [done|]. injection Hc as <-.
  apply negb_false_iff, has_user_true in Eu. split; [done|]. split; [|done].
  intros (c & E & Hc)%list_elem_of_fmap. by apply (proj1 (sql_exists_false _ _) Ex c).
Qed.

Lemma CreateConversation_new conv db :
  c_conversation_id conv ∉ c_conversation_id <$> conversations db ->
  c_created_by conv ∈ u_user_id <$> users db ->
  ConversationRepository.CreateConversation conv db =
  (Ok tt, set_conversations (sql_insert conv (conversations db)) db).
Proof.
  intros Hnew Hu. apply exec_Ok. unfold insert_conversations.
  rewrite (proj2 (sql_exists_false _ _)), (proj2 (has_user_true _ _)); [done|done|].
  intros c Hc E. apply Hnew. rewrite <- E. by apply list_elem_of_fmap_2.
Qed.

(** What a conversation is, apart from its membership version. *)
Definition conv_facts (c : ConversationRow) : ConversationId * ConversationType * UserId * string :=
  (c_conversation_id c, c_type c, c_created_by c, c_policy_blob c).

Lemma conv_ids_of_facts db db' :
  conv_facts <$> conversations db' = conv_facts <$> conversations db ->
  c_conversation_id <$> conversations db' = c_conversation_id <$> conversations db.
Proof.
  intros E. apply (f_equal (fmap (λ x, x.1.1.1))) in E. by rewrite <- !list_fmap_compose in E.
Qed.

(** The tables a change of members may touch, and the rows of other conversations. *)
Record roster_step (conv : ConversationId) (db db' : Database) : Prop := mk_roster_step {
  rs_facts : conv_facts <$> conversations db' = conv_facts <$> conversations db;
  rs_users : users db' = users db;
  rs_members : ∀ m, m_conversation_id m ≠ conv -> m ∈ conversation_members db' <-> m ∈ conversation_members db;
  rs_subs : ∀ b, b_conversation_id b ≠ conv -> b ∈ channel_subscriptions db' <-> b ∈ channel_subscriptions db }.

Lemma roster_step_refl conv db : roster_step conv db db.
Proof. by split. Qed.

Lemma roster_step_trans conv db1 db2 db3 :
  roster_step conv db1 db2 -> roster_step conv db2 db3 -> roster_step conv db1 db3.
Proof.
  intros [] []. split; [congruence..| |].
  - intros m Hm. by rewrite rs_members1, rs_members0.
  - intros b Hb. by rewrite rs_subs1, rs_subs0.
Qed.

Lemma AddMember_roster conv user role now db r db' :
  ConversationRepository.AddMember conv user role now db = (Ok r, db') -> roster_step conv db db'.
Proof.
  destruct r. intros (Hc & Hm & Hs & Hu & _)%ConversationRepository.AddMember_Ok. split; [..|done| |].
  - rewrite Hc. by apply fmap_sql_update.
  - intros m Hne. rewrite Hm. unfold member_key. split.
    + intros [[? _]| ->]; [done|]. done.
    + intros Hin. left. split; [done|]. congruence.
  - intros b _. by rewrite Hs.
Qed.

Lemma Subscribe_roster conv user now db r db' :
  ConversationRepository.Subscribe conv user now db = (Ok r, db') -> roster_step conv db db'.
Proof.
  destruct r. intros (Hc & Hs & Hm & Hu & _)%ConversationRepository.Subscribe_Ok. split; [..|done| |].
  - rewrite Hc. by apply fmap_sql_update.
  - intros m _. by rewrite Hm.
  - intros b Hne. rewrite Hs. unfold subscription_key. split.
    + intros [[? _]| ->]; [done|]. done.
    + intros Hin. left. split; [done|]. congruence.
Qed.

Lemma AddMember_known conv user role now db :
  conv ∈ c_conversation_id <$> conversations db -> user ∈ u_user_id <$> users db ->
  ∃ db', ConversationRepository.AddMember conv user role now db = (Ok tt, db').
Proof.
  intros Hc Hu. unfold ConversationRepository.AddMember, bind, exec, upsert_conversation_members. simpl.
  rewrite (proj2 (has_conversation_true _ _) Hc), (proj2 (has_user_true _ _) Hu).
  destruct (sql_exists _ _); by eexists.
Qed.

Lemma Subscribe_known conv user now db :
  conv ∈ c_conversation_id <$> conversations db -> user ∈ u_user_id <$> users db ->
  ∃ db', ConversationRepository.Subscribe conv user now db = (Ok tt, db').
Proof.
  intros Hc Hu. unfold ConversationRepository.Subscribe, bind, exec, upsert_channel_subscriptions. simpl.
  rewrite (proj2 (has_conversation_true _ _) Hc), (proj2 (has_user_true _ _) Hu).
  destruct (sql_exists _ _); by eexists.
Qed.

Lemma add_members_Ok conv role now ids : ∀ db r db',
  for_each ids (λ uid, ConversationRepository.AddMember conv uid (role uid) now) db = (Ok r, db') ->
  roster_step conv db db' ∧ channel_subscriptions db' = channel_subscriptions db ∧
  ∀ m, m ∈ conversation_members db' <->
    (m ∈ conversation_members db ∧ ¬ (m_conversation_id m = conv ∧ m_user_id m ∈ ids)) ∨
    ∃ u, u ∈ ids ∧ m = mkMemberRecord conv u (role u) now None.
Proof.
  induction ids as [|u ids IH]; intros db r db' Hl; simpl in Hl.
  { injection Hl as <- <-. split; [apply roster_step_refl|]. split; [done|]. intros m. split.
    - intros Hm. left. split; [done|]. by intros [_ ?%not_elem_of_nil].
    - intros [[Hm _]|(u & Hu%not_elem_of_nil & _)]; done. }
  apply bind_Ok in Hl as ([] & db1 & Ha & Hl). destruct (IH db1 r db' Hl) as (Hr & Hs & Hm).
  pose proof (AddMember_roster _ _ _ _ _ _ _ Ha) as Hr1.
  apply ConversationRepository.AddMember_Ok in Ha as (_ & Hm1 & Hs1 & _).
  split; [by eapply roster_step_trans|]. split; [by rewrite Hs|]. intros m. rewrite Hm, Hm1.
  setoid_rewrite elem_of_cons. unfold member_key. split.
  - intros [[[[Hin Hk]| ->] Hno]|(u' & Hu' & ->)].
    + left. split; [done|]. intros [Hc [Hu|Hu]]; [|by apply Hno]. apply Hk. congruence.
    + right. exists u. auto.
    + right. exists u'. auto.
  - intros [[Hin Hno]|(u' & [->|Hu'] & ->)].
    + left. split; [left; split; [done|intros [= <- <-]; tauto]|tauto].
    + destruct (decide (u ∈ ids)); [right; by exists u|left]. split; [by right|]. simpl. tauto.
    + right. by exists u'.
Qed.

Lemma add_members_known conv role now ids : ∀ db,
  conv ∈ c_conversation_id <$> conversations db -> ids ⊆ (u_user_id <$> users db) ->
  ∃ db', for_each ids (λ uid, ConversationRepository.AddMember conv uid (role uid) now) db = (Ok tt, db').
Proof.
  induction ids as [|u ids IH]; intros db Hc Hu; simpl; [by eexists|].
  destruct (AddMember_known conv u (role u) now db Hc) as [db1 E]; [apply Hu; left|].
  unfold bind. rewrite E. apply AddMember_roster in E as []. apply IH.
  - by rewrite (conv_ids_of_facts _ _ rs_facts0).
  - rewrite rs_users0. intros x Hx. apply Hu. by right.
Qed.

(** The rows a new conversation starts with. *)
Lemma fresh_conv_rows conv db :
  db_wf db -> conv ∉ c_conversation_id <$> conversations db ->
  (∀ m, m ∈ conversation_members db -> m_conversation_id m ≠ conv) ∧
  (∀ b, b ∈ channel_subscriptions db -> b_conversation_id b ≠ conv).
Proof.
  intros [_ [] _] Hnew. split.
  - intros m Hm <-. by apply Hnew, fk_members_conversation, list_elem_of_fmap_2.
  - intros b Hb <-. by apply Hnew, fk_subscriptions_conversation, list_elem_of_fmap_2.
Qed.

(** The active members of a conversation are counted by their user ids. *)
Lemma GetMemberCount_users conv db (us : list UserId) :
  db_wf db -> NoDup us ->
  (∀ u, u ∈ us <-> ∃ m, m ∈ conversation_members db ∧ active_member conv u m) ->
  ConversationRepository.GetMemberCount conv db = length us.
Proof.
  intros [[] _ _] Hnd Hus. unfold ConversationRepository.GetMemberCount, sql_count.
  rewrite <- (length_fmap m_user_id). apply Permutation_length, NoDup_Permutation; [|done|].
  - refine (RelayService.NoDup_fst_fixed member_key conv _ _ _ _); [by intros x [? _]|done].
  - intros u. rewrite Hus, list_elem_of_fmap. unfold active_member. split.
    + intros (m & -> & ([? ?] & ?)%list_elem_of_filter). by exists m.
    + intros (m & Hm & Hc & <- & Hr). exists m. split; [done|]. by apply list_elem_of_filter.
Qed.

Definition group_role (created_by uid : UserId) : MemberRole :=
  if uid =s? created_by then kOwner else kMember.

Lemma CreateGroup_Ok created_by members now draw db id db' :
  CreateGroup created_by members now draw db = (Ok id, db') ->
  let ids := SortUnique members in
  (2 <= length ids)%nat ∧ created_by ∈ members ∧ Z.of_nat (length ids) <= max_group_size ∧
  id = GenerateUuid draw ∧
  ∃ db1, ConversationRepository.CreateConversation (mkConversationRow id kGroup created_by now "" 0) db = (Ok tt, db1) ∧
    for_each ids (λ uid, ConversationRepository.AddMember id uid (group_role created_by uid) now) db1 = (Ok tt, db').
Proof.
  intros Hg ids. unfold CreateGroup in Hg. cbv zeta in Hg. fold ids in Hg.
  destruct (Nat.ltb_spec (length ids) 2); [done|]. destruct (bool_decide_reflect (created_by ∈ ids)) as [Hin|]; [|done].
  simpl in Hg. destruct (Z.ltb_spec max_group_size (Z.of_nat (length ids))); [done|].
  minv Hg. destruct a, a0. split; [done|]. split; [by apply SortUnique_spec|]. split; [done|]. split; [done|].
  by exists s.
Qed.

(** Looking a conversation up by what does not change. *)
Lemma FindById_facts id db t u p :
  db_wf db -> (id, t, u, p) ∈ conv_facts <$> conversations db ->
  ∃ c, ConversationRepository.FindById id db = Some c ∧ c_type c = t ∧ c_created_by c = u ∧ c_policy_blob c = p.
Proof.
  intros Hwf (c & E & Hc)%list_elem_of_fmap. injection E as -> -> -> ->. exists c. split; [|done].
  by apply ConversationRepository.FindById_elem.
Qed.

(** A step on one conversation leaves the memberships of the others alone. *)
Lemma roster_step_GetMember conv db db' conv' u m :
  db_wf db -> db_wf db' -> roster_step conv db db' -> conv' ≠ conv ->
  ConversationRepository.GetMember conv' u db' = Some m <-> ConversationRepository.GetMember conv' u db = Some m.
Proof.
  intros Hwf Hwf' [_ _ Hm _] Hne. rewrite !ConversationRepository.GetMember_iff by done. split.
  - intros [Hin Ha]. split; [|done]. apply Hm; [|done]. by destruct Ha as [-> _].
  - intros [Hin Ha]. split; [|done]. apply Hm; [|done]. by destruct Ha as [-> _].
Qed.

Lemma create_step conv db r db1 :
  db_wf db -> ConversationRepository.CreateConversation conv db = (Ok r, db1) ->
  db_wf db1 ∧ conv_facts conv ∈ conv_facts <$> conversations db1 ∧
  conversation_members db1 = conversation_members db ∧ channel_subscriptions db1 = channel_subscriptions db ∧
  users db1 = users db ∧
  (∀ m, m ∈ conversation_members db -> m_conversation_id m ≠ c_conversation_id conv) ∧
  (∀ b, b ∈ channel_subscriptions db -> b_conversation_id b ≠ c_conversation_id conv).
Proof.
  intros Hwf Hc. pose proof (ConversationRepository.CreateConversation_wf conv db Hwf) as Hwf1.
  rewrite Hc in Hwf1. simpl in Hwf1. destruct (CreateConversation_Ok _ _ _ _ Hc) as (-> & Hnew & _).
  destruct (fresh_conv_rows _ _ Hwf Hnew) as [Hm Hb]. split_and!; try done. simpl.
  apply list_elem_of_fmap_2, elem_of_sql_insert. by right.
Qed.

Lemma CreateGroup_roster created_by members now draw db id db' :
  db_wf db -> CreateGroup created_by members now draw db = (Ok id, db') ->
  db_wf db' ∧ members ⊆ (u_user_id <$> users db) ∧
  (id, kGroup, created_by, "") ∈ conv_facts <$> conversations db' ∧
  (∀ m, m ∈ conversation_members db' <-> m ∈ conversation_members db ∨
     ∃ u, u ∈ members ∧ m = mkMemberRecord id u (group_role created_by u) now None) ∧
  (∀ m, m ∈ conversation_members db -> m_conversation_id m ≠ id).
Proof.
  intros Hwf (_ & _ & _ & -> & db1 & Hc & Hl)%CreateGroup_Ok.
  destruct (create_step _ _ _ _ Hwf Hc) as (Hwf1 & Hf & Em & Es & Eu & Hm & _).
  destruct (add_members_Ok _ _ _ _ _ _ _ Hl) as (Hr & _ & Hmem). simpl in *.
  assert (Hwf' : db_wf db').
  { pose proof (preserves_for_each db_wf (SortUnique members) (λ uid, ConversationRepository.AddMember
      (GenerateUuid draw) uid (group_role created_by uid) now)
      (λ x _, ConversationRepository.AddMember_wf _ _ _ _) db1 Hwf1) as Hp. by rewrite Hl in Hp. }
  assert (Hmem' : ∀ m, m ∈ conversation_members db' <-> m ∈ conversation_members db ∨
     ∃ u, u ∈ members ∧ m = mkMemberRecord (GenerateUuid draw) u (group_role created_by u) now None).
  { intros m. rewrite Hmem, Em. setoid_rewrite (proj2 (SortUnique_spec members)). split; [naive_solver|].
    intros [Hin|Hin]; [left|by right]. split; [done|]. intros [E _]. by apply (Hm m). }
  split; [done|]. split.
  { intros u Hu. rewrite <- Eu, <- (rs_users _ _ _ Hr). destruct Hwf' as [_ [] _].
    apply fk_members_user, list_elem_of_fmap.
    exists (mkMemberRecord (GenerateUuid draw) u (group_role created_by u) now None). split; [done|].
    apply Hmem'. right. by exists u. }
  split; [by rewrite (rs_facts _ _ _ Hr)|]. by split.
Qed.

(** Creating a group.  With a new id it succeeds exactly when there are at least two
    and at most [max_group_size] distinct member ids, all registered, the creator
    among them.  The group then has exactly these members, the creator as owner
    and the others as plain members, and no other conversation changes. *)
Theorem CreateGroup_spec created_by members now draw db :
  db_wf db -> GenerateUuid draw ∉ c_conversation_id <$> conversations db ->
  let id := GenerateUuid draw in
  ((∃ db', CreateGroup created_by members now draw db = (Ok id, db')) <->
     2 <= Z.of_nat (length (SortUnique members)) <= max_group_size ∧ created_by ∈ members ∧
     members ⊆ (u_user_id <$> users db)) ∧
  (∀ db', CreateGroup created_by members now draw db = (Ok id, db') ->
     (∃ c, ConversationRepository.FindById id db' = Some c ∧ c_type c = kGroup ∧ c_created_by c = created_by) ∧
     (∀ u r, (∃ m, ConversationRepository.GetMember id u db' = Some m ∧ m_role m = r) <->
        u ∈ members ∧ r = group_role created_by u) ∧
     ConversationRepository.GetMemberCount id db' = length (SortUnique members) ∧
     (∀ conv u m, conv ≠ id -> ConversationRepository.GetMember conv u db' = Some m <->
        ConversationRepository.GetMember conv u db = Some m)).
Proof.
  intros Hwf Hnew id. destruct (SortUnique_spec members) as [Hnd Hids]. split; [split|].
  - intros [db' Hg]. destruct (CreateGroup_Ok _ _ _ _ _ _ _ Hg) as (H2 & Hcr & Hmax & _).
    destruct (CreateGroup_roster _ _ _ _ _ _ _ Hwf Hg) as (_ & Hu & _). split; [lia|done].
  - intros ([H2 Hmax] & Hcr & Hu). unfold CreateGroup. cbv zeta.
    destruct (Nat.ltb_spec (length (SortUnique members)) 2); [lia|].
    rewrite bool_decide_true by by apply Hids. simpl.
    destruct (Z.ltb_spec max_group_size (Z.of_nat (length (SortUnique members)))); [lia|].
    unfold bind at 1. rewrite CreateConversation_new by (done || by apply Hu).
    match goal with |- context [for_each _ _] => unfold bind at 1 end.
    destruct (add_members_known (GenerateUuid draw) (group_role created_by) now (SortUnique members)
      (set_conversations (sql_insert (mkConversationRow (GenerateUuid draw) kGroup created_by now "" 0)
         (conversations db)) db)) as [db' E].
    { apply list_elem_of_fmap. eexists. split; [|apply elem_of_sql_insert; by right]. done. }
    { intros u Hin%Hids. by apply Hu. }
    exists db'. unfold group_role in E. by rewrite E.
  - intros db' Hg. destruct (CreateGroup_roster _ _ _ _ _ _ _ Hwf Hg) as (Hwf' & _ & Hf & Hm & Hno).
    split_and!.
    + destruct (FindById_facts _ _ _ _ _ Hwf' Hf) as (c & Hc & Ht & Hb & _). by exists c.
    + intros u r. setoid_rewrite ConversationRepository.GetMember_iff; [|done]. setoid_rewrite Hm. split.
      * intros (m & [[Hin|(u' & Hu' & ->)] (Hmc & Hmu & _)] & <-); [by destruct (Hno m)|]. simpl in *. by subst u'.
      * intros [Hu ->]. exists (mkMemberRecord id u (group_role created_by u) now None).
        split; [|done]. split; [right; by exists u|done].
    + apply GetMemberCount_users; [done|done|]. intros u. rewrite Hids. setoid_rewrite Hm. split.
      * intros Hu. exists (mkMemberRecord id u (group_role created_by u) now None).
        split; [right; by exists u|done].
      * intros (m & [Hin|(u' & Hu' & ->)] & Hmc & Hmu & _); [by destruct (Hno m)|]. simpl in *. by subst u'.
    + intros conv u m Hne. rewrite !ConversationRepository.GetMember_iff, Hm by done. split; [|naive_solver].
      intros [[Hin|(u' & _ & ->)] Ha]; [done|]. destruct Ha as [Hc _]. simpl in Hc. congruence.
Qed.

(** ** Leaving a conversation *)

Definition device_scope (d : DeviceRecord) : string := DeviceScopeKey (d_user_id d) (d_device_id d).

Lemma purge_queues_run conv devs : ∀ w,
  ∃ w', for_each devs (λ d, modify (PurgeConversationFromDeviceQueue conv (d_user_id d) (d_device_id d))) w = (Ok tt, w') ∧
    rw_db w' = rw_db w ∧ rw_hook w' = rw_hook w ∧
    ∀ k, queue_at k w' = if decide (k ∈ device_scope <$> devs)
                         then filter (λ q, q_conversation_id q ≠ conv) (queue_at k w) else queue_at k w.
Proof.
  induction devs as [|d devs IH]; intros w.
  { exists w. split; [done|]. split; [done|]. split; [done|]. intros k.
    rewrite decide_False; [done|apply not_elem_of_nil]. }
  cbn [for_each]. unfold bind at 1, modify.
  destruct (PurgeConversation_run conv (d_user_id d) (d_device_id d) w) as (Hdb & Hh & Hq).
  destruct (IH (PurgeConversationFromDeviceQueue conv (d_user_id d) (d_device_id d) w)) as (w' & E & Hdb' & Hh' & Hq').
  exists w'. split; [exact E|]. split; [congruence|]. split; [congruence|]. intros k. rewrite Hq', Hq.
  fold (device_scope d). rewrite fmap_cons.
  destruct (decide (k = device_scope d)) as [->|Hne].
  - rewrite (decide_True (P := device_scope d ∈ device_scope d :: _)) by left. case_decide; [|done].
    apply filter_all. by intros x [? _]%list_elem_of_filter.
  - destruct (decide (k ∈ device_scope <$> devs)) as [Hin|Hin].
    + rewrite decide_True; [done|by right].
    + rewrite decide_False; [done|]. by intros [?|?]%elem_of_cons.
Qed.

(** What [PurgeMemberDelivery] removes. *)
Record purged (conv : ConversationId) (user : UserId) (w w' : RelayWorld Hook) : Prop := mk_purged {
  pg_tables : ∃ t, rw_db w' = set_delivery_state t (rw_db w);
  pg_rows : ∀ r, r ∈ delivery_state (rw_db w') <-> r ∈ delivery_state (rw_db w) ∧
    ¬ (ds_target_user_id r = user ∧ EnvelopeRepository.in_conversation conv (rw_db w) r);
  pg_queues : ∀ k, queue_at k w' =
    if decide (k ∈ device_scope <$> GetDevicesForUser user (rw_db w))
    then filter (λ q, q_conversation_id q ≠ conv) (queue_at k w) else queue_at k w }.

Lemma PurgeMemberDelivery_run conv user w :
  ∃ w', PurgeMemberDelivery conv user w = (Ok tt, w') ∧ purged conv user w w'.
Proof.
  unfold PurgeMemberDelivery, bind at 1, attempt, on_relay_db, zoom,
    EnvelopeRepository.DeletePendingDeliveryForUserInConversation, modify.
  unfold bind, gets. match goal with |- context [for_each _ _ ?w1] => set (w1' := w1) end.
  destruct (purge_queues_run conv (GetDevicesForUser user (rw_db w1')) w1') as (w' & E & Hdb & _ & Hq).
  exists w'. split; [exact E|]. split.
  - exists (delivery_state (rw_db w')). by rewrite Hdb.
  - intros r. rewrite Hdb. exact (elem_of_sql_delete _ _ r).
  - exact Hq.
Qed.

(** A member is removed or a subscriber leaves, and then the purge. *)
Lemma RemoveMember_Ok conv actor target now w r w' :
  RemoveMember conv actor target now w = (Ok r, w') ->
  ∃ c, ConversationRepository.FindById conv (rw_db w) = Some c ∧ c_type c = kGroup ∧
    ActorCanManageMembers c actor (rw_db w) = true ∧
    purged conv target (set_rw_db (ConversationRepository.RemoveMember conv target now (rw_db w)).2 w) w'.
Proof.
  unfold RemoveMember. intros Hr. minv Hr. destruct (ConversationRepository.FindById _ _) as [c|] eqn:Ec; [|done].
  destruct (c_type c) eqn:Et; [done| |done]. minv Hr. destruct (ActorCanManageMembers _ _ _) eqn:Ea; [|done].
  simpl in Hr. minv Hr. exists c. split_and!; try done.
  match goal with E : on_relay_db _ _ = (Ok _, ?s) |- _ =>
    destruct (PurgeMemberDelivery_run conv target s) as (w1 & Ep & Hp); rewrite Hr in Ep; injection Ep as -> ->;
    unfold on_relay_db, zoom in E; destruct (ConversationRepository.RemoveMember _ _ _ _) as [r1 db1];
    by injection E as -> <- end.
Qed.

Lemma UnsubscribeChannel_Ok conv user now w r w' :
  UnsubscribeChannel conv user now w = (Ok r, w') ->
  ∃ c, ConversationRepository.FindById conv (rw_db w) = Some c ∧ c_type c = kChannel ∧
    (∀ m, ConversationRepository.GetMember conv user (rw_db w) = Some m -> m_role m = kMember) ∧
    purged conv user (set_rw_db (ConversationRepository.Unsubscribe conv user now (rw_db w)).2 w) w'.
Proof.
  unfold UnsubscribeChannel. intros Hr. minv Hr. destruct (ConversationRepository.FindById _ _) as [c|] eqn:Ec; [|done].
  destruct (bool_decide_reflect (c_type c = kChannel)) as [Et|]; [|done]. simpl in Hr. minv Hr.
  destruct (match ConversationRepository.GetMember _ _ _ with Some _ => _ | None => _ end) eqn:Em; [done|]. minv Hr.
  exists c. split_and!; try done.
  { intros m Hm. rewrite Hm in Em. by destruct (m_role m). }
  match goal with E : on_relay_db _ _ = (Ok _, ?s) |- _ =>
    destruct (PurgeMemberDelivery_run conv user s) as (w1 & Ep & Hp); rewrite Hr in Ep; injection Ep as -> ->;
    unfold on_relay_db, zoom in E; destruct (ConversationRepository.Unsubscribe _ _ _ _) as [r1 db1];
    by injection E as -> <- end.
Qed.

(** The type of a conversation is fixed. *)
Lemma type_stable db db' c c' :
  db_wf db -> conv_facts <$> conversations db' = conv_facts <$> conversations db ->
  c ∈ conversations db -> c' ∈ conversations db' -> c_conversation_id c' = c_conversation_id c ->
  c_type c' = c_type c.
Proof.
  intros Hwf Hf Hc Hc' Hid.
  assert (Hin : conv_facts c' ∈ conv_facts <$> conversations db) by (rewrite <- Hf; by apply list_elem_of_fmap_2).
  apply list_elem_of_fmap in Hin as (c2 & E & Hc2). injection E as E1 E2 _ _. destruct Hwf as [[] _ _].
  assert (c2 = c) as -> by (apply (NoDup_fmap_inj_on c_conversation_id (conversations db)); congruence). done.
Qed.

(** The tables a departure leaves alone. *)
Lemma RemoveMember_tables conv user now db :
  let db' := (ConversationRepository.RemoveMember conv user now db).2 in
  conv_facts <$> conversations db' = conv_facts <$> conversations db ∧ devices db' = devices db ∧
  encrypted_envelopes db' = encrypted_envelopes db ∧ delivery_state db' = delivery_state db ∧
  channel_subscriptions db' = channel_subscriptions db.
Proof.
  cbv zeta. rewrite ConversationRepository.RemoveMember_run. cbv zeta.
  destruct (sql_exists _ _); simpl; rewrite ?fmap_sql_update by done; done.
Qed.

Lemma Unsubscribe_tables conv user now db :
  let db' := (ConversationRepository.Unsubscribe conv user now db).2 in
  conv_facts <$> conversations db' = conv_facts <$> conversations db ∧ devices db' = devices db ∧
  encrypted_envelopes db' = encrypted_envelopes db ∧ delivery_state db' = delivery_state db ∧
  conversation_members db' = conversation_members db.
Proof.
  cbv zeta. rewrite ConversationRepository.Unsubscribe_run. cbv zeta.
  destruct (sql_exists _ _); simpl; rewrite ?fmap_sql_update by done; done.
Qed.

Lemma subs_Unsubscribe conv user now db b :
  b ∈ channel_subscriptions (ConversationRepository.Unsubscribe conv user now db).2 <->
  ∃ x, x ∈ channel_subscriptions db ∧
    b = if decide (active_subscription conv user x) then set_unsubscribed_at now x else x.
Proof.
  rewrite ConversationRepository.Unsubscribe_run. cbv zeta. destruct (sql_exists _ _); apply elem_of_sql_update.
Qed.

(** After the repository call the user is out of the conversation. *)
Lemma RemoveMember_out conv user now db c :
  db_wf db -> c ∈ conversations db -> c_conversation_id c = conv -> c_type c = kGroup ->
  ¬ ConversationRepository.participant (ConversationRepository.RemoveMember conv user now db).2 conv user.
Proof.
  intros Hwf Hc <- Ht (c' & Hc' & Hid & Hin).
  destruct (RemoveMember_tables (c_conversation_id c) user now db) as (Hf & _).
  rewrite (type_stable _ _ _ _ Hwf Hf Hc Hc' Hid), Ht, decide_False in Hin by done.
  destruct Hin as (m & (x & _ & ->)%ConversationRepository.members_RemoveMember & Ha).
  case_decide as Hd; [by destruct Ha as (_ & _ & ?)|done].
Qed.

Lemma Unsubscribe_out conv user now db c :
  db_wf db -> c ∈ conversations db -> c_conversation_id c = conv -> c_type c = kChannel ->
  ¬ ConversationRepository.participant (ConversationRepository.Unsubscribe conv user now db).2 conv user.
Proof.
  intros Hwf Hc <- Ht (c' & Hc' & Hid & Hin).
  destruct (Unsubscribe_tables (c_conversation_id c) user now db) as (Hf & _).
  rewrite (type_stable _ _ _ _ Hwf Hf Hc Hc' Hid), Ht, decide_True in Hin by done.
  destruct Hin as (m & (x & _ & ->)%subs_Unsubscribe & Ha).
  case_decide as Hd; [by destruct Ha as (_ & _ & ?)|done].
Qed.

(** What a departure amounts to, whichever of the two calls made it. *)
Lemma leaving_effect conv user now w w' :
  db_wf (rw_db w) ->
  (∃ actor, RemoveMember conv actor user now w = (Ok tt, w')) ∨ UnsubscribeChannel conv user now w = (Ok tt, w') ->
  ∃ db1, purged conv user (set_rw_db db1 w) w' ∧ ¬ ConversationRepository.participant db1 conv user ∧
    devices db1 = devices (rw_db w) ∧ encrypted_envelopes db1 = encrypted_envelopes (rw_db w) ∧
    delivery_state db1 = delivery_state (rw_db w).
Proof.
  intros Hwf [[actor Hr]|Hr].
  - apply RemoveMember_Ok in Hr as (c & [Hc Hid]%ConversationRepository.FindById_Some & Ht & _ & Hp).
    eexists. split; [exact Hp|]. destruct (RemoveMember_tables conv user now (rw_db w)) as (_ & Hd & He & Hs & _).
    split; [by eapply RemoveMember_out|done].
  - apply UnsubscribeChannel_Ok in Hr as (c & [Hc Hid]%ConversationRepository.FindById_Some & Ht & _ & Hp).
    eexists. split; [exact Hp|]. destruct (Unsubscribe_tables conv user now (rw_db w)) as (_ & Hd & He & Hs & _).
    split; [by eapply Unsubscribe_out|done].
Qed.

(** C11: Who leaves a group or a channel is out of it at once: the user no longer takes
    part, none of the user's devices has an envelope of that conversation queued
    or pending any more, and what else was queued or pending, for the user and for
    everyone else, is still there in the same order. *)
Theorem leaving_purges_delivery conv user now w w' :
  db_wf (rw_db w) ->
  (∃ actor, RemoveMember conv actor user now w = (Ok tt, w')) ∨ UnsubscribeChannel conv user now w = (Ok tt, w') ->
  ¬ ConversationRepository.participant (rw_db w') conv user ∧
  (∀ dev, dev ∈ devices (rw_db w) -> d_user_id dev = user ->
     queue_of user (d_device_id dev) w' =
     filter (λ q, q_conversation_id q ≠ conv) (queue_of user (d_device_id dev) w)) ∧
  (∀ d e, e ∈ EnvelopeRepository.pending_rows user d (rw_db w') -> e_conversation_id e ≠ conv) ∧
  (∀ k, k ∉ device_scope <$> filter (λ d, d_user_id d = user) (devices (rw_db w)) -> queue_at k w' = queue_at k w) ∧
  (∀ r, r ∈ delivery_state (rw_db w') <-> r ∈ delivery_state (rw_db w) ∧
     ¬ (ds_target_user_id r = user ∧ EnvelopeRepository.in_conversation conv (rw_db w) r)).
Proof.
  intros Hwf Hl. destruct (leaving_effect _ _ _ _ _ Hwf Hl) as (db1 & [[t Ht] Hrows Hq] & Hout & Hd & He & Hs).
  assert (Hg : ∀ dev, dev ∈ GetDevicesForUser user db1 <-> dev ∈ devices (rw_db w) ∧ d_user_id dev = user)
    by (intros dev; by rewrite elem_of_GetDevicesForUser, Hd).
  simpl in *. rewrite Hs in Hrows.
  assert (Hconv : ∀ r, EnvelopeRepository.in_conversation conv db1 r <->
    EnvelopeRepository.in_conversation conv (rw_db w) r) by (intros r; unfold EnvelopeRepository.in_conversation; by rewrite He).
  setoid_rewrite Hconv in Hrows. split_and!.
  - rewrite Ht. exact Hout.
  - intros dev Hdev Hu. unfold queue_of. rewrite Hq, decide_True; [done|]. apply list_elem_of_fmap.
    exists dev. unfold device_scope. rewrite Hu. split; [done|]. by apply Hg.
  - intros d e (Hin & x & Hx & Hp & Ex)%EnvelopeRepository.elem_of_pending_rows Hc.
    apply Hrows in Hx as [_ Hno]. apply Hno. split; [by destruct Hp as [? _]|].
    unfold EnvelopeRepository.in_conversation. rewrite Ex. apply list_elem_of_fmap_2, list_elem_of_filter.
    split; [done|]. rewrite Ht in Hin. simpl in Hin. by rewrite <- He.
  - intros k Hk. rewrite Hq, decide_False; [done|]. intros (dev & -> & Hdev)%list_elem_of_fmap.
    apply Hk, list_elem_of_fmap_2, list_elem_of_filter. apply Hg in Hdev. tauto.
  - exact Hrows.
Qed.

(** ** Any sequence of calls *)

Inductive service_op :=
  | SCreateDm (a b by_user : UserId) (now : Timestamp) (draw : Z * Z)
  | SCreateGroup (by_user : UserId) (members : list UserId) (now : Timestamp) (draw : Z * Z)
  | SCreateChannel (by_user : UserId) (admins subscribers : list UserId) (now : Timestamp) (draw : Z * Z)
  | SAddMember (conv : ConversationId) (actor user : UserId) (role : MemberRole) (now : Timestamp)
  | SRemoveMember (conv : ConversationId) (actor user : UserId) (now : Timestamp)
  | SSubscribe (conv : ConversationId) (user : UserId) (now : Timestamp)
  | SUnsubscribe (conv : ConversationId) (user : UserId) (now : Timestamp).

(** The state a call leaves, whether it succeeds or fails. *)
Definition run_service_op (op : service_op) (w : RelayWorld Hook) : RelayWorld Hook :=
  match op with
  | SCreateDm a b by_user now draw => (on_relay_db (CreateDm a b by_user now draw) w).2
  | SCreateGroup by_user members now draw => (on_relay_db (CreateGroup by_user members now draw) w).2
  | SCreateChannel by_user admins subs now draw => (on_relay_db (CreateChannel by_user admins subs now draw) w).2
  | SAddMember c actor u role now => (on_relay_db (AddMember c actor u role now) w).2
  | SRemoveMember c actor u now => (RemoveMember c actor u now w).2
  | SSubscribe c u now => (on_relay_db (SubscribeChannel c u now) w).2
  | SUnsubscribe c u now => (UnsubscribeChannel c u now w).2
  end.

(** Active members with their role, and active subscribers. *)
Definition has_role (db : Database) (conv : ConversationId) (user : UserId) (role : MemberRole) : Prop :=
  ∃ m, m ∈ conversation_members db ∧ active_member conv user m ∧ m_role m = role.
Definition is_subscriber (db : Database) (conv : ConversationId) (user : UserId) : Prop :=
  ∃ b, b ∈ channel_subscriptions db ∧ active_subscription conv user b.

(** At most the members [ms] and the subscribers [ss] of [conv] are new; nothing
    changes for another conversation. *)
Record roster_le (conv : ConversationId) (ms ss : list UserId) (db db' : Database) : Prop := mk_roster_le {
  rl_facts : conv_facts <$> conversations db' = conv_facts <$> conversations db;
  rl_members : ∀ c u r, has_role db' c u r -> (∃ r', has_role db c u r') ∨ (c = conv ∧ u ∈ ms);
  rl_subs : ∀ c u, is_subscriber db' c u -> is_subscriber db c u ∨ (c = conv ∧ u ∈ ss);
  rl_other_members : ∀ c u r, c ≠ conv -> has_role db' c u r <-> has_role db c u r;
  rl_other_subs : ∀ c u, c ≠ conv -> is_subscriber db' c u <-> is_subscriber db c u }.

#[local] Instance roster_le_pre conv ms ss : PreOrder (roster_le conv ms ss).
Proof.
  split.
  - intros db. split; [done| | |done|done].
    + intros c u r Hr. left. by exists r.
    + intros c u Hs. by left.
  - intros db1 db2 db3 [] []. split.
    + congruence.
    + intros c u r [[r' Hr]|?]%rl_members1; [by apply rl_members0 in Hr|by right].
    + intros c u [Hs|?]%rl_subs1; [by apply rl_subs0 in Hs|by right].
    + intros c u r Hc. by rewrite rl_other_members1, rl_other_members0.
    + intros c u Hc. by rewrite rl_other_subs1, rl_other_subs0.
Qed.

Lemma AddMember_le conv u role now ms ss db :
  u ∈ ms -> roster_le conv ms ss db (ConversationRepository.AddMember conv u role now db).2.
Proof.
  intros Hu. destruct (ConversationRepository.AddMember conv u role now db) as [[[]|e] db'] eqn:E; simpl.
  - pose proof (AddMember_roster _ _ _ _ _ _ _ E) as [Hf _ _ _].
    apply ConversationRepository.AddMember_Ok in E as (_ & Hm & Hs & _). split; unfold has_role, is_subscriber; [done| |rewrite Hs; by left| |by rewrite Hs].
    + intros c v r (m & Hin & Ha & Er). apply Hm in Hin as [[Hin _]| ->]; [left; by exists r, m|].
      right. destruct Ha as (<- & <- & _). done.
    + intros c v r Hc. setoid_rewrite Hm. split.
      * intros (m & [[Hin _]| ->] & Ha & Er); [by exists m|]. by destruct Ha as (? & _).
      * intros (m & Hin & Ha & Er). exists m. split; [|done]. left. split; [done|].
        destruct Ha as (<- & _). unfold member_key. congruence.
  - apply ConversationRepository.AddMember_Err in E as ->. reflexivity.
Qed.

Lemma Subscribe_le conv u now ms ss db :
  u ∈ ss -> roster_le conv ms ss db (ConversationRepository.Subscribe conv u now db).2.
Proof.
  intros Hu. destruct (ConversationRepository.Subscribe conv u now db) as [[[]|e] db'] eqn:E; simpl.
  - pose proof (Subscribe_roster _ _ _ _ _ _ E) as [Hf _ _ _].
    apply ConversationRepository.Subscribe_Ok in E as (_ & Hs & Hm & _). split; unfold has_role, is_subscriber; [done|rewrite Hm; naive_solver| |by rewrite Hm|].
    + intros c v (b & Hin & Ha). apply Hs in Hin as [[Hin _]| ->]; [left; by exists b|].
      right. destruct Ha as (<- & <- & _). done.
    + intros c v Hc. setoid_rewrite Hs. split.
      * intros (b & [[Hin _]| ->] & Ha); [by exists b|]. by destruct Ha as (? & _).
      * intros (b & Hin & Ha). exists b. split; [|done]. left. split; [done|].
        destruct Ha as (<- & _). unfold subscription_key. congruence.
  - apply ConversationRepository.Subscribe_Err in E as ->. reflexivity.
Qed.

Lemma RemoveMember_le conv u now ms ss db :
  roster_le conv ms ss db (ConversationRepository.RemoveMember conv u now db).2.
Proof.
  destruct (RemoveMember_tables conv u now db) as (Hf & _ & _ & _ & Hs).
  pose proof (ConversationRepository.members_RemoveMember conv u now db) as Hm.
  split; unfold has_role, is_subscriber; [done| |rewrite Hs; by left| |by rewrite Hs].
  - intros c v r (m & (x & Hx & ->)%Hm & Ha & Er). left. case_decide as Hd; [by destruct Ha as (_ & _ & ?)|].
    by exists r, x.
  - intros c v r Hc. setoid_rewrite Hm. split.
    + intros (m & (x & Hx & ->) & Ha & Er). case_decide as Hd; [by destruct Ha as (_ & _ & ?)|by exists x].
    + intros (m & Hin & Ha & Er). exists m. split; [|done]. exists m. rewrite decide_False; [done|].
      intros (E & _). destruct Ha as (E' & _). congruence.
Qed.

Lemma Unsubscribe_le conv u now ms ss db :
  roster_le conv ms ss db (ConversationRepository.Unsubscribe conv u now db).2.
Proof.
  destruct (Unsubscribe_tables conv u now db) as (Hf & _ & _ & _ & Hm).
  pose proof (subs_Unsubscribe conv u now db) as Hs.
  split; unfold has_role, is_subscriber; [done|rewrite Hm; naive_solver| |by rewrite Hm|].
  - intros c v (m & (x & Hx & ->)%Hs & Ha). left. case_decide as Hd; [by destruct Ha as (_ & _ & ?)|].
    by exists x.
  - intros c v Hc. setoid_rewrite Hs. split.
    + intros (m & (x & Hx & ->) & Ha). case_decide as Hd; [by destruct Ha as (_ & _ & ?)|by exists x].
    + intros (m & Hin & Ha). exists m. split; [|done]. exists m. rewrite decide_False; [done|].
      intros (E & _). destruct Ha as (E' & _). congruence.
Qed.

(** ** Integrity *)

Lemma on_relay_db_wf {A} (c : M Database A) :
  preserves db_wf c -> preserves (λ w : RelayWorld Hook, db_wf (rw_db w)) (on_relay_db c).
Proof. intros Hc w Hw. unfold on_relay_db, zoom. specialize (Hc _ Hw). by destruct (c (rw_db w)). Qed.

Lemma CreateDm_wf a b u now draw : preserves db_wf (CreateDm a b u now draw).
Proof.
  unfold CreateDm. preserve_step;
    apply ConversationRepository.CreateConversation_wf || apply ConversationRepository.AddMember_wf.
Qed.

Lemma CreateGroup_wf u members now draw : preserves db_wf (CreateGroup u members now draw).
Proof.
  unfold CreateGroup. preserve_step; [apply ConversationRepository.CreateConversation_wf|].
  apply preserves_for_each. intros x _. apply ConversationRepository.AddMember_wf.
Qed.

Lemma CreateChannel_wf u admins subs now draw : preserves db_wf (CreateChannel u admins subs now draw).
Proof.
  unfold CreateChannel. preserve_step; [apply ConversationRepository.CreateConversation_wf|..];
    apply preserves_for_each; intros x _; preserve_step;
    apply ConversationRepository.AddMember_wf || apply ConversationRepository.Subscribe_wf.
Qed.

Lemma AddMemberService_wf c actor u role now : preserves db_wf (AddMember c actor u role now).
Proof. unfold AddMember. preserve_step. apply ConversationRepository.AddMember_wf. Qed.

Lemma SubscribeChannel_wf c u now : preserves db_wf (SubscribeChannel c u now).
Proof. unfold SubscribeChannel. preserve_step; apply ConversationRepository.Subscribe_wf. Qed.

Lemma PurgeMemberDelivery_wf c u : preserves (λ w : RelayWorld Hook, db_wf (rw_db w)) (PurgeMemberDelivery c u).
Proof.
  unfold PurgeMemberDelivery. preserve_step.
  - apply on_relay_db_wf, EnvelopeRepository.DeletePending_wf.
  - apply preserves_for_each. intros d _ w Hw. unfold modify. simpl.
    by destruct (PurgeConversation_run c (d_user_id d) (d_device_id d) w) as (-> & _).
Qed.

Lemma RemoveMemberService_wf c actor u now :
  preserves (λ w : RelayWorld Hook, db_wf (rw_db w)) (RemoveMember c actor u now).
Proof.
  unfold RemoveMember. preserve_step; [|apply PurgeMemberDelivery_wf].
  apply on_relay_db_wf, ConversationRepository.RemoveMember_wf.
Qed.

Lemma UnsubscribeChannel_wf c u now :
  preserves (λ w : RelayWorld Hook, db_wf (rw_db w)) (UnsubscribeChannel c u now).
Proof.
  unfold UnsubscribeChannel. preserve_step;
    apply PurgeMemberDelivery_wf || apply on_relay_db_wf, ConversationRepository.Unsubscribe_wf.
Qed.

Lemma run_service_op_wf op w : db_wf (rw_db w) -> db_wf (rw_db (run_service_op op w)).
Proof.
  destruct op; simpl; intros Hw.
  - by apply (on_relay_db_wf _ (CreateDm_wf _ _ _ _ _)).
  - by apply (on_relay_db_wf _ (CreateGroup_wf _ _ _ _)).
  - by apply (on_relay_db_wf _ (CreateChannel_wf _ _ _ _ _)).
  - by apply (on_relay_db_wf _ (AddMemberService_wf _ _ _ _ _)).
  - by apply RemoveMemberService_wf.
  - by apply (on_relay_db_wf _ (SubscribeChannel_wf _ _ _)).
  - by apply UnsubscribeChannel_wf.
Qed.

(** ** The effect of each call on the rosters *)

Definition manages (db : Database) (conv : ConversationId) (actor : UserId) : Prop :=
  has_role db conv actor kOwner ∨ has_role db conv actor kAdmin.

Lemma ActorCanManageMembers_true c actor db :
  ActorCanManageMembers c actor db = true -> manages db (c_conversation_id c) actor.
Proof.
  unfold ActorCanManageMembers. destruct (ConversationRepository.GetMember _ _ _) as [m|] eqn:E; [|done].
  apply ConversationRepository.GetMember_Some in E as [Hm Ha]. intros Hr. unfold manages, has_role.
  destruct (m_role m) eqn:Er; [left; by exists m|right; by exists m|done].
Qed.

(** A call that creates a conversation, up to the point it got to. *)
Definition created_le (row : ConversationRow) (ms ss : list UserId) (db db' : Database) : Prop :=
  db' = db ∨ ∃ db1, ConversationRepository.CreateConversation row db = (Ok tt, db1) ∧
    roster_le (c_conversation_id row) ms ss db1 db'.

Lemma create_then {A} row ms ss (k : M Database A) db :
  (∀ db1, roster_le (c_conversation_id row) ms ss db1 (k db1).2) ->
  created_le row ms ss db (bind (ConversationRepository.CreateConversation row) (λ _, k) db).2.
Proof.
  intros Hk. unfold created_le, bind. destruct (ConversationRepository.CreateConversation row db) as [[[]|e] db1] eqn:E.
  - right. exists db1. split; [done|]. apply Hk.
  - left. simpl. by apply exec_Err in E as (_ & _ & _ & ->).
Qed.

(** A sequence of calls that each respect a preorder, whatever their outcome. *)
Lemma bind_rel {S A B} (R : S -> S -> Prop) `{!PreOrder R} (c : M S A) (k : A -> M S B) s :
  R s (c s).2 -> (∀ a s', R s' (k a s').2) -> R s (bind c k s).2.
Proof.
  intros Hc Hk. unfold bind. destruct (c s) as [[a|e] s1]; simpl in *; [|done]. etrans; [exact Hc|apply Hk].
Qed.

Lemma CreateDm_le a b u now draw db :
  created_le (mkConversationRow (GenerateUuid draw) kDm u now "" 0) [a; b] [] db (CreateDm a b u now draw db).2.
Proof.
  unfold CreateDm. destruct (_ && _); [by left|]. apply create_then. intros db1.
  destruct (a =s? b); [|destruct (u =s? a); [rewrite (String.eqb_refl a)|destruct (b =s? a)]];
    repeat (apply (bind_rel (roster_le _ _ _)); [apply AddMember_le; set_solver|intros _ ?]); reflexivity.
Qed.

Lemma CreateGroup_le u members now draw db :
  ∃ ms, Z.of_nat (length ms) <= max_group_size ∧
    created_le (mkConversationRow (GenerateUuid draw) kGroup u now "" 0) ms [] db
      (CreateGroup u members now draw db).2 ∨ (CreateGroup u members now draw db).2 = db.
Proof.
  exists (SortUnique members). unfold CreateGroup. cbv zeta.
  destruct (Nat.ltb _ _); [by right|]. destruct (negb _); [by right|].
  destruct (Z.ltb_spec max_group_size (Z.of_nat (length (SortUnique members)))); [by right|]. left.
  split; [done|]. apply create_then. intros db1. apply (bind_rel (roster_le _ _ _)); [ |reflexivity].
  apply (for_each_rel (roster_le _ _ _)). intros x s Hx. by apply AddMember_le.
Qed.

Lemma CreateChannel_le u admins subs now draw db :
  ∃ ms ss, Z.of_nat (length ss) <= max_channel_size ∧
    created_le (mkConversationRow (GenerateUuid draw) kChannel u now kNewChannelPolicy 0) ms ss db
      (CreateChannel u admins subs now draw db).2 ∨ (CreateChannel u admins subs now draw db).2 = db.
Proof.
  exists admins, (elements (list_to_set (admins ++ subs) : gset string)). unfold CreateChannel.
  destruct (bool_decide _); [by right|]. destruct (negb _); [by right|].
  destruct (see_admins admins ∅ 0) as [[seen total]|] eqn:Ea; [|by right].
  destruct (Z.ltb_spec max_channel_size (Z.of_nat (see_subscribers subs seen total))) as [|Hle]; [by right|]. left.
  split.
  - apply see_admins_spec in Ea as (Hnd & _ & -> & ->). rewrite see_subscribers_spec in Hle.
    rewrite list_to_set_app_L. change (length (elements ?X)) with (size X). etrans; [|exact Hle].
    replace (list_to_set admins ∪ list_to_set subs)
      with (list_to_set admins ∪ (list_to_set subs ∖ (list_to_set admins ∪ ∅)) : gset string).
    + rewrite size_union, size_list_to_set by (done || set_solver). lia.
    + apply set_eq. intros x. destruct (decide (x ∈ admins)); set_solver.
  - apply create_then. intros db1. apply (bind_rel (roster_le _ _ _)); [ |intros _ s1; apply (bind_rel (roster_le _ _ _)); [ |reflexivity]].
    + apply (for_each_rel (roster_le _ _ _)). intros x s Hx. apply (bind_rel (roster_le _ _ _)); [by apply AddMember_le|].
      intros _ s'. apply Subscribe_le, elem_of_elements. set_solver.
    + apply (for_each_rel (roster_le _ _ _)). intros x s Hx. destruct (bool_decide _); [reflexivity|].
      apply Subscribe_le, elem_of_elements. set_solver.
Qed.

(** ** Size limits *)

Definition sizes_ok (db : Database) : Prop :=
  ∀ c, c ∈ conversations db ->
    (c_type c = kGroup ->
       Z.of_nat (ConversationRepository.GetMemberCount (c_conversation_id c) db) <= max_group_size) ∧
    (c_type c = kChannel ->
       Z.of_nat (length (ConversationRepository.GetSubscribers (c_conversation_id c) db)) <= max_channel_size).

Lemma NoDup_subseteq_length {A} (l l' : list A) : NoDup l -> l ⊆ l' -> (length l <= length l')%nat.
Proof. intros Hnd Hsub. apply submseteq_length, NoDup_submseteq; done. Qed.

(** The users of the active members and of the active subscriptions. *)
Lemma member_users_spec conv db :
  db_wf db -> ∃ us, NoDup us ∧ ConversationRepository.GetMemberCount conv db = length us ∧
    ∀ u, u ∈ us <-> ∃ r, has_role db conv u r.
Proof.
  intros Hwf.
  exists (m_user_id <$> filter (λ m, m_conversation_id m = conv ∧ m_removed_at m = None) (conversation_members db)).
  split_and!.
  - destruct Hwf as [[] _ _]. refine (RelayService.NoDup_fst_fixed member_key conv _ _ _ _); [by intros x [? _]|done].
  - by rewrite length_fmap.
  - intros u. rewrite list_elem_of_fmap. unfold has_role, active_member. split.
    + intros (m & -> & ([? ?] & ?)%list_elem_of_filter). by exists (m_role m), m.
    + intros (r & m & Hm & (Hc & <- & Hr) & _). exists m. split; [done|]. by apply list_elem_of_filter.
Qed.

Lemma NoDup_GetSubscribers conv db : db_wf db -> NoDup (ConversationRepository.GetSubscribers conv db).
Proof.
  intros [[] _ _]. unfold ConversationRepository.GetSubscribers. rewrite (scan_perm TChannelSubscriptions _ : _ ≡ₚ _).
  refine (RelayService.NoDup_fst_fixed subscription_key conv _ _ _ _); [by intros x [? _]|done].
Qed.

(** How many members and subscribers a change can add. *)
Lemma roster_le_counts conv ms ss db db' c :
  db_wf db -> db_wf db' -> roster_le conv ms ss db db' ->
  let new l := if decide (c = conv) then length l else 0%nat in
  (ConversationRepository.GetMemberCount c db' <= ConversationRepository.GetMemberCount c db + new ms)%nat ∧
  (length (ConversationRepository.GetSubscribers c db') <= length (ConversationRepository.GetSubscribers c db) + new ss)%nat.
Proof.
  intros Hwf Hwf' [_ Hm Hs _ _] new.
  destruct (member_users_spec c db Hwf) as (us & Hnd & -> & Hus).
  destruct (member_users_spec c db' Hwf') as (us' & Hnd' & -> & Hus'). split.
  - transitivity (length (us ++ if decide (c = conv) then ms else [])).
    + apply NoDup_subseteq_length; [done|]. intros u [r Hr]%Hus'. apply elem_of_app.
      apply Hm in Hr as [Hr|[-> Hu]]; [left; by apply Hus|right]. by rewrite decide_True.
    + rewrite length_app. subst new. simpl. by case_decide.
  - transitivity (length (ConversationRepository.GetSubscribers c db ++ if decide (c = conv) then ss else [])).
    + apply NoDup_subseteq_length; [by apply NoDup_GetSubscribers|].
      intros u Hu%ConversationRepository.elem_of_GetSubscribers. apply elem_of_app.
      apply Hs in Hu as [Hu|[-> Hu]]; [left; by apply ConversationRepository.elem_of_GetSubscribers|right].
      by rewrite decide_True.
    + rewrite length_app. subst new. simpl. by case_decide.
Qed.

(** A change that adds no more than the limits leave room for. *)
Lemma sizes_step conv ms ss db db' :
  db_wf db -> db_wf db' -> sizes_ok db -> roster_le conv ms ss db db' ->
  (∀ c, c ∈ conversations db -> c_conversation_id c = conv ->
     (c_type c = kGroup -> Z.of_nat (ConversationRepository.GetMemberCount conv db + length ms) <= max_group_size) ∧
     (c_type c = kChannel ->
        Z.of_nat (length (ConversationRepository.GetSubscribers conv db) + length ss) <= max_channel_size)) ->
  sizes_ok db'.
Proof.
  intros Hwf Hwf' Hok Hle Hroom c' Hc'.
  assert (Hin : conv_facts c' ∈ conv_facts <$> conversations db)
    by (rewrite <- (rl_facts _ _ _ _ _ Hle); by apply list_elem_of_fmap_2).
  apply list_elem_of_fmap in Hin as (c & E & Hc). injection E as -> -> _ _.
  destruct (roster_le_counts conv ms ss db db' (c_conversation_id c) Hwf Hwf' Hle) as [Hm Hs].
  destruct (Hok c Hc) as [H1 H2]. destruct (decide (c_conversation_id c = conv)) as [<-|Hne].
  - destruct (Hroom c Hc eq_refl) as [H3 H4]. split; intros Ht; [specialize (H3 Ht)|specialize (H4 Ht)]; lia.
  - split; intros Ht; [specialize (H1 Ht)|specialize (H2 Ht)]; lia.
Qed.

(** At most the standing of one user in one conversation changes. *)
Definition touches (conv : ConversationId) (user : UserId) (db db' : Database) : Prop :=
  ∀ c v, (c, v) ≠ (conv, user) ->
    (∀ r, has_role db' c v r <-> has_role db c v r) ∧ (is_subscriber db' c v <-> is_subscriber db c v).

Lemma AddMember_touches conv u role now db : touches conv u db (ConversationRepository.AddMember conv u role now db).2.
Proof.
  intros c v Hne. destruct (ConversationRepository.AddMember conv u role now db) as [[[]|e] db'] eqn:E; simpl.
  - apply ConversationRepository.AddMember_Ok in E as (_ & Hm & Hs & _). unfold has_role, is_subscriber.
    rewrite Hs. split; [|done]. intros r. setoid_rewrite Hm. split.
    + intros (m & [[Hin _]| ->] & Ha & Er); [by exists m|]. destruct Ha as (? & ? & _). simpl in *. congruence.
    + intros (m & Hin & Ha & Er). exists m. split; [|done]. left. split; [done|].
      destruct Ha as (<- & <- & _). done.
  - by apply ConversationRepository.AddMember_Err in E as ->.
Qed.

Lemma Subscribe_touches conv u now db : touches conv u db (ConversationRepository.Subscribe conv u now db).2.
Proof.
  intros c v Hne. destruct (ConversationRepository.Subscribe conv u now db) as [[[]|e] db'] eqn:E; simpl.
  - apply ConversationRepository.Subscribe_Ok in E as (_ & Hs & Hm & _). unfold has_role, is_subscriber.
    rewrite Hm. split; [done|]. setoid_rewrite Hs. split.
    + intros (m & [[Hin _]| ->] & Ha); [by exists m|]. destruct Ha as (? & ? & _). simpl in *. congruence.
    + intros (m & Hin & Ha). exists m. split; [|done]. left. split; [done|].
      destruct Ha as (<- & <- & _). done.
  - by apply ConversationRepository.Subscribe_Err in E as ->.
Qed.

Lemma RemoveMember_touches conv u now db : touches conv u db (ConversationRepository.RemoveMember conv u now db).2.
Proof.
  intros c v Hne. destruct (RemoveMember_tables conv u now db) as (_ & _ & _ & _ & Hs).
  unfold has_role, is_subscriber. rewrite Hs. split; [|done]. intros r.
  setoid_rewrite ConversationRepository.members_RemoveMember. split.
  - intros (m & (x & Hx & ->) & Ha & Er). case_decide as Hd; [by destruct Ha as (_ & _ & ?)|by exists x].
  - intros (m & Hin & Ha & Er). exists m. split; [|done]. exists m. rewrite decide_False; [done|].
    intros (E1 & E2 & _). destruct Ha as (E3 & E4 & _). congruence.
Qed.

Lemma Unsubscribe_touches conv u now db : touches conv u db (ConversationRepository.Unsubscribe conv u now db).2.
Proof.
  intros c v Hne. destruct (Unsubscribe_tables conv u now db) as (_ & _ & _ & _ & Hm).
  unfold has_role, is_subscriber. rewrite Hm. split; [done|]. setoid_rewrite subs_Unsubscribe. split.
  - intros (m & (x & Hx & ->) & Ha). case_decide as Hd; [by destruct Ha as (_ & _ & ?)|by exists x].
  - intros (m & Hin & Ha). exists m. split; [|done]. exists m. rewrite decide_False; [done|].
    intros (E1 & E2 & _). destruct Ha as (E3 & E4 & _). congruence.
Qed.

(** A purge keeps every table but [delivery_state]. *)
Lemma purged_rosters conv user w w' :
  purged conv user w w' -> conv_facts <$> conversations (rw_db w') = conv_facts <$> conversations (rw_db w) ∧
  conversation_members (rw_db w') = conversation_members (rw_db w) ∧
  channel_subscriptions (rw_db w') = channel_subscriptions (rw_db w).
Proof. by intros [[t ->] _ _]. Qed.

(** Every call on an existing conversation either leaves the store or changes one
    user's standing in it, under these conditions. *)
Definition allowed (op : service_op) (conv : ConversationId) (user : UserId) (db : Database) : Prop :=
  ∃ c, c ∈ conversations db ∧ c_conversation_id c = conv ∧
  match op with
  | SAddMember conv' actor u _ _ => conv' = conv ∧ u = user ∧ c_type c = kGroup ∧ manages db conv actor ∧
      Z.of_nat (ConversationRepository.GetMemberCount conv db) < max_group_size
  | SRemoveMember conv' actor u _ => conv' = conv ∧ u = user ∧ c_type c = kGroup ∧ manages db conv actor
  | SSubscribe conv' u _ => conv' = conv ∧ u = user ∧ c_type c = kChannel ∧
      (is_subscriber db conv u ∨
       Z.of_nat (length (ConversationRepository.GetSubscribers conv db)) < max_channel_size)
  | SUnsubscribe conv' u _ => conv' = conv ∧ u = user ∧ c_type c = kChannel ∧ ¬ manages db conv u
  | _ => False
  end.

Lemma AddMember_allowed conv actor u role now db :
  (AddMember conv actor u role now db).2 = db ∨
  (allowed (SAddMember conv actor u role now) conv u db ∧
   (AddMember conv actor u role now db).2 = (ConversationRepository.AddMember conv u role now db).2).
Proof.
  unfold AddMember, bind, gets.
  destruct (ConversationRepository.FindById conv db) as [c|] eqn:Ec; [|by left].
  destruct (c_type c) eqn:Et; [by left| |by left].
  destruct (ActorCanManageMembers c actor db) eqn:Ea; [|by left]. simpl.
  destruct (Z.leb_spec max_group_size (Z.of_nat (ConversationRepository.GetMemberCount conv db))); [by left|].
  apply ConversationRepository.FindById_Some in Ec as [Hc Hid]. apply ActorCanManageMembers_true in Ea.
  right. split; [|done]. exists c. rewrite Hid in Ea. done.
Qed.

Lemma SubscribeChannel_allowed conv u now db :
  (SubscribeChannel conv u now db).2 = db ∨
  (allowed (SSubscribe conv u now) conv u db ∧
   (SubscribeChannel conv u now db).2 = (ConversationRepository.Subscribe conv u now db).2).
Proof.
  unfold SubscribeChannel, bind, gets.
  destruct (ConversationRepository.FindById conv db) as [c|] eqn:Ec; [|by left].
  destruct (bool_decide_reflect (c_type c = kChannel)) as [Et|]; [|by left]. simpl.
  apply ConversationRepository.FindById_Some in Ec as [Hc Hid].
  destruct (bool_decide_reflect (u ∈ ConversationRepository.GetSubscribers conv db)) as [Hu|Hu].
  - right. split; [|done]. exists c. split_and!; try done. left.
    by apply ConversationRepository.elem_of_GetSubscribers in Hu.
  - destruct (Z.leb_spec max_channel_size (Z.of_nat (length (ConversationRepository.GetSubscribers conv db)))); [by left|].
    right. split; [|done]. exists c. split_and!; try done. by right.
Qed.

(** The two departures, with the state before the purge. *)
Lemma RemoveMember_allowed conv actor u now w :
  (RemoveMember conv actor u now w).2 = w ∨
  (allowed (SRemoveMember conv actor u now) conv u (rw_db w) ∧
   purged conv u (set_rw_db (ConversationRepository.RemoveMember conv u now (rw_db w)).2 w)
     (RemoveMember conv actor u now w).2).
Proof.
  destruct (RemoveMember conv actor u now w) as [[r|e] w'] eqn:E; simpl.
  - right. apply RemoveMember_Ok in E as (c & [Hc Hid]%ConversationRepository.FindById_Some & Ht & Ha & Hp).
    split; [|done]. apply ActorCanManageMembers_true in Ha. rewrite Hid in Ha. by exists c.
  - left. revert E. unfold RemoveMember, bind at 1, gets at 1.
    destruct (ConversationRepository.FindById _ _) as [c|]; [|by intros [= _ ->]].
    destruct (c_type c); [by intros [= _ ->]| |by intros [= _ ->]]. unfold bind at 1, gets at 1.
    destruct (ActorCanManageMembers _ _ _); [|by intros [= _ ->]]. simpl. unfold bind at 1, on_relay_db, zoom.
    rewrite ConversationRepository.RemoveMember_run. cbv zeta.
    match goal with |- context [PurgeMemberDelivery conv u ?w1] =>
      by destruct (PurgeMemberDelivery_run conv u w1) as (w2 & -> & _) end.
Qed.

Lemma UnsubscribeChannel_allowed conv u now w :
  db_wf (rw_db w) ->
  (UnsubscribeChannel conv u now w).2 = w ∨
  (allowed (SUnsubscribe conv u now) conv u (rw_db w) ∧
   purged conv u (set_rw_db (ConversationRepository.Unsubscribe conv u now (rw_db w)).2 w)
     (UnsubscribeChannel conv u now w).2).
Proof.
  intros Hwf. destruct (UnsubscribeChannel conv u now w) as [[r|e] w'] eqn:E; simpl.
  - right. apply UnsubscribeChannel_Ok in E as (c & [Hc Hid]%ConversationRepository.FindById_Some & Ht & Hm & Hp).
    split; [|done]. exists c. split_and!; try done.
    intros [(m & Hin & Ha & Hr)|(m & Hin & Ha & Hr)];
      specialize (Hm m (proj2 (ConversationRepository.GetMember_iff _ _ _ _ Hwf) (conj Hin Ha))); congruence.
  - left. revert E. unfold UnsubscribeChannel, bind at 1, gets at 1.
    destruct (ConversationRepository.FindById _ _) as [c|]; [|by intros [= _ ->]].
    destruct (negb _); [by intros [= _ ->]|]. unfold bind at 1, gets at 1.
    destruct (match ConversationRepository.GetMember _ _ _ with Some _ => _ | None => _ end); [by intros [= _ ->]|].
    unfold bind at 1, on_relay_db, zoom. rewrite ConversationRepository.Unsubscribe_run. cbv zeta.
    match goal with |- context [PurgeMemberDelivery conv u ?w1] =>
      by destruct (PurgeMemberDelivery_run conv u w1) as (w2 & -> & _) end.
Qed.

(** ** Creating a channel *)

Lemma AddMember_sets conv u role now db r db' :
  ConversationRepository.AddMember conv u role now db = (Ok r, db') ->
  (∀ v ro, has_role db' conv v ro <-> if decide (v = u) then ro = role else has_role db conv v ro) ∧
  (∀ v, is_subscriber db' conv v <-> is_subscriber db conv v).
Proof.
  destruct r. intros E. pose proof (AddMember_touches conv u role now db) as Ht. rewrite E in Ht. simpl in Ht.
  apply ConversationRepository.AddMember_Ok in E as (_ & Hm & Hs & _). split.
  - intros v ro. case_decide as Hv; [subst v|apply Ht; congruence]. unfold has_role. setoid_rewrite Hm. split.
    + intros (m & [[_ Hk]| ->] & (Hc & Hu & _) & <-); [|done]. destruct Hk. unfold member_key. congruence.
    + intros ->. exists (mkMemberRecord conv u role now None). split; [by right|done].
  - intros v. unfold is_subscriber. by rewrite Hs.
Qed.

Lemma Subscribe_sets conv u now db r db' :
  ConversationRepository.Subscribe conv u now db = (Ok r, db') ->
  (∀ v ro, has_role db' conv v ro <-> has_role db conv v ro) ∧
  (∀ v, is_subscriber db' conv v <-> v = u ∨ is_subscriber db conv v).
Proof.
  destruct r. intros E. pose proof (Subscribe_touches conv u now db) as Ht. rewrite E in Ht. simpl in Ht.
  apply ConversationRepository.Subscribe_Ok in E as (_ & Hs & Hm & _). split.
  - intros v ro. unfold has_role. by rewrite Hm.
  - intros v. destruct (decide (v = u)) as [->|Hv].
    + split; [by left|]. intros _. exists (mkSubscriptionRow conv u now None). split; [apply Hs; by right|done].
    + rewrite (proj2 (Ht conv v ltac:(congruence))). split; [by right|]. by intros [?|?].
Qed.

Lemma admins_loop conv role now (admins : list UserId) : ∀ db r db',
  for_each admins (λ uid, ConversationRepository.AddMember conv uid (role uid) now ;;!
                          ConversationRepository.Subscribe conv uid now) db = (Ok r, db') ->
  roster_step conv db db' ∧
  (∀ v ro, has_role db' conv v ro <-> if decide (v ∈ admins) then ro = role v else has_role db conv v ro) ∧
  (∀ v, is_subscriber db' conv v <-> v ∈ admins ∨ is_subscriber db conv v).
Proof.
  induction admins as [|a admins IH]; intros db r db' Hl; simpl in Hl.
  { injection Hl as <- <-. split; [apply roster_step_refl|]. split; [done|]. intros v. split; [by right|].
    by intros [?%not_elem_of_nil|?]. }
  apply bind_Ok in Hl as ([] & db2 & Hb & Hl). apply bind_Ok in Hb as ([] & db1 & Ha & Hs).
  destruct (IH _ _ _ Hl) as (R3 & Hr & Hsub).
  destruct (AddMember_sets _ _ _ _ _ _ _ Ha) as [Ar As]. destruct (Subscribe_sets _ _ _ _ _ _ Hs) as [Sr Ss].
  split. { eapply roster_step_trans; [by eapply AddMember_roster|]. eapply roster_step_trans; [by eapply Subscribe_roster|done]. }
  split.
  - intros v ro. rewrite Hr. destruct (decide (v ∈ a :: admins)) as [Hin|Hin]; rewrite elem_of_cons in Hin;
      destruct (decide (v ∈ admins)) as [Hv|Hv]; try tauto; rewrite Sr, Ar.
    + destruct Hin as [->|?]; [by rewrite decide_True|done].
    + by rewrite decide_False by tauto.
  - intros v. rewrite Hsub, Ss, As, elem_of_cons. tauto.
Qed.

Lemma subscribers_loop conv now (admins subs : list UserId) : ∀ db r db',
  for_each subs (λ uid, if bool_decide (uid ∈ admins) then mok tt
                        else ConversationRepository.Subscribe conv uid now) db = (Ok r, db') ->
  roster_step conv db db' ∧ (∀ v ro, has_role db' conv v ro <-> has_role db conv v ro) ∧
  (∀ v, is_subscriber db' conv v <-> (v ∈ subs ∧ v ∉ admins) ∨ is_subscriber db conv v).
Proof.
  induction subs as [|a subs IH]; intros db r db' Hl; simpl in Hl.
  { injection Hl as <- <-. split; [apply roster_step_refl|]. split; [done|]. intros v. split; [by right|].
    by intros [[?%not_elem_of_nil _]|?]. }
  apply bind_Ok in Hl as ([] & db1 & Hb & Hl). destruct (IH _ _ _ Hl) as (R3 & Hr & Hsub).
  destruct (bool_decide_reflect (a ∈ admins)) as [Ha|Ha].
  - injection Hb as <-. split; [done|]. split; [done|]. intros v. rewrite Hsub, elem_of_cons.
    destruct (decide (v = a)) as [->|]; tauto.
  - destruct (Subscribe_sets _ _ _ _ _ _ Hb) as [Sr Ss].
    split; [eapply roster_step_trans; [by eapply Subscribe_roster|done]|].
    split; [intros v ro; by rewrite Hr, Sr|]. intros v. rewrite Hsub, Ss, elem_of_cons.
    destruct (decide (v = a)) as [->|]; tauto.
Qed.

Definition channel_role (created_by uid : UserId) : MemberRole :=
  if uid =s? created_by then kOwner else kAdmin.

(** A new channel has exactly the listed admins as members, the creator as owner, and
    exactly the admins and the listed subscribers as its subscribers, within
    [max_channel_size]; its policy does not open posting to everyone; all listed
    users are registered, the admins are distinct, the creator is one of them. *)
Theorem CreateChannel_spec created_by admins subs now draw db id db' :
  db_wf db -> CreateChannel created_by admins subs now draw db = (Ok id, db') ->
  id = GenerateUuid draw ∧ created_by ∈ admins ∧ NoDup admins ∧ (admins ++ subs) ⊆ (u_user_id <$> users db) ∧
  (∃ c, ConversationRepository.FindById id db' = Some c ∧ c_type c = kChannel ∧ c_created_by c = created_by ∧
     string_find kPostPolicyEveryone (c_policy_blob c) = false) ∧
  (∀ u r, has_role db' id u r <-> u ∈ admins ∧ r = channel_role created_by u) ∧
  (∀ u, ConversationRepository.IsUserInConversation id u db' = true <-> u ∈ admins ∨ u ∈ subs) ∧
  Z.of_nat (length (ConversationRepository.GetSubscribers id db')) <= max_channel_size.
Proof.
  intros Hwf Hc. pose proof (CreateChannel_wf created_by admins subs now draw db Hwf) as Hwf'.
  rewrite Hc in Hwf'. simpl in Hwf'. revert Hc. unfold CreateChannel. destruct (bool_decide _); [done|].
  destruct (bool_decide_reflect (created_by ∈ admins)) as [Hcr|]; [|done]. simpl.
  destruct (see_admins admins ∅ 0) as [[seen total]|] eqn:Ea; [|done].
  destruct (Z.ltb_spec max_channel_size (Z.of_nat (see_subscribers subs seen total))) as [|Hle]; [done|].
  apply see_admins_spec in Ea as (Hnd & _ & -> & ->). rewrite see_subscribers_spec in Hle. intros Hc.
  apply bind_Ok in Hc as ([] & db1 & Hc1 & Hc). apply bind_Ok in Hc as ([] & db2 & Hl1 & Hc).
  apply bind_Ok in Hc as ([] & db3 & Hl2 & Hc). injection Hc as <- <-.
  destruct (create_step _ _ _ _ Hwf Hc1) as (_ & Hf & Em & Es & Eu & Hm & Hb). simpl in Hf, Hm, Hb.
  destruct (admins_loop _ (channel_role created_by) _ _ _ _ _ Hl1) as (R1 & Hr1 & Hs1).
  destruct (subscribers_loop _ _ _ _ _ _ _ Hl2) as (R2 & Hr2 & Hs2).
  pose proof (roster_step_trans _ _ _ _ R1 R2) as [Rf Ru _ _].
  assert (Hno : ∀ v ro, ¬ has_role db1 (GenerateUuid draw) v ro).
  { intros v ro (m & Hin & (E & _) & _). rewrite Em in Hin. by apply (Hm m). }
  assert (Hsubs : ∀ u, is_subscriber db3 (GenerateUuid draw) u <-> u ∈ admins ∨ u ∈ subs).
  { intros u. rewrite Hs2, Hs1. assert (¬ is_subscriber db1 (GenerateUuid draw) u).
    { intros (b & Hin & E & _). rewrite Es in Hin. by apply (Hb b). }
    destruct (decide (u ∈ admins)); tauto. }
  assert (Hfind : ∃ c, ConversationRepository.FindById (GenerateUuid draw) db3 = Some c ∧ c_type c = kChannel ∧
    c_created_by c = created_by ∧ c_policy_blob c = kNewChannelPolicy).
  { apply FindById_facts; [done|]. by rewrite Rf. }
  destruct Hfind as (c & Hfc & Ht & Hby & Hp). split_and!; try done.
  - rewrite <- Eu, <- Ru. intros u Hu. destruct (proj2 (Hsubs u)) as (b & Hin & _ & <- & _).
    { by apply elem_of_app in Hu. }
    destruct Hwf' as [_ [] _]. by apply fk_subscriptions_user, list_elem_of_fmap_2.
  - exists c. rewrite Hp. split_and!; try done.
  - intros u r. rewrite Hr2, Hr1. case_decide as Hu; [naive_solver|]. split; [by intros ?%Hno|by intros [? _]].
  - intros u. rewrite <- Hsubs. unfold ConversationRepository.IsUserInConversation. rewrite Hfc, decide_True by done.
    apply (sql_exists_true _ _).
  - etrans; [|exact Hle]. apply Nat2Z.inj_le. etrans.
    { apply (NoDup_subseteq_length _ (elements (list_to_set admins ∪ (list_to_set subs ∖ (list_to_set admins ∪ ∅)) : gset string)));
        [by apply NoDup_GetSubscribers|]. intros u Hu%ConversationRepository.elem_of_GetSubscribers%Hsubs.
      apply elem_of_elements. destruct (decide (u ∈ admins)); set_solver. }
    change (length (elements ?X)) with (size X). rewrite size_union, size_list_to_set by (done || set_solver). lia.
Qed.

(** What a call does to the rosters: nothing, the creation of a conversation within
    the limits, or an allowed change of one user's standing. *)
Lemma service_effect op w :
  db_wf (rw_db w) ->
  let db := rw_db w in let db' := rw_db (run_service_op op w) in
  db' = db ∨
  (∃ row ms ss, created_le row ms ss db db' ∧
     (c_type row = kGroup -> Z.of_nat (length ms) <= max_group_size) ∧
     (c_type row = kChannel -> Z.of_nat (length ss) <= max_channel_size)) ∨
  (∃ conv u ms ss, allowed op conv u db ∧ touches conv u db db' ∧ roster_le conv ms ss db db' ∧
     match op with
     | SAddMember _ _ _ _ _ => ms = [u] ∧ ss = []
     | SSubscribe _ _ _ => ms = [] ∧ (ss = [u] ∧ ¬ is_subscriber db conv u ∨ ss = [] ∧ is_subscriber db conv u)
     | _ => ms = [] ∧ ss = []
     end).
Proof.
  intros Hwf db db'. subst db db'. destruct op; simpl; unfold on_relay_db, zoom;
    try (match goal with |- context [let '(r, t) := ?c (rw_db w) in _] =>
           destruct (c (rw_db w)) as [r0 db0] eqn:E; simpl end).
  - right; left. exists (mkConversationRow (GenerateUuid draw) kDm by_user now "" 0), [a; b], [].
    pose proof (CreateDm_le a b by_user now draw (rw_db w)) as Hle. by rewrite E in Hle.
  - destruct (CreateGroup_le by_user members now draw (rw_db w)) as [ms Hle]. rewrite E in Hle. simpl in Hle.
    destruct Hle as [[Hms Hle]| ->]; [|by left]. right; left. by eexists _, ms, [].
  - destruct (CreateChannel_le by_user admins subscribers now draw (rw_db w)) as (ms & ss & Hle).
    rewrite E in Hle. simpl in Hle. destruct Hle as [[Hms Hle]| ->]; [|by left]. right; left. by eexists _, ms, ss.
  - destruct (AddMember_allowed conv actor user role now (rw_db w)) as [Hs|[Ha Hs]]; rewrite E in Hs; simpl in Hs; subst db0;
      [by left|]. right; right. exists conv, user, [user], []. split; [done|].
    split; [apply AddMember_touches|]. split; [apply AddMember_le; left|done].
  - destruct (RemoveMember_allowed conv actor user now w) as [->|[Ha Hp]]; [by left|]. right; right.
    exists conv, user, [], []. split; [done|]. destruct (purged_rosters _ _ _ _ Hp) as (Hf & Hm & Hs).
    unfold touches, has_role, is_subscriber. rewrite Hm, Hs. split; [apply (RemoveMember_touches conv user now)|].
    split; [|done]. destruct (RemoveMember_le conv user now [] [] (rw_db w)). split; unfold has_role, is_subscriber.
    + by rewrite Hf.
    + by rewrite Hm.
    + by rewrite Hs.
    + by rewrite Hm.
    + by rewrite Hs.
  - destruct (SubscribeChannel_allowed conv user now (rw_db w)) as [Hs|[Ha Hs]]; rewrite E in Hs; simpl in Hs; subst db0;
      [by left|]. right; right.
    destruct (decide (user ∈ ConversationRepository.GetSubscribers conv (rw_db w))) as [Hu|Hu];
      rewrite ConversationRepository.elem_of_GetSubscribers in Hu.
    + exists conv, user, [], []. split; [done|]. split; [apply Subscribe_touches|]. split; [|auto].
      destruct (Subscribe_le conv user now [] [user] (rw_db w) ltac:(left)). split; try done.
      intros c u Hin. left. apply rl_subs0 in Hin as [?|[-> ->%list_elem_of_singleton]]; done.
    + exists conv, user, [], [user]. split; [done|]. split; [apply Subscribe_touches|].
      split; [apply Subscribe_le; left|auto].
  - destruct (UnsubscribeChannel_allowed conv user now w Hwf) as [->|[Ha Hp]]; [by left|]. right; right.
    exists conv, user, [], []. split; [done|]. destruct (purged_rosters _ _ _ _ Hp) as (Hf & Hm & Hs).
    unfold touches, has_role, is_subscriber. rewrite Hm, Hs. split; [apply (Unsubscribe_touches conv user now)|].
    split; [|done]. destruct (Unsubscribe_le conv user now [] [] (rw_db w)). split; unfold has_role, is_subscriber.
    + by rewrite Hf.
    + by rewrite Hm.
    + by rewrite Hs.
    + by rewrite Hm.
    + by rewrite Hs.
Qed.

(** Who takes part in an existing conversation, and with which role, changes only by a call
    that may do so: a member of a group is added or removed by one of its owners or
    admins; a subscription of a channel is made or ended for the user of the call, who is
    neither owner nor admin when leaving.  The roster of a direct conversation never
    changes, and no call, failed ones and those that create another conversation
    included, changes anyone else's standing. *)
Theorem service_roster_change op w c user :
  db_wf (rw_db w) -> c ∈ conversations (rw_db w) ->
  let conv := c_conversation_id c in
  ((∀ r, has_role (rw_db (run_service_op op w)) conv user r <-> has_role (rw_db w) conv user r) ∧
   (is_subscriber (rw_db (run_service_op op w)) conv user <-> is_subscriber (rw_db w) conv user)) ∨
  (allowed op conv user (rw_db w) ∧ c_type c ≠ kDm).
Proof.
  intros Hwf Hc conv.
  destruct (service_effect op w Hwf) as [->|[(row & ms & ss & Hcr & _)|(conv' & u & ms & ss & Ha & Ht & _)]]; [by left|..].
  - left. destruct Hcr as [->|(db1 & Hcr & Hle)]; [done|].
    destruct (create_step _ _ _ _ Hwf Hcr) as (_ & _ & Em & Es & _).
    destruct (CreateConversation_Ok _ _ _ _ Hcr) as (_ & Hnew & _).
    assert (Hne : conv ≠ c_conversation_id row) by (intros E; apply Hnew; rewrite <- E; by apply list_elem_of_fmap_2).
    destruct Hle as [_ _ _ Hm Hs]. split; [intros r; rewrite (Hm _ _ _ Hne)|rewrite (Hs _ _ Hne)].
    + unfold has_role. by rewrite Em.
    + unfold is_subscriber. by rewrite Es.
  - destruct (decide ((conv, user) = (conv', u))) as [[= <- <-]|Hne]; [|left; by apply Ht].
    right. split; [done|]. destruct Ha as (c' & Hc' & Hid & Hop).
    assert (c' = c) as -> by (destruct Hwf as [[] _ _]; by apply (NoDup_fmap_inj_on c_conversation_id (conversations (rw_db w)))).
    destruct op; try done; destruct Hop as (_ & _ & Ht0 & _); congruence.
Qed.

Context (Hgroup : 0 <= max_group_size) (Hchannel : 0 <= max_channel_size).

Lemma sizes_created row ms ss db db' :
  db_wf db -> db_wf db' -> sizes_ok db -> created_le row ms ss db db' ->
  (c_type row = kGroup -> Z.of_nat (length ms) <= max_group_size) ->
  (c_type row = kChannel -> Z.of_nat (length ss) <= max_channel_size) -> sizes_ok db'.
Proof.
  intros Hwf Hwf' Hok [-> |(db1 & Hc & Hle)] Hms Hss; [done|].
  destruct (create_step _ _ _ _ Hwf Hc) as (Hwf1 & _ & Em & Es & _ & Hm & Hb).
  destruct (CreateConversation_Ok _ _ _ _ Hc) as (-> & Hnew & _).
  assert (Hempty : ConversationRepository.GetMemberCount (c_conversation_id row) db = 0%nat ∧
    ConversationRepository.GetSubscribers (c_conversation_id row) db = []).
  { split; [apply sql_count_zero; intros m Hin [E _]; by apply (Hm m)|].
    apply list_eq_nil. intros u (b & Hin & E & _)%ConversationRepository.elem_of_GetSubscribers. by apply (Hb b). }
  destruct Hempty as [H0 H1].
  eapply sizes_step; [exact Hwf1|done| |exact Hle|].
  - intros c [Hin| ->]%elem_of_sql_insert; [by apply Hok|].
    unfold ConversationRepository.GetMemberCount, ConversationRepository.GetSubscribers in *. simpl in *.
    rewrite H0, H1. simpl. lia.
  - intros c Hin E.
    assert (c = row) as ->.
    { apply elem_of_sql_insert in Hin as [Hin|]; [|done]. exfalso. apply Hnew. rewrite <- E. by apply list_elem_of_fmap_2. }
    unfold ConversationRepository.GetMemberCount, ConversationRepository.GetSubscribers in *. simpl in *.
    rewrite H0, H1. simpl. split; intros Ht; [specialize (Hms Ht)|specialize (Hss Ht)]; lia.
Qed.

Lemma service_op_sizes op w :
  db_wf (rw_db w) -> sizes_ok (rw_db w) -> sizes_ok (rw_db (run_service_op op w)).
Proof.
  intros Hwf Hok. pose proof (run_service_op_wf op w Hwf) as Hwf'.
  destruct (service_effect op w Hwf) as [->|[(row & ms & ss & Hcr & Hg & Hch)|(conv & u & ms & ss & Ha & _ & Hle & Hop)]]; [done|..].
  - apply (sizes_created row ms ss (rw_db w)); assumption.
  - eapply sizes_step; [exact Hwf|done|done|exact Hle|]. intros c Hc Hid. destruct (Hok c Hc) as [H1 H2].
    rewrite Hid in H1, H2. destruct Ha as (c' & Hc' & Hid' & Hal).
    assert (c' = c) as -> by (destruct Hwf as [[] _ _]; apply (NoDup_fmap_inj_on c_conversation_id (conversations (rw_db w))); congruence).
    destruct op; try done; destruct Hop as [-> Hop]; simpl.
    + destruct Hal as (_ & _ & Ht & _ & Hlt). subst ss. simpl. split; [lia|congruence].
    + subst ss. simpl. split; intros Ht; [specialize (H1 Ht)|specialize (H2 Ht)]; lia.
    + destruct Hal as (_ & -> & Ht & Hlt). split; [congruence|]. intros _.
      destruct Hop as [[-> Hno]|[-> _]]; simpl; [|specialize (H2 Ht); lia]. destruct Hlt; [done|lia].
    + subst ss. simpl. split; intros Ht; [specialize (H1 Ht)|specialize (H2 Ht)]; lia.
Qed.

(** The size limits hold at all times: over any sequence of calls, failed ones
    included, no group ever has more than [max_group_size] active members and no
    channel more than [max_channel_size] active subscribers. *)
Theorem conversation_sizes_bounded ops w :
  db_wf (rw_db w) -> sizes_ok (rw_db w) ->
  sizes_ok (rw_db (foldl (λ w op, run_service_op op w) w ops)).
Proof.
  revert w. induction ops as [|op ops IH]; intros w Hwf Hok; simpl; [done|].
  apply IH; [by apply run_service_op_wf|by apply service_op_sizes].
Qed.
End ConversationService.

Section witnesses.
#[local] Existing Instance rowid_engine.

Lemma CreateGroup_spec_witness :
  ∃ db', CreateGroup 10 "u2" ["u2"; "u1"; "u2"] 3000 (1, 2) sample_db = (Ok (GenerateUuid (1, 2)), db') ∧
    ConversationRepository.GetMemberCount (GenerateUuid (1, 2)) db' = 2%nat.
Proof.
  destruct (CreateGroup_spec 10 "u2" ["u2"; "u1"; "u2"] 3000 (1, 2) sample_db sample_db_wf) as [[_ Hok] Hspec].
  { apply (bool_decide_unpack _). vm_compute. exact I. }
  destruct Hok as [db' E].
  { split; [vm_compute; split; discriminate|]. split; [left|].
    apply (bool_decide_unpack _). vm_compute. exact I. }
  exists db'. split; [exact E|]. destruct (Hspec db' E) as (_ & _ & Hn & _). exact Hn.
Defined.

Lemma leaving_purges_delivery_witness :
  ¬ ConversationRepository.participant
      (rw_db (RemoveMember "g1" "u1" "u2" 3000 sample_relay_world).2) "g1" "u2".
Proof.
  apply (leaving_purges_delivery "g1" "u2" 3000 sample_relay_world);
    [apply EnvelopeRepository.sample_mail_db_wf|left; exists "u1"; vm_compute; reflexivity].
Defined.

Lemma conversation_sizes_bounded_witness :
  sizes_ok 2 2 (rw_db (foldl (λ w op, run_service_op 2 2 op w) sample_relay_world
    [SCreateGroup "u2" ["u2"; "u1"] 3000 (1, 2); SAddMember "g1" "u1" "u2" kAdmin 3000])).
Proof.
  apply (conversation_sizes_bounded 2 2); [lia|lia|apply EnvelopeRepository.sample_mail_db_wf|].
  intros c [->|Hc]%elem_of_cons; [|by apply not_elem_of_nil in Hc].
  split; intros Ht; vm_compute; discriminate.
Defined.

Lemma CreateChannel_spec_witness :
  ConversationRepository.IsUserInConversation (GenerateUuid (1, 2)) "u1"
    (CreateChannel 10 "u2" ["u2"] ["u1"] 3000 (1, 2) sample_db).2 = true.
Proof.
  apply (CreateChannel_spec 10 "u2" ["u2"] ["u1"] 3000 (1, 2) sample_db (GenerateUuid (1, 2)));
    [apply sample_db_wf|vm_compute; reflexivity|right; left].
Defined.

(** Creating a group with an unknown member fails but leaves the conversation and
    the members added before the failure. *)
Example CreateGroup_failure_leaves_conversation :
  ∃ e db', CreateGroup 10 "u1" ["u1"; "zz"] 3000 (1, 2) sample_db = (Err e, db') ∧
    ConversationRepository.GetMemberCount (GenerateUuid (1, 2)) db' = 1%nat.
Proof. do 2 eexists. split; vm_compute; reflexivity. Qed.
End witnesses.
End ConversationService.
