(* ===== verification/Concurrent.v ===== *)
(** * Races between requests

    The operations whose correctness hangs on what other requests do between
    two of their calls, as programs of atomic repository calls run by any number of
    workers: the rotation of a refresh token (lib/vox_auth/token_manager.cpp) and the
    size limit of a group (lib/vox_relay/conversation_service.cpp).  Run alone, each
    program is the operation of the sequential model. *)

From S2P Require Import Prelude Types Sql Database Samples Uuid Sessions Tokens Conversations ConversationService Interleave.

(** ** Refresh tokens *)

Section refresh.
Context {S : Type} `{ISessionRepository S} (tm : TokenManager).

Record RefreshCall := mkRefreshCall {
  rq_token : string; rq_device : DeviceId; rq_now : Timestamp; rq_draws : TokenDraws }.

Definition refresh_issue (q : RefreshCall) (uid : UserId) : prog S RefreshResult :=
  call! 2 | tokens := IssueTokens tm uid (rq_device q) (rq_now q) (rq_draws q) in
  preturn (mkRefreshResult tokens uid).

Definition refresh_revoke (q : RefreshCall) (session : SessionRecord) : prog S RefreshResult :=
  let uid := s_user_id session in
  call! 1 | _ := RevokeSession (s_session_id session) (rq_now q) in
  refresh_issue q uid.

(** [TokenManager::RefreshTokens], one call at a time. *)
Definition RefreshTokens_prog (q : RefreshCall) : prog S RefreshResult :=
  call! 0 | session := gets (FindByRefreshToken (HashToken tm (rq_token q))) in
  match session with
  | None => pthrow kUnauthorized "Invalid refresh token"
  | Some session =>
      if s_refresh_expires_at session <=? rq_now q then pthrow kExpired "Refresh token expired"
      else if negb (s_device_id session =s? rq_device q)
      then pthrow kForbidden "Device mismatch on refresh"
      else refresh_revoke q session
  end.

Lemma run_RefreshTokens_prog q s :
  run_prog (RefreshTokens_prog q) s =
  RefreshTokens tm (rq_token q) (rq_device q) (rq_now q) (rq_draws q) s.
Proof.
  unfold RefreshTokens_prog, RefreshTokens. rewrite run_call_then. unfold bind at 1 2, gets.
  destruct (FindByRefreshToken _ s) as [r|]; [|done].
  destruct (s_refresh_expires_at r <=? rq_now q); [done|]. destruct (negb _); [done|].
  unfold refresh_revoke. rewrite run_call_then. unfold bind at 1 2.
  destruct (RevokeSession _ _ s) as [[u|e] s1]; [|done].
  unfold refresh_issue. rewrite run_call_then. reflexivity.
Qed.

(** The calls other parts of the server make on the sessions. *)
Inductive session_call :=
  | CCreate (r : SessionRecord)
  | CRevoke (id : string) (now : Timestamp)
  | CRevokeUser (u : UserId) (now : Timestamp)
  | CRevokeDevice (u : UserId) (d : DeviceId) (now : Timestamp).

Definition session_env (c : session_call) (s : S) : S :=
  match c with
  | CCreate r => (CreateSession r s).2
  | CRevoke id now => (RevokeSession id now s).2
  | CRevokeUser u now => (RevokeAllForUser u now s).2
  | CRevokeDevice u d now => (RevokeAllForDevice u d now s).2
  end.

(** The session [id] carries the refresh hash [h], revoked or not. *)
Definition carries (id h : string) (s : S) : Prop :=
  ∃ y, stored s y ∧ s_session_id y = id ∧ s_refresh_token_hash y = h.

(** What no call undoes. *)
Definition session_rely (s s' : S) : Prop :=
  (∀ t, spent tm t s -> spent tm t s') ∧ ∀ id h, carries id h s -> carries id h s'.

Lemma revoke_rely P now s s' :
  (∀ x', stored s' x' <-> ∃ x, stored s x ∧ revoked_where P now x x') ->
  (∀ x, P x ∨ ¬ P x) -> session_rely s s'.
Proof.
  intros Hst HP. split; [intros t; by eapply revoke_keeps|].
  intros id h (y & Hy & Hid & Hh).
  destruct (decide (session_live y)) as [Hl|Hl]; [destruct (HP y) as [Hp|Hp]|].
  - exists (set_session_revoked now y). split; [|done]. apply Hst. exists y. split; [done|]. by left.
  - exists y. split; [|done]. apply Hst. exists y. split; [done|]. right. tauto.
  - exists y. split; [|done]. apply Hst. exists y. split; [done|]. right. tauto.
Qed.

Lemma create_rely r s s' :
  repo_inv s -> CreateSession r s = (Ok tt, s') -> session_rely s s'.
Proof.
  intros Hinv Hc. destruct (create_ok_law _ _ _ Hinv Hc) as (_ & Hst & _). split.
  - intros t (y & Hy & Hd & Hh). exists y. rewrite Hst. tauto.
  - intros id h (y & Hy & Hk). exists y. rewrite Hst. tauto.
Qed.

Lemma session_rely_refl s : session_rely s s.
Proof. by split. Qed.

Lemma CreateSession_rely r s :
  repo_inv s -> repo_inv (CreateSession r s).2 ∧ session_rely s (CreateSession r s).2.
Proof.
  intros Hinv. destruct (CreateSession r s) as [[[]|e] s'] eqn:Ec; simpl.
  - split; [by eapply create_ok_law|by eapply create_rely].
  - apply create_err_law in Ec as ->. split; [done|apply session_rely_refl].
Qed.

Lemma RevokeSession_rely id now s :
  repo_inv s -> repo_inv (RevokeSession id now s).2 ∧ session_rely s (RevokeSession id now s).2.
Proof.
  intros Hinv. destruct (revoke_law s id now Hinv) as (Hi & Hst & _). split; [done|].
  eapply revoke_rely; [exact Hst|]. intros x. destruct (decide (s_session_id x = id)); tauto.
Qed.

Lemma session_env_rely c s :
  repo_inv s -> repo_inv (session_env c s) ∧ session_rely s (session_env c s).
Proof.
  intros Hinv. destruct c as [r|id now|u now|u d now]; simpl.
  - by apply CreateSession_rely.
  - by apply RevokeSession_rely.
  - destruct (revoke_user_law s u now Hinv) as (Hi & _ & Hst). split; [done|].
    eapply revoke_rely; [exact Hst|]. intros x. destruct (decide (s_user_id x = u)); tauto.
  - destruct (revoke_device_law s u d now Hinv) as (Hi & _ & Hst). split; [done|].
    eapply revoke_rely; [exact Hst|]. intros x.
    destruct (decide (s_user_id x = u)), (decide (s_device_id x = d)); tauto.
Qed.

(** Where a request is, and what it relies on there. *)
Inductive refresh_at (q : RefreshCall) (s : S) : prog S RefreshResult -> Prop :=
  | at_find : refresh_at q s (RefreshTokens_prog q)
  | at_revoke r : carries (s_session_id r) (HashToken tm (rq_token q)) s ->
      refresh_at q s (refresh_revoke q r)
  | at_issue uid : spent tm (rq_token q) s -> refresh_at q s (refresh_issue q uid)
  | at_ok res : spent tm (rq_token q) s -> refresh_at q s (Return (Ok res))
  | at_err e : refresh_at q s (Return (Err e)).

(** A request that has got past the revocation. *)
Definition refresh_won (p : prog S RefreshResult) : bool :=
  match p with
  | Return (Ok _) => true
  | Return (Err _) => false
  | Call pc _ _ => Nat.leb 2 pc
  end.

Lemma find_step q s p :
  repo_inv s ->
  p = match FindByRefreshToken (HashToken tm (rq_token q)) s with
      | None => pthrow kUnauthorized "Invalid refresh token"
      | Some session =>
          if s_refresh_expires_at session <=? rq_now q then pthrow kExpired "Refresh token expired"
          else if negb (s_device_id session =s? rq_device q)
          then pthrow kForbidden "Device mismatch on refresh"
          else refresh_revoke q session
      end ->
  refresh_at q s p ∧ refresh_won p = false.
Proof.
  intros Hinv ->. destruct (FindByRefreshToken _ s) as [r|] eqn:Ef; [|split; [constructor|done]].
  apply (find_refresh_law _ _ _ Hinv) in Ef as (Hr & _ & Hh).
  destruct (_ <=? _); [split; [constructor|done]|]. destruct (negb _); split; try constructor; try done.
  by exists r.
Qed.

(** A revocation that succeeds met a live session, and leaves the token spent. *)
Lemma revoke_step id token now s :
  repo_inv s -> carries id (HashToken tm token) s -> (RevokeSession id now s).1 = Ok tt ->
  ¬ spent tm token s ∧ spent tm token (RevokeSession id now s).2.
Proof.
  intros Hinv (y & Hy & Hid & Hh) Hok. destruct (revoke_law s id now Hinv) as (_ & Hst & Hlaw).
  apply Hlaw in Hok as (x & Hx & Hl & Hxid).
  assert (x = y) as -> by (apply (session_id_unique_law s); congruence). split.
  - intros (z & Hz & Hd & Hhz). rewrite (refresh_unique_law s z y Hinv) in Hd; [done..|congruence].
  - exists (set_session_revoked now y). split; [|done]. apply Hst. exists y. split; [done|]. by left.
Qed.

Lemma refresh_call q s p p' s' :
  repo_inv s -> refresh_at q s p -> step_prog p s = Some (p', s') ->
  repo_inv s' ∧ session_rely s s' ∧ refresh_at q s' p' ∧
  (refresh_won p = false -> refresh_won p' = true -> ¬ spent tm (rq_token q) s).
Proof.
  intros Hinv Hat Hst. destruct Hat as [|r Hc|uid Hsp|res Hsp|e]; [..|done|done].
  - unfold RefreshTokens_prog in Hst. rewrite step_call_then in Hst. injection Hst as Hp <-.
    destruct (find_step q s p' Hinv (eq_sym Hp)) as [Hat Hw]. rewrite Hw.
    split; [done|]. split; [apply session_rely_refl|done].
  - unfold refresh_revoke in Hst. rewrite step_call_then in Hst. injection Hst as <- <-.
    destruct (RevokeSession_rely (s_session_id r) (rq_now q) s Hinv) as [Hi Hr].
    split; [done|]. split; [done|].
    pose proof (revoke_step (s_session_id r) (rq_token q) (rq_now q) s Hinv Hc) as Hrev.
    destruct (RevokeSession _ _ s) as [[[]|e] s1]; simpl in *; [|split; [constructor|done]].
    destruct (Hrev eq_refl) as [Hn Hs]. split; [by constructor|done].
  - unfold refresh_issue in Hst. rewrite step_call_then in Hst. injection Hst as <- <-.
    assert (E : (IssueTokens tm uid (rq_device q) (rq_now q) (rq_draws q) s).2 =
      (CreateSession (issued_session tm uid (rq_device q) (rq_now q) (rq_draws q)) s).2).
    { unfold IssueTokens, bind. by destruct (CreateSession _ s) as [[]]. }
    rewrite E. destruct (CreateSession_rely (issued_session tm uid (rq_device q) (rq_now q) (rq_draws q)) s Hinv)
      as [Hi Hr].
    split; [done|]. split; [done|]. split; [|done].
    destruct (IssueTokens _ _ _ _ _ s).1; constructor. by apply Hr.
Qed.

Lemma refresh_guarantees :
  guarantees RefreshTokens_prog session_env repo_inv session_rely (λ q p s, refresh_at q s p).
Proof.
  split.
  - intros e s. apply session_env_rely.
  - intros q s _. constructor.
  - intros q p s p' s' Hinv Hat Hst. destruct (refresh_call q s p p' s' Hinv Hat Hst) as (? & ? & ? & _). done.
  - intros q p s s' Hinv [Hs Hc] Hat. destruct Hat; constructor; auto.
Qed.

Lemma refresh_exclusive :
  exclusive RefreshTokens_prog repo_inv (λ q p s, refresh_at q s p) refresh_won rq_token (spent tm).
Proof.
  split.
  - done.
  - intros q p s _ Hat Hw. by destruct Hat.
  - intros q p s p' s' Hinv Hat Hst. by apply (refresh_call q s p p' s').
Qed.

(** The refresh tokens that were answered with a new pair. *)
Definition accepted (l : list (RefreshCall * Result RefreshResult)) : list string :=
  omap (λ a, match a.2 with Ok _ => Some (rq_token a.1) | Err _ => None end) l.

Lemma accepted_winners l :
  accepted l = omap (winner refresh_won rq_token) ((λ a, (a.1, Return a.2)) <$> l).
Proof.
  induction l as [|[q [res|e]] l IH]; [done|..]; cbn; unfold accepted in IH; cbn in IH; by rewrite IH.
Qed.

(** C7: Any number of refresh requests on any number of workers, their repository
    calls interleaved in any order and with any other calls that create and revoke
    sessions: a refresh token is exchanged for a new pair at most once.  Two
    requests that both find the token live race for the revocation, which one of
    them wins; the other is refused. *)
Theorem concurrent_refresh_single_use workers evs s :
  repo_inv s ->
  NoDup (accepted (answered (pool_run RefreshTokens_prog session_env evs (idle_pool workers s)))).
Proof.
  intros Hinv.
  pose proof (pool_run_winners _ _ _ _ _ _ _ _ evs workers s refresh_guarantees refresh_exclusive Hinv) as Hnd.
  unfold cells in Hnd. rewrite omap_app in Hnd. apply NoDup_app in Hnd as (_ & _ & Hnd).
  erewrite accepted_winners; exact Hnd.
Qed.
End refresh.

(** ** The size limits of groups and channels *)

Module Roster.
Import ConversationService.
Section Roster.
Context `{SqlEngine} (max_group_size max_channel_size : Z).

(** The requests that enlarge the roster of a conversation that has been created. *)
Inductive roster_request :=
  | RqAdd (conv_id : ConversationId) (actor_user_id new_user_id : UserId) (role : MemberRole) (now : Timestamp)
  | RqSubscribe (conv_id : ConversationId) (user_id : UserId) (now : Timestamp).

Definition add_insert conv_id new_user_id role now : prog Database unit :=
  call! 3 | _ := ConversationRepository.AddMember conv_id new_user_id role now in preturn tt.

Definition add_count conv_id new_user_id role now : prog Database unit :=
  call! 2 | count := gets (ConversationRepository.GetMemberCount conv_id) in
  if max_group_size <=? Z.of_nat count then pthrow kQuotaExceeded "Group is full"
  else add_insert conv_id new_user_id role now.

Definition add_check conv conv_id actor_user_id new_user_id role now : prog Database unit :=
  call! 1 | can := gets (ActorCanManageMembers conv actor_user_id) in
  if negb can then pthrow kForbidden "Insufficient permissions"
  else add_count conv_id new_user_id role now.

(** [ConversationService::AddMember], one call at a time. *)
Definition AddMember_prog conv_id actor_user_id new_user_id role now : prog Database unit :=
  call! 0 | conv := gets (ConversationRepository.FindById conv_id) in
  match conv with
  | None => pthrow kNotFound "Conversation not found"
  | Some conv =>
      match c_type conv with
      | kDm => pthrow kInvalidArgument "Cannot add members to a DM"
      | kChannel => pthrow kInvalidArgument "Use channel subscribe for channel membership"
      | kGroup => add_check conv conv_id actor_user_id new_user_id role now
      end
  end.

Definition subscribe_insert conv_id user_id now : prog Database unit :=
  call! 2 | _ := ConversationRepository.Subscribe conv_id user_id now in preturn tt.

Definition subscribe_count conv_id user_id now : prog Database unit :=
  call! 1 | subs := gets (ConversationRepository.GetSubscribers conv_id) in
  if bool_decide (user_id ∈ subs) then subscribe_insert conv_id user_id now
  else if max_channel_size <=? Z.of_nat (length subs) then
    pthrow kQuotaExceeded "Channel subscriber limit reached"
  else subscribe_insert conv_id user_id now.

(** [ConversationService::SubscribeChannel], one call at a time. *)
Definition SubscribeChannel_prog conv_id user_id now : prog Database unit :=
  call! 0 | conv := gets (ConversationRepository.FindById conv_id) in
  match conv with
  | None => pthrow kNotFound "Conversation not found"
  | Some conv =>
      if negb (bool_decide (c_type conv = kChannel)) then
        pthrow kInvalidArgument "Not a channel conversation"
      else subscribe_count conv_id user_id now
  end.

Definition roster_prog (q : roster_request) : prog Database unit :=
  match q with
  | RqAdd conv actor u role now => AddMember_prog conv actor u role now
  | RqSubscribe conv u now => SubscribeChannel_prog conv u now
  end.

Lemma bind_unit_eta {T} (c : M T unit) s : bind c (λ _, mok tt) s = c s.
Proof. unfold bind. by destruct (c s) as [[[]|e] s1]. Qed.

Lemma run_AddMember_prog conv actor u role now db :
  run_prog (AddMember_prog conv actor u role now) db =
  AddMember max_group_size conv actor u role now db.
Proof.
  unfold AddMember_prog, AddMember. rewrite run_call_then. unfold bind at 1 2, gets at 1 2.
  destruct (ConversationRepository.FindById conv db) as [c|]; [|done]. destruct (c_type c); [done| |done].
  unfold add_check. rewrite run_call_then. unfold bind at 1 2, gets at 1 2. destruct (negb _); [done|].
  unfold add_count. rewrite run_call_then. unfold bind at 1 2, gets at 1 2. destruct (_ <=? _); [done|].
  unfold add_insert. rewrite run_call_then. apply bind_unit_eta.
Qed.

Lemma run_SubscribeChannel_prog conv u now db :
  run_prog (SubscribeChannel_prog conv u now) db = SubscribeChannel max_channel_size conv u now db.
Proof.
  assert (Hi : run_prog (subscribe_insert conv u now) db = ConversationRepository.Subscribe conv u now db)
    by (unfold subscribe_insert; rewrite run_call_then; apply bind_unit_eta).
  unfold SubscribeChannel_prog, SubscribeChannel. rewrite run_call_then. unfold bind at 1 2, gets at 1 2.
  destruct (ConversationRepository.FindById conv db) as [c|]; [|done]. destruct (negb _); [done|].
  unfold subscribe_count. rewrite run_call_then. unfold bind at 1 2, gets at 1 2.
  destruct (bool_decide _); [done|]. by destruct (_ <=? _).
Qed.

(** The calls that shrink a roster. *)
Inductive departure :=
  | Departs (conv_id : ConversationId) (user_id : UserId) (now : Timestamp)
  | Unsubscribes (conv_id : ConversationId) (user_id : UserId) (now : Timestamp).

Definition depart (e : departure) (db : Database) : Database :=
  match e with
  | Departs conv u now => (ConversationRepository.RemoveMember conv u now db).2
  | Unsubscribes conv u now => (ConversationRepository.Unsubscribe conv u now db).2
  end.

(** The members of a group, the subscribers of a channel. *)
Inductive roster_kind := Members | Subscribers.

Definition on_roster (k : roster_kind) (conv : ConversationId) (db : Database) (u : UserId) : Prop :=
  match k with
  | Members => ∃ r, has_role db conv u r
  | Subscribers => is_subscriber db conv u
  end.

Definition roster_size (k : roster_kind) (conv : ConversationId) (db : Database) : nat :=
  match k with
  | Members => ConversationRepository.GetMemberCount conv db
  | Subscribers => length (ConversationRepository.GetSubscribers conv db)
  end.

Definition roster_limit (k : roster_kind) : Z :=
  match k with Members => max_group_size | Subscribers => max_channel_size end.

(** The user a request that has passed its check is about to insert. *)
Definition pending (k : roster_kind) (conv : ConversationId) (c : roster_request * prog Database unit)
    : option UserId :=
  match k, c with
  | Members, (RqAdd conv' _ u _ _, Call 3 _ _) => if decide (conv' = conv) then Some u else None
  | Subscribers, (RqSubscribe conv' u _, Call 2 _ _) => if decide (conv' = conv) then Some u else None
  | _, _ => None
  end.

(** The points a request passes through. *)
Inductive roster_at : roster_request -> prog Database unit -> Prop :=
  | at_start q : roster_at q (roster_prog q)
  | at_add_check c conv actor u role now :
      roster_at (RqAdd conv actor u role now) (add_check c conv actor u role now)
  | at_add_count conv actor u role now :
      roster_at (RqAdd conv actor u role now) (add_count conv u role now)
  | at_add_insert conv actor u role now :
      roster_at (RqAdd conv actor u role now) (add_insert conv u role now)
  | at_sub_count conv u now : roster_at (RqSubscribe conv u now) (subscribe_count conv u now)
  | at_sub_insert conv u now : roster_at (RqSubscribe conv u now) (subscribe_insert conv u now)
  | at_answer q r : roster_at q (Return r).

Lemma roster_spec k conv db :
  db_wf db -> ∃ us, NoDup us ∧ roster_size k conv db = length us ∧ ∀ u, u ∈ us <-> on_roster k conv db u.
Proof.
  intros Hwf. destruct k; simpl; [by apply member_users_spec|].
  exists (ConversationRepository.GetSubscribers conv db). split; [by apply NoDup_GetSubscribers|].
  split; [done|]. intros u. apply ConversationRepository.elem_of_GetSubscribers.
Qed.

(** What a call does: it reads, and then may have passed the check with room left or
    for a user who is on the roster; or it inserts the user it was pending for. *)
Definition call_effect (k : roster_kind) (conv : ConversationId) (q : roster_request)
    (p : prog Database unit) (db : Database) (p' : prog Database unit) (db' : Database) : Prop :=
  (db' = db ∧ pending k conv (q, p) = None ∧
   ∀ u, pending k conv (q, p') = Some u ->
     on_roster k conv db u ∨ Z.of_nat (roster_size k conv db) < roster_limit k) ∨
  (pending k conv (q, p') = None ∧
   ∀ v, on_roster k conv db' v -> on_roster k conv db v ∨ pending k conv (q, p) = Some v).

Lemma pending_early k conv q pc B (c : M Database B) f :
  (pc < 2)%nat -> pending k conv (q, Call pc c f) = None.
Proof. intros Hpc. destruct k, q; (destruct pc as [|[|[|[|pc]]]]; [done..|lia|lia|lia]). Qed.

Lemma pending_return k conv q r : pending k conv (q, Return r) = None.
Proof. by destruct k, q. Qed.

Lemma on_roster_le k conv cv ms ss db db' v :
  roster_le cv ms ss db db' -> on_roster k conv db' v ->
  on_roster k conv db v ∨ (cv = conv ∧ v ∈ match k with Members => ms | Subscribers => ss end).
Proof.
  intros [_ Hm Hs _ _]. destruct k; simpl.
  - intros [r Hr]. apply Hm in Hr as [Hr|[-> Hv]]; [by left|by right].
  - intros [Hr|[-> Hv]]%Hs; [by left|by right].
Qed.

(** The effect of the two insertions. *)
Lemma insert_effect q p p' db db' k conv cv ms ss :
  roster_le cv ms ss db db' -> pending k conv (q, p') = None ->
  (∀ v, cv = conv -> v ∈ match k with Members => ms | Subscribers => ss end ->
     pending k conv (q, p) = Some v) ->
  call_effect k conv q p db p' db'.
Proof.
  intros Hle Hp Hv. right. split; [done|]. intros v Hr.
  destruct (on_roster_le k conv cv ms ss db db' v Hle Hr) as [?|[? ?]]; [by left|right; auto].
Qed.

(** Splits [step_prog p s = Some (p', s')] for a program that starts with a call. *)
Ltac call_step H :=
  unfold roster_prog, AddMember_prog, SubscribeChannel_prog, add_check, add_count, add_insert,
    subscribe_count, subscribe_insert in H;
  rewrite step_call_then in H; injection H as <- <-; unfold gets; simpl.

(** A read whose continuation has not passed the check. *)
Lemma read_effect k conv q p p' db :
  pending k conv (q, p) = None -> pending k conv (q, p') = None -> call_effect k conv q p db p' db.
Proof. intros Hp Hp'. left. split; [done|]. split; [done|]. intros u. by rewrite Hp'. Qed.

Lemma add_call conv actor u role now p db p' db' k cv :
  db_wf db -> roster_at (RqAdd conv actor u role now) p -> step_prog p db = Some (p', db') ->
  roster_at (RqAdd conv actor u role now) p' ∧ db_wf db' ∧
  call_effect k cv (RqAdd conv actor u role now) p db p' db'.
Proof.
  intros Hwf Hat Hst.
  inversion Hat as [q E1 E2|c ? ? ? ? ? E1 E2|? ? ? ? ? E1 E2|? ? ? ? ? E1 E2| | |? r E1 E2]; subst;
    [call_step Hst..|done].
  - destruct (ConversationRepository.FindById conv db) as [c|]; [destruct (c_type c)|];
      (split; [constructor|]); (split; [done|]); by apply read_effect; destruct k.
  - destruct (negb _); (split; [constructor|]); (split; [done|]); by apply read_effect; destruct k.
  - destruct (Z.leb_spec max_group_size (Z.of_nat (ConversationRepository.GetMemberCount conv db))).
    + split; [constructor|]. split; [done|]. by apply read_effect; destruct k.
    + split; [constructor|]. split; [done|]. left. split; [done|]. split; [by destruct k|].
      intros v. destruct k; simpl; [|done]. case_decide as Hc; [subst|done]. by right.
  - pose proof (ConversationRepository.AddMember_wf conv u role now db Hwf) as Hwf'.
    pose proof (AddMember_le conv u role now [u] [] db ltac:(left)) as Hle.
    split; [destruct (_.1); constructor|]. split; [done|].
    eapply insert_effect; [exact Hle| |].
    + destruct (_.1) as [[]|]; by destruct k.
    + intros v -> Hv. destruct k; [|by apply not_elem_of_nil in Hv]. apply list_elem_of_singleton in Hv as ->.
      simpl. by rewrite decide_True.
Qed.

Lemma subscribe_call conv u now p db p' db' k cv :
  db_wf db -> roster_at (RqSubscribe conv u now) p -> step_prog p db = Some (p', db') ->
  roster_at (RqSubscribe conv u now) p' ∧ db_wf db' ∧
  call_effect k cv (RqSubscribe conv u now) p db p' db'.
Proof.
  intros Hwf Hat Hst.
  inversion Hat as [q E1 E2| | | |? ? ? E1 E2|? ? ? E1 E2|? r E1 E2]; subst; [call_step Hst..|done].
  - destruct (ConversationRepository.FindById conv db) as [c|]; [destruct (negb _)|];
      (split; [constructor|]); (split; [done|]); by apply read_effect; destruct k.
  - destruct (bool_decide_reflect (u ∈ ConversationRepository.GetSubscribers conv db)) as [Hu|Hu];
      [|destruct (Z.leb_spec max_channel_size (Z.of_nat (length (ConversationRepository.GetSubscribers conv db))))].
    + split; [constructor|]. split; [done|]. left. split; [done|]. split; [by destruct k|].
      intros v. destruct k; simpl; [done|]. case_decide as Hc; [subst|done]. intros [= <-]. left.
      by apply ConversationRepository.elem_of_GetSubscribers.
    + split; [constructor|]. split; [done|]. by apply read_effect; destruct k.
    + split; [constructor|]. split; [done|]. left. split; [done|]. split; [by destruct k|].
      intros v. destruct k; simpl; [done|]. case_decide as Hc; [subst|done]. by right.
  - pose proof (ConversationRepository.Subscribe_wf conv u now db Hwf) as Hwf'.
    pose proof (Subscribe_le conv u now [] [u] db ltac:(left)) as Hle.
    split; [destruct (_.1); constructor|]. split; [done|].
    eapply insert_effect; [exact Hle| |].
    + destruct (_.1) as [[]|]; by destruct k.
    + intros v -> Hv. destruct k; [by apply not_elem_of_nil in Hv|]. apply list_elem_of_singleton in Hv as ->.
      simpl. by rewrite decide_True.
Qed.

Lemma roster_call q p db p' db' k conv :
  db_wf db -> roster_at q p -> step_prog p db = Some (p', db') ->
  roster_at q p' ∧ db_wf db' ∧ call_effect k conv q p db p' db'.
Proof. destruct q; [apply add_call|apply subscribe_call]. Qed.

Lemma depart_roster k conv e db :
  db_wf db -> db_wf (depart e db) ∧ ∀ v, on_roster k conv (depart e db) v -> on_roster k conv db v.
Proof.
  intros Hwf. destruct e as [cv u now|cv u now]; simpl.
  - split; [by apply ConversationRepository.RemoveMember_wf|]. intros v Hv.
    destruct (on_roster_le k conv cv [] [] db _ v (RemoveMember_le cv u now [] [] db) Hv) as [?|[_ Hin]]; [done|].
    destruct k; by apply not_elem_of_nil in Hin.
  - split; [by apply ConversationRepository.Unsubscribe_wf|]. intros v Hv.
    destruct (on_roster_le k conv cv [] [] db _ v (Unsubscribe_le cv u now [] [] db) Hv) as [?|[_ Hin]]; [done|].
    destruct k; by apply not_elem_of_nil in Hin.
Qed.
Lemma size_list_to_set_le (l : list UserId) : (size (list_to_set l : gset UserId) <= length l)%nat.
Proof.
  induction l as [|x l IH]; [done|]. cbn [list_to_set length]. rewrite size_union_alt, size_singleton.
  assert (size ((list_to_set l : gset UserId) ∖ {[ x ]}) <= size (list_to_set l : gset UserId))%nat
    by (apply subseteq_size; set_solver). lia.
Qed.

Lemma pending_busy k conv l : (length (omap (pending k conv) l) <= in_progress l)%nat.
Proof.
  induction l as [|[q p] l IH]; [done|]. unfold in_progress in *. destruct p as [r|pc B c f].
  - rewrite filter_cons_False by done. cbn [omap list_omap]. by rewrite pending_return.
  - rewrite filter_cons_True by done. cbn [omap list_omap length].
    destruct (pending k conv _); cbn [length]; [by apply le_n_S|by apply le_S].
Qed.

(** The invariant: a set of at most [bound] users covers the roster and the users
    about to be inserted. *)
Definition roster_inv (k : roster_kind) (conv : ConversationId) (bound : Z)
    (l : list (roster_request * prog Database unit)) (db : Database) : Prop :=
  db_wf db ∧ (∀ q p, (q, p) ∈ l -> roster_at q p) ∧
  ∃ X : gset UserId, Z.of_nat (size X) <= bound ∧ (∀ u, on_roster k conv db u -> u ∈ X) ∧
    ∀ c u, c ∈ l -> pending k conv c = Some u -> u ∈ X.

#[local] Instance roster_inv_proper k conv bound :
  Proper ((≡ₚ) ==> (=) ==> iff) (roster_inv k conv bound).
Proof.
  intros l1 l2 Hl db ? <-. unfold roster_inv. by setoid_rewrite (elem_of_Permutation_proper _ l1 l2 Hl).
Qed.

(** A request that has just passed its check with room left. *)
Lemma roster_room k conv n db l :
  db_wf db -> Z.of_nat (roster_size k conv db) < roster_limit k -> (in_progress l <= n)%nat ->
  ∃ X : gset UserId, Z.of_nat (size X) <= roster_limit k + Z.of_nat n - 1 ∧
    (∀ u, on_roster k conv db u -> u ∈ X) ∧ ∀ c u, c ∈ l -> pending k conv c = Some u -> u ∈ X.
Proof.
  intros Hwf Hroom Hb. destruct (roster_spec k conv db Hwf) as (us & Hnd & Hlen & Hus).
  exists (list_to_set (us ++ omap (pending k conv) l)). split_and!.
  - pose proof (size_list_to_set_le (us ++ omap (pending k conv) l)) as Hs.
    rewrite length_app in Hs. pose proof (pending_busy k conv l). lia.
  - intros u Hu%Hus. apply elem_of_list_to_set, elem_of_app. by left.
  - intros c u Hc Hp. apply elem_of_list_to_set, elem_of_app. right. apply list_elem_of_omap. by exists c.
Qed.

Lemma roster_step_inv k conv n bound l db l' db' :
  roster_limit k + Z.of_nat n - 1 <= bound ->
  cells_step roster_prog depart l db l' db' -> (in_progress l' <= n)%nat ->
  roster_inv k conv bound l db -> roster_inv k conv bound l' db'.
Proof.
  intros Hbound Hst Hb (Hwf & Hat & X & HX & Hon & Hpend).
  destruct Hst as [q l db|q p p' l db db' Hp|e l db|l db].
  - split; [done|]. split.
    + intros q' p' [[= -> ->]|Hin]%elem_of_cons; [constructor|by apply Hat].
    + exists X. split; [done|]. split; [done|]. intros c u [->|Hin]%elem_of_cons Hu; [|by eapply Hpend].
      destruct k, q; done.
  - destruct (roster_call q p db p' db' k conv Hwf ltac:(apply Hat; left) Hp) as (Hat' & Hwf' & Heff).
    split; [done|]. split.
    { intros q1 p1 [[= -> ->]|Hin]%elem_of_cons; [done|]. apply Hat. by right. }
    assert (Hl : ∀ c u, c ∈ l -> pending k conv c = Some u -> u ∈ X) by (intros c u Hc; apply Hpend; by right).
    destruct Heff as [(-> & _ & Hnew)|[Hnone Hins]].
    + destruct (pending k conv (q, p')) as [u|] eqn:Ep; [destruct (Hnew u eq_refl) as [Hu|Hroom]|].
      * exists X. split; [done|]. split; [done|]. intros c v [->|Hc]%elem_of_cons Hv; [|by eapply Hl].
        apply Hon. congruence.
      * destruct (roster_room k conv n db ((q, p') :: l) Hwf Hroom Hb) as (Y & HY & ? & ?).
        exists Y. split; [lia|done].
      * exists X. split; [done|]. split; [done|]. intros c v [->|Hc]%elem_of_cons Hv; [congruence|by eapply Hl].
    + exists X. split; [done|]. split.
      * intros v [Hv|Hv]%Hins; [by apply Hon|]. eapply Hpend; [left|exact Hv].
      * intros c v [->|Hc]%elem_of_cons Hv; [congruence|by eapply Hl].
  - destruct (depart_roster k conv e db Hwf) as [Hwf' Hd]. split; [done|]. split; [done|].
    exists X. split; [done|]. split; [|done]. intros u Hu. by apply Hon, Hd.
  - split; [done|]. split; [done|]. by exists X.
Qed.

(** C12: The size of one group or channel whose creation has finished, while
    [AddMember] and [SubscribeChannel] requests for it and for other conversations run on
    [workers] workers with their repository calls interleaved in any order, and members
    and subscribers leave in between: it never exceeds the larger of its size at
    the start and the limit plus the number of workers less one, so a roster that
    starts within its limit exceeds it by less than the number of workers (each of
    them may have passed the check before the others insert).  The insertions a
    [CreateGroup] or [CreateChannel] request makes into its own, still unfinished
    conversation are not part of the pool. *)
Theorem concurrent_roster_bound k conv workers evs db :
  db_wf db ->
  Z.of_nat (roster_size k conv (shared (pool_run roster_prog depart evs (idle_pool workers db)))) <=
  Z.max (Z.of_nat (roster_size k conv db)) (roster_limit k + Z.of_nat workers - 1).
Proof.
  intros Hwf. set (bound := Z.max _ _).
  assert (Hinv : roster_inv k conv bound (cells (pool_run roster_prog depart evs (idle_pool workers db)))
                   (shared (pool_run roster_prog depart evs (idle_pool workers db)))).
  { apply pool_run_ind; [apply _| |].
    - intros l s l' s' Hst Hb. eapply (roster_step_inv k conv workers); [lia|done|done].
    - split; [done|]. split; [by intros q p ?%not_elem_of_nil|].
      destruct (roster_spec k conv db Hwf) as (us & Hnd & Hlen & Hus). exists (list_to_set us).
      split; [rewrite size_list_to_set by done; lia|]. split; [|by intros c u ?%not_elem_of_nil].
      intros u Hu%Hus. by apply elem_of_list_to_set. }
  destruct Hinv as (Hwf' & _ & X & HX & Hon & _).
  destruct (roster_spec k conv _ Hwf') as (us & Hnd & -> & Hus).
  enough (length us <= size X)%nat by lia. rewrite <- (size_list_to_set (C := gset UserId) us Hnd).
  apply subseteq_size. intros u Hu%elem_of_list_to_set%Hus. by apply Hon.
Qed.
End Roster.
End Roster.

(** ** Instances *)

Section witnesses.
#[local] Existing Instance rowid_engine.
Import ConversationService.

Definition sample_refresh (now n : Z) : RefreshCall :=
  mkRefreshCall (refresh_token (sample_tokens 1)) "d1" now (sample_draws n).

(** Two requests with the same token, both past the lookup before either revokes. *)
Definition refresh_race : list (pool_event RefreshCall session_call) :=
  [Begin 0 (sample_refresh 1001 2); Begin 1 (sample_refresh 1001 3); Step 0; Step 1;
   Step 1; Step 0; Step 1; Step 0; Step 1].

(** One wins; the other is refused although it found the session live. *)
Example refresh_race_answers :
  answered (pool_run (RefreshTokens_prog sample_tm) session_env refresh_race (idle_pool 2 sample_session_db)) =
  [(sample_refresh 1001 3, Ok (mkRefreshResult (sample_tokens 3) "u1"));
   (sample_refresh 1001 2, Err (mkError kNotFound "Session not found or already revoked"))].
Proof. vm_compute. reflexivity. Qed.

Lemma concurrent_refresh_single_use_witness :
  NoDup (accepted (answered (pool_run (RefreshTokens_prog sample_tm) session_env refresh_race
    (idle_pool 2 sample_session_db)))).
Proof. apply (concurrent_refresh_single_use sample_tm). exact sample_session_inv. Defined.

(** A group of one, and two more accounts. *)
Definition sample_small_group : Database :=
  set_conversation_members [mkMemberRecord "g1" "u1" kOwner 1000 None]
    (set_conversations [mkConversationRow "g1" kGroup "u1" 1000 "{}" 1]
      (set_users [sample_user "u1" "alice"; sample_user "u2" "Bob"; sample_user "u3" "carol"] sample_db)).

Lemma sample_small_group_wf : db_wf sample_small_group.
Proof. apply db_wf_eval. vm_compute. reflexivity. Qed.

(** Two requests for the last place, both past the count before either inserts. *)
Definition add_race : list (pool_event Roster.roster_request Roster.departure) :=
  [Begin 0 (Roster.RqAdd "g1" "u1" "u2" kMember 2000); Begin 1 (Roster.RqAdd "g1" "u1" "u3" kMember 2000);
   Step 0; Step 1; Step 0; Step 1; Step 0; Step 1; Step 0; Step 1; Step 0; Step 1].

(** The bound is attained: with two workers a group of at most two gets three
    members, and both requests are answered with success. *)
Example group_limit_race :
  let P := pool_run (Roster.roster_prog 2 2) Roster.depart add_race (idle_pool 2 sample_small_group) in
  snd <$> answered P = [Ok tt; Ok tt] ∧ Roster.roster_size Roster.Members "g1" (shared P) = 3%nat.
Proof. split; vm_compute; reflexivity. Qed.

(** While a group is still being created its limit does not bound it in this way: the
    conversation is visible after the first call of [CreateGroup], and the creator's
    own requests to add two more members pass their check before the remaining
    members of the creation are inserted, which checks nothing.  Limit three, five members. *)
Example creation_race :
  let db := set_users [sample_user "u1" "a"; sample_user "u2" "b"; sample_user "u3" "c"; sample_user "u4" "d";
                       sample_user "u5" "e"] sample_db in
  let calls :=
    ConversationRepository.CreateConversation (mkConversationRow "g1" kGroup "u1" 1000 "" 0) ;;!
    ConversationRepository.AddMember "g1" "u1" kOwner 1000 ;;!
    AddMember 3 "g1" "u1" "u4" kMember 1001 ;;!
    AddMember 3 "g1" "u1" "u5" kMember 1001 ;;!
    ConversationRepository.AddMember "g1" "u2" kMember 1000 ;;!
    ConversationRepository.AddMember "g1" "u3" kMember 1000 in
  (calls db).1 = Ok tt ∧ ConversationRepository.GetMemberCount "g1" (calls db).2 = 5%nat.
Proof. split; vm_compute; reflexivity. Qed.

Lemma concurrent_roster_bound_witness :
  Z.of_nat (Roster.roster_size Roster.Members "g1" (shared (pool_run (Roster.roster_prog 2 2) Roster.depart
    add_race (idle_pool 2 sample_small_group)))) <=
  Z.max (Z.of_nat (Roster.roster_size Roster.Members "g1" sample_small_group)) (2 + 2 - 1).
Proof. apply (Roster.concurrent_roster_bound 2 2 Roster.Members "g1" 2). exact sample_small_group_wf. Defined.
End witnesses.
