(* ===== verification/ConcurrentSend.v ===== *)
(** * Sending under concurrency (lib/vox_relay/relay_service.cpp)

    [RelayService::SendEnvelope] as a program of atomic calls: the reads of the
    checks, the insertion of the envelope and, for each device, the call on its queue
    (which holds the queue's mutex) and the fallback row.  [CheckDuplicate] and
    [StoreEnvelope] are separate calls, so the check alone does not keep two requests
    with one envelope id apart; the primary key does. *)

From S2P Require Import Prelude Types Sql Database Samples Paging Uuid Devices Conversations Envelopes Delivery Relay ConversationService Interleave.

Module SendRace.
Import DeliveryManager RelayService.
Section SendRace.
Context `{SqlEngine} {Hook : Type}.
Context (enqueue_hook_ : option (string -> QueuedEnvelope -> Hook -> Hook)).
Context (max_queue_per_device_ message_retention_seconds : Z).
Notation W := (RelayWorld Hook).

Record send_request := mkRequest { rq_message : SendMessageRequest; rq_now : Timestamp; rq_draw : Z * Z }.

Definition rq_id (q : send_request) : EnvelopeId := request_envelope_id (rq_message q) (rq_draw q).

(** The role check of a channel. *)
Definition publisher_prog (request : SendMessageRequest) (user_id : UserId) (conv : ConversationRow)
    : prog W unit :=
  if decide (c_type conv = kChannel) then
    call! 3 | subscribed := gets (λ w, ConversationRepository.IsUserInConversation
      (sm_conversation_id request) user_id (rw_db w)) in
    if negb subscribed then pthrow kForbidden "Not subscribed to channel" else
    let admins_only := negb (string_find kPostPolicyEveryone (c_policy_blob conv)) in
    if admins_only then
      call! 4 | member := gets (λ w, ConversationRepository.GetMember
        (sm_conversation_id request) user_id (rw_db w)) in
      match member with
      | None => pthrow kForbidden "Only admins/owners can publish to this channel"
      | Some m =>
          if bool_decide (m_role m ≠ kOwner) && bool_decide (m_role m ≠ kAdmin)
          then pthrow kForbidden "Only admins/owners can publish to this channel"
          else preturn tt
      end
    else preturn tt
  else preturn tt.

Definition check_post_prog (request : SendMessageRequest) (envelope_id : EnvelopeId)
    : prog W ConversationRow :=
  if sm_ciphertext request =s? "" then pthrow kInvalidArgument "Ciphertext is required" else
  call! 0 | sender_device := gets (λ w, FindByUserAndDevice (sm_sender_user_id request)
                                          (sm_sender_device_id request) (rw_db w)) in
  match sender_device with
  | None => pthrow kUnauthorized "Sender device not found"
  | Some sender_device =>
    call! 1 | conv := gets (λ w, ConversationRepository.FindById (sm_conversation_id request) (rw_db w)) in
    match conv with
    | None => pthrow kNotFound "Conversation not found"
    | Some conv =>
      call! 2 | is_member := gets (λ w, ConversationRepository.IsUserInConversation
        (sm_conversation_id request) (d_user_id sender_device) (rw_db w)) in
      if negb is_member then pthrow kForbidden "Sender is not a member of this conversation" else
      pbind (publisher_prog request (d_user_id sender_device) conv) (λ _,
      call! 5 | duplicate := gets (λ w, EnvelopeRepository.CheckDuplicate envelope_id (rw_db w)) in
      if duplicate then pthrow kDuplicate "Duplicate envelope" else preturn conv)
    end
  end.

Definition deliver_to_prog (queued : QueuedEnvelope) (now : Timestamp) (uid : UserId)
    (device_id : DeviceId) (delivered_count : nat) : prog W nat :=
  Call 9 (Enqueue enqueue_hook_ max_queue_per_device_ uid device_id queued) (λ enqueue_result,
  match enqueue_result with
  | Ok _ => preturn (S delivered_count)
  | Err _ =>
      Call 10 (on_relay_db (EnvelopeRepository.AddDeliveryState (q_envelope_id queued) uid device_id now))
        (λ _, preturn delivered_count)
  end).

Definition fan_out_prog (request : SendMessageRequest) (queued : QueuedEnvelope) (now : Timestamp)
    (users : list UserId) : prog W nat :=
  pfor_fold users (λ delivered_count uid,
    call! 8 | user_devices := gets (λ w, GetDevicesForUser uid (rw_db w)) in
    pfor_fold user_devices (λ delivered_count dev,
      match d_revoked_at dev with
      | Some _ => preturn delivered_count
      | None =>
          if (d_user_id dev =s? sm_sender_user_id request) && (d_device_id dev =s? sm_sender_device_id request)
          then preturn delivered_count
          else deliver_to_prog queued now uid (d_device_id dev) delivered_count
      end) delivered_count) 0%nat.

(** From the reading of the recipients on. *)
Definition deliver_prog (q : send_request) (conv : ConversationRow) : prog W SendMessageResponse :=
  let request := rq_message q in
  call! 7 | targets := gets (λ w, target_users conv (sm_conversation_id request) (rw_db w)) in
  pbind (fan_out_prog request (make_queued request (rq_id q) (rq_now q)) (rq_now q) targets) (λ delivered_count,
  preturn (mkSendMessageResponse (rq_id q) (rq_now q) delivered_count)).

Definition store_prog (q : send_request) (conv : ConversationRow) : prog W SendMessageResponse :=
  call! 6 | _ := on_relay_db (EnvelopeRepository.StoreEnvelope
    (make_envelope message_retention_seconds (rq_message q) (rq_id q) (rq_now q))) in
  deliver_prog q conv.

(** [RelayService::SendEnvelope], one call at a time. *)
Definition SendEnvelope_prog (q : send_request) : prog W SendMessageResponse :=
  pbind (check_post_prog (rq_message q) (rq_id q)) (store_prog q).

(** ** Alone, the program is the sequential operation *)

Lemma run_check_post_prog request eid w :
  run_prog (check_post_prog request eid) w = check_post request eid w.
Proof.
  unfold check_post_prog, check_post. destruct (sm_ciphertext request =s? ""); [done|].
  rewrite run_read, bind_gets. destruct (FindByUserAndDevice _ _ _) as [dev|]; [|done].
  rewrite run_read, bind_gets. destruct (ConversationRepository.FindById _ _) as [c|]; [|done].
  rewrite run_read, bind_gets. destruct (negb _); [done|].
  rewrite run_pbind. apply bind_ext; [|intros _ w1; rewrite run_read, bind_gets;
    by destruct (EnvelopeRepository.CheckDuplicate _ _)].
  unfold publisher_prog. case_decide; [|done].
  rewrite run_read, bind_gets. destruct (negb _); [done|].
  destruct (string_find _ _); [done|]. cbn [negb]. rewrite run_read, bind_gets.
  destruct (ConversationRepository.GetMember _ _ _) as [m|]; [|done]. by destruct (_ && _).
Qed.

Lemma run_deliver_to_prog queued now u d n w :
  run_prog (deliver_to_prog queued now u d n) w =
  deliver_to enqueue_hook_ max_queue_per_device_ queued now u d n w.
Proof.
  unfold deliver_to, bind, attempt. simpl.
  destruct (Enqueue _ _ _ _ _ w) as [[a|e] w1]; [done|]. simpl. by destruct (on_relay_db _ w1).
Qed.

Lemma run_fan_out_prog request queued now users w :
  run_prog (fan_out_prog request queued now users) w =
  fan_out enqueue_hook_ max_queue_per_device_ request queued now users w.
Proof.
  apply run_pfor_fold. intros n uid w1. rewrite run_call_then. unfold bind, gets.
  apply run_pfor_fold. intros m dev w2. destruct (d_revoked_at dev); [done|].
  destruct (_ && _); [done|]. apply run_deliver_to_prog.
Qed.

Lemma run_SendEnvelope_prog q w :
  run_prog (SendEnvelope_prog q) w =
  SendEnvelope enqueue_hook_ max_queue_per_device_ message_retention_seconds
    (rq_message q) (rq_now q) (rq_draw q) w.
Proof.
  unfold SendEnvelope_prog, SendEnvelope. fold (rq_id q). rewrite run_pbind. unfold bind at 1 2.
  rewrite run_check_post_prog. destruct (check_post _ _ w) as [[c|e] w1]; [|done].
  unfold store_prog. rewrite run_call_then. unfold bind at 1 2.
  destruct (on_relay_db _ w1) as [[u|e] w2]; [|done].
  unfold deliver_prog. rewrite run_read, bind_gets.
  rewrite run_pbind. unfold bind. by rewrite run_fan_out_prog.
Qed.

(** ** What the calls do to the stored envelopes *)

Definition is_stored (id : EnvelopeId) (w : W) : Prop :=
  id ∈ e_envelope_id <$> encrypted_envelopes (rw_db w).

Definition send_rely (w w' : W) : Prop := ∀ id, is_stored id w -> is_stored id w'.

(** The calls before the insertion read; the later ones delete no envelope. *)
Definition a_read (B : Type) (pc : nat) (c : M W B) : Prop := (pc < 6)%nat ∧ ∀ w, (c w).2 = w.
Definition a_delivery (B : Type) (pc : nat) (c : M W B) : Prop :=
  (7 <= pc)%nat ∧ ∀ w, send_rely w (c w).2.

Lemma check_post_reads request eid : prog_all a_read (check_post_prog request eid).
Proof.
  assert (Hread : ∀ B pc (f : W -> B), (pc < 6)%nat -> a_read B pc (gets f)) by done.
  unfold check_post_prog, publisher_prog. repeat (case_match; try constructor);
    repeat (apply all_call_then; [apply Hread; lia|intros ?] || apply all_pbind || intros ? ||
            case_match || constructor).
Qed.

Lemma Enqueue_keeps u d env w :
  rw_db (Enqueue enqueue_hook_ max_queue_per_device_ u d env w).2 = rw_db w.
Proof. by destruct (Enqueue_run enqueue_hook_ max_queue_per_device_ u d env w) as (w1 & -> & Hdb & _). Qed.

Lemma AddDeliveryState_keeps eid u d now db :
  encrypted_envelopes (EnvelopeRepository.AddDeliveryState eid u d now db).2 = encrypted_envelopes db.
Proof.
  unfold EnvelopeRepository.AddDeliveryState, exec, insert_delivery_state.
  repeat (case_match; simplify_eq/=); done.
Qed.

Lemma deliver_quiet q conv : prog_all a_delivery (deliver_prog q conv).
Proof.
  assert (Hread : ∀ B pc (f : W -> B), (7 <= pc)%nat -> a_delivery B pc (gets f))
    by (intros B pc f Hpc; split; [done|by intros w id]).
  unfold deliver_prog, fan_out_prog. apply all_call_then; [apply Hread; lia|]. intros targets.
  apply all_pbind; [|constructor]. apply all_pfor_fold. intros n uid.
  apply all_call_then; [apply Hread; lia|]. intros devs. apply all_pfor_fold. intros m dev.
  destruct (d_revoked_at dev); [constructor|]. destruct (_ && _); [constructor|].
  apply all_call.
  - split; [lia|]. intros w id. unfold is_stored. by rewrite Enqueue_keeps.
  - intros [[]|e]; [constructor|]. apply all_call; [|constructor]. split; [lia|]. intros w id.
    unfold is_stored, on_relay_db, zoom. pose proof (AddDeliveryState_keeps
      (q_envelope_id (make_queued (rq_message q) (rq_id q) (rq_now q))) uid (d_device_id dev) (rq_now q) (rw_db w)) as E.
    destruct (EnvelopeRepository.AddDeliveryState _ _ _ _ _). simpl in *. by rewrite E.
Qed.

(** A successful insertion met no envelope of the id, and leaves one. *)
Lemma store_call q w :
  let env := make_envelope message_retention_seconds (rq_message q) (rq_id q) (rq_now q) in
  let res := on_relay_db (EnvelopeRepository.StoreEnvelope env) w in
  send_rely w res.2 ∧ (res.1 = Ok tt -> ¬ is_stored (rq_id q) w ∧ is_stored (rq_id q) res.2).
Proof.
  intros env res. subst res. unfold on_relay_db, zoom, send_rely, is_stored.
  destruct (EnvelopeRepository.StoreEnvelope env (rw_db w)) as [r db] eqn:E.
  unfold EnvelopeRepository.StoreEnvelope, exec, insert_encrypted_envelopes in E.
  destruct (sql_exists _ _) eqn:Ex; [by injection E as <- <-|].
  destruct (negb _); [by injection E as <- <-|]. injection E as <- <-. simpl. split.
  - intros id Hid. unfold sql_insert. rewrite fmap_app, elem_of_app. by left.
  - intros _. split.
    + intros (e & He & Hin)%list_elem_of_fmap. by apply (proj1 (sql_exists_false _ _) Ex e).
    + unfold sql_insert. rewrite fmap_app, elem_of_app. right. by apply list_elem_of_singleton.
Qed.

(** ** The race for an envelope id *)

(** A request that has not inserted its envelope. *)
Inductive before_store (q : send_request) : prog W SendMessageResponse -> Prop :=
  | bs_err e : before_store q (Return (Err e))
  | bs_read pc B (c : M W B) k : a_read B pc c -> (∀ r, before_store q (k r)) -> before_store q (Call pc c k)
  | bs_store conv : before_store q (store_prog q conv).

Lemma before_pbind q p : prog_all a_read p -> before_store q (pbind p (store_prog q)).
Proof.
  intros Hp. induction Hp as [[a|e]|pc B c f Hc _ IH]; [apply bs_store|apply bs_err|]. by apply bs_read.
Qed.

Definition send_at (q : send_request) (p : prog W SendMessageResponse) (w : W) : Prop :=
  before_store q p ∨ (prog_all a_delivery p ∧ is_stored (rq_id q) w).

(** A request that has inserted its envelope. *)
Definition send_won (p : prog W SendMessageResponse) : bool :=
  match p with
  | Return (Ok _) => true
  | Return (Err _) => false
  | Call pc _ _ => Nat.leb 7 pc
  end.

Lemma before_not_won q p : before_store q p -> send_won p = false.
Proof. intros [e|pc B c k [Hpc _] _|conv]; [done| |done]. cbn [send_won]. apply Nat.leb_gt. lia. Qed.

Lemma send_call q p w p' w' :
  send_at q p w -> step_prog p w = Some (p', w') ->
  send_rely w w' ∧ send_at q p' w' ∧
  (send_won p = false -> send_won p' = true -> ¬ is_stored (rq_id q) w).
Proof.
  intros [Hb|[Hd Hs]] Hst.
  - destruct Hb as [e|pc B c k [Hpc Hread] Hk|conv]; [done|..].
    + simpl in Hst. specialize (Hread w). destruct (c w) as [r w1]. simpl in Hread. subst w1.
      injection Hst as <- <-. split; [by intros id|]. split; [left; apply Hk|].
      intros _. by rewrite (before_not_won q _ (Hk r)).
    + unfold store_prog in Hst. rewrite step_call_then in Hst. injection Hst as <- <-.
      destruct (store_call q w) as [Hr Hok]. split; [done|].
      destruct (on_relay_db _ w) as [[[]|e] w1]; simpl in *; [|split; [left; constructor|done]].
      destruct (Hok eq_refl) as [Hno Hin]. split; [|done]. right. split; [apply deliver_quiet|done].
  - destruct Hd as [r|pc B c k [Hpc Hc] Hk]; [done|]. simpl in Hst. specialize (Hc w).
    destruct (c w) as [r w1]. injection Hst as <- <-. split; [done|]. split.
    + right. split; [apply Hk|by apply Hc].
    + cbn [send_won]. intros Hl%Nat.leb_gt. lia.
Qed.

Section run.
(** The rest of the server; only the retention purge deletes envelopes. *)
Context {E : Type} (env : E -> W -> W) (Henv : ∀ e w, send_rely w (env e w)).

Lemma send_guarantees : guarantees SendEnvelope_prog env (λ _, True) send_rely send_at.
Proof.
  split.
  - by intros e w _.
  - intros q w _. left. apply before_pbind, check_post_reads.
  - intros q p w p' w' _ Hat Hst. by destruct (send_call q p w p' w' Hat Hst) as (? & ? & _).
  - intros q p w w' _ Hr [Hb|[Hd Hs]]; [by left|right]. split; [done|by apply Hr].
Qed.

Lemma send_exclusive : exclusive SendEnvelope_prog (λ _, True) send_at send_won rq_id is_stored.
Proof.
  split.
  - intros q. apply (before_not_won q), before_pbind, check_post_reads.
  - intros q p w _ [Hb|[_ Hs]] Hw; [|done]. by rewrite (before_not_won q p Hb) in Hw.
  - intros q p w p' w' _ Hat Hst. by apply (send_call q p w p' w').
Qed.

(** The ids of the requests that were answered with success. *)
Definition sent_ids (l : list (send_request * Result SendMessageResponse)) : list EnvelopeId :=
  omap (λ a, match a.2 with Ok _ => Some (rq_id a.1) | Err _ => None end) l.

Lemma sent_winners l :
  sent_ids l = omap (winner send_won rq_id) ((λ a, (a.1, Return a.2)) <$> l).
Proof.
  induction l as [|[q [res|e]] l IH]; [done|..]; cbn; unfold sent_ids in IH; cbn in IH; by rewrite IH.
Qed.

(** C8: Whatever the interleaving of the sends in progress, and of anything that does
    not delete envelopes: an envelope id is accepted at most once, and the
    envelope of every accepted request is stored. *)
Theorem concurrent_send_single_accept workers evs w :
  let P := pool_run SendEnvelope_prog env evs (idle_pool workers w) in
  NoDup (sent_ids (answered P)) ∧ ∀ id, id ∈ sent_ids (answered P) -> is_stored id (shared P).
Proof.
  intros P. split.
  - pose proof (pool_run_winners _ _ _ _ _ _ _ _ evs workers w send_guarantees send_exclusive I) as Hnd.
    unfold cells in Hnd. rewrite omap_app in Hnd. apply NoDup_app in Hnd as (_ & _ & Hnd).
    erewrite sent_winners; exact Hnd.
  - intros id ([q r] & Hin & Hid)%list_elem_of_omap. simpl in Hid. destruct r as [res|e]; [|done].
    injection Hid as <-.
    destruct (pool_run_ok _ _ _ _ _ evs workers w send_guarantees I) as [_ HL].
    destruct (HL q (Return (Ok res))) as [Hb|[_ Hs]]; [|inversion Hb|done].
    unfold cells. apply elem_of_app. right. apply list_elem_of_fmap. by exists (q, Ok res).
Qed.
End run.
End SendRace.

Section witnesses.
#[local] Existing Instance rowid_engine.

(** A device fetching its queue, and a member leaving a group. *)
Inductive other :=
  | Fetches (u : UserId) (d : DeviceId) (max_count : Z)
  | Leaves (conv : ConversationId) (actor target : UserId) (now : Timestamp).

Definition other_step (e : other) (w : RelayWorld (list (string * QueuedEnvelope)))
    : RelayWorld (list (string * QueuedEnvelope)) :=
  match e with
  | Fetches u d n => (Dequeue u d n w).2
  | Leaves conv actor target now => (ConversationService.RemoveMember conv actor target now w).2
  end.

Lemma other_step_rely e w : send_rely w (other_step e w).
Proof.
  intros id. unfold is_stored. destruct e as [u d n|conv actor target now]; simpl.
  - unfold Dequeue. by destruct (rw_queues w !! _).
  - destruct (ConversationService.RemoveMember_allowed 0 0 conv actor target now w) as [->|[_ [[t Ht] _ _]]]; [done|].
    rewrite Ht. simpl. rewrite ConversationRepository.RemoveMember_run. simpl. by case_match.
Qed.

Definition sample_rq (ciphertext : string) : send_request :=
  mkRequest (mkSendMessageRequest "u1" "d1" "g1" ciphertext "e9" 0 None) 2600 (0, 0).

(** Two sends with one id, both past the duplicate check before either stores. *)
Definition send_race : list (pool_event send_request other) :=
  [Begin 0 (sample_rq "hello"); Begin 1 (sample_rq "hi")] ++ concat (replicate 10 [Step 0; Step 1]) ++
  [Env (Fetches "u2" "d2" 10)].

Definition sample_sends (evs : list (pool_event send_request other)) :=
  pool_run (SendEnvelope_prog log_hook 2 0) other_step evs (idle_pool 2 sample_relay_world).

Lemma concurrent_send_single_accept_witness :
  NoDup (sent_ids (answered (sample_sends send_race))) ∧
  length (answered (sample_sends send_race)) = 2%nat ∧ sent_ids (answered (sample_sends send_race)) = ["e9"].
Proof.
  split; [|split; vm_compute; reflexivity].
  apply (concurrent_send_single_accept log_hook 2 0 other_step other_step_rely 2 send_race sample_relay_world).
Defined.

(** A send that has read its recipients delivers to a member who has left by then,
    after the departure purged the member's queue. *)
Example left_member_receives :
  let w := shared (sample_sends ([Begin 0 (sample_rq "hello")] ++ replicate 6 (Step 0) ++
             [Env (Leaves "g1" "u1" "u2" 2600)] ++ replicate 4 (Step 0))) in
  ConversationRepository.IsUserInConversation "g1" "u2" (rw_db w) = false ∧
  q_ciphertext <$> queue_of "u2" "d2" w = ["hello"].
Proof. split; vm_compute; reflexivity. Qed.
End witnesses.
End SendRace.
