(* ===== verification/Admin.v ===== *)
(** * AdminService (lib/vox_admin/admin_service.cpp)

    Server statistics, deletion of an account with everything that belongs to it,
    and forced logout.

    [DeleteUser] splices the id into the text of its statements; ids are UUIDs,
    without quotes, so each text denotes the condition written here. *)

From S2P Require Import Prelude Types Sql Database Samples Users Sessions Conversations Envelopes.

Record ServerStats := mkServerStats {
  user_count : nat;
  device_count : nat;
  active_session_count : nat;
  conversation_count : nat;
  pending_envelope_count : nat;
  total_storage_bytes : Z }.

Module AdminService.
Section AdminService.
Context `{SqlEngine}.

Definition GetServerStats (now : Timestamp) (db : Database) : ServerStats :=
  mkServerStats
    (length (users db))
    (length (devices db))
    (sql_count (λ s, s_revoked_at s = None ∧ now < s_access_expires_at s) (sessions db))
    (length (conversations db))
    (sql_count (λ d, ds_delivered_at d = None ∧ ds_acked_at d = None) (delivery_state db))
    (foldr (λ a acc, a_file_size a + acc) 0
       (filter (λ a, a_upload_complete a = true) (attachment_metadata db))).

(** [envelope_id IN (SELECT envelope_id FROM encrypted_envelopes WHERE sender_user_id = ..)]. *)
Definition sent_by (user_id : UserId) (db : Database) (d : DeliveryStateRecord) : Prop :=
  ds_envelope_id d ∈ e_envelope_id <$> filter (λ e, e_sender_user_id e = user_id) (encrypted_envelopes db).
#[export] Instance sent_by_dec u db d : Decision (sent_by u db d).
Proof. unfold sent_by. apply _. Defined.

(** The ten statements of the transaction; a [DELETE] from a table that others
    reference is checked against the foreign keys. *)
Definition delete_account (user_id : UserId) : M Database unit :=
  modify (λ db, set_delivery_state (sql_delete (λ d, ds_target_user_id d = user_id) (delivery_state db)) db) ;;!
  modify (λ db, set_delivery_state (sql_delete (sent_by user_id db) (delivery_state db)) db) ;;!
  exec internal_error (λ db, fk_checked
    (set_encrypted_envelopes (sql_delete (λ e, e_sender_user_id e = user_id) (encrypted_envelopes db)) db)) ;;!
  modify (λ db, set_attachment_metadata (sql_delete (λ a, a_user_id a = user_id) (attachment_metadata db)) db) ;;!
  modify (λ db, set_channel_subscriptions (sql_delete (λ b, b_user_id b = user_id) (channel_subscriptions db)) db) ;;!
  modify (λ db, set_conversation_members (sql_delete (λ m, m_user_id m = user_id) (conversation_members db)) db) ;;!
  modify (λ db, set_sessions (sql_delete (λ s, s_user_id s = user_id) (sessions db)) db) ;;!
  modify (λ db, set_one_time_prekeys (sql_delete (λ k, k_user_id k = user_id) (one_time_prekeys db)) db) ;;!
  exec internal_error (λ db, fk_checked
    (set_devices (sql_delete (λ d, d_user_id d = user_id) (devices db)) db)) ;;!
  exec internal_error (λ db, fk_checked
    (set_users (sql_delete (λ u, u_user_id u = user_id) (users db)) db)).

Definition DeleteUser (user_id : UserId) : M Database unit :=
  let! user := gets (FindUserById user_id) in
  match user with
  | None => throw kNotFound "User not found"
  | Some _ => transaction (delete_account user_id)
  end.

Definition ForceLogout (user_id : UserId) (now : Timestamp) : M Database unit :=
  let! user := gets (FindUserById user_id) in
  match user with
  | None => throw kNotFound "User not found"
  | Some _ => SessionRepository.RevokeAllForUser user_id now
  end.

(** ** Deleting from both ends of a reference *)

Lemma fk_delete_both {R R' B} (f : R -> B) (g : R' -> B) (P : R -> Prop) `{!∀ x, Decision (P x)}
    (Q : R' -> Prop) `{!∀ x, Decision (Q x)} t s :
  (f <$> t) ⊆ (g <$> s) -> (∀ x y, f x = g y -> Q y -> P x) ->
  (f <$> sql_delete P t) ⊆ (g <$> sql_delete Q s).
Proof.
  intros Hsub HPQ b (x & -> & [Hx Hno]%elem_of_sql_delete)%list_elem_of_fmap.
  assert (Hin : f x ∈ g <$> s) by by apply Hsub, list_elem_of_fmap_2.
  apply list_elem_of_fmap in Hin as (y & E & Hy). apply list_elem_of_fmap. exists y. split; [done|].
  apply elem_of_sql_delete. split; [done|]. intros HQ. by apply Hno, (HPQ x y).
Qed.

(** Deleting referenced rows none of which is referenced. *)
Lemma fk_delete_parent {R R' B} (f : R -> B) (g : R' -> B) (Q : R' -> Prop) `{!∀ x, Decision (Q x)} t s :
  (f <$> t) ⊆ (g <$> s) -> (∀ x y, x ∈ t -> f x = g y -> ¬ Q y) -> (f <$> t) ⊆ (g <$> sql_delete Q s).
Proof.
  intros Hsub Hno b (x & -> & Hx)%list_elem_of_fmap.
  assert (Hin : f x ∈ g <$> s) by by apply Hsub, list_elem_of_fmap_2.
  apply list_elem_of_fmap in Hin as (y & E & Hy). apply list_elem_of_fmap. exists y. split; [done|].
  apply elem_of_sql_delete. split; [done|]. by apply (Hno x).
Qed.

(** ** The account removed *)

(** The rows that belong to [user_id] removed from every table, the envelopes it sent
    and their deliveries included. *)
Definition without_user (user_id : UserId) (db : Database) : Database :=
  {| users := sql_delete (λ u, u_user_id u = user_id) (users db);
     devices := sql_delete (λ d, d_user_id d = user_id) (devices db);
     one_time_prekeys := sql_delete (λ k, k_user_id k = user_id) (one_time_prekeys db);
     sessions := sql_delete (λ s, s_user_id s = user_id) (sessions db);
     conversations := conversations db;
     conversation_members := sql_delete (λ m, m_user_id m = user_id) (conversation_members db);
     channel_subscriptions := sql_delete (λ b, b_user_id b = user_id) (channel_subscriptions db);
     encrypted_envelopes := sql_delete (λ e, e_sender_user_id e = user_id) (encrypted_envelopes db);
     delivery_state := sql_delete (sent_by user_id db)
                         (sql_delete (λ d, ds_target_user_id d = user_id) (delivery_state db));
     attachment_metadata := sql_delete (λ a, a_user_id a = user_id) (attachment_metadata db);
     sync_records := sync_records db;
     sync_seq := sync_seq db |}.

(** ... and with the account and its devices still there. *)
Definition emptied (user_id : UserId) (db : Database) : Database :=
  set_users (users db) (set_devices (devices db) (without_user user_id db)).

(** What the schema keeps from being deleted: conversations the user created and
    sync records. *)
Definition pinned (user_id : UserId) (db : Database) : Prop :=
  user_id ∈ c_created_by <$> conversations db ∨ user_id ∈ y_user_id <$> sync_records db.
#[export] Instance pinned_dec u db : Decision (pinned u db).
Proof. unfold pinned. apply _. Defined.

Lemma delivery_not_sent user_id db :
  (ds_envelope_id <$> delivery_state db) ⊆ (e_envelope_id <$> encrypted_envelopes db) ->
  (ds_envelope_id <$> sql_delete (sent_by user_id db)
     (sql_delete (λ d, ds_target_user_id d = user_id) (delivery_state db))) ⊆
  (e_envelope_id <$> sql_delete (λ e, e_sender_user_id e = user_id) (encrypted_envelopes db)).
Proof.
  intros Hsub b (d & -> & [[Hd _]%elem_of_sql_delete Hno]%elem_of_sql_delete)%list_elem_of_fmap.
  assert (Hin : ds_envelope_id d ∈ e_envelope_id <$> encrypted_envelopes db) by by apply Hsub, list_elem_of_fmap_2.
  apply list_elem_of_fmap in Hin as (e & E & He). apply list_elem_of_fmap. exists e. split; [done|].
  apply elem_of_sql_delete. split; [done|]. intros Hs. apply Hno. unfold sent_by. rewrite E.
  by apply list_elem_of_fmap_2, list_elem_of_filter.
Qed.

(** Integrity with the account emptied, then without its devices, then without it. *)
Lemma emptied_fk user_id db : fk_wf db -> fk_wf (emptied user_id db).
Proof.
  intros []. split; simpl; auto with vox; by apply delivery_not_sent.
Qed.

Lemma emptied_devices_fk user_id db :
  fk_wf db -> fk_wf (set_devices (sql_delete (λ d, d_user_id d = user_id) (devices db)) (emptied user_id db)).
Proof.
  intros []. split; simpl; auto 10 with vox.
  - apply fk_delete_both; [done|]. unfold prekey_device, device_key. congruence.
  - apply fk_delete_both; [done|]. unfold session_device, device_key. congruence.
  - apply fk_delete_both; [done|]. unfold envelope_sender, device_key. congruence.
  - by apply delivery_not_sent.
  - apply fmap_delete_subseteq, fk_delete_both; [done|]. unfold delivery_target, device_key. congruence.
Qed.

Lemma without_user_fk user_id db : fk_wf db -> fk_wf (without_user user_id db) <-> ¬ pinned user_id db.
Proof.
  intros Hfk. split.
  - intros [] [Hp|Hp].
    + apply fk_conversations_creator in Hp as (u & -> & [_ ?]%elem_of_sql_delete)%list_elem_of_fmap. done.
    + apply fk_sync_user in Hp as (u & -> & [_ ?]%elem_of_sql_delete)%list_elem_of_fmap. done.
  - intros Hp. destruct (emptied_devices_fk user_id db Hfk). destruct Hfk. split; simpl in *; try done;
      try (apply fk_delete_both; [done|congruence]).
    + apply fk_delete_parent; [done|]. intros c u Hc E Hu. apply Hp. left. rewrite <- Hu, <- E. by apply list_elem_of_fmap_2.
    + apply fk_delete_parent; [done|]. intros y u Hy E Hu. apply Hp. right. rewrite <- Hu, <- E. by apply list_elem_of_fmap_2.
Qed.

Lemma without_user_wf user_id db : db_wf db -> ¬ pinned user_id db -> db_wf (without_user user_id db).
Proof.
  intros [Hk Hfk Hseq] Hp. split; [|by apply without_user_fk|done].
  destruct Hk. split; simpl; auto with vox.
Qed.

Lemma bind_step {S A B} (c : M S A) (k : A -> M S B) s a s' : c s = (Ok a, s') -> bind c k s = k a s'.
Proof. unfold bind. by intros ->. Qed.

Lemma exec_fk f db :
  exec internal_error (λ db, fk_checked (f db)) db =
  if decide (fk_wf (f db)) then (Ok tt, f db) else (Err (internal_error ForeignKeyFailed), db).
Proof. unfold exec, fk_checked. by case_decide. Qed.

Lemma delete_account_run user_id db :
  fk_wf db ->
  delete_account user_id db =
  if decide (pinned user_id db)
  then (Err (internal_error ForeignKeyFailed),
        set_devices (sql_delete (λ d, d_user_id d = user_id) (devices db)) (emptied user_id db))
  else (Ok tt, without_user user_id db).
Proof.
  intros Hfk. unfold delete_account. do 2 (etrans; [apply bind_step; reflexivity|]).
  etrans; [apply bind_step; rewrite exec_fk, decide_True; [reflexivity|]|].
  { destruct Hfk. split; simpl; auto with vox. exact (delivery_not_sent user_id db fk_delivery_envelope). }
  do 5 (etrans; [apply bind_step; reflexivity|]).
  etrans; [apply bind_step; rewrite exec_fk, decide_True; [reflexivity|exact (emptied_devices_fk user_id db Hfk)]|].
  rewrite exec_fk. change (set_users _ _) with (without_user user_id db).
  pose proof (without_user_fk user_id db Hfk) as Hiff.
  destruct (decide (pinned user_id db)) as [Hp|Hp]; [rewrite decide_False by tauto|rewrite decide_True by tauto]; reflexivity.
Qed.

Lemma DeleteUser_wf user_id : preserves db_wf (DeleteUser user_id).
Proof.
  intros db Hwf. unfold DeleteUser, bind, gets. destruct (FindUserById user_id db); [|done].
  unfold transaction. rewrite (delete_account_run user_id db (wf_fk _ Hwf)).
  case_decide; [done|]. by apply without_user_wf.
Qed.

Lemma ForceLogout_wf user_id now : preserves db_wf (ForceLogout user_id now).
Proof.
  unfold ForceLogout. preserve_step. apply SessionRepository.RevokeAllForUser_wf.
Qed.

Lemma DeleteUser_run user_id db :
  db_wf db ->
  DeleteUser user_id db =
  if decide (user_id ∈ u_user_id <$> users db)
  then if decide (pinned user_id db) then (Err (internal_error ForeignKeyFailed), db)
       else (Ok tt, without_user user_id db)
  else (Err (mkError kNotFound "User not found"), db).
Proof.
  intros Hwf. unfold DeleteUser, bind, gets. destruct (FindUserById user_id db) as [u|] eqn:E.
  - apply FindUserById_Some in E as [Hu <-]. rewrite decide_True by by apply list_elem_of_fmap_2.
    unfold transaction. rewrite (delete_account_run _ db (wf_fk _ Hwf)). by case_decide.
  - apply FindUserById_None in E. by rewrite decide_False.
Qed.

(** A registered user is deleted exactly when it created no conversation and has no sync
    record: those rows are not deleted and refer to the account. *)
Theorem DeleteUser_refused_pinned user_id db :
  db_wf db -> user_id ∈ u_user_id <$> users db ->
  (∃ db', DeleteUser user_id db = (Ok tt, db')) <-> ¬ pinned user_id db.
Proof.
  intros Hwf Hu. rewrite DeleteUser_run, decide_True by done. case_decide; split; try done.
  - by intros [? ?].
  - by eexists.
Qed.

(** A row of some table names the user. *)
Definition named_in (user_id : UserId) (db : Database) : Prop :=
  user_id ∈ u_user_id <$> users db ∨ user_id ∈ d_user_id <$> devices db ∨
  user_id ∈ k_user_id <$> one_time_prekeys db ∨ user_id ∈ s_user_id <$> sessions db ∨
  user_id ∈ c_created_by <$> conversations db ∨ user_id ∈ m_user_id <$> conversation_members db ∨
  user_id ∈ b_user_id <$> channel_subscriptions db ∨ user_id ∈ e_sender_user_id <$> encrypted_envelopes db ∨
  user_id ∈ ds_target_user_id <$> delivery_state db ∨ user_id ∈ a_user_id <$> attachment_metadata db ∨
  user_id ∈ y_user_id <$> sync_records db.

Lemma not_in_deleted {R} (f : R -> UserId) user_id t : user_id ∉ f <$> sql_delete (λ x, f x = user_id) t.
Proof. by intros (x & -> & [_ Hx]%elem_of_sql_delete)%list_elem_of_fmap. Qed.

(** C30: In the database, deleting an account is all or nothing.  When the call fails, for
    whatever reason, the database is unchanged.  When it succeeds, no row of any table
    names the user, neither as owner nor as sender, recipient, member, subscriber or
    creator; every row of another user is kept, except the deliveries of the envelopes
    the deleted user sent; and no reference dangles. *)
Theorem DeleteUser_complete user_id db :
  db_wf db ->
  (∀ e db', DeleteUser user_id db = (Err e, db') -> db' = db) ∧
  (∀ db', DeleteUser user_id db = (Ok tt, db') ->
     db_wf db' ∧ ¬ named_in user_id db' ∧
     (∀ u, u ∈ users db' <-> u ∈ users db ∧ u_user_id u ≠ user_id) ∧
     (∀ d, d ∈ devices db' <-> d ∈ devices db ∧ d_user_id d ≠ user_id) ∧
     (∀ k, k ∈ one_time_prekeys db' <-> k ∈ one_time_prekeys db ∧ k_user_id k ≠ user_id) ∧
     (∀ s, s ∈ sessions db' <-> s ∈ sessions db ∧ s_user_id s ≠ user_id) ∧
     (∀ m, m ∈ conversation_members db' <-> m ∈ conversation_members db ∧ m_user_id m ≠ user_id) ∧
     (∀ b, b ∈ channel_subscriptions db' <-> b ∈ channel_subscriptions db ∧ b_user_id b ≠ user_id) ∧
     (∀ e, e ∈ encrypted_envelopes db' <-> e ∈ encrypted_envelopes db ∧ e_sender_user_id e ≠ user_id) ∧
     (∀ a, a ∈ attachment_metadata db' <-> a ∈ attachment_metadata db ∧ a_user_id a ≠ user_id) ∧
     (∀ r, r ∈ delivery_state db' <-> r ∈ delivery_state db ∧ ds_target_user_id r ≠ user_id ∧
        ∃ e, e ∈ encrypted_envelopes db' ∧ e_envelope_id e = ds_envelope_id r) ∧
     conversations db' = conversations db ∧ sync_records db' = sync_records db).
Proof.
  intros Hwf. rewrite DeleteUser_run by done. split.
  - intros e db' E. case_decide; [|by injection E]. case_decide; [by injection E|done].
  - intros db' E. case_decide; [|done]. case_decide as Hp; [done|]. injection E as <-.
    pose proof (without_user_wf user_id db Hwf Hp) as Hwf'. split; [done|]. split.
    { unfold pinned in Hp. unfold named_in. simpl.
      intros [Hn|[Hn|[Hn|[Hn|[Hn|[Hn|[Hn|[Hn|[Hn|[Hn|Hn]]]]]]]]]]; try (by apply not_in_deleted in Hn); [tauto| |tauto].
      apply list_elem_of_fmap in Hn as (d & -> & [Hd _]%elem_of_sql_delete).
      by apply (not_in_deleted ds_target_user_id (ds_target_user_id d) (delivery_state db)), list_elem_of_fmap_2. }
    do 8 (split; [intros x; exact (elem_of_sql_delete _ _ x)|]). split; [|done]. intros r. split.
    + intros Hr. pose proof (fk_delivery_envelope _ (wf_fk _ Hwf') _ (list_elem_of_fmap_2 ds_envelope_id _ _ Hr)) as Hin.
      apply list_elem_of_fmap in Hin as (e & Ee & He).
      apply elem_of_sql_delete in Hr as [[Hr Ht]%elem_of_sql_delete _]. split; [done|]. split; [done|]. by exists e.
    + intros (Hr & Ht & e & He & Ee). apply elem_of_sql_delete. split; [by apply elem_of_sql_delete|].
      intros (e2 & E2 & He2)%list_elem_of_fmap. apply list_elem_of_filter in He2 as [Hs He2].
      apply elem_of_sql_delete in He as [He Hns]. destruct Hwf as [[] _ _].
      assert (e2 = e) as -> by (apply (NoDup_fmap_inj_on e_envelope_id (encrypted_envelopes db)); congruence). done.
Qed.
End AdminService.

Section witnesses.
#[local] Existing Instance rowid_engine.

(** The second user of the group leaves no trace. *)
Lemma DeleteUser_complete_witness :
  ¬ named_in "u2" (DeleteUser "u2" EnvelopeRepository.sample_mail_db).2 ∧
  (DeleteUser "u2" EnvelopeRepository.sample_mail_db).1 = Ok tt.
Proof.
  assert (E : (DeleteUser "u2" EnvelopeRepository.sample_mail_db).1 = Ok tt) by (vm_compute; reflexivity).
  split; [|exact E].
  apply (DeleteUser_complete "u2" EnvelopeRepository.sample_mail_db EnvelopeRepository.sample_mail_db_wf).
  destruct (DeleteUser "u2" EnvelopeRepository.sample_mail_db) as [x db']. simpl in *. by rewrite E.
Defined.

(** Deleting a member does not change the membership version of the group. *)
Example DeleteUser_keeps_version :
  let db := EnvelopeRepository.sample_mail_db in let db' := (DeleteUser "u2" db).2 in
  (ConversationRepository.GetMemberCount "g1" db, ConversationRepository.GetMemberCount "g1" db') = (2, 1)%nat ∧
  c_membership_version <$> conversations db' = c_membership_version <$> conversations db.
Proof. split; vm_compute; reflexivity. Qed.

(** The creator of a conversation cannot be deleted. *)
Example DeleteUser_creator_refused :
  (DeleteUser "u1" ConversationRepository.sample_group_db).1 = Err (internal_error ForeignKeyFailed).
Proof. vm_compute. reflexivity. Qed.
End witnesses.
End AdminService.
