(* ===== verification/Footprint.v ===== *)
(** * Which tables an operation can change

    [confined ts c]: the call [c] changes no table outside [ts], whether it succeeds
    or fails.  The footprints of the services' operations, from which the frame
    conditions of the whole server follow. *)

From S2P Require Import Prelude Types Sql Database Uuid Users Devices Sessions Password Tokens Auth Conversations Envelopes SyncState Attachments Delivery Relay ConversationService.

Definition same_table (t : table) (db0 db : Database) : Prop :=
  match t with
  | TUsers => users db = users db0
  | TDevices => devices db = devices db0
  | TOneTimePrekeys => one_time_prekeys db = one_time_prekeys db0
  | TSessions => sessions db = sessions db0
  | TConversations => conversations db = conversations db0
  | TConversationMembers => conversation_members db = conversation_members db0
  | TChannelSubscriptions => channel_subscriptions db = channel_subscriptions db0
  | TEncryptedEnvelopes => encrypted_envelopes db = encrypted_envelopes db0
  | TDeliveryState => delivery_state db = delivery_state db0
  | TAttachmentMetadata => attachment_metadata db = attachment_metadata db0
  | TSyncRecords => sync_records db = sync_records db0 ∧ sync_seq db = sync_seq db0
  end.

Definition agree (ts : list table) (db0 db : Database) : Prop := ∀ t, t ∉ ts -> same_table t db0 db.

Definition confined (ts : list table) {A} (c : M Database A) : Prop := ∀ db0, preserves (agree ts db0) c.

Lemma same_table_refl t db : same_table t db db.
Proof. by destruct t. Qed.

Lemma confined_run {A} ts (c : M Database A) db t : confined ts c -> t ∉ ts -> same_table t db (c db).2.
Proof. intros Hc Ht. apply (Hc db db); [intros t' _; apply same_table_refl|done]. Qed.

Lemma agree_mono ts ts' db0 db : ts ⊆ ts' -> agree ts db0 db -> agree ts' db0 db.
Proof. intros Hs Ha t Ht. apply Ha. set_solver. Qed.

Lemma agree_trans ts db0 db1 db2 : agree ts db0 db1 -> agree ts db1 db2 -> agree ts db0 db2.
Proof.
  intros H1 H2 t Ht. specialize (H1 t Ht). specialize (H2 t Ht). destruct t; simpl in *; first [congruence | destruct H1, H2; split; congruence].
Qed.

Lemma confined_mono {A} ts ts' (c : M Database A) : ts ⊆ ts' -> confined ts c -> confined ts' c.
Proof.
  intros Hs Hc db0 db Hdb. apply (agree_trans _ _ db); [done|]. apply (agree_mono ts); [done|].
  intros t Ht. by apply confined_run with (ts := ts).
Qed.

(** Membership of a literal list. *)
Ltac in_list := solve [repeat first [apply list_elem_of_here | apply list_elem_of_further]].

(** An assignment of listed tables. *)
Ltac agree_set Hdb :=
  let t := fresh "t" in let Ht := fresh "Ht" in
  intros t Ht; specialize (Hdb t Ht); destruct t; simpl in *;
  first [exact Hdb | exfalso; apply Ht; in_list].

Lemma confined_modify ts f : (∀ db0 db, agree ts db0 db -> agree ts db0 (f db)) -> confined ts (modify f).
Proof. intros Hf db0 db Hdb. by apply Hf. Qed.

Lemma confined_exec ts handler stmt :
  (∀ db0 db db', agree ts db0 db -> stmt db = inr db' -> agree ts db0 db') -> confined ts (exec handler stmt).
Proof. intros Hs db0. apply preserves_exec. intros db db' Hdb E. by apply (Hs db0 db). Qed.

(** Reduces a composite call to its parts. *)
Ltac footprint :=
  repeat (cbv beta zeta; lazymatch goal with
  | |- confined _ _ => intros ?db0
  | |- preserves _ (transaction _) => apply preserves_transaction
  | |- preserves _ (for_each _ _) => apply preserves_for_each; intros
  | |- preserves _ (for_fold _ _ _) => apply preserves_for_fold; intros
  | |- preserves _ _ => progress preserve_step
  end).

(** The statement [stmt] only inserts. *)
Ltac insert_footprint stmt :=
  let db := fresh "db" in let db' := fresh "db'" in let Hdb := fresh "Hdb" in let E := fresh "E" in
  apply confined_exec; intros ? db db' Hdb E; unfold stmt in E; repeat case_match; simplify_eq/=;
  agree_set Hdb.
Ltac update_footprint := intros ? Hdb; agree_set Hdb.

Section repositories.
Context `{SqlEngine}.

Lemma CreateUser_fp u : confined [TUsers] (CreateUser u).
Proof.
  unfold CreateUser. footprint. insert_footprint insert_users.
Qed.

Lemma update_user_fp u f : confined [TUsers] (update_user u f).
Proof. unfold update_user. footprint. update_footprint. Qed.

Lemma RegisterDevice_fp d : confined [TDevices] (RegisterDevice d).
Proof.
  unfold RegisterDevice. insert_footprint insert_devices.
Qed.

Lemma UpdateLastSeen_fp u d now : confined [TDevices] (UpdateLastSeen u d now).
Proof. apply confined_modify. intros db0 db Hdb. agree_set Hdb. Qed.

Lemma UpdateSignedPrekey_fp u d p s now : confined [TDevices] (UpdateSignedPrekey u d p s now).
Proof. unfold UpdateSignedPrekey. footprint. update_footprint. Qed.

Lemma RevokeDevice_fp u d now : confined [TDevices; TOneTimePrekeys] (RevokeDevice u d now).
Proof. unfold RevokeDevice. footprint; update_footprint. Qed.

Lemma StorePrekeys_fp u d ks now : confined [TOneTimePrekeys; TDevices] (StorePrekeys u d ks now).
Proof.
  unfold StorePrekeys. footprint; [|update_footprint].
  insert_footprint insert_one_time_prekeys.
Qed.

Lemma GetPrekeyBundle_fp u d now : confined [TOneTimePrekeys] (GetPrekeyBundle u d now).
Proof. unfold GetPrekeyBundle, ConsumeOneAvailableOtpLocked. footprint. update_footprint. Qed.

Lemma CreateSession_fp s : confined [TSessions] (SessionRepository.CreateSession s).
Proof.
  unfold SessionRepository.CreateSession. insert_footprint insert_sessions.
Qed.

Lemma RevokeSession_fp id now : confined [TSessions] (SessionRepository.RevokeSession id now).
Proof. unfold SessionRepository.RevokeSession. footprint. update_footprint. Qed.

Lemma RevokeAllForDevice_fp u d now : confined [TSessions] (SessionRepository.RevokeAllForDevice u d now).
Proof. apply confined_modify. intros db0 db Hdb. agree_set Hdb. Qed.

Lemma BumpMembershipVersion_fp c : confined [TConversations] (modify (ConversationRepository.BumpMembershipVersion c)).
Proof. apply confined_modify. intros db0 db Hdb. agree_set Hdb. Qed.

Lemma CreateConversation_fp c : confined [TConversations] (ConversationRepository.CreateConversation c).
Proof. unfold ConversationRepository.CreateConversation. insert_footprint insert_conversations. Qed.

Lemma AddMember_fp c u r now :
  confined [TConversations; TConversationMembers] (ConversationRepository.AddMember c u r now).
Proof.
  unfold ConversationRepository.AddMember. footprint; [|update_footprint].
  insert_footprint upsert_conversation_members.
Qed.

Lemma RemoveMember_fp c u now :
  confined [TConversations; TConversationMembers] (ConversationRepository.RemoveMember c u now).
Proof. unfold ConversationRepository.RemoveMember. footprint; update_footprint. Qed.

Lemma Subscribe_fp c u now :
  confined [TConversations; TChannelSubscriptions] (ConversationRepository.Subscribe c u now).
Proof.
  unfold ConversationRepository.Subscribe. footprint; [|update_footprint].
  insert_footprint upsert_channel_subscriptions.
Qed.

Lemma Unsubscribe_fp c u now :
  confined [TConversations; TChannelSubscriptions] (ConversationRepository.Unsubscribe c u now).
Proof. unfold ConversationRepository.Unsubscribe. footprint; update_footprint. Qed.

Lemma StoreEnvelope_fp e : confined [TEncryptedEnvelopes] (EnvelopeRepository.StoreEnvelope e).
Proof. unfold EnvelopeRepository.StoreEnvelope. insert_footprint insert_encrypted_envelopes. Qed.

Lemma AddDeliveryState_fp e u d now : confined [TDeliveryState] (EnvelopeRepository.AddDeliveryState e u d now).
Proof. unfold EnvelopeRepository.AddDeliveryState. insert_footprint insert_delivery_state. Qed.

Lemma MarkAcked_fp e u d now : confined [TDeliveryState] (EnvelopeRepository.MarkAcked e u d now).
Proof. unfold EnvelopeRepository.MarkAcked, EnvelopeRepository.update_delivery. footprint; update_footprint. Qed.

Lemma DeletePending_fp c u :
  confined [TDeliveryState] (EnvelopeRepository.DeletePendingDeliveryForUserInConversation c u).
Proof. unfold EnvelopeRepository.DeletePendingDeliveryForUserInConversation. footprint; update_footprint. Qed.

Lemma EnvelopeSweep_fp now :
  confined [TEncryptedEnvelopes; TDeliveryState] (EnvelopeRepository.DeleteExpired now).
Proof. unfold EnvelopeRepository.DeleteExpired. footprint; [update_footprint|insert_footprint fk_checked]. Qed.

Lemma UpsertRecord_fp u c r ct h b now :
  confined [TSyncRecords] (SyncStateRepository.UpsertRecord u c r ct h b now).
Proof.
  unfold SyncStateRepository.UpsertRecord. footprint; [update_footprint|insert_footprint insert_sync_records].
Qed.

Lemma TombstoneRecord_fp u c r b now :
  confined [TSyncRecords] (SyncStateRepository.TombstoneRecord u c r b now).
Proof. unfold SyncStateRepository.TombstoneRecord. footprint. update_footprint. Qed.

End repositories.

#[export] Hint Resolve CreateUser_fp update_user_fp RegisterDevice_fp UpdateLastSeen_fp CreateSession_fp
  RevokeSession_fp CreateConversation_fp AddMember_fp RemoveMember_fp Subscribe_fp Unsubscribe_fp
  StoreEnvelope_fp AddDeliveryState_fp MarkAcked_fp DeletePending_fp : footprints.

(** A call with a smaller footprint. *)
Lemma preserves_smaller {A} ts ts' (c : M Database A) db0 :
  confined ts c -> ts ⊆ ts' -> preserves (agree ts' db0) c.
Proof. intros Hc Hs. by apply (confined_mono ts). Qed.
Ltac smaller := eapply preserves_smaller; [solve [auto with footprints]|set_solver].

(** ** Authentication *)

Section auth.
Context `{SqlEngine} `{Argon2} (hasher : PasswordHasher) (tokens : TokenManager).

Lemma lift_fp {A} ts (r : Result A) : confined ts (lift r).
Proof. destruct r; intros db0; [apply preserves_mok|apply preserves_rethrow]. Qed.

Lemma IssueTokens_fp u d now draws : confined [TSessions] (IssueTokens tokens u d now draws).
Proof. unfold IssueTokens. footprint. apply CreateSession_fp. Qed.
#[local] Hint Resolve IssueTokens_fp : footprints.

Lemma RefreshTokens_fp t d now draws : confined [TSessions] (RefreshTokens tokens t d now draws).
Proof. unfold RefreshTokens. footprint; first [apply RevokeSession_fp|apply IssueTokens_fp]. Qed.
#[local] Hint Resolve RefreshTokens_fp : footprints.

Lemma Register_fp r now draws : confined [TUsers; TDevices; TSessions] (Register hasher tokens r now draws).
Proof. unfold Register. footprint; first [apply lift_fp|smaller]. Qed.

Lemma Login_fp r now draws : confined [TDevices; TSessions] (Login hasher tokens r now draws).
Proof. unfold Login. footprint; first [apply lift_fp|smaller]. Qed.

Lemma Refresh_fp r now draws : confined [TDevices; TSessions] (Refresh tokens r now draws).
Proof. unfold Refresh. footprint; first [apply lift_fp|smaller]. Qed.

Lemma ChangePassword_fp u r draws : confined [TUsers] (ChangePassword hasher u r draws).
Proof.
  unfold ChangePassword, UpdatePasswordCredentials, SetSyncKeyBundle. footprint; first [apply lift_fp|smaller].
Qed.
End auth.

(** ** Conversations and messages *)

Definition conv_tables : list table := [TConversations; TConversationMembers; TChannelSubscriptions].

(** A call on a part of the state that holds the database. *)
Lemma preserves_zoom {S T A} (get : S -> T) (put : T -> S -> S) (I : T -> Prop) (c : M T A) :
  (∀ t s, get (put t s) = t) -> preserves I c -> preserves (λ s, I (get s)) (zoom get put c).
Proof.
  intros Hgp Hc s Hs. unfold zoom. specialize (Hc _ Hs). destruct (c (get s)) as [r t]. simpl in *.
  by rewrite Hgp.
Qed.

Section relay.
Context `{SqlEngine} {Hook : Type}.
Context (hook : option (string -> QueuedEnvelope -> Hook -> Hook)) (max_queue retention : Z).
Context (max_group_size max_channel_size : Z).

Definition relay_confined (ts : list table) {A} (c : M (RelayWorld Hook) A) : Prop :=
  ∀ db0, preserves (λ w, agree ts db0 (rw_db w)) c.

Lemma on_relay_db_fp {A} ts ts' (c : M Database A) :
  confined ts c -> ts ⊆ ts' -> relay_confined ts' (on_relay_db c).
Proof. intros Hc Hs db0. apply preserves_zoom; [done|]. by apply (preserves_smaller ts). Qed.

Lemma CreateDm_fp a b u now draw : confined conv_tables (ConversationService.CreateDm a b u now draw).
Proof. unfold ConversationService.CreateDm, conv_tables. footprint; smaller. Qed.

Lemma CreateGroup_fp u ms now draw : confined conv_tables (ConversationService.CreateGroup max_group_size u ms now draw).
Proof. unfold ConversationService.CreateGroup, conv_tables. footprint; smaller. Qed.

Lemma CreateChannel_fp u adm subs now draw :
  confined conv_tables (ConversationService.CreateChannel max_channel_size u adm subs now draw).
Proof. unfold ConversationService.CreateChannel, conv_tables. footprint; smaller. Qed.

Lemma AddMemberService_fp c actor u role now :
  confined conv_tables (ConversationService.AddMember max_group_size c actor u role now).
Proof. unfold ConversationService.AddMember, conv_tables. footprint; smaller. Qed.

Lemma SubscribeChannel_fp c u now : confined conv_tables (ConversationService.SubscribeChannel max_channel_size c u now).
Proof. unfold ConversationService.SubscribeChannel, conv_tables. footprint; smaller. Qed.

Ltac relay_smaller := eapply on_relay_db_fp; [solve [auto with footprints]|set_solver].

Lemma PurgeMemberDelivery_fp c u :
  relay_confined [TDeliveryState] (ConversationService.PurgeMemberDelivery (Hook := Hook) c u).
Proof.
  intros db0. unfold ConversationService.PurgeMemberDelivery. footprint; [relay_smaller|].
  intros w Hw. unfold modify. simpl.
  unfold DeliveryManager.PurgeConversationFromDeviceQueue. by case_match.
Qed.

Lemma relay_confined_mono {A} ts ts' (c : M (RelayWorld Hook) A) :
  ts ⊆ ts' -> relay_confined ts c -> relay_confined ts' c.
Proof.
  intros Hs Hc db0 w Hw. apply (agree_trans _ _ (rw_db w)); [done|]. apply (agree_mono ts); [done|].
  apply (Hc (rw_db w) w). intros t _. apply same_table_refl.
Qed.

Lemma RemoveMemberService_fp c actor u now :
  relay_confined (TDeliveryState :: conv_tables) (ConversationService.RemoveMember (Hook := Hook) c actor u now).
Proof.
  intros db0. unfold ConversationService.RemoveMember, conv_tables. footprint.
  - relay_smaller.
  - apply (relay_confined_mono [TDeliveryState]); [set_solver|apply PurgeMemberDelivery_fp].
Qed.

Lemma UnsubscribeChannel_fp c u now :
  relay_confined (TDeliveryState :: conv_tables) (ConversationService.UnsubscribeChannel (Hook := Hook) c u now).
Proof.
  intros db0. unfold ConversationService.UnsubscribeChannel, conv_tables. footprint.
  - relay_smaller.
  - apply (relay_confined_mono [TDeliveryState]); [set_solver|apply PurgeMemberDelivery_fp].
Qed.

Lemma Enqueue_fp ts u d q : relay_confined ts (DeliveryManager.Enqueue hook max_queue u d q).
Proof.
  intros db0. unfold DeliveryManager.Enqueue, DeliveryManager.GetOrCreateQueue. footprint.
  - intros w Hw. by case_match.
  - by intros w Hw.
  - by intros w Hw.
Qed.

Lemma SendEnvelope_fp r now draw :
  relay_confined [TEncryptedEnvelopes; TDeliveryState] (RelayService.SendEnvelope hook max_queue retention r now draw).
Proof.
  intros db0. unfold RelayService.SendEnvelope, RelayService.check_post, RelayService.fan_out, RelayService.deliver_to.
  footprint; first [apply Enqueue_fp|relay_smaller].
Qed.

Lemma AcknowledgeEnvelope_fp u d e now :
  relay_confined [TDeliveryState] (RelayService.AcknowledgeEnvelope (Hook := Hook) u d e now).
Proof. unfold RelayService.AcknowledgeEnvelope, DeliveryManager.Acknowledge. relay_smaller. Qed.
End relay.

(** ** Uploads *)

Section uploads.
Context `{SqlEngine} `{Disk} (config : AttachmentConfig).

Definition upload_confined {A} (c : M AttachmentWorld A) : Prop :=
  ∀ db0, preserves (λ w, agree [TAttachmentMetadata] db0 (aw_db w)) c.

Lemma on_db_fp {A} (c : M Database A) :
  confined [TAttachmentMetadata] c -> upload_confined (AttachmentService.on_db c).
Proof. intros Hc db0. by apply preserves_zoom. Qed.

Lemma CreateAttachmentMeta_fp a : confined [TAttachmentMetadata] (AttachmentRepository.CreateAttachmentMeta a).
Proof. unfold AttachmentRepository.CreateAttachmentMeta. insert_footprint insert_attachment_metadata. Qed.

Lemma MarkUploadComplete_fp id h : confined [TAttachmentMetadata] (AttachmentRepository.MarkUploadComplete id h).
Proof. unfold AttachmentRepository.MarkUploadComplete. footprint; update_footprint. Qed.

Lemma AttachmentSweep_fp now : confined [TAttachmentMetadata] (AttachmentRepository.DeleteExpired now).
Proof. unfold AttachmentRepository.DeleteExpired. footprint; update_footprint. Qed.

Lemma InitUpload_fp u c size mime now draw :
  upload_confined (AttachmentService.InitUpload config u c size mime now draw).
Proof.
  unfold AttachmentService.InitUpload. intros db0. footprint. apply on_db_fp, CreateAttachmentMeta_fp.
Qed.

Lemma WriteChunk_fp id offset data : upload_confined (AttachmentService.WriteChunk id offset data).
Proof. unfold AttachmentService.WriteChunk. intros db0. footprint; by intros w Hw. Qed.

Lemma FinalizeUpload_fp id h : upload_confined (AttachmentService.FinalizeUpload id h).
Proof. unfold AttachmentService.FinalizeUpload. intros db0. footprint. apply on_db_fp, MarkUploadComplete_fp. Qed.

Lemma GetAttachment_fp id u : upload_confined (AttachmentService.GetAttachment id u).
Proof. unfold AttachmentService.GetAttachment. intros db0. footprint. Qed.

Lemma DeleteExpired_fp now : upload_confined (AttachmentService.DeleteExpired now).
Proof.
  unfold AttachmentService.DeleteExpired. intros db0. footprint; [by intros w Hw|apply on_db_fp, AttachmentSweep_fp].
Qed.
End uploads.
