(* ===== verification/Json.v ===== *)
(** * JSON values (Boost.JSON, as lib/vox_net/http_dispatch.cpp uses it)

    The document type of Boost.JSON and the accessors the handlers call.  Parsing
    and printing are third-party code, the class [BoostJson]. *)

From S2P Require Import Prelude Types Hex.

(** [boost::json::value]; a double is kept as its 64 bits. *)
Inductive value :=
  | VNull
  | VBool (b : bool)
  | VInt64 (z : Z)
  | VUint64 (z : Z)
  | VDouble (bits : Z)
  | VString (s : string)
  | VArray (l : list value)
  | VObject (o : list (string * value)).

(** [boost::json::object]: the members in insertion order. *)
Definition object := list (string * value).

(** [boost::json::parse], which throws with a message, and [boost::json::serialize]. *)
Class BoostJson := {
  json_parse : string -> string + value;
  json_serialize : value -> string
}.

(** [o.contains(key)] with [o.at(key)]. *)
Fixpoint member (key : string) (o : object) : option value :=
  match o with
  | [] => None
  | (k, v) :: o' => if k =s? key then Some v else member key o'
  end.

(** [o[key] = v]: replaces the member or appends it. *)
Fixpoint set_member (key : string) (v : value) (o : object) : object :=
  match o with
  | [] => [(key, v)]
  | (k, v') :: o' => if k =s? key then (k, v) :: o' else (k, v') :: set_member key v o'
  end.

(** [std::string(s.c_str())]: the text up to the first NUL. *)
Fixpoint c_str (s : string) : string :=
  match s with
  | EmptyString => EmptyString
  | String c s' => if byte_of_ascii c =? 0 then EmptyString else String c (c_str s')
  end.

Definition JsonString (o : object) (key : string) : option string :=
  match member key o with
  | Some (VString s) => Some (c_str s)
  | _ => None
  end.

Definition JsonInt (o : object) (key : string) : option Z :=
  match member key o with
  | Some (VInt64 z) => Some z
  | Some (VUint64 z) => Some (to_int64 z)
  | _ => None
  end.

(** The strings of an array member; anything else is skipped. *)
Definition JsonStrings (o : object) (key : string) : list string :=
  match member key o with
  | Some (VArray l) => omap (λ v, match v with VString s => Some (c_str s) | _ => None end) l
  | _ => []
  end.

(** [JsonString(o, key).value_or("")]. *)
Definition JsonStringOr (o : object) (key : string) : string := default EmptyString (JsonString o key).

Definition VOptional {A} (f : A -> value) (x : option A) : value :=
  match x with Some a => f a | None => VNull end.

Section BoostJson.
Context `{BoostJson}.

Definition SerializeSyncWrapParams (o : object) : string :=
  match member "sync_wrap_params" o with
  | Some (VObject v) => json_serialize (VObject v)
  | Some (VString s) => c_str s
  | _ => EmptyString
  end.

Definition ParsePolicyBlob (policy_blob : string) : object :=
  if policy_blob =s? "" then [] else
  match json_parse policy_blob with
  | inr (VObject o) => o
  | _ => []
  end.

(** [ParseJsonBody] and the check of [parse_body] that the document is an object. *)
Definition ParseJsonBody (body : string) : Error + value :=
  match json_parse body with
  | inr v => inr v
  | inl what => inl (mkError kInvalidArgument what)
  end.
End BoostJson.

(** ** Accessor laws *)

Lemma member_set_eq key v o : member key (set_member key v o) = Some v.
Proof.
  induction o as [|[k v'] o IH]; simpl; [by rewrite String.eqb_refl|].
  destruct (k =s? key) eqn:E; simpl; by rewrite E.
Qed.

Lemma member_set_ne key key' v o : key ≠ key' -> member key (set_member key' v o) = member key o.
Proof.
  intros Hne. induction o as [|[k v'] o IH]; simpl.
  - by destruct (String.eqb_spec key' key) as [->|].
  - destruct (String.eqb_spec k key') as [->|]; simpl.
    + by destruct (String.eqb_spec key' key) as [->|].
    + by rewrite IH.
Qed.
