(* ===== verification/WsRegistry.v ===== *)
(** * WsPushRegistry (lib/vox_net/ws_registry.{hpp,cpp})

    The senders of the devices that are online.  A [Sender] is a [std::function],
    which may be empty; what calling one does belongs to its WebSocket session, so
    the registry's model records the calls in order. *)

From S2P Require Import Prelude.

Record WsPushRegistry (Sender : Type) := mkWsPushRegistry {
  senders_ : gmap string (option Sender);
  sent : list (Sender * string) }.
Arguments mkWsPushRegistry {Sender} senders_ sent.
Arguments senders_ {Sender} _.
Arguments sent {Sender} _.

Section WsPushRegistry.
Context {Sender : Type}.

Definition Register (device_id : string) (send : option Sender) (r : WsPushRegistry Sender)
    : WsPushRegistry Sender :=
  mkWsPushRegistry (<[device_id := send]> (senders_ r)) (sent r).

Definition Unregister (device_id : string) (r : WsPushRegistry Sender) : WsPushRegistry Sender :=
  mkWsPushRegistry (delete device_id (senders_ r)) (sent r).

Definition Notify (device_id json_text : string) (r : WsPushRegistry Sender) : WsPushRegistry Sender :=
  match senders_ r !! device_id with
  | None => r
  | Some None => r
  | Some (Some fn) => mkWsPushRegistry (senders_ r) (sent r ++ [(fn, json_text)])
  end.

Lemma Notify_senders k text r : senders_ (Notify k text r) = senders_ r.
Proof. unfold Notify. by destruct (senders_ r !! k) as [[]|]. Qed.
End WsPushRegistry.
