(* ===== verification/HttpPath.v ===== *)
(** * Targets and routes (lib/vox_net/http_dispatch.cpp)

    Splitting a request target into path and query, the path patterns of the API,
    and the predicate that tells the protected routes from unknown ones. *)

From S2P Require Import Prelude Types Hex Paging Relay.

(** ** [std::string_view] *)

(** [s.starts_with(p)] with [s.substr(p.size())]. *)
Fixpoint strip_prefix (p s : string) : option string :=
  match p with
  | EmptyString => Some s
  | String c p' =>
      match s with
      | String c' s' => if Ascii.eqb c c' then strip_prefix p' s' else None
      | EmptyString => None
      end
  end.

Definition starts_with (p s : string) : bool := bool_decide (is_Some (strip_prefix p s)).

(** [s.ends_with(q)] with [s.substr(0, s.size() - q.size())]. *)
Fixpoint strip_suffix (q s : string) : option string :=
  if s =s? q then Some EmptyString
  else match s with
       | EmptyString => None
       | String c s' => String c <$> strip_suffix q s'
       end.

Definition ends_with (q s : string) : bool := bool_decide (is_Some (strip_suffix q s)).

(** [s.find(needle)] with the text before and after the first occurrence. *)
Fixpoint split_at_str (needle s : string) : option (string * string) :=
  match strip_prefix needle s with
  | Some rest => Some (EmptyString, rest)
  | None =>
      match s with
      | EmptyString => None
      | String c s' => (λ '(l, r), (String c l, r)) <$> split_at_str needle s'
      end
  end.

(** The pieces between separators. *)
Fixpoint split_all (c : Ascii.ascii) (s : string) : list string :=
  match s with
  | EmptyString => [EmptyString]
  | String a s' =>
      if Ascii.eqb a c then EmptyString :: split_all c s'
      else match split_all c s' with
           | [] => [String a EmptyString]
           | l :: ls => String a l :: ls
           end
  end.

Definition slash : Ascii.ascii := ascii_of_byte 47.
Definition question : Ascii.ascii := ascii_of_byte 63.
Definition ampersand : Ascii.ascii := ascii_of_byte 38.
Definition equals : Ascii.ascii := ascii_of_byte 61.
Definition comma : Ascii.ascii := ascii_of_byte 44.

(** ** Path and query *)

Definition PathOnly (target : string) : string :=
  match split_at_char question target with Some (p, _) => p | None => target end.

Definition query_of (target : string) : option string := snd <$> split_at_char question target.

(** The [key=value] pairs of a query, in order; pieces without [=] are skipped. *)
Definition query_pairs (query : string) : list (string * string) :=
  omap (split_at_char equals) (split_all ampersand query).

Definition QueryParam (target key : string) : option string :=
  query ← query_of target;
  snd <$> head (filter (λ kv, kv.1 = key) (query_pairs query)).

(** The two loops that remove blanks from a piece. *)
Fixpoint drop_blanks (s : string) : string :=
  match s with
  | String c s' => if byte_of_ascii c =? 32 then drop_blanks s' else s
  | EmptyString => EmptyString
  end.
Fixpoint drop_blanks_back (s : string) : string :=
  match s with
  | EmptyString => EmptyString
  | String c s' =>
      match drop_blanks_back s' with
      | EmptyString => if byte_of_ascii c =? 32 then EmptyString else String c EmptyString
      | t => String c t
      end
  end.

Definition AppendCommaSeparatedIds (v : string) (out : list string) : list string :=
  out ++ filter (λ p, p ≠ EmptyString) ((λ p, drop_blanks_back (drop_blanks p)) <$> split_all comma v).

Definition ParseIdsQuery (target : string) : list string :=
  match query_of target with
  | None => []
  | Some query =>
      foldl (λ ids kv, if kv.1 =s? "ids" then AppendCommaSeparatedIds kv.2 ids else ids) []
        (query_pairs query)
  end.

(** ** Path patterns *)

Definition SplitPrefixedPath (path prefix : string) : option (string * string) :=
  rest ← strip_prefix prefix path; split_at_char slash rest.

Definition kConvPrefix : string := "/v1/conversations/".
Definition kDevicePrefix : string := "/v1/devices/".
Definition kUsersPrefix : string := "/v1/users/".
Definition kSyncRecordsPrefix : string := "/v1/sync/records/".
Definition kAttachPrefix : string := "/v1/attachments/".

Definition SplitConvSubPath (path : string) : option (string * string) :=
  SplitPrefixedPath path kConvPrefix.

Definition SplitDeviceSubPath (path suffix : string) : option string :=
  p ← SplitPrefixedPath path kDevicePrefix;
  if p.2 =s? suffix then Some p.1 else None.

Definition SplitUserDeviceSubPath (path suffix : string) : option (string * string) :=
  rest ← strip_prefix kUsersPrefix path;
  um ← split_at_str "/devices/" rest;
  ds ← split_at_char slash um.2;
  if ds.2 =s? suffix then Some (um.1, ds.1) else None.

Definition ConversationIdOnly (path : string) : option string :=
  rest ← strip_prefix kConvPrefix path;
  if (rest =s? "") || contains_char slash rest then None else Some rest.

Definition SplitSyncRecordPath (path : string) : option (string * string) :=
  SplitPrefixedPath path kSyncRecordsPrefix.

Definition SplitAttachmentSubPath (path : string) : option string :=
  rest ← strip_prefix kAttachPrefix path;
  if rest =s? "" then None else
  match split_at_char slash rest with Some (id, _) => Some id | None => Some rest end.

(** ** Protected routes *)

Inductive verb := VGet | VPost | VPut | VDelete | VOther (name : string).
#[export] Instance verb_eq_dec : EqDecision verb.
Proof. solve_decision. Defined.

Definition some {A} (x : option A) : bool := match x with Some _ => true | None => false end.

(** [path] is one of the literals. *)
Definition one_of (l : list string) (path : string) : bool := existsb (String.eqb path) l.

Definition IsKnownProtectedRoute (m : verb) (path : string) : bool :=
  match m with
  | VPost =>
      if one_of ["/v1/logout"; "/v1/messages/send"; "/v1/messages/ack"; "/v1/conversations";
                 "/v1/attachments/upload-init"; "/v1/account/change-password"] path then true else
      if starts_with kAttachPrefix path && ends_with "/finalize" path
      then some (SplitAttachmentSubPath path) else
      if match SplitConvSubPath path with
         | Some (_, tail) => one_of ["members"; "subscribe"; "unsubscribe"] tail
         | None => false
         end then true else
      if some (SplitDeviceSubPath path "prekeys") || some (SplitUserDeviceSubPath path "prekeys")
      then true else
      some (SplitDeviceSubPath path "signed-prekey") || some (SplitUserDeviceSubPath path "signed-prekey")
  | VGet =>
      if one_of ["/v1/me"; "/v1/me/devices"; "/v1/sync/pending"; "/v1/conversations"; "/v1/users";
                 "/v1/sync/key-bundle"] path then true else
      if starts_with "/v1/sync/changes" path then true else
      if starts_with kUsersPrefix path then true else
      if some (ConversationIdOnly path) then true else
      if match SplitConvSubPath path with
         | Some (_, tail) => one_of ["envelopes"; "members"] tail
         | None => false
         end then true else
      if some (SplitDeviceSubPath path "prekey-bundle") || some (SplitUserDeviceSubPath path "prekey-bundle")
      then true else
      if starts_with kUsersPrefix path && string_find "/prekey-bundles" path then true else
      if starts_with kAttachPrefix path && negb (string_find "/chunk" path)
         && negb (string_find "/finalize" path)
      then some (SplitAttachmentSubPath path) else
      false
  | VPut =>
      if path =s? "/v1/sync/key-bundle" then true else
      if starts_with kSyncRecordsPrefix path then true else
      if some (SplitDeviceSubPath path "signed-prekey") || some (SplitUserDeviceSubPath path "signed-prekey")
      then true else
      if starts_with kAttachPrefix path && string_find "/chunk" path
      then some (SplitAttachmentSubPath path) else
      false
  | VDelete =>
      if starts_with "/v1/me/devices/" path then true else
      if starts_with kSyncRecordsPrefix path then true else
      if match SplitConvSubPath path with
         | Some (_, tail) => starts_with "members/" tail
         | None => false
         end then true else
      false
  | VOther _ => false
  end.
