(* ===== verification/HttpDispatch.v ===== *)
(** * DispatchHttp (lib/vox_net/http_dispatch.cpp)

    One HTTP request against the whole server: the size and rate limits, the public
    and the administrative routes, the routes of an authenticated session, and the
    JSON of each answer.  The state is everything the services share.

    A handler runs in a monad with the exits of the C++ function: it goes on, it
    returns an optional response, or an exception leaves it. *)

From S2P Require Import Prelude Types Sql Database Hex Paging Config RateLimiter Uuid Users Devices Sessions Password Tokens Auth Conversations Envelopes SyncState Attachments Delivery Relay ConversationService Admin Json WsRegistry HttpPath.

(** ** Requests and responses *)

Record HttpRequest := mkHttpRequest {
  rq_method : verb;
  rq_target : string;
  rq_version : Z;
  rq_headers : list (string * string);
  rq_body : string }.

(** [req.find(name)]: field names compare without case. *)
Definition header (name : string) (req : HttpRequest) : option string :=
  snd <$> head (filter (λ kv, nocase kv.1 = nocase name) (rq_headers req)).

Inductive ResponseBody :=
  | BodyText (text : string)
  | BodyFile (path : string).

Record HttpResponse := mkHttpResponse {
  rs_status : Z;
  rs_version : Z;
  rs_content_type : option string;
  rs_body : ResponseBody }.

Definition kHttpOk : Z := 200.
Definition kHttpBadRequest : Z := 400.
Definition kHttpUnauthorized : Z := 401.
Definition kHttpForbidden : Z := 403.
Definition kHttpNotFound : Z := 404.
Definition kHttpInternalServerError : Z := 500.
Definition kDefaultPaginationLimit : Z := 100.
Definition kDefaultUserSearchLimit : Z := 20.
Definition kMaxUserSearchLimit : Z := 50.
Definition kMaxUserBatchIds : nat := 100.

(** ** State *)

(** A WebSocket session is named by a number. *)
Notation Ws := (WsPushRegistry Z).

(** The optional parts of [ServerContext] beside the services. *)
Record ServerContext := mkServerContext {
  ctx_config : ServerConfig;
  ctx_auth_rate_limiter : option AuthRateLimiter;
  ctx_account_rate_limiter : option AuthRateLimiter;
  ctx_ws_push : bool }.

(** As [main] builds it. *)
Definition main_context (config : ServerConfig) : ServerContext :=
  mkServerContext config
    (if 0 <? cf_auth_rate_limit_max config
     then Some (mkAuthRateLimiter (cf_auth_rate_limit_max config) (cf_auth_rate_limit_window_seconds config))
     else None)
    (if 0 <? cf_account_rate_limit_max config
     then Some (mkAuthRateLimiter (cf_account_rate_limit_max config) (cf_account_rate_limit_window_seconds config))
     else None)
    true.

Record ServerWorld := mkServerWorld {
  sw_relay : RelayWorld Ws;
  sw_blobs : gmap string (list Z);
  sw_auth_limiter : gmap string WindowState;
  sw_account_limiter : gmap string WindowState }.

Notation sw_db w := (rw_db (sw_relay w)).

Definition set_sw_relay (r : RelayWorld Ws) (w : ServerWorld) : ServerWorld :=
  mkServerWorld r (sw_blobs w) (sw_auth_limiter w) (sw_account_limiter w).
Definition set_sw_auth_limiter (m : gmap string WindowState) (w : ServerWorld) : ServerWorld :=
  mkServerWorld (sw_relay w) (sw_blobs w) m (sw_account_limiter w).
Definition set_sw_account_limiter (m : gmap string WindowState) (w : ServerWorld) : ServerWorld :=
  mkServerWorld (sw_relay w) (sw_blobs w) (sw_auth_limiter w) m.

(** The parts a service works on. *)
Definition get_db (w : ServerWorld) : Database := sw_db w.
Definition put_db (db : Database) (w : ServerWorld) : ServerWorld :=
  set_sw_relay (set_rw_db db (sw_relay w)) w.
Definition get_uploads (w : ServerWorld) : AttachmentWorld := mkAttachmentWorld (sw_db w) (sw_blobs w).
Definition put_uploads (a : AttachmentWorld) (w : ServerWorld) : ServerWorld :=
  mkServerWorld (set_rw_db (aw_db a) (sw_relay w)) (aw_blobs a) (sw_auth_limiter w) (sw_account_limiter w).

(** What one request reads from outside: the wall clock at each reading, the steady
    clock, the random generators and the address of the peer. *)
Record RequestEnv := mkRequestEnv {
  en_clock : nat -> Timestamp;
  en_steady : Z;
  en_auth : AuthDraws;
  en_draw : Z * Z;
  en_client_ip : string }.

(** ** The handler monad *)

Inductive Exit (A : Type) :=
  | Next (a : A)
  | Return (r : option HttpResponse)
  | Raise.
Arguments Next {A} a.
Arguments Return {A} r.
Arguments Raise {A}.

Definition HM (A : Type) : Type := ServerWorld -> Exit A * ServerWorld.

Definition next {A} (a : A) : HM A := λ w, (Next a, w).
Definition respond {A} (r : HttpResponse) : HM A := λ w, (Return (Some r), w).
(** [break], or falling out of the function: [return std::nullopt]. *)
Definition leave {A} : HM A := λ w, (Return None, w).
Definition raise {A} : HM A := λ w, (Raise, w).
Definition hbind {A B} (c : HM A) (k : A -> HM B) : HM B := λ w,
  match c w with
  | (Next a, w') => k a w'
  | (Return r, w') => (Return r, w')
  | (Raise, w') => (Raise, w')
  end.
Definition reads {A} (f : ServerWorld -> A) : HM A := λ w, (Next (f w), w).
Definition update (f : ServerWorld -> ServerWorld) : HM unit := λ w, (Next tt, f w).
(** A service call on a part of the state; its result is inspected by the handler. *)
Definition call {S A} (get : ServerWorld -> S) (put : S -> ServerWorld -> ServerWorld) (c : M S A)
    : HM (Result A) := λ w,
  let '(r, s) := c (get w) in (Next r, put s w).

Notation "'let*' x ':=' c 'in' k" := (hbind c (λ x, k))
  (at level 200, x pattern, right associativity, format "'let*'  x  ':='  c  'in' '//' k") : vox_scope.
Notation "c ';;*' k" := (hbind c (λ _, k)) (at level 100, right associativity) : vox_scope.

Definition when (b : bool) (c : HM unit) : HM unit := if b then c else next tt.
Definition when_some {A} (x : option A) (c : A -> HM unit) : HM unit :=
  match x with Some a => c a | None => next tt end.
(** [try .. catch]-less parsing: an exception when there is no value. *)
Definition or_raise {A} (x : option A) : HM A := match x with Some a => next a | None => raise end.

(** A loop over a list that builds an array. *)
Fixpoint for_collect {A B} (body : nat -> A -> HM (option B)) (i : nat) (l : list A) : HM (list B) :=
  match l with
  | [] => next []
  | x :: l' =>
      let* b := body i x in
      let* bs := for_collect body (S i) l' in
      next (match b with Some b => b :: bs | None => bs end)
  end.

(** ** Numbers in queries *)

(** [std::stoull]: a minus sign negates modulo 2^64; [None] when it throws. *)
Definition stoull (s : string) : option Z :=
  let checked v := if v <? 2 ^ 64 then Some v else None in
  match skip_space s with
  | String c s' =>
      if byte_of_ascii c =? 45 then v ← dec_prefix s' None; (λ v, to_uint64 (- v)) <$> checked v
      else if byte_of_ascii c =? 43 then v ← dec_prefix s' None; checked v
      else v ← dec_prefix (String c s') None; checked v
  | EmptyString => None
  end.

(** ** Helpers of the answers *)

Section HttpDispatch.
Context `{SqlEngine} `{Disk} `{Argon2} `{BoostJson} (ctx : ServerContext).

(** The services, built from the configuration as in [main]. *)
Notation cfg := (ctx_config ctx).
Definition hasher : PasswordHasher :=
  mkPasswordHasher (cf_argon2_time_cost cfg) (cf_argon2_memory_cost cfg) (cf_argon2_parallelism cfg).
Definition tokens : TokenManager :=
  mkTokenManager (cf_access_token_lifetime_seconds cfg) (cf_refresh_token_lifetime_seconds cfg)
    (cf_session_token_pepper cfg).
Definition att_config : AttachmentConfig :=
  mkAttachmentConfig (cf_max_upload_size_bytes cfg) (cf_max_storage_per_user_bytes cfg)
    (cf_attachment_retention_seconds cfg) (cf_blob_storage_path cfg).

(** The hook [main] installs in the delivery manager. *)
Definition enqueue_hook (device_scope_key : string) (q : QueuedEnvelope) (r : Ws) : Ws :=
  Notify device_scope_key (json_serialize (VObject
    ([("type", VString "envelope");
      ("envelope_id", VString (q_envelope_id q));
      ("conversation_id", VString (q_conversation_id q));
      ("sender_user_id", VString (q_sender_user_id q));
      ("sender_device_id", VString (q_sender_device_id q));
      ("ciphertext", VString (q_ciphertext q));
      ("server_timestamp", VInt64 (q_server_timestamp q));
      ("envelope_type", VInt64 (q_envelope_type q))] ++
     match q_ordering_epoch q with Some z => [("ordering_epoch", VInt64 z)] | None => [] end))) r.

Definition on_db {A} (c : M Database A) : HM (Result A) := call get_db put_db c.
Definition on_relay {A} (c : M (RelayWorld Ws) A) : HM (Result A) := call sw_relay set_sw_relay c.
Definition on_uploads {A} (c : M AttachmentWorld A) : HM (Result A) := call get_uploads put_uploads c.
Definition from_db {A} (f : Database -> A) : HM A := reads (λ w, f (sw_db w)).

Definition ErrObj (e : Error) : value :=
  VObject [("error", VObject [("code", VInt64 (ErrorCode_value (code e))); ("message", VString (message e))])].

Definition JsonRes (version status : Z) (v : value) : HttpResponse :=
  mkHttpResponse status version (Some "application/json") (BodyText (json_serialize v)).

Definition ErrRes (version st : Z) (e : Error) : HttpResponse := JsonRes version st (ErrObj e).

Definition NotFoundRes (version : Z) : HttpResponse := mkHttpResponse 404 version None (BodyText EmptyString).

Definition InternalServerErrorResponse (http_version : Z) (msg : string) : HttpResponse :=
  ErrRes http_version kHttpInternalServerError (mkError kInternal msg).

Definition role_text (r : MemberRole) : string :=
  match r with kOwner => "owner" | kAdmin => "admin" | kMember => "member" end.

Definition ParseMemberRole (s : string) : MemberRole :=
  if s =s? "owner" then kOwner else if s =s? "admin" then kAdmin else kMember.

Definition ConversationType_value (t : ConversationType) : Z :=
  match t with kDm => 0 | kGroup => 1 | kChannel => 2 end.

Definition UsernameMapFromProfiles (profiles : list UserPublicProfile) : gmap string string :=
  foldl (λ m p, <[p_user_id p := p_username p]> m) ∅ profiles.

Definition SetProfileField (o : object) (names : gmap string string) (user_id json_key : string) : object :=
  set_member json_key (VOptional VString (names !! user_id)) o.

Definition DmPeerUserId (members : list MemberRecord) (self_user_id : UserId) : option UserId :=
  match head (filter (λ m, m_user_id m ≠ self_user_id) members) with
  | Some m => Some (m_user_id m)
  | None => m_user_id <$> head (filter (λ m, m_user_id m = self_user_id) members)
  end.

(** ** Push notifications *)

(** Calls of the registry happen on the state the delivery hook shares. *)
Definition ws_notify (key text : string) (w : RelayWorld Ws) : RelayWorld Ws :=
  set_rw_hook (Notify key text (rw_hook w)) w.

Definition NotifyUserDevicesExcept (user_id except_user_id : UserId) (except_device : DeviceId)
    (json_line : string) (w : RelayWorld Ws) : RelayWorld Ws :=
  if negb (ctx_ws_push ctx) then w else
  foldl (λ w d,
    if decide (d_revoked_at d ≠ None) then w else
    if (d_user_id d =s? except_user_id) && (d_device_id d =s? except_device) then w else
    ws_notify (DeviceScopeKey (d_user_id d) (d_device_id d)) json_line w)
    w (GetDevicesForUser user_id (rw_db w)).

(** The body of the loops over members and subscribers. *)
Definition notify_user_once (json_line : string) (acc : gset string * RelayWorld Ws) (uid : UserId)
    : gset string * RelayWorld Ws :=
  let '(seen, w) := acc in
  if decide (uid ∈ seen) then (seen, w) else
  ({[uid]} ∪ seen,
   foldl (λ w d, if decide (d_revoked_at d ≠ None) then w
                 else ws_notify (DeviceScopeKey (d_user_id d) (d_device_id d)) json_line w)
     w (GetDevicesForUser uid (rw_db w))).

Definition NotifyConversationMembershipChanged (conv_id : ConversationId) (w : RelayWorld Ws)
    : RelayWorld Ws :=
  if negb (ctx_ws_push ctx) then w else
  match ConversationRepository.FindById conv_id (rw_db w) with
  | None => w
  | Some conv =>
      let json_line := json_serialize (VObject
        [("type", VString "conversation_membership_changed");
         ("conversation_id", VString conv_id);
         ("membership_version", VInt64 (c_membership_version conv))]) in
      let acc := foldl (notify_user_once json_line) (∅, w)
                   (m_user_id <$> ConversationRepository.GetMembers conv_id (rw_db w)) in
      snd (if decide (c_type conv = kChannel)
           then foldl (notify_user_once json_line) acc (ConversationRepository.GetSubscribers conv_id (rw_db w))
           else acc)
  end.

Definition push (f : RelayWorld Ws -> RelayWorld Ws) : HM unit :=
  update (λ w, set_sw_relay (f (sw_relay w)) w).

(** ** One request *)

Section request.
Context (req : HttpRequest) (env : RequestEnv).
Notation ver := (rq_version req).
Notation m := (rq_method req).
Notation now := (en_clock env 0).

Definition path : string := PathOnly (rq_target req).

(** [if (!result) return ErrRes(ver, HttpStatusForError(code), error)]. *)
Definition ok_or_error {A} (c : HM (Result A)) : HM A :=
  let* r := c in
  match r with
  | Ok a => next a
  | Err e => respond (ErrRes ver (HttpStatusForError (code e)) e)
  end.

Definition fail_with {A} (status : Z) (c : ErrorCode) (msg : string) : HM A :=
  respond (ErrRes ver status (mkError c msg)).

Definition answer {A} (o : object) : HM A := respond (JsonRes ver kHttpOk (VObject o)).

Definition parse_body : HM object :=
  match ParseJsonBody (rq_body req) with
  | inl pe => respond (ErrRes ver (HttpStatusForError (code pe)) pe)
  | inr (VObject o) => next o
  | inr _ => fail_with kHttpBadRequest kInvalidArgument "JSON object expected"
  end.

(** The [limit] of the query, [dflt] when there is none. *)
Definition limit_param (dflt : Z) : HM Z :=
  match QueryParam (rq_target req) "limit" with
  | None => next dflt
  | Some l => or_raise (stoull l)
  end.

(** *** Public routes *)

Definition login_answer (r : LoginResponse) : object :=
  [("user_id", VString (lr_user_id r));
   ("access_token", VString (access_token (lr_tokens r)));
   ("refresh_token", VString (refresh_token (lr_tokens r)));
   ("device_status", VString (lr_device_status r));
   ("sync_key_version", VInt64 (lr_sync_key_version r))].

Definition post_register : HM unit :=
  let* o := parse_body in
  let* result := ok_or_error (on_db (Auth.Register hasher tokens
    (mkRegisterRequest (JsonStringOr o "username") (JsonStringOr o "password_derived_value")
       (JsonStringOr o "device_id") (JsonStringOr o "device_label") (JsonStringOr o "identity_key_public")
       (JsonStringOr o "signed_prekey_public") (JsonStringOr o "signed_prekey_signature")
       (JsonStringOr o "wrapped_sync_key") (JsonStringOr o "sync_wrap_salt") (SerializeSyncWrapParams o))
    now (en_auth env))) in
  answer (login_answer result).

Definition post_login : HM unit :=
  let* o := parse_body in
  let* result := ok_or_error (on_db (Login hasher tokens
    (mkLoginRequest (JsonStringOr o "username") (JsonStringOr o "password_derived_value")
       (JsonStringOr o "device_id") (JsonStringOr o "device_label") (JsonStringOr o "identity_key_public")
       (JsonStringOr o "signed_prekey_public") (JsonStringOr o "signed_prekey_signature"))
    now (en_auth env))) in
  let* result := or_raise result in
  answer (login_answer result).

Definition post_refresh : HM unit :=
  let* o := parse_body in
  let* result := ok_or_error (on_db (Refresh tokens
    (mkRefreshRequest (JsonStringOr o "refresh_token") (JsonStringOr o "device_id")) now (en_auth env))) in
  answer [("access_token", VString (access_token result)); ("refresh_token", VString (refresh_token result))].

Definition TryPublicAuth : HM unit :=
  if negb (bool_decide (m = VPost)) then leave else
  when (path =s? "/v1/register") post_register ;;*
  when (path =s? "/v1/login") post_login ;;*
  when (path =s? "/v1/refresh") post_refresh.

(** *** Administration *)

Definition admin_stats : HM unit :=
  let* stats := from_db (AdminService.GetServerStats now) in
  answer [("user_count", VInt64 (to_int64 (Z.of_nat (user_count stats))));
          ("device_count", VInt64 (to_int64 (Z.of_nat (device_count stats))));
          ("active_session_count", VInt64 (to_int64 (Z.of_nat (active_session_count stats))));
          ("conversation_count", VInt64 (to_int64 (Z.of_nat (conversation_count stats))));
          ("pending_envelope_count", VInt64 (to_int64 (Z.of_nat (pending_envelope_count stats))));
          ("total_storage_bytes", VInt64 (total_storage_bytes stats))].

Definition admin_delete_user (uid : UserId) : HM unit :=
  ok_or_error (on_db (AdminService.DeleteUser uid)) ;;* answer [].

Definition TryAdmin : HM unit :=
  match header "X-Admin-Token" req with
  | None => leave
  | Some token =>
    if cf_admin_token (ctx_config ctx) =s? "" then leave else
    if negb (token =s? cf_admin_token (ctx_config ctx)) then leave else
    when (bool_decide (m = VGet) && (path =s? "/v1/admin/stats")) admin_stats ;;*
    if bool_decide (m = VDelete) then when_some (strip_prefix "/v1/admin/users/" path) admin_delete_user
    else next tt
  end.

(** *** Routes of a session *)

Section session.
Context (sess : SessionRecord).
Notation uid := (s_user_id sess).
Notation did := (s_device_id sess).

Definition post_logout : HM unit :=
  ok_or_error (on_db (Logout (s_session_id sess) now)) ;;* answer [].

Definition post_change_password : HM unit :=
  let* o := parse_body in
  let* result := ok_or_error (on_db (ChangePassword hasher uid
    (mkChangePasswordRequest (JsonStringOr o "current_password_derived_value")
       (JsonStringOr o "new_password_derived_value") (JsonStringOr o "wrapped_sync_key")
       (JsonStringOr o "sync_wrap_salt") (SerializeSyncWrapParams o)) (en_auth env))) in
  let* sync_key_version := or_raise result in
  answer [("sync_key_version", VInt64 sync_key_version)].

(** The check that a body names the session's device. *)
Definition own_device (o : object) : HM unit :=
  when (negb (JsonStringOr o "device_id" =s? did))
    (fail_with kHttpForbidden kForbidden "device_id must match session device").

Definition post_messages_send : HM unit :=
  let* o := parse_body in
  own_device o ;;*
  let* result := ok_or_error (on_relay (RelayService.SendEnvelope (Some enqueue_hook)
    (cf_max_queue_depth_per_device (ctx_config ctx)) (cf_message_retention_seconds (ctx_config ctx))
    (mkSendMessageRequest uid (JsonStringOr o "device_id") (JsonStringOr o "conversation_id")
       (JsonStringOr o "ciphertext") (JsonStringOr o "envelope_id")
       (default 0 (to_int32 <$> JsonInt o "envelope_type")) (JsonInt o "ordering_epoch"))
    now (en_draw env))) in
  answer [("envelope_id", VString (sr_envelope_id result));
          ("server_timestamp", VInt64 (sr_server_timestamp result));
          ("delivered_to_count", VInt64 (to_int64 (Z.of_nat (sr_delivered_to_count result))))].

Definition post_messages_ack : HM unit :=
  let* o := parse_body in
  own_device o ;;*
  ok_or_error (on_relay (RelayService.AcknowledgeEnvelope uid (JsonStringOr o "device_id")
    (JsonStringOr o "envelope_id") now)) ;;*
  answer [].

Definition conversation_created (c : HM (Result ConversationId)) : HM unit :=
  let* id := ok_or_error c in
  push (NotifyConversationMembershipChanged id) ;;*
  answer [("conversation_id", VString id)].

Definition post_conversations : HM unit :=
  let* o := parse_body in
  let type := JsonStringOr o "type" in
  when (type =s? "dm") (conversation_created (on_db
    (ConversationService.CreateDm uid (JsonStringOr o "peer_user_id") uid now (en_draw env)))) ;;*
  when (type =s? "group") (conversation_created (on_db
    (ConversationService.CreateGroup (cf_max_group_size (ctx_config ctx)) uid (JsonStrings o "members")
       now (en_draw env)))) ;;*
  when (type =s? "channel") (conversation_created (on_db
    (ConversationService.CreateChannel (cf_max_channel_size (ctx_config ctx)) uid (JsonStrings o "admins")
       (JsonStrings o "subscribers") now (en_draw env)))) ;;*
  fail_with kHttpBadRequest kInvalidArgument "type must be dm, group, or channel".

Definition membership_changed {A} (conv_id : ConversationId) (c : HM (Result A)) : HM unit :=
  ok_or_error c ;;*
  push (NotifyConversationMembershipChanged conv_id) ;;*
  answer [].

Definition post_members (conv_id : ConversationId) : HM unit :=
  let* o := parse_body in
  let role := ParseMemberRole (default "member" (JsonString o "role")) in
  membership_changed conv_id (on_db
    (ConversationService.AddMember (cf_max_group_size (ctx_config ctx)) conv_id uid
       (JsonStringOr o "user_id") role now)).

Definition post_subscribe (conv_id : ConversationId) : HM unit :=
  membership_changed conv_id (on_db
    (ConversationService.SubscribeChannel (cf_max_channel_size (ctx_config ctx)) conv_id uid now)).

Definition post_unsubscribe (conv_id : ConversationId) : HM unit :=
  membership_changed conv_id (on_relay (ConversationService.UnsubscribeChannel conv_id uid now)).

(** The (owner, device) a prekey route names; the short form means the session's user. *)
Definition device_scope (suffix : string) : option (UserId * DeviceId) :=
  match SplitUserDeviceSubPath path suffix with
  | Some ud => Some ud
  | None => (λ legacy_id, (uid, legacy_id)) <$> SplitDeviceSubPath path suffix
  end.

Definition own_scope (scope : UserId * DeviceId) (msg : string) : HM unit :=
  when (negb (scope.1 =s? uid) || negb (scope.2 =s? did)) (fail_with kHttpForbidden kForbidden msg).

Definition uploaded_prekeys (dev_id : DeviceId) (o : object) : list PrekeyRecord :=
  match member "prekeys" o with
  | Some (VArray items) =>
      omap (λ item, match item with
                    | VObject po => Some (mkPrekeyRecord (JsonStringOr po "prekey_id") dev_id
                                            (JsonStringOr po "prekey_public") None)
                    | _ => None
                    end) items
  | _ => []
  end.

Definition post_prekeys (scope : UserId * DeviceId) : HM unit :=
  own_scope scope "Can only upload prekeys for own device" ;;*
  let* o := parse_body in
  ok_or_error (on_db (StorePrekeys scope.1 scope.2 (uploaded_prekeys scope.2 o) now)) ;;*
  answer [].

Definition post_upload_init : HM unit :=
  let* o := parse_body in
  let* result := ok_or_error (on_uploads (AttachmentService.InitUpload att_config uid
    (JsonStringOr o "conversation_id") (default 0 (JsonInt o "file_size")) (JsonStringOr o "mime_hint")
    now (en_draw env))) in
  answer [("attachment_id", VString (iu_attachment_id result)); ("blob_path", VString (iu_blob_path result))].

Definition post_finalize (attachment_id : AttachmentId) : HM unit :=
  let* o := parse_body in
  ok_or_error (on_uploads (AttachmentService.FinalizeUpload attachment_id (JsonStringOr o "ciphertext_hash"))) ;;*
  answer [].

Definition handle_post : HM unit :=
  when (path =s? "/v1/logout") post_logout ;;*
  when (path =s? "/v1/account/change-password") post_change_password ;;*
  when (path =s? "/v1/messages/send") post_messages_send ;;*
  when (path =s? "/v1/messages/ack") post_messages_ack ;;*
  when (path =s? "/v1/conversations") post_conversations ;;*
  when_some (SplitConvSubPath path) (λ '(conv_id, tail),
    when (tail =s? "members") (post_members conv_id) ;;*
    when (tail =s? "subscribe") (post_subscribe conv_id) ;;*
    when (tail =s? "unsubscribe") (post_unsubscribe conv_id)) ;;*
  when_some (device_scope "prekeys") post_prekeys ;;*
  when (path =s? "/v1/attachments/upload-init") post_upload_init ;;*
  when (starts_with kAttachPrefix path && ends_with "/finalize" path)
    (when_some (SplitAttachmentSubPath path) post_finalize).

(** *** GET *)

Definition get_me : HM unit :=
  let* u := from_db (FindUserById uid) in
  match u with
  | None => fail_with kHttpNotFound kNotFound "User not found"
  | Some u =>
      answer [("user_id", VString uid); ("username", VString (u_username u));
              ("current_device_id", VString did); ("sync_key_version", VInt64 (u_sync_key_version u))]
  end.

Definition get_me_devices : HM unit :=
  let* devs := from_db (GetDevicesForUser uid) in
  answer [("devices", VArray ((λ d, VObject
    [("device_id", VString (d_device_id d)); ("device_label", VString (d_device_label d));
     ("created_at", VInt64 (d_created_at d)); ("last_seen_at", VInt64 (d_last_seen_at d));
     ("is_current", VBool (d_device_id d =s? did));
     ("is_revoked", VBool (some (d_revoked_at d)))]) <$> devs))].

Definition get_key_bundle : HM unit :=
  let* b := from_db (GetSyncKeyBundle uid) in
  match b with
  | None => fail_with kHttpNotFound kNotFound "User not found"
  | Some b =>
      answer [("sync_key_version", VInt64 (sk_sync_key_version b));
              ("wrapped_sync_key", VString (sk_wrapped_sync_key b));
              ("sync_wrap_salt", VString (sk_sync_wrap_salt b));
              ("sync_wrap_params", match json_parse (sk_sync_wrap_params b) with
                                   | inr v => v
                                   | inl _ => VObject []
                                   end)]
  end.

Definition get_sync_changes : HM unit :=
  let coll := default EmptyString (QueryParam (rq_target req) "collection") in
  if coll =s? "" then fail_with kHttpBadRequest kInvalidArgument "collection required" else
  let* limit := limit_param kDefaultPaginationLimit in
  let cursor := default EmptyString (QueryParam (rq_target req) "cursor") in
  let* page := from_db (SyncStateRepository.ListChangesAfterCursor uid coll cursor limit) in
  answer [("collection", VString coll);
          ("changes", VArray ((λ ch, VObject
             [("record_id", VString (sr_record_id ch)); ("ciphertext", VString (sr_ciphertext ch));
              ("content_hash", VString (sr_content_hash ch)); ("version", VInt64 (sr_version ch));
              ("server_updated_at", VInt64 (sr_server_updated_at ch)); ("deleted", VBool (sr_deleted ch))])
             <$> pg_items page));
          ("next_cursor", VString (pg_next_cursor page));
          ("has_more", VBool (pg_has_more page))].

Definition get_users : HM unit :=
  let raw_ids := ParseIdsQuery (rq_target req) in
  if Nat.ltb kMaxUserBatchIds (length raw_ids)
  then fail_with kHttpBadRequest kInvalidArgument "too many ids" else
  let* profiles := from_db (FindPublicProfilesByIds raw_ids) in
  answer [("users", VArray ((λ p, VObject [("user_id", VString (p_user_id p));
                                           ("username", VString (p_username p))]) <$> profiles))].

(** The three lookups that hide disabled accounts. *)
Definition enabled_user (u : option UserRecord) : HM UserRecord :=
  match u with
  | Some u => if decide (u_disabled_at u = None) then next u
              else fail_with kHttpNotFound kNotFound "User not found"
  | None => fail_with kHttpNotFound kNotFound "User not found"
  end.

Definition get_user_by_username (uname : string) : HM unit :=
  let* u := from_db (FindByUsername uname) in
  let* u := enabled_user u in
  answer [("user_id", VString (u_user_id u)); ("username", VString (u_username u))].

Definition get_users_search : HM unit :=
  let q := default EmptyString (QueryParam (rq_target req) "q") in
  let* lim := match QueryParam (rq_target req) "limit" with
              | None => next kDefaultUserSearchLimit
              | Some l => let* lim := or_raise (stoull l) in
                          next (if kMaxUserSearchLimit <? lim then kMaxUserSearchLimit else lim)
              end in
  let* found := from_db (SearchByUsernamePrefix q lim) in
  answer [("users", VArray ((λ u, VObject [("user_id", VString (u_user_id u));
                                           ("username", VString (u_username u))]) <$> found))].

(** The members of a bundle's JSON, with the one-time prekey when there is one. *)
Definition bundle_fields (pb : PrekeyBundle) : object :=
  [("identity_key_public", VString (pb_identity_key_public pb));
   ("signed_prekey_public", VString (pb_signed_prekey_public pb));
   ("signed_prekey_signature", VString (pb_signed_prekey_signature pb))] ++
  match pb_one_time_prekey_public pb with Some k => [("one_time_prekey_public", VString k)] | None => [] end ++
  match pb_one_time_prekey_id pb with Some i => [("one_time_prekey_id", VString i)] | None => [] end.

(** [/v1/users/{id}{suffix}] where the path ends in the suffix: the id. *)
Definition user_suffix (suffix : string) (c : UserId -> HM unit) : HM unit :=
  when_some (strip_suffix suffix path) (λ base,
    if base =s? "" then leave else
    match strip_prefix kUsersPrefix base with
    | None => leave
    | Some id => c id
    end).

Definition get_prekey_bundles (id : UserId) : HM unit :=
  let* u := from_db (FindUserById id) in
  let* u := enabled_user u in
  let* devs := from_db (GetDevicesForUser id) in
  let* bundles := for_collect (λ i d,
    if decide (d_revoked_at d ≠ None) then next None else
    let* pb := on_db (GetPrekeyBundle id (d_device_id d) (en_clock env i)) in
    next match pb with
         | Err _ => None
         | Ok pb => Some (VObject ([("device_id", VString (d_device_id d));
                                    ("device_label", VString (d_device_label d))] ++ bundle_fields pb))
         end) 0 devs in
  answer [("user_id", VString (u_user_id u)); ("username", VString (u_username u));
          ("bundles", VArray bundles)].

Definition get_user_devices (id : UserId) : HM unit :=
  let* u := from_db (FindUserById id) in
  enabled_user u ;;*
  let* devs := from_db (λ db, (λ d, VObject
    [("device_id", VString (d_device_id d)); ("device_label", VString (d_device_label d));
     ("is_revoked", VBool false);
     ("has_prekeys", VBool (Nat.ltb 0 (CountAvailableOneTimePrekeys id (d_device_id d) db)))])
    <$> filter (λ d, d_revoked_at d = None) (GetDevicesForUser id db)) in
  answer [("devices", VArray devs)].

Definition get_user (rest : string) : HM unit :=
  if contains_char slash rest then leave else
  if (rest =s? "search") || starts_with "by-username" rest then leave else
  let* u := from_db (FindUserById rest) in
  let* u := enabled_user u in
  answer [("user_id", VString (u_user_id u)); ("username", VString (u_username u))].

Definition not_a_member {A} : HM A :=
  fail_with kHttpForbidden kForbidden "Not a member of this conversation".

(** The members only a direct message has. *)
Definition dm_fields (conv : ConversationRow) (db : Database) : object :=
  if decide (c_type conv = kDm)
  then [("peer_user_id", VOptional VString
           (DmPeerUserId (ConversationRepository.GetMembers (c_conversation_id conv) db) uid))]
  else [].

Definition channel_fields (conv : ConversationRow) : object :=
  let pol := ParsePolicyBlob (c_policy_blob conv) in
  if decide (c_type conv = kChannel)
  then [("title", default (VString EmptyString) (member "title" pol));
        ("channel_post_policy", VString (default "admins_only" (JsonString pol "channel_post_policy")))]
  else [].

Definition my_role_fields (conv : ConversationRow) (mem : option MemberRecord) : object :=
  match mem with
  | Some mem => [("my_role", VString (role_text (m_role mem)))]
  | None => if decide (c_type conv = kChannel) then [("my_role", VString "member")] else []
  end.

Definition get_conversation (conv_id : ConversationId) : HM unit :=
  let* conv := from_db (ConversationRepository.FindById conv_id) in
  match conv with
  | None => fail_with kHttpNotFound kNotFound "Conversation not found"
  | Some conv =>
      let* is_in := from_db (ConversationRepository.IsUserInConversation conv_id uid) in
      if negb is_in then not_a_member else
      let* prof := from_db (FindPublicProfilesByIds [c_created_by conv]) in
      let* dm := from_db (dm_fields conv) in
      let* mem := from_db (ConversationRepository.GetMember conv_id uid) in
      answer ([("conversation_id", VString (c_conversation_id conv));
               ("type", VInt64 (ConversationType_value (c_type conv)));
               ("created_by", VString (c_created_by conv));
               ("created_by_username", VOptional (λ p, VString (p_username p)) (head prof));
               ("created_at", VInt64 (c_created_at conv));
               ("membership_version", VInt64 (c_membership_version conv))]
              ++ dm ++ channel_fields conv ++ my_role_fields conv mem)
  end.

Definition member_object (names : gmap string string) (mr : MemberRecord) : value :=
  VObject (set_member "role" (VString (role_text (m_role mr)))
    (SetProfileField [("user_id", VString (m_user_id mr))] names (m_user_id mr) "username")).

(** DM and group: all members. *)
Definition get_group_members (conv_id : ConversationId) (crec : ConversationRow) : HM unit :=
  let* mems := from_db (ConversationRepository.GetMembers conv_id) in
  let* profiles := from_db (FindPublicProfilesByIds (m_user_id <$> mems)) in
  answer [("conversation_id", VString conv_id);
          ("membership_version", VInt64 (c_membership_version crec));
          ("members", VArray (member_object (UsernameMapFromProfiles profiles) <$> mems))].

(** Channel: the admins, and the subscribers for an admin only. *)
Definition get_channel_members (conv_id : ConversationId) (crec : ConversationRow) : HM unit :=
  let* actor := from_db (ConversationRepository.GetMember conv_id uid) in
  let is_admin := match actor with
                  | Some a => bool_decide (m_role a = kOwner) || bool_decide (m_role a = kAdmin)
                  | None => false
                  end in
  let* admin_rows := from_db (ConversationRepository.GetMembers conv_id) in
  let* subscribers := from_db (ConversationRepository.GetSubscribers conv_id) in
  let admin_set := list_to_set (m_user_id <$> admin_rows) : gset string in
  let others := filter (λ su, su ∉ admin_set) subscribers in
  let* profiles := from_db (FindPublicProfilesByIds
    ((m_user_id <$> admin_rows) ++ if is_admin then others else [])) in
  let name_map := UsernameMapFromProfiles profiles in
  answer ([("conversation_id", VString conv_id);
           ("membership_version", VInt64 (c_membership_version crec));
           ("admins", VArray (member_object name_map <$> admin_rows))] ++
          if is_admin
          then [("subscribers", VArray ((λ su, VObject (set_member "role" (VString "member")
                   (SetProfileField [("user_id", VString su)] name_map su "username"))) <$> others))]
          else [("subscription_state", VString "subscribed");
                ("member_count", VInt64 (to_int64 (Z.of_nat (length subscribers))))]).

Definition get_members (conv_id : ConversationId) : HM unit :=
  let* is_in := from_db (ConversationRepository.IsUserInConversation conv_id uid) in
  if negb is_in then not_a_member else
  let* crec := from_db (ConversationRepository.FindById conv_id) in
  match crec with
  | None => fail_with kHttpNotFound kNotFound "Conversation not found"
  | Some crec =>
      match c_type crec with
      | kDm | kGroup => get_group_members conv_id crec
      | kChannel => get_channel_members conv_id crec
      end
  end.

Definition envelope_object (e : EnvelopeRecord) : value :=
  VObject ([("envelope_id", VString (e_envelope_id e)); ("conversation_id", VString (e_conversation_id e));
            ("sender_user_id", VString (e_sender_user_id e)); ("sender_device_id", VString (e_sender_device_id e));
            ("ciphertext", VString (e_ciphertext e)); ("server_timestamp", VInt64 (e_server_timestamp e));
            ("envelope_type", VInt64 (e_envelope_type e))] ++
           match e_ordering_epoch e with Some z => [("ordering_epoch", VInt64 z)] | None => [] end).

Definition envelopes_answer (l : list EnvelopeRecord) (next_cursor : string) (has_more : bool) : HM unit :=
  answer [("envelopes", VArray (envelope_object <$> l)); ("next_cursor", VString next_cursor);
          ("has_more", VBool has_more)].

Definition get_sync_pending : HM unit :=
  let* limit := limit_param kDefaultPaginationLimit in
  let cursor := default EmptyString (QueryParam (rq_target req) "cursor") in
  let* page := from_db (EnvelopeRepository.GetPendingForDeviceCursored uid did cursor limit) in
  envelopes_answer (pg_items page) (pg_next_cursor page) (pg_has_more page).

Definition get_envelopes (conv_id : ConversationId) : HM unit :=
  let* is_in := from_db (ConversationRepository.IsUserInConversation conv_id uid) in
  if negb is_in then not_a_member else
  let* limit := limit_param kDefaultPaginationLimit in
  let cursor := default EmptyString (QueryParam (rq_target req) "cursor") in
  match QueryParam (rq_target req) "since" with
  | Some s =>
      if cursor =s? "" then
        let* since := or_raise (stoll s) in
        let* l := from_db (EnvelopeRepository.ListForConversation conv_id since limit) in
        envelopes_answer l EmptyString false
      else
        let* page := from_db (EnvelopeRepository.ListForConversationCursored conv_id cursor limit) in
        envelopes_answer (pg_items page) (pg_next_cursor page) (pg_has_more page)
  | None =>
      let* page := from_db (EnvelopeRepository.ListForConversationCursored conv_id cursor limit) in
      envelopes_answer (pg_items page) (pg_next_cursor page) (pg_has_more page)
  end.

Definition conversation_object (names : gmap string string) (db : Database) (c : ConversationRecord) : value :=
  let row := cr_conversation c in
  VObject (SetProfileField [("conversation_id", VString (c_conversation_id row));
                            ("type", VInt64 (ConversationType_value (c_type row)));
                            ("created_by", VString (c_created_by row))]
             names (c_created_by row) "created_by_username"
           ++ [("created_at", VInt64 (c_created_at row));
               ("membership_version", VInt64 (c_membership_version row))]
           ++ dm_fields row db
           ++ [("last_activity_at", VOptional VInt64 (cr_last_activity_at c))]).

Definition get_conversations : HM unit :=
  let* list := from_db (ConversationService.ListForUser uid) in
  let* profiles := from_db (FindPublicProfilesByIds ((λ c, c_created_by (cr_conversation c)) <$> list)) in
  let* arr := from_db (λ db, conversation_object (UsernameMapFromProfiles profiles) db <$> list) in
  answer [("conversations", VArray arr)].

Definition get_user_device_bundle (scope : UserId * DeviceId) : HM unit :=
  let* result := ok_or_error (on_db (GetPrekeyBundle scope.1 scope.2 now)) in
  answer ([("user_id", VString scope.1); ("device_id", VString scope.2)] ++ bundle_fields result).

Definition get_device_bundle (device_id : DeviceId) : HM unit :=
  let* matches := from_db (FindAllByDeviceId device_id) in
  match matches with
  | [] => fail_with kHttpNotFound kNotFound "Device not found"
  | [dev] => get_user_device_bundle (d_user_id dev, device_id)
  | _ => fail_with kHttpBadRequest kInvalidArgument
           "device_id is ambiguous; use /v1/users/{user_id}/devices/{device_id}/prekey-bundle"
  end.

(** The blob is opened for reading; the file system may refuse. *)
Definition get_attachment (attachment_id : AttachmentId) : HM unit :=
  let* blob := ok_or_error (on_uploads (AttachmentService.GetAttachment attachment_id uid)) in
  let* found := reads (λ w, some (sw_blobs w !! blob)) in
  if found && can_open blob
  then respond (mkHttpResponse 200 ver (Some "application/octet-stream") (BodyFile blob))
  else fail_with (HttpStatusForError kInternal) kInternal "Cannot open attachment blob".

Definition handle_get : HM unit :=
  when (path =s? "/v1/me") get_me ;;*
  when (path =s? "/v1/me/devices") get_me_devices ;;*
  when (path =s? "/v1/sync/key-bundle") get_key_bundle ;;*
  when (starts_with "/v1/sync/changes" path) get_sync_changes ;;*
  when (path =s? "/v1/users") get_users ;;*
  when_some (strip_prefix "/v1/users/by-username/" path) get_user_by_username ;;*
  when (path =s? "/v1/users/search") get_users_search ;;*
  user_suffix "/prekey-bundles" get_prekey_bundles ;;*
  user_suffix "/devices" get_user_devices ;;*
  when_some (strip_prefix kUsersPrefix path) get_user ;;*
  when_some (ConversationIdOnly path) get_conversation ;;*
  when_some (SplitConvSubPath path) (λ '(conv_id, tail), when (tail =s? "members") (get_members conv_id)) ;;*
  when (path =s? "/v1/sync/pending") get_sync_pending ;;*
  when_some (SplitConvSubPath path) (λ '(conv_id, tail), when (tail =s? "envelopes") (get_envelopes conv_id)) ;;*
  when (path =s? "/v1/conversations") get_conversations ;;*
  when_some (SplitUserDeviceSubPath path "prekey-bundle") get_user_device_bundle ;;*
  when_some (SplitDeviceSubPath path "prekey-bundle") get_device_bundle ;;*
  when (starts_with kAttachPrefix path && negb (string_find "/chunk" path)
        && negb (string_find "/finalize" path))
    (when_some (SplitAttachmentSubPath path) get_attachment).

(** *** PUT *)

(** The event for the other devices of the session's user. *)
Definition push_own (evt : object) : HM unit :=
  push (NotifyUserDevicesExcept uid uid did (json_serialize (VObject evt))).

Definition devices_changed : object := [("type", VString "user_devices_changed"); ("user_id", VString uid)].

Definition put_key_bundle : HM unit :=
  let* o := parse_body in
  let* u := from_db (FindUserById uid) in
  match u with
  | None => fail_with kHttpNotFound kNotFound "User not found"
  | Some u =>
      let version := i32_add (u_sync_key_version u) 1 in
      ok_or_error (on_db (SetSyncKeyBundle uid
        (mkSyncKeyBundleRecord version (JsonStringOr o "wrapped_sync_key") (JsonStringOr o "sync_wrap_salt")
           (SerializeSyncWrapParams o)))) ;;*
      push_own devices_changed ;;*
      answer [("sync_key_version", VInt64 version)]
  end.

Definition record_changed (collection record_id : string) (version : Z) : object :=
  [("type", VString "sync_record_changed"); ("collection", VString collection);
   ("record_id", VString record_id); ("version", VInt64 version)].

Definition put_sync_record (sr : string * string) : HM unit :=
  let* o := parse_body in
  own_device o ;;*
  let* result := ok_or_error (on_db (SyncStateRepository.UpsertRecord uid sr.1 sr.2
    (JsonStringOr o "ciphertext") (JsonStringOr o "content_hash")
    (to_int32 (default 0 (JsonInt o "base_version"))) now)) in
  push_own (record_changed sr.1 sr.2 (sp_version result)) ;;*
  answer [("record_id", VString (sp_record_id result)); ("version", VInt64 (sp_version result));
          ("server_updated_at", VInt64 (sp_server_updated_at result))].

Definition put_signed_prekey (scope : UserId * DeviceId) : HM unit :=
  own_scope scope "Can only rotate signed prekey for own device" ;;*
  let* o := parse_body in
  ok_or_error (on_db (UpdateSignedPrekey scope.1 scope.2 (JsonStringOr o "signed_prekey_public")
    (JsonStringOr o "signed_prekey_signature") now)) ;;*
  push_own devices_changed ;;*
  answer [].

Definition put_chunk (attachment_id : AttachmentId) : HM unit :=
  let* offset := match QueryParam (rq_target req) "offset" with
                 | None => next 0
                 | Some off => or_raise (stoll off)
                 end in
  ok_or_error (on_uploads (AttachmentService.WriteChunk attachment_id offset (bytes_of_string (rq_body req)))) ;;*
  answer [].

Definition handle_put : HM unit :=
  when (path =s? "/v1/sync/key-bundle") put_key_bundle ;;*
  when_some (SplitSyncRecordPath path) put_sync_record ;;*
  when_some (device_scope "signed-prekey") put_signed_prekey ;;*
  when (starts_with kAttachPrefix path && string_find "/chunk" path)
    (when_some (SplitAttachmentSubPath path) put_chunk).

(** *** DELETE *)

Definition delete_device (target : DeviceId) : HM unit :=
  if target =s? "" then leave else
  if target =s? did then fail_with kHttpBadRequest kInvalidArgument "Cannot revoke current device" else
  let* dev := from_db (FindByUserAndDevice uid target) in
  match dev with
  | None => fail_with kHttpNotFound kNotFound "Device not found"
  | Some _ =>
      ok_or_error (on_db (RevokeDevice uid target now)) ;;*
      ok_or_error (on_db (SessionRepository.RevokeAllForDevice uid target now)) ;;*
      push_own devices_changed ;;*
      answer []
  end.

Definition delete_sync_record (sr : string * string) : HM unit :=
  let* o := parse_body in
  own_device o ;;*
  let* result := ok_or_error (on_db (SyncStateRepository.TombstoneRecord uid sr.1 sr.2
    (to_int32 (default 0 (JsonInt o "base_version"))) now)) in
  push_own (record_changed sr.1 sr.2 (sp_version result)) ;;*
  answer [("record_id", VString (sp_record_id result)); ("version", VInt64 (sp_version result));
          ("server_updated_at", VInt64 (sp_server_updated_at result)); ("deleted", VBool true)].

Definition delete_member (conv_id : ConversationId) (target_user : UserId) : HM unit :=
  membership_changed conv_id (on_relay (ConversationService.RemoveMember conv_id uid target_user now)).

Definition handle_delete : HM unit :=
  when_some (strip_prefix "/v1/me/devices/" path) delete_device ;;*
  when_some (SplitSyncRecordPath path) delete_sync_record ;;*
  when_some (SplitConvSubPath path) (λ '(conv_id, tail),
    when_some (strip_prefix "members/" tail) (delete_member conv_id)).

Definition HandleAuthenticated : HM unit :=
  match m with
  | VPost => handle_post
  | VGet => handle_get
  | VPut => handle_put
  | VDelete => handle_delete
  | VOther _ => next tt
  end.
End session.

(** *** The whole dispatch *)

(** [if (auto r = ..) return *r]: a handler that gives no response falls through. *)
Definition try_routes (c : HM unit) : HM unit := λ w,
  match c w with
  | (Return None, w') => (Next tt, w')
  | r => r
  end.

(** [Allow] on one of the two limiters. *)
Definition allow_auth (lim : AuthRateLimiter) (key : string) : HM bool := λ w,
  let '(b, s) := RateLimiter.Allow lim key (en_steady env) (sw_auth_limiter w) in
  (Next b, set_sw_auth_limiter s w).
Definition allow_account (lim : AuthRateLimiter) (key : string) : HM bool := λ w,
  let '(b, s) := RateLimiter.Allow lim key (en_steady env) (sw_account_limiter w) in
  (Next b, set_sw_account_limiter s w).

Definition auth_route : bool :=
  bool_decide (m = VPost) && one_of ["/v1/register"; "/v1/login"; "/v1/refresh"] path.

Definition heavy_route : bool :=
  (bool_decide (m = VPost) && (path =s? "/v1/messages/send")) ||
  (bool_decide (m = VPut) && starts_with kAttachPrefix path && string_find "/chunk" path).

Definition too_many {A} : HM A := fail_with (HttpStatusForError kRateLimited) kRateLimited "Too many requests".

(** The guards before any route. *)
Definition check_size : HM unit :=
  when (cf_max_http_body_bytes (ctx_config ctx) <? Z.of_nat (String.length (rq_body req)))
    (fail_with (HttpStatusForError kPayloadTooLarge) kPayloadTooLarge "Request body too large").

Definition limit_auth : HM unit :=
  when_some (ctx_auth_rate_limiter ctx) (λ lim, when auth_route (
    let* allowed := allow_auth lim (if en_client_ip env =s? "" then "unknown" else en_client_ip env) in
    if allowed then next tt else too_many)).

Definition limit_account (sess : SessionRecord) : HM unit :=
  when_some (ctx_account_rate_limiter ctx) (λ lim, when heavy_route (
    let* allowed := allow_account lim (s_user_id sess) in
    if allowed then next tt else too_many)).

Definition dispatch (session : option SessionRecord) : HM unit :=
  check_size ;;*
  limit_auth ;;*
  when (bool_decide (m = VGet) && (path =s? "/v1/health")) (answer [("status", VString "ok")]) ;;*
  try_routes TryPublicAuth ;;*
  try_routes TryAdmin ;;*
  match session with
  | None =>
      if negb (IsKnownProtectedRoute m path) then respond (NotFoundRes ver)
      else fail_with kHttpUnauthorized kUnauthorized "Authentication required"
  | Some sess =>
      limit_account sess ;;*
      try_routes (HandleAuthenticated sess) ;;*
      respond (NotFoundRes ver)
  end.

(** [None]: an exception leaves the function. *)
Definition DispatchHttp (session : option SessionRecord) (w : ServerWorld)
    : option HttpResponse * ServerWorld :=
  match dispatch session w with
  | (Return r, w') => (r, w')
  | (Next _, w') => (None, w')
  | (Raise, w') => (None, w')
  end.

(** *** The session around it (lib/vox_net/http_session.cpp) *)

Definition ParseBearer : option string :=
  match header "Authorization" req with
  | None => None
  | Some v => match strip_prefix "Bearer " v with
              | Some t => if t =s? "" then None else Some t
              | None => None
              end
  end.

(** The session a request runs in: none when the token does not validate. *)
Definition request_session (clock : Timestamp) (w : ServerWorld) : option SessionRecord :=
  match ParseBearer with
  | None => None
  | Some token =>
      match ValidateAccessToken tokens token clock (sw_db w) with
      | (Ok s, _) => Some s
      | (Err _, _) => None
      end
  end.

(** The part of [HttpSession::OnRead] for a request that is not an upgrade: an exception becomes
    a response of its own, what was done before it stays. *)
Definition serve_request (clock : Timestamp) (w : ServerWorld) : HttpResponse * ServerWorld :=
  match DispatchHttp (request_session clock w) w with
  | (Some r, w') => (r, w')
  | (None, w') => (InternalServerErrorResponse ver "Internal server error", w')
  end.
End request.
End HttpDispatch.

(** ** A small concrete server *)

(** A stand-in for the JSON library: every body reads as the same document, which names
    a new account with its device, and every document prints as the same text. *)
Definition toy_json : BoostJson := {|
  json_parse := λ body, if body =s? "" then inl "incomplete JSON" else inr (VObject
    [("username", VString body); ("password_derived_value", VString "pw"); ("device_id", VString "d1");
     ("identity_key_public", VString "ik"); ("signed_prekey_public", VString "spk");
     ("signed_prekey_signature", VString "sig"); ("wrapped_sync_key", VString "wk");
     ("sync_wrap_salt", VString "ws"); ("sync_wrap_params", VString "wp")]);
  json_serialize := λ _, "json"
|}.

Definition sample_ctx : ServerContext :=
  main_context (set_admin_token "secret" (set_session_token_pepper "pepper" Default)).

Definition sample_env (n : Z) : RequestEnv :=
  mkRequestEnv (λ _, 1000) 0 (sample_auth_draws n) (n, 9) "127.0.0.1".

Definition sample_request (m : verb) (target : string) (headers : list (string * string)) (body : string)
    : HttpRequest :=
  mkHttpRequest m target 11 headers body.
