(* ===== verification/Startup.v ===== *)
(** * Startup (bin/main.cpp)

    How [main] puts the configuration together before it builds the server: defaults,
    configuration file, environment, command line.  The file system and the environment
    of the process are arguments. *)

From S2P Require Import Prelude Types Hex Paging Config HttpPath HttpDispatch.

(** What [main] reads from its surroundings: three environment variables, the path of
    [vox.conf] in the working directory, which paths exist, and what they hold. *)
Record StartEnv := mkStartEnv {
  se_config_file : option string;
  se_session_pepper : option string;
  se_admin_token : option string;
  se_implicit : string;
  se_exists : string -> bool;
  se_read : string -> option string }.

(** The usage text, exit status 1 with a message, an exception that leaves [main], or
    a server that is built from the configuration. *)
Inductive Startup :=
  | ShowUsage
  | Fatal (msg : string)
  | Uncaught
  | RunServer (config : ServerConfig).

(** [std::stoi]: [None] when it throws. *)
Definition stoi (s : string) : option Z :=
  v ← stoll s;
  if (- 2 ^ 31 <=? v) && (v <? 2 ^ 31) then Some v else None.

Definition wants_help (argv : list string) : bool :=
  existsb (λ arg, (arg =s? "--help") || (arg =s? "-h")) argv.

(** The first loop over the arguments: the last [--config] wins. *)
Fixpoint explicit_config (argv : list string) (found : option string) : option string :=
  match argv with
  | arg :: (value :: argv'') as argv' =>
      if arg =s? "--config" then explicit_config argv'' (Some value) else explicit_config argv' found
  | _ => found
  end.

Definition config_to_load (argv : list string) (e : StartEnv) : option string :=
  match explicit_config argv None with
  | Some p => Some p
  | None =>
      match se_config_file e with
      | Some p => if negb (p =s? "") then Some p
                  else if se_exists e (se_implicit e) then Some (se_implicit e) else None
      | None => if se_exists e (se_implicit e) then Some (se_implicit e) else None
      end
  end.

(** The body of the last loop for one option; [None]: the conversion throws. *)
Definition apply_option (arg value : string) (c : ServerConfig) : option ServerConfig :=
  if arg =s? "--config" then Some c
  else if arg =s? "--listen" then Some (set_listen_address value c)
  else if arg =s? "--port" then (λ v, set_listen_port (wrap_u 16 v) c) <$> stoi value
  else if arg =s? "--db" then Some (set_db_path value c)
  else if arg =s? "--blobs" then Some (set_blob_storage_path value c)
  else if arg =s? "--threads" then (λ v, set_network_thread_count v c) <$> stoull value
  else if arg =s? "--session-pepper" then Some (set_session_token_pepper value c)
  else if arg =s? "--admin-token" then Some (set_admin_token value c)
  else Some c.

Definition takes_value (arg : string) : bool :=
  one_of ["--config"; "--listen"; "--port"; "--db"; "--blobs"; "--threads"; "--session-pepper"; "--admin-token"] arg.

(** The last loop: an option that takes a value and has one takes two arguments,
    everything else one. *)
Fixpoint apply_args (argv : list string) (c : ServerConfig) : option ServerConfig :=
  match argv with
  | arg :: (value :: argv'') as argv' =>
      if takes_value arg then apply_option arg value c ≫= apply_args argv'' else apply_args argv' c
  | _ => Some c
  end.

Definition apply_environment (e : StartEnv) (c : ServerConfig) : ServerConfig :=
  let c1 := match se_session_pepper e with Some p => set_session_token_pepper p c | None => c end in
  match se_admin_token e with Some p => set_admin_token p c1 | None => c1 end.

(** [main] up to the point where the server is built. *)
Definition main (argv : list string) (e : StartEnv) : Startup :=
  if wants_help argv then ShowUsage else
  match match config_to_load argv e with
        | None => inr Default
        | Some p => match LoadServerConfigFile (se_read e p) Default with
                    | (c, None) => inr c
                    | (_, Some err) => inl ("Fatal: config file " +:+ p +:+ ": " +:+ err)
                    end
        end with
  | inl msg => Fatal msg
  | inr c =>
      match apply_args argv (apply_environment e c) with
      | None => Uncaught
      | Some c =>
          if cf_session_token_pepper c =s? ""
          then Fatal "Fatal: set VOX_SESSION_PEPPER or --session-pepper to a non-empty secret."
          else RunServer c
      end
  end.

(** ** What the command line says *)

(** The options as a reader of the command line pairs them. *)
Fixpoint options (argv : list string) : list (string * string) :=
  match argv with
  | arg :: (value :: argv'') as argv' =>
      if takes_value arg then (arg, value) :: options argv'' else options argv'
  | _ => []
  end.

(** The last value given for a flag. *)
Definition given (flag : string) (argv : list string) : option string := last_named flag (options argv).

(** The file [VOX_CONFIG_FILE] names (an empty value names none), and [vox.conf] in the
    working directory when there is one. *)
Definition named_file (e : StartEnv) : option string :=
  p ← se_config_file e; if p =s? "" then None else Some p.
Definition local_file (e : StartEnv) : option string :=
  if se_exists e (se_implicit e) then Some (se_implicit e) else None.

(** A number's member of [c] is what the last line of the file with its key says, and
    the default without such a line. *)
Definition number_from_file (text : option string) (key : string) (w : width) (get : ServerConfig -> Z)
    (c : ServerConfig) : Prop :=
  match text ≫= file_value key with
  | Some v => number w v = Some (get c)
  | None => get c = get Default
  end.

Lemma stoi_int32 s v : stoi s = Some v -> in_int32 v.
Proof.
  unfold stoi, in_int32. destruct (stoll s) as [x|]; simpl; [|done]. case_match eqn:E; [|done].
  intros [= <-]. apply andb_true_iff in E as [E1%Z.leb_le E2%Z.ltb_lt]. lia.
Qed.

Lemma dec_prefix_nonneg s acc v :
  0 <= default 0 acc -> dec_prefix s acc = Some v -> 0 <= v.
Proof.
  revert acc. induction s as [|c s IH]; intros acc Ha; simpl.
  - intros ->. by simpl in Ha.
  - destruct (dec_value c) as [d|] eqn:E; [|by intros ->]. apply IH. simpl.
    unfold dec_value in E. case_match eqn:E'; [|done]. injection E as <-.
    apply andb_true_iff in E' as [E1%Z.leb_le _]. lia.
Qed.

Lemma stoull_uint64 s v : stoull s = Some v -> in_uint64 v.
Proof.
  unfold stoull, in_uint64. destruct (skip_space s) as [|c s']; [done|].
  assert (Hpos : ∀ t x, dec_prefix t None = Some x -> 0 <= x) by (intros t x; by apply dec_prefix_nonneg).
  destruct (byte_of_ascii c =? 45); [|destruct (byte_of_ascii c =? 43)];
    (destruct (dec_prefix _ None) as [x|] eqn:E; simpl; [|done]); apply Hpos in E;
    destruct (Z.ltb_spec x (2 ^ 64)); simpl; try done; intros [= <-]; [|lia..].
  unfold to_uint64, wrap_u. apply Z.mod_pos_bound. lia.
Qed.

(** The loop, over the options. *)
Lemma apply_args_options argv c : apply_args argv c = assign_all apply_option (options argv) c.
Proof.
  remember (length argv) as n eqn:Hn. revert argv c Hn. induction n as [n IH] using lt_wf_ind. intros argv c ->.
  destruct argv as [|arg [|value argv]]; [done|done|].
  change (apply_args (arg :: value :: argv) c) with
    (if takes_value arg then apply_option arg value c ≫= apply_args argv else apply_args (value :: argv) c).
  change (options (arg :: value :: argv)) with
    (if takes_value arg then (arg, value) :: options argv else options (value :: argv)).
  destruct (takes_value arg).
  - simpl. destruct (apply_option arg value c) as [c'|]; simpl; [|done]. apply (IH (length argv)); simpl; lia.
  - apply (IH (length (value :: argv))); simpl; lia.
Qed.

(** The first loop finds the last [--config], unless an option has that very word as
    its value. *)
Lemma explicit_config_given argv found :
  "--config" ∉ (options argv).*2 -> explicit_config argv found = given "--config" argv ∪ found.
Proof.
  unfold given, last_named. remember (length argv) as n eqn:Hn. revert argv found Hn.
  induction n as [n IH] using lt_wf_ind. intros argv found ->.
  destruct argv as [|arg [|value argv]]; [by destruct found..|].
  change (explicit_config (arg :: value :: argv) found) with
    (if arg =s? "--config" then explicit_config argv (Some value) else explicit_config (value :: argv) found).
  change (options (arg :: value :: argv)) with
    (if takes_value arg then (arg, value) :: options argv else options (value :: argv)).
  destruct (String.eqb_spec arg "--config") as [->|Ha].
  - change (takes_value "--config") with true. cbv iota. rewrite fmap_cons, not_elem_of_cons. intros [_ Hv].
    rewrite (IH (length argv)) by (simpl; done || lia). rewrite filter_cons_True by done.
    destruct (filter _ (options argv)) as [|kv l]; simpl; [by destruct found|].
    by destruct (last (kv :: l)) as [[]|] eqn:El; [destruct found|apply last_None in El].
  - destruct (takes_value arg).
    + rewrite fmap_cons, not_elem_of_cons. intros [Hne Hv]. rewrite filter_cons_False by done.
      rewrite <- (IH (length argv)) by (simpl; done || lia).
      destruct argv as [|x argv]; [done|].
      change (explicit_config (value :: x :: argv) found) with
        (if value =s? "--config" then explicit_config argv (Some x) else explicit_config (x :: argv) found).
      destruct (String.eqb_spec value "--config") as [->|_]; [|done]. by destruct Hne.
    + apply (IH (length (value :: argv))); simpl; lia.
Qed.

Ltac option_cases :=
  unfold apply_option; intros; repeat case_match; simplify_option_eq;
  repeat match goal with E : (?x =s? ?y) = true |- _ => apply String.eqb_eq in E end; subst; done.

(** No option sets a member but the seven it names. *)
Lemma apply_option_number k v c c' key w get :
  apply_option k v c = Some c' -> (key, w, get) ∈ number_members -> key ≠ "listen_port" ->
  key ≠ "network_thread_count" -> get c' = get c.
Proof.
  intros Ho Hin Hp Ht. unfold number_members in Hin. unfold apply_option in Ho.
  repeat case_match; simplify_option_eq; each_member Hin; first [reflexivity|by destruct Hp|by destruct Ht].
Qed.

Lemma apply_options_number kvs c c' key w get :
  assign_all apply_option kvs c = Some c' -> (key, w, get) ∈ number_members -> key ≠ "listen_port" ->
  key ≠ "network_thread_count" -> get c' = get c.
Proof.
  intros Hr Hin Hp Ht. revert c Hr. induction kvs as [|[k v] kvs IH]; intros c; simpl; [by intros [= ->]|].
  destruct (apply_option k v c) as [c1|] eqn:E; simpl; [|done]. intros ->%IH. by eapply apply_option_number.
Qed.

Lemma apply_option_typed k v c c' : apply_option k v c = Some c' -> config_typed c -> config_typed c'.
Proof.
  unfold apply_option. intros Ho Ht.
  destruct (k =s? "--config"); [by simplify_eq|]. destruct (k =s? "--listen"); [by simplify_eq|].
  destruct (k =s? "--port").
  { destruct (stoi v) as [x|]; [|done]. injection Ho as <-.
    assert (in_uint16 (wrap_u 16 x)) by (apply Z.mod_pos_bound; lia). unfold config_typed in *. simpl in *. tauto. }
  destruct (k =s? "--db"); [by simplify_eq|]. destruct (k =s? "--blobs"); [by simplify_eq|].
  destruct (k =s? "--threads").
  { destruct (stoull v) as [x|] eqn:E; [|done]. injection Ho as <-. apply stoull_uint64 in E.
    unfold config_typed in *. simpl in *. tauto. }
  destruct (k =s? "--session-pepper"); [by simplify_eq|]. destruct (k =s? "--admin-token"); by simplify_eq.
Qed.

Lemma apply_options_typed kvs c c' : assign_all apply_option kvs c = Some c' -> config_typed c -> config_typed c'.
Proof.
  revert c. induction kvs as [|[k v] kvs IH]; intros c; simpl; [by intros [= <-]|].
  destruct (apply_option k v c) as [c1|] eqn:E; simpl; [|done]. intros Hr Hc. apply (IH c1 Hr).
  by apply (apply_option_typed k v c).
Qed.

(** A server that runs has read its file, then the environment, then the command line. *)
Lemma main_RunServer argv e c :
  main argv e = RunServer c ->
  ∃ c0, apply_args argv (apply_environment e c0) = Some c ∧ cf_session_token_pepper c ≠ "" ∧
    match config_to_load argv e with
    | Some p => LoadServerConfigFile (se_read e p) Default = (c0, None)
    | None => c0 = Default
    end.
Proof.
  unfold main. destruct (wants_help argv); [done|]. intros Hm.
  destruct (config_to_load argv e) as [p|];
    [destruct (LoadServerConfigFile _ _) as [c0 [err|]]; [done|]; exists c0|exists Default];
    simpl in *; (destruct (apply_args _ _) as [c1|]; [|done]);
    destruct (String.eqb_spec (cf_session_token_pepper c1) ""); by simplify_eq.
Qed.

Lemma config_to_load_order argv e :
  config_to_load argv e = explicit_config argv None ∪ named_file e ∪ local_file e.
Proof.
  unfold config_to_load, named_file, local_file.
  destruct (explicit_config argv None), (se_config_file e) as [p|], (se_exists e (se_implicit e)); simpl;
    try destruct (p =s? ""); done.
Qed.

(** What the file leaves in the members it can set. *)
Section file.
Context (e : StartEnv) (file : option string) (c0 : ServerConfig).
Context (Hload : match file with
                 | Some p => LoadServerConfigFile (se_read e p) Default = (c0, None)
                 | None => c0 = Default
                 end).

Lemma file_opened p : file = Some p -> is_Some (se_read e p).
Proof. intros ->. by destruct (se_read e p). Qed.

Lemma number_loaded key w get :
  (key, w, get) ∈ number_members -> number_from_file (file ≫= se_read e) key w get c0.
Proof.
  intros Hin. unfold number_from_file. destruct file as [p|]; simpl; [|by subst].
  destruct (se_read e p) as [text|]; [|done]. by apply (load_number text Default).
Qed.

Lemma text_loaded key get :
  (key, get) ∈ text_members ->
  get c0 = default (get Default) (ParseStringValue <$> ((file ≫= se_read e) ≫= file_value key)).
Proof.
  intros Hin. destruct file as [p|]; simpl; [|by subst].
  destruct (se_read e p) as [text|]; [|done]. by apply load_text.
Qed.
End file.

Lemma number_from_file_same text key w get c c' :
  get c' = get c -> number_from_file text key w get c -> number_from_file text key w get c'.
Proof. unfold number_from_file. by intros ->. Qed.

Lemma default_union {A} (d : A) (x y : option A) : default d (x ∪ y) = default (default d y) x.
Proof. by destruct x, y. Qed.

(** What the environment sets. *)
Lemma environment_members e c :
  cf_session_token_pepper (apply_environment e c) = default (cf_session_token_pepper c) (se_session_pepper e) ∧
  cf_admin_token (apply_environment e c) = default (cf_admin_token c) (se_admin_token e) ∧
  cf_listen_address (apply_environment e c) = cf_listen_address c ∧
  cf_db_path (apply_environment e c) = cf_db_path c ∧
  cf_blob_storage_path (apply_environment e c) = cf_blob_storage_path c ∧
  ∀ key w get, (key, w, get) ∈ number_members -> get (apply_environment e c) = get c.
Proof.
  unfold apply_environment. destruct (se_session_pepper e), (se_admin_token e); split_and!; try done;
    intros key w get Hin; unfold number_members in Hin; each_member Hin; reflexivity.
Qed.

Lemma environment_typed e c : config_typed c -> config_typed (apply_environment e c).
Proof. unfold apply_environment. by destruct (se_session_pepper e), (se_admin_token e). Qed.

(** C38: Where each member of a running server's configuration comes from.  The
    configuration file is the one of the last [--config], else the one [VOX_CONFIG_FILE]
    names, else [vox.conf] in the working directory if it exists; it was readable.  The
    session pepper and the admin token are the command line's (the last value of their flag),
    else the environment's, else the file's, else the default; the address, the paths,
    the port and the number of network threads the command line's, else the file's, else
    the default; every other member the file's, else the default.  A port beyond 16
    bits is reduced modulo 2^16, no server runs with an empty pepper, and every member is a
    value of its type.  The word [--config] as the value of another option is still
    taken for the flag, and excluded from the reading of the flag. *)
Theorem startup_precedence argv e c :
  main argv e = RunServer c ->
  ∃ file : option string,
    file = explicit_config argv None ∪ named_file e ∪ local_file e ∧
    ("--config" ∉ (options argv).*2 -> explicit_config argv None = given "--config" argv) ∧
    (∀ p, file = Some p -> is_Some (se_read e p)) ∧
    let text := file ≫= se_read e in
    let from_file key := ParseStringValue <$> (text ≫= file_value key) in
    cf_session_token_pepper c = default ""
      (given "--session-pepper" argv ∪ se_session_pepper e ∪ from_file "session_token_pepper") ∧
    cf_admin_token c = default "" (given "--admin-token" argv ∪ se_admin_token e ∪ from_file "admin_token") ∧
    cf_listen_address c = default "127.0.0.1" (given "--listen" argv ∪ from_file "listen_address") ∧
    cf_db_path c = default "vox_server.db" (given "--db" argv ∪ from_file "db_path") ∧
    cf_blob_storage_path c = default "blobs" (given "--blobs" argv ∪ from_file "blob_storage_path") ∧
    match given "--port" argv with
    | Some v => wrap_u 16 <$> stoi v = Some (cf_listen_port c)
    | None => number_from_file text "listen_port" (UInt 16) cf_listen_port c
    end ∧
    match given "--threads" argv with
    | Some v => stoull v = Some (cf_network_thread_count c)
    | None => number_from_file text "network_thread_count" (UInt 64) cf_network_thread_count c
    end ∧
    (∀ key w get, (key, w, get) ∈ number_members -> key ≠ "listen_port" -> key ≠ "network_thread_count" ->
       number_from_file text key w get c) ∧
    cf_session_token_pepper c ≠ "" ∧ config_typed c.
Proof.
  intros (c0 & Ha & Hp & Hl)%main_RunServer. exists (config_to_load argv e).
  split; [apply config_to_load_order|]. split.
  { intros Hc. rewrite explicit_config_given by done. by destruct (given _ _). }
  split; [by apply (file_opened e _ c0)|]. cbv zeta. rewrite apply_args_options in Ha.
  destruct (environment_members e c0) as (Ep & Ea & El & Ed & Eb & En).
  assert (Htext : ∀ flag key get env,
    (∀ v c c', apply_option flag v c = Some c' -> Some v = Some (get c')) ->
    (∀ k v c c', k ≠ flag -> apply_option k v c = Some c' -> get c' = get c) ->
    (key, get) ∈ text_members -> get (apply_environment e c0) = default (get c0) env ->
    get c = default (default (default (get Default)
      (ParseStringValue <$> ((config_to_load argv e ≫= se_read e) ≫= file_value key))) env) (given flag argv)).
  { intros flag key get env H1 H2 Hin He. rewrite <- (text_loaded e _ c0 Hl), <- He by done.
    pose proof (assign_all_member apply_option flag get Some _ _ _ H1 H2 Ha) as Hm.
    unfold given. destruct (last_named _ _) as [v|]; [by injection Hm|done]. }
  rewrite !default_union. split_and!.
  - apply (Htext "--session-pepper" "session_token_pepper"); [option_cases..|listed|done].
  - apply (Htext "--admin-token" "admin_token"); [option_cases..|listed|done].
  - apply (Htext "--listen" "listen_address" cf_listen_address None); [option_cases..|listed|done].
  - apply (Htext "--db" "db_path" cf_db_path None); [option_cases..|listed|done].
  - apply (Htext "--blobs" "blob_storage_path" cf_blob_storage_path None); [option_cases..|listed|done].
  - apply (assign_all_member apply_option "--port" cf_listen_port (λ v, wrap_u 16 <$> stoi v)) in Ha; [|option_cases..].
    unfold given. destruct (last_named _ _); [done|]. eapply number_from_file_same; [|apply (number_loaded e _ c0 Hl); listed].
    rewrite Ha. eapply En. listed.
  - apply (assign_all_member apply_option "--threads" cf_network_thread_count stoull) in Ha; [|option_cases..].
    unfold given. destruct (last_named _ _); [done|]. eapply number_from_file_same; [|apply (number_loaded e _ c0 Hl); listed].
    rewrite Ha. eapply En. listed.
  - intros key w get Hin Hk1 Hk2. eapply number_from_file_same; [|by apply (number_loaded e _ c0 Hl)].
    rewrite (apply_options_number _ _ _ _ _ _ Ha Hin Hk1 Hk2). by eapply En.
  - done.
  - eapply apply_options_typed; [done|]. apply environment_typed.
    destruct (config_to_load argv e) as [p|]; [|subst; apply (config_in_range None)].
    pose proof (config_in_range (se_read e p)) as Hr. by rewrite Hl in Hr.
Qed.

Definition sample_start : StartEnv :=
  mkStartEnv None (Some "from-env") None "vox.conf" (λ p, p =s? "vox.conf")
    (λ p, if p =s? "vox.conf" then Some ("listen_port = 9000" +:+ String newline "admin_token = a") else None).

Definition sample_argv : list string := ["--port"; "65537"; "--db"; "x.db"; "--port"; "65540"].
Definition sample_config : ServerConfig :=
  match main sample_argv sample_start with RunServer c => c | _ => Default end.

Lemma startup_precedence_witness :
  main sample_argv sample_start = RunServer sample_config ∧
  cf_listen_port sample_config = 4 ∧ cf_admin_token sample_config = "a" ∧
  cf_session_token_pepper sample_config = "from-env".
Proof.
  assert (E : main sample_argv sample_start = RunServer sample_config) by (vm_compute; reflexivity).
  split; [exact E|]. destruct (startup_precedence _ _ _ E) as (file & -> & _ & _ & Hp & Ha & _).
  split; [vm_compute; reflexivity|]. split; [exact Ha|exact Hp].
Defined.
