(* ===== verification/Maintenance.v ===== *)
(** * The maintenance thread (bin/main.cpp)

    [main] starts a thread that submits a purge to the storage pool every
    [maintenance_purge_interval_seconds]; the signal handler asks it to stop, and the
    program joins it at the end.  The thread, instruction by instruction, with the
    request to stop arriving at any point: how often it purges, and that it ends. *)

From S2P Require Import Prelude.

(** Where the thread is: the test of the [while] loop, the test of the [for] loop with
    its counter, the [if] after it, the [Submit], and the end. *)
Inductive point := WhileTest | ForTest (i : Z) | StopTest | Submitting | Finished.
#[export] Instance point_eq_dec : EqDecision point.
Proof. solve_decision. Defined.

(** The thread, its stop token, the seconds it slept and the purges it submitted. *)
Record Maintenance := mkMaintenance {
  mt_point : point;
  mt_stop : bool;
  mt_slept : Z;
  mt_submitted : Z }.

(** [maintenance_thread.emplace(..)]. *)
Definition started : Maintenance := mkMaintenance WhileTest false 0 0.

Section thread.
Context (interval : Z).

Definition thread_step (m : Maintenance) : Maintenance :=
  let go p := mkMaintenance p (mt_stop m) (mt_slept m) (mt_submitted m) in
  match mt_point m with
  | WhileTest => if negb (mt_stop m) then go (ForTest 0) else go Finished
  | ForTest i =>
      if (i <? interval) && negb (mt_stop m)
      then mkMaintenance (ForTest (i + 1)) (mt_stop m) (mt_slept m + 1) (mt_submitted m)
      else go StopTest
  | StopTest => if mt_stop m then go Finished else go Submitting
  | Submitting => mkMaintenance WhileTest (mt_stop m) (mt_slept m) (mt_submitted m + 1)
  | Finished => m
  end.

(** [request_stop]. *)
Definition request_stop (m : Maintenance) : Maintenance :=
  mkMaintenance (mt_point m) true (mt_slept m) (mt_submitted m).

Inductive maintenance_event := ThreadRuns | StopRequested.

Definition maintenance_step (m : Maintenance) (ev : maintenance_event) : Maintenance :=
  match ev with ThreadRuns => thread_step m | StopRequested => request_stop m end.

Definition maintenance_run (evs : list maintenance_event) (m : Maintenance) : Maintenance :=
  foldl maintenance_step m evs.

Context (Hinterval : 0 < interval).

(** A full interval was slept before every purge. *)
Definition paced (m : Maintenance) : Prop :=
  interval * mt_submitted m <= mt_slept m ∧
  match mt_point m with
  | ForTest i => 0 <= i <= interval ∧ interval * mt_submitted m + i <= mt_slept m
  | StopTest => mt_stop m = true ∨ interval * (mt_submitted m + 1) <= mt_slept m
  | Submitting => interval * (mt_submitted m + 1) <= mt_slept m
  | _ => True
  end.

Lemma paced_step m ev : paced m -> paced (maintenance_step m ev).
Proof.
  intros [Hp Hpt]. unfold paced. destruct ev; simpl; [|by destruct (mt_point m); auto].
  unfold thread_step. destruct (mt_point m) as [|i| | |] eqn:Ep; simpl.
  - destruct (mt_stop m); simpl; [done|lia].
  - destruct (Z.ltb_spec i interval), (mt_stop m) eqn:Es; simpl; rewrite ?Es; split; try lia; auto.
  - destruct (mt_stop m); simpl; [done|]. destruct Hpt; [done|lia].
  - lia.
  - by rewrite Ep.
Qed.

(** What a step does once the stop was requested. *)
Lemma stopping_step p sl su :
  thread_step (mkMaintenance p true sl su) =
  mkMaintenance (match p with ForTest _ => StopTest | Submitting => WhileTest | _ => Finished end) true sl
    (match p with Submitting => su + 1 | _ => su end).
Proof. destruct p; unfold thread_step; cbn [mt_point mt_stop mt_slept mt_submitted negb]; by rewrite ?andb_false_r. Qed.

(** Between two purges the thread sleeps at least the configured interval, whenever
    it is stopped; and once it is asked to stop it ends within four of its steps, having
    slept no more and submitted at most one more purge. *)
Theorem maintenance_paced_and_stops evs :
  let m := maintenance_run evs started in
  interval * mt_submitted m <= mt_slept m ∧
  (mt_stop m = true ->
   let m' := maintenance_run (replicate 4 ThreadRuns) m in
   mt_point m' = Finished ∧ mt_slept m' = mt_slept m ∧ mt_submitted m' <= mt_submitted m + 1).
Proof.
  intros m. split.
  - assert (Hp : paced m); [|apply Hp]. subst m.
    assert (H0 : paced started) by (split; [simpl; lia|done]).
    revert H0. generalize started as m0. induction evs as [|ev evs IH]; intros m0 H0; [done|].
    simpl. by apply IH, paced_step.
  - intros Hs. destruct m as [p st sl su]. cbn in Hs. subst st.
    unfold maintenance_run. cbn [replicate foldl maintenance_step]. rewrite !stopping_step.
    cbn [mt_point mt_slept mt_submitted]. destruct p; (split; [done|split; [done|lia]]).
Qed.

(** As long as nobody stops it, it keeps purging. *)
Lemma for_loop n : ∀ i sl su, i + Z.of_nat n = interval ->
  maintenance_run (replicate n ThreadRuns) (mkMaintenance (ForTest i) false sl su) =
  mkMaintenance (ForTest interval) false (sl + Z.of_nat n) su.
Proof.
  induction n as [|n IH]; intros i sl su Hi; simpl.
  - f_equal; [f_equal|]; lia.
  - change (maintenance_run (replicate n ThreadRuns) (thread_step (mkMaintenance (ForTest i) false sl su)) =
      mkMaintenance (ForTest interval) false (sl + Z.of_nat (S n)) su).
    unfold thread_step. cbn [mt_point mt_stop mt_slept mt_submitted]. rewrite (proj2 (Z.ltb_lt i interval)) by lia.
    cbn [negb andb]. rewrite IH by lia. f_equal; lia.
Qed.

Lemma maintenance_purges sl su :
  maintenance_run (replicate (Z.to_nat interval + 4) ThreadRuns) (mkMaintenance WhileTest false sl su) =
  mkMaintenance WhileTest false (sl + interval) (su + 1).
Proof.
  replace (Z.to_nat interval + 4)%nat with (1 + (Z.to_nat interval + 3))%nat by lia.
  unfold maintenance_run. rewrite !replicate_add, !foldl_app. cbn [replicate foldl].
  pose proof (for_loop (Z.to_nat interval) 0 sl su ltac:(lia)) as Hf. unfold maintenance_run in Hf.
  change (maintenance_step (mkMaintenance WhileTest false sl su) ThreadRuns)
    with (mkMaintenance (ForTest 0) false sl su). rewrite Hf.
  cbn [maintenance_step]. unfold thread_step at 3. cbn [mt_point mt_stop mt_slept mt_submitted].
  rewrite Z.ltb_irrefl. cbn. f_equal. lia.
Qed.
End thread.

Lemma maintenance_paced_and_stops_witness :
  mt_point (maintenance_run 2 (replicate 4 ThreadRuns)
    (maintenance_run 2 (replicate 8 ThreadRuns ++ [StopRequested]) started)) = Finished.
Proof.
  destruct (maintenance_paced_and_stops 2 ltac:(lia) (replicate 8 ThreadRuns ++ [StopRequested])) as [_ Hs].
  apply Hs. reflexivity.
Defined.
