(* ===== verification/Lifetime.v ===== *)
(** * The life of the process (bin/main.cpp)

    [main] after the wiring: the network threads that run the handlers of [ioc], the
    storage pool, the maintenance thread, the signal handler, the joins, [WaitForIdle],
    and the destructors of the locals of the [try] block, which run in the reverse of
    the order of declaration.  All threads interleave at the grain of [ThreadPool] and
    [Maintenance].  A task records which locals exist when it runs. *)

From S2P Require Import Prelude BoundedQueue ThreadPool Maintenance.

(** The locals of the [try] block; the repositories are one entry per declaration. *)
Inductive object :=
  | o_db | o_users | o_devices | o_sessions | o_conversations | o_envelopes | o_attachments | o_sync_state
  | o_cpu_pool | o_storage_pool
  | o_hasher | o_tokens | o_auth | o_delivery | o_relay | o_conversation_service | o_attachment_service
  | o_admin_service | o_auth_rate_limiter | o_account_rate_limiter | o_ws_registry | o_ctx
  | o_ioc | o_listener | o_maintenance_thread | o_signals | o_workers.
#[export] Instance object_eq_dec : EqDecision object.
Proof. solve_decision. Defined.

(** In the order of declaration. *)
Definition stored : list object :=
  [o_db; o_users; o_devices; o_sessions; o_conversations; o_envelopes; o_attachments; o_sync_state; o_cpu_pool].
Definition services : list object :=
  [o_hasher; o_tokens; o_auth; o_delivery; o_relay; o_conversation_service; o_attachment_service;
   o_admin_service; o_auth_rate_limiter; o_account_rate_limiter; o_ws_registry; o_ctx].
Definition running : list object := [o_ioc; o_listener; o_maintenance_thread; o_signals; o_workers].
Definition locals : list object := stored ++ [o_storage_pool] ++ services ++ running.

(** What is submitted to the storage pool: [DispatchHttp] for a request read from a
    connection, and the purge of the maintenance thread. *)
Inductive task := Request (id : Z) | Purge.
#[export] Instance task_eq_dec : EqDecision task.
Proof. solve_decision. Defined.

(** A network thread: between two handlers of [ioc], in the handler of a request that
    was read (it calls [Submit]), in the signal handler before each of its three calls,
    out of [ioc.run()]. *)
Inductive IoThread :=
  | Polling | Reading (t : task) | SignalStop | SignalListener | SignalIoc | IoExited.

(** [main]: joining the network threads, in [WaitForIdle], leaving the block. *)
Inductive MainPoint := Joining | WaitingIdle | Leaving.

(** [pr_alive]: the locals not yet destroyed, the next one to go first.
    [pr_log]: the tasks that were run with the locals that existed.
    [pr_refused]: the submissions that threw. *)
Record Process := mkProcess {
  pr_pool : ThreadPool task;
  pr_maintenance : option Maintenance;
  pr_armed : bool;
  pr_listening : bool;
  pr_stopped : bool;
  pr_io : list IoThread;
  pr_main : MainPoint;
  pr_alive : list object;
  pr_accepted : list task;
  pr_refused : list task;
  pr_log : list (task * list object) }.

Section main.
(** [maintenance_purge_interval_seconds], [storage_pool_size], [task_queue_capacity]
    and [network_thread_count]. *)
Context (interval : Z) (pool_size : nat) (queue_capacity : Z) (network_threads : nat).

(** The state when [main] reaches the joins. *)
Definition main_started : Process :=
  mkProcess (ThreadPool.start pool_size queue_capacity)
    (if interval >? 0 then Some started else None) true true false
    (replicate network_threads Polling) Joining (reverse locals) [] [] [].

Definition with_pool P pl := mkProcess pl (pr_maintenance P) (pr_armed P) (pr_listening P) (pr_stopped P) (pr_io P)
  (pr_main P) (pr_alive P) (pr_accepted P) (pr_refused P) (pr_log P).
Definition with_io P i x := mkProcess (pr_pool P) (pr_maintenance P) (pr_armed P) (pr_listening P) (pr_stopped P)
  (<[i := x]> (pr_io P)) (pr_main P) (pr_alive P) (pr_accepted P) (pr_refused P) (pr_log P).
Definition with_maintenance P m := mkProcess (pr_pool P) m (pr_armed P) (pr_listening P) (pr_stopped P) (pr_io P)
  (pr_main P) (pr_alive P) (pr_accepted P) (pr_refused P) (pr_log P).
Definition with_flags P a l s := mkProcess (pr_pool P) (pr_maintenance P) a l s (pr_io P)
  (pr_main P) (pr_alive P) (pr_accepted P) (pr_refused P) (pr_log P).
Definition with_main P x := mkProcess (pr_pool P) (pr_maintenance P) (pr_armed P) (pr_listening P) (pr_stopped P)
  (pr_io P) x (pr_alive P) (pr_accepted P) (pr_refused P) (pr_log P).
Definition with_alive P l := mkProcess (pr_pool P) (pr_maintenance P) (pr_armed P) (pr_listening P) (pr_stopped P)
  (pr_io P) (pr_main P) l (pr_accepted P) (pr_refused P) (pr_log P).

(** [storage_pool.Submit(..)]; it waits while the queue is full and throws on a pool
    that is shut down. *)
Definition submit (t : task) P : option Process :=
  '(ok, pl) ← ThreadPool.Submit t (pr_pool P);
  Some (mkProcess pl (pr_maintenance P) (pr_armed P) (pr_listening P) (pr_stopped P) (pr_io P) (pr_main P) (pr_alive P)
          (pr_accepted P ++ if ok : bool then [t] else []) (pr_refused P ++ if ok : bool then [] else [t]) (pr_log P)).

(** The next step of a network thread.  [ioc.run()] returns once [ioc] was stopped. *)
Definition io_step (i : nat) P : option Process :=
  x ← pr_io P !! i;
  match x with
  | Polling => if pr_stopped P then Some (with_io P i IoExited) else None
  | Reading t => P' ← submit t P; Some (with_io P' i Polling)
  | SignalStop => Some (with_io (with_maintenance P (request_stop <$> pr_maintenance P)) i SignalListener)
  | SignalListener => Some (with_io (with_flags P (pr_armed P) false (pr_stopped P)) i SignalIoc)
  | SignalIoc => Some (with_io (with_flags P (pr_armed P) (pr_listening P) true) i Polling)
  | IoExited => None
  end.

(** A network thread takes a handler that is ready: a request that was read, or the one
    wait of the signal set. *)
Definition io_request (i : nat) (id : Z) P : option Process :=
  match pr_io P !! i with
  | Some Polling => if pr_stopped P then None else Some (with_io P i (Reading (Request id)))
  | _ => None
  end.
Definition io_signal (i : nat) P : option Process :=
  match pr_io P !! i with
  | Some Polling =>
      if pr_armed P && negb (pr_stopped P)
      then Some (with_io (with_flags P false (pr_listening P) (pr_stopped P)) i SignalStop) else None
  | _ => None
  end.

(** The next step of the maintenance thread. *)
Definition maintenance_next P : option Process :=
  m ← pr_maintenance P;
  P' ← (if decide (mt_point m = Submitting) then submit Purge P else Some P);
  Some (with_maintenance P' (Some (thread_step interval m))).

(** The next step of a worker of the storage pool. *)
Definition pool_worker (i : nat) P : option Process :=
  pl ← ThreadPool.WorkerLoop i (pr_pool P);
  Some (mkProcess pl (pr_maintenance P) (pr_armed P) (pr_listening P) (pr_stopped P) (pr_io P) (pr_main P) (pr_alive P)
          (pr_accepted P) (pr_refused P)
          (pr_log P ++ match workers_ (pr_pool P) !! i with Some (Counted t) => [(t, pr_alive P)] | _ => [] end)).

Definition io_exited (x : IoThread) : bool := match x with IoExited => true | _ => false end.

(** The destructor of [o]: a [jthread] asks its thread to stop and joins it; a pool
    shuts down and joins its workers.  [None] while it waits; [false] before its end. *)
Definition destroy (o : object) P : option (bool * Process) :=
  match o with
  | o_maintenance_thread =>
      match pr_maintenance P with
      | None => Some (true, P)
      | Some m =>
          if mt_stop m then (if decide (mt_point m = Finished) then Some (true, P) else None)
          else Some (false, with_maintenance P (Some (request_stop m)))
      end
  | o_storage_pool =>
      if negb (tp_shutdown (pr_pool P)) then pair false ∘ with_pool P <$> ThreadPool.Shutdown_flag (pr_pool P)
      else if negb (shutdown_ (tp_queue (pr_pool P)))
      then pair false ∘ with_pool P <$> ThreadPool.Shutdown_queue (pr_pool P)
      else pair true ∘ with_pool P <$> ThreadPool.Shutdown_join (pr_pool P)
  | _ => Some (true, P)
  end.

(** The next step of [main]. *)
Definition main_step P : option Process :=
  match pr_main P with
  | Joining => if forallb io_exited (pr_io P) then Some (with_main P WaitingIdle) else None
  | WaitingIdle =>
      if decide (tp_waiter (pr_pool P) = Returned) then Some (with_main P Leaving)
      else with_pool P <$> ThreadPool.WaitForIdle (pr_pool P)
  | Leaving =>
      match pr_alive P with
      | [] => None
      | o :: rest => '(gone, P') ← destroy o P; Some (if gone : bool then with_alive P' rest else P')
      end
  end.

Inductive process_event :=
  | IoRequest (i : nat) (id : Z) | IoSignal (i : nat) | IoStep (i : nat)
  | MaintenanceStep | PoolWorker (i : nat) | MainStep.

Definition process_do (e : process_event) P : option Process :=
  match e with
  | IoRequest i id => io_request i id P
  | IoSignal i => io_signal i P
  | IoStep i => io_step i P
  | MaintenanceStep => maintenance_next P
  | PoolWorker i => pool_worker i P
  | MainStep => main_step P
  end.

Fixpoint process_run (es : list process_event) P : option Process :=
  match es with
  | [] => Some P
  | e :: es' => process_do e P ≫= process_run es'
  end.

(** ** The invariant *)

Implicit Types P : Process.

Definition is_request (t : task) : bool := match t with Request _ => true | Purge => false end.
Definition requests (l : list task) : nat := length (filter is_request l).

(** The requests that were dispatched when [ctx] no longer existed. *)
Definition late (log : list (task * list object)) : nat :=
  length (filter (λ e, is_request e.1 && bool_decide (o_ctx ∉ e.2)) log).

Record process_inv P : Prop := {
  pi_pool : ThreadPool.consistent (pr_accepted P) (pr_pool P);
  pi_size : length (workers_ (pr_pool P)) = pool_size;
  pi_ran : tp_ran (pr_pool P) = (pr_log P).*1;
  pi_io : pr_main P ≠ Joining -> Forall io_exited (pr_io P);
  pi_alive : ∃ k, pr_alive P = drop k (reverse locals);
  pi_full : pr_main P ≠ Leaving -> pr_alive P = reverse locals;
  pi_maintenance : o_maintenance_thread ∉ pr_alive P ->
    ∀ m, pr_maintenance P = Some m -> mt_point m = Finished;
  pi_shut : tp_shutdown (pr_pool P) || shutdown_ (tp_queue (pr_pool P)) -> o_maintenance_thread ∉ pr_alive P;
  pi_joined : o_storage_pool ∉ pr_alive P -> ThreadPool.joined (pr_pool P);
  pi_refused : pr_refused P = [];
  pi_log : ∀ t al, (t, al) ∈ pr_log P -> stored ⊆ al ∧ (pr_main P ≠ Leaving -> al = reverse locals);
  pi_waiter : tp_waiter (pr_pool P) ≠ Outside -> pr_main P ≠ Joining;
  pi_leaving : pr_main P = Leaving -> tp_waiter (pr_pool P) = Returned;
  pi_late : tp_waiter (pr_pool P) = Returned ->
    (late (pr_log P) + requests (pr_accepted P) <= pool_size + requests (tp_ran (pr_pool P)))%nat }.

(** The order of the locals: when the storage pool is next to go the maintenance thread
    is gone, and while it exists so do the database, the repositories and the other
    pool. *)
Definition ordered (l : list object) : bool :=
  bool_decide (head l = Some o_storage_pool -> o_maintenance_thread ∉ l) &&
  bool_decide (o_storage_pool ∈ l -> stored ⊆ l).

Lemma locals_ordered k : ordered (drop k (reverse locals)).
Proof.
  assert (H : Forall (λ k, ordered (drop k (reverse locals))) (seq 0 28)) by (vm_compute; repeat constructor).
  destruct (decide (k < 28)%nat) as [Hk|Hk].
  - rewrite Forall_forall in H. apply H, elem_of_seq. lia.
  - by rewrite drop_ge by (simpl; lia).
Qed.

Lemma requests_app l k : requests (l ++ k) = (requests l + requests k)%nat.
Proof. unfold requests. by rewrite filter_app, length_app. Qed.
Lemma late_app l k : late (l ++ k) = (late l + late k)%nat.
Proof. unfold late. by rewrite filter_app, length_app. Qed.
Lemma requests_length l : (requests l <= length l)%nat.
Proof. apply length_filter. Qed.
#[local] Instance requests_perm : Proper ((≡ₚ) ==> (=)) requests.
Proof. intros l k H. unfold requests. by rewrite H. Qed.

Lemma alive_order P : process_inv P ->
  (∀ rest, pr_alive P = o_storage_pool :: rest -> o_maintenance_thread ∉ pr_alive P) ∧
  (o_storage_pool ∈ pr_alive P -> stored ⊆ pr_alive P).
Proof.
  intros HP. destruct (pi_alive P HP) as [k Ek]. pose proof (locals_ordered k) as Ho. rewrite <- Ek in Ho.
  apply andb_prop_elim in Ho as [H1%bool_decide_unpack H2%bool_decide_unpack]. split; [|done].
  intros rest E. apply H1. by rewrite E.
Qed.

(** The pool accepts as long as a network thread runs or the maintenance thread is
    about to submit. *)
Lemma pool_open P : process_inv P ->
  pr_main P = Joining ∨ (∃ m, pr_maintenance P = Some m ∧ mt_point m = Submitting) ->
  shutdown_ (tp_queue (pr_pool P)) = false.
Proof.
  intros HP Hor. destruct (shutdown_ (tp_queue (pr_pool P))) eqn:Es; [exfalso|done].
  assert (Hm : o_maintenance_thread ∉ pr_alive P) by (apply (pi_shut P HP); rewrite Es; by rewrite orb_true_r).
  destruct Hor as [Hj|(m & Em & Hp)].
  - apply Hm. rewrite (pi_full P HP) by (by rewrite Hj). by apply (bool_decide_unpack _).
  - pose proof (pi_maintenance P HP Hm m Em). congruence.
Qed.

Lemma submit_inv t P P' :
  process_inv P -> shutdown_ (tp_queue (pr_pool P)) = false -> (pr_main P = Joining ∨ t = Purge) ->
  submit t P = Some P' ->
  process_inv P' ∧ pr_io P' = pr_io P ∧ pr_maintenance P' = pr_maintenance P ∧ pr_main P' = pr_main P ∧
  pr_alive P' = pr_alive P.
Proof.
  intros HP Hs Ht. unfold submit. destruct (ThreadPool.Submit t (pr_pool P)) as [[ok pl]|] eqn:E; simpl; [|done].
  intros [= <-]. split; [|done]. pose proof (ThreadPool.Submit_consistent (pr_accepted P) _ _ _ _ E (pi_pool P HP)) as Hc.
  unfold ThreadPool.Submit in E.
  destruct (BoundedQueue.Push t (tp_queue (pr_pool P))) as [[b q]|] eqn:Ep; simpl in E; [|done].
  injection E as <- <-. unfold BoundedQueue.Push in Ep. destruct (negb _); [done|]. rewrite Hs in Ep. injection Ep as <- <-.
  destruct HP. split; simpl; try done.
  - by rewrite app_nil_r.
  - intros Hw. rewrite requests_app. destruct Ht as [Hj| ->].
    2: { change (requests [Purge]) with 0%nat. specialize (pi_late0 Hw). lia. }
    by destruct (pi_waiter0 ltac:(by rewrite Hw)).
Qed.

Lemma io_exited_lookup P i x : process_inv P -> pr_io P !! i = Some x -> io_exited x = false -> pr_main P = Joining.
Proof.
  intros HP Hi Hx. destruct (pr_main P) eqn:Em; [done|exfalso..];
    (eapply Forall_lookup_1 in Hi; [|apply (pi_io P HP); by rewrite Em]; by destruct x).
Qed.

(** The steps that change no more than the network threads, flags and the maintenance
    thread. *)
Lemma frame_inv P P' :
  process_inv P ->
  pr_pool P' = pr_pool P -> pr_main P' = pr_main P -> pr_alive P' = pr_alive P -> pr_accepted P' = pr_accepted P ->
  pr_refused P' = pr_refused P -> pr_log P' = pr_log P ->
  (pr_main P ≠ Joining -> pr_io P' = pr_io P) ->
  (∀ m', pr_maintenance P' = Some m' -> ∃ m, pr_maintenance P = Some m ∧
     (mt_point m = Finished -> mt_point m' = Finished)) ->
  process_inv P'.
Proof.
  intros [] E1 E2 E3 E4 E5 E6 Hio Hm. split; rewrite ?E1, ?E2, ?E3, ?E4, ?E5, ?E6; try done.
  - intros Hj. rewrite (Hio Hj). auto.
  - intros Hn m' Em'. destruct (Hm m' Em') as (m & Em & Hf). eauto.
Qed.

Lemma io_frame P i x x' mt a l s : process_inv P -> pr_io P !! i = Some x -> io_exited x = false ->
  (mt = pr_maintenance P ∨ mt = request_stop <$> pr_maintenance P) ->
  process_inv (with_io (with_flags (with_maintenance P mt) a l s) i x').
Proof.
  intros HP Hi Hx Hmt. pose proof (io_exited_lookup P i x HP Hi Hx) as Hj.
  apply (frame_inv P); simpl; [done..| |]; [by rewrite Hj|].
  intros m' Em. destruct Hmt as [-> | ->]; [by exists m'|].
  destruct (pr_maintenance P) as [m|]; simpl in Em; [|done]. injection Em as <-. by exists m.
Qed.

Lemma io_step_inv i P P' : process_inv P -> io_step i P = Some P' -> process_inv P'.
Proof.
  intros HP. unfold io_step. destruct (pr_io P !! i) as [x|] eqn:Hi; simpl; [|done]. destruct x as [|t| | | |]; [| | | | |done].
  - destruct (pr_stopped P) eqn:Es; [|done]. intros [= <-].
    exact (io_frame P i Polling IoExited _ (pr_armed P) (pr_listening P) (pr_stopped P) HP Hi eq_refl (or_introl eq_refl)).
  - pose proof (io_exited_lookup P i _ HP Hi eq_refl) as Hj.
    destruct (submit t P) as [P1|] eqn:E; simpl; [|done]. intros [= <-].
    destruct (submit_inv t P P1 HP (pool_open P HP (or_introl Hj)) (or_introl Hj) E) as (HP1 & Eio & _).
    rewrite <- Eio in Hi.
    exact (io_frame P1 i _ Polling _ (pr_armed P1) (pr_listening P1) (pr_stopped P1) HP1 Hi eq_refl (or_introl eq_refl)).
  - intros [= <-].
    exact (io_frame P i _ SignalListener _ (pr_armed P) (pr_listening P) (pr_stopped P) HP Hi eq_refl (or_intror eq_refl)).
  - intros [= <-].
    exact (io_frame P i _ SignalIoc _ (pr_armed P) false (pr_stopped P) HP Hi eq_refl (or_introl eq_refl)).
  - intros [= <-].
    exact (io_frame P i _ Polling _ (pr_armed P) (pr_listening P) true HP Hi eq_refl (or_introl eq_refl)).
Qed.

Lemma io_take_inv P P' :
  process_inv P -> (∃ i id, io_request i id P = Some P') ∨ (∃ i, io_signal i P = Some P') -> process_inv P'.
Proof.
  intros HP [(i & id & E)|(i & E)]; revert E.
  - unfold io_request. destruct (pr_io P !! i) as [[]|] eqn:Hi; try done. destruct (pr_stopped P) eqn:Es; [done|].
    intros [= <-].
    exact (io_frame P i _ (Reading (Request id)) _ (pr_armed P) (pr_listening P) (pr_stopped P) HP Hi eq_refl
      (or_introl eq_refl)).
  - unfold io_signal. destruct (pr_io P !! i) as [[]|] eqn:Hi; try done. destruct (_ && _); [|done]. intros [= <-].
    exact (io_frame P i _ SignalStop _ false (pr_listening P) (pr_stopped P) HP Hi eq_refl (or_introl eq_refl)).
Qed.

Lemma maintenance_next_inv P P' : process_inv P -> maintenance_next P = Some P' -> process_inv P'.
Proof.
  intros HP. unfold maintenance_next. destruct (pr_maintenance P) as [m|] eqn:Em; simpl; [|done].
  assert (Hfin : mt_point m = Finished -> mt_point (thread_step interval m) = Finished).
  { intros Hf. unfold thread_step. by rewrite Hf. }
  case_decide as Hd; simpl.
  - destruct (submit Purge P) as [P1|] eqn:E; simpl; [|done]. intros [= <-].
    destruct (submit_inv Purge P P1) as (HP1 & _ & Em1 & _); [done| |by right|done|].
    { apply pool_open; [done|]. right. by exists m. }
    apply (frame_inv P1); try done. intros m' [= <-]. exists m. by rewrite Em1.
  - intros [= <-]. apply (frame_inv P); try done. intros m' [= <-]. by exists m.
Qed.

(** A step of a worker: what it ran, and what it leaves as it is. *)
Lemma WorkerLoop_effect i (p p' : ThreadPool task) :
  ThreadPool.WorkerLoop i p = Some p' ->
  ThreadPool.joined p = false ∧ tp_shutdown p' = tp_shutdown p ∧
  shutdown_ (tp_queue p') = shutdown_ (tp_queue p) ∧
  (tp_waiter p' = tp_waiter p ∨ tp_waiter p = Asleep ∧ tp_waiter p' = Outside) ∧
  tp_ran p' = tp_ran p ++ match workers_ p !! i with Some (Counted t) => [t] | _ => [] end.
Proof.
  unfold ThreadPool.WorkerLoop. destruct (workers_ p !! i) as [w|] eqn:Hi; simpl; [|done]. intros E.
  assert (Hj : w ≠ Exited -> ThreadPool.joined p = false).
  { intros Hw. destruct (ThreadPool.joined p) eqn:Ej; [|done]. unfold ThreadPool.joined in Ej.
    apply Is_true_true, forallb_True in Ej. eapply Forall_lookup_1 in Ej; [|exact Hi]. by destruct w. }
  destruct w as [|t|t| | |]; simpl in E; [| | | | |done]; (split; [by apply Hj|]).
  - unfold BoundedQueue.Pop in E. destruct (negb _); simpl in E; [done|]. unfold BoundedQueue.TryPop in E.
    destruct (queue_ (tp_queue p)); simpl in E; injection E as <-; simpl; rewrite app_nil_r; auto.
  - injection E as <-. simpl. rewrite app_nil_r. auto.
  - injection E as <-. simpl. auto.
  - injection E as <-. simpl. rewrite app_nil_r. auto.
  - injection E as <-. unfold ThreadPool.notify_idle, ThreadPool.set_waiter.
    destruct (tp_waiter p) eqn:Ew; simpl; rewrite app_nil_r, ?Ew; auto 6.
Qed.

Lemma pool_worker_inv i P P' : process_inv P -> pool_worker i P = Some P' -> process_inv P'.
Proof.
  intros HP. unfold pool_worker. destruct (ThreadPool.WorkerLoop i (pr_pool P)) as [pl|] eqn:E; simpl; [|done].
  intros [= <-]. pose proof (ThreadPool.WorkerLoop_consistent _ _ _ _ E (pi_pool P HP)) as Hc.
  pose proof (ThreadPool.WorkerLoop_length _ _ _ E) as Hl.
  destruct (WorkerLoop_effect i _ _ E) as (Hj & Esh & Eq & Hw & Er).
  assert (Hin : o_storage_pool ∈ pr_alive P).
  { destruct (decide (o_storage_pool ∈ pr_alive P)) as [|Hn]; [done|]. pose proof (pi_joined P HP Hn). by rewrite Hj in *. }
  pose proof (proj2 (alive_order P HP) Hin) as Hst. destruct HP.
  set (new := match workers_ (pr_pool P) !! i with Some (Counted t) => [(t, pr_alive P)] | _ => [] end) in *.
  assert (Enew : match workers_ (pr_pool P) !! i with Some (Counted t) => [t] | _ => [] end = new.*1).
  { unfold new. by destruct (workers_ (pr_pool P) !! i) as [[]|]. }
  assert (Hnew : ∀ t al, (t, al) ∈ new -> al = pr_alive P).
  { unfold new. intros t al. destruct (workers_ (pr_pool P) !! i) as [[]|]; try (by intros ?%not_elem_of_nil).
    by intros [= -> ->]%list_elem_of_singleton. }
  assert (Hlate : (late new <= requests new.*1)%nat).
  { unfold new. destruct (workers_ (pr_pool P) !! i) as [[| |[id|]| | |]|]; try exact (Nat.le_refl 0).
    change (requests _) with 1%nat. apply length_filter. }
  rewrite Enew in Er. split; simpl; rewrite ?Esh, ?Eq, ?Er; try done.
  - congruence.
  - by rewrite pi_ran0, fmap_app.
  - intros t al [H|H]%elem_of_app; [by apply (pi_log0 t)|]. rewrite (Hnew t al H). auto.
  - intros Hn. apply pi_waiter0. destruct Hw as [Hw|[Hw Hw']]; congruence.
  - intros Hm. specialize (pi_leaving0 Hm). destruct Hw as [Hw|[Hw Hw']]; congruence.
  - intros Hr. rewrite late_app, requests_app. assert (Hr0 : tp_waiter (pr_pool P) = Returned).
    { destruct Hw as [Hw|[Hw Hw']]; congruence. }
    specialize (pi_late0 Hr0). lia.
Qed.

(** No request was late while everything existed. *)
Lemma late_none P : process_inv P -> pr_main P ≠ Leaving -> late (pr_log P) = 0%nat.
Proof.
  intros HP Hm. unfold late. destruct (filter _ (pr_log P)) as [|[t al] l] eqn:E; [done|exfalso].
  assert (Hin : (t, al) ∈ filter (λ e, is_request e.1 && bool_decide (o_ctx ∉ e.2)) (pr_log P)) by (rewrite E; left).
  apply list_elem_of_filter in Hin as [[_ Hc%bool_decide_unpack]%andb_prop_elim Hin].
  destruct (pi_log P HP t al Hin) as [_ Hal]. apply Hc. simpl. rewrite (Hal Hm). by apply (bool_decide_unpack _).
Qed.

Lemma in_hand_length (p : ThreadPool task) : (length (ThreadPool.in_hand p) <= length (workers_ p))%nat.
Proof.
  unfold ThreadPool.in_hand. induction (workers_ p) as [|w ws IH]; [done|]. rewrite bind_cons, length_app, length_cons.
  assert (length (ThreadPool.held w) <= 1)%nat by (destruct w; simpl; lia). lia.
Qed.

(** [WaitForIdle] returns: the queue was empty, so that the requests not yet run are in
    the hands of workers, one each. *)
Lemma wait_inv P pl : process_inv P -> pr_main P = WaitingIdle ->
  ThreadPool.WaitForIdle (pr_pool P) = Some pl -> process_inv (with_pool P pl).
Proof.
  intros HP Hm E. pose proof (late_none P HP ltac:(by rewrite Hm)) as Hl0.
  assert (Hopen : tp_shutdown (pr_pool P) = false).
  { destruct (tp_shutdown (pr_pool P)) eqn:Es; [exfalso|done]. apply (pi_shut P HP); [by rewrite Es|].
    rewrite (pi_full P HP) by (by rewrite Hm). by apply (bool_decide_unpack _). }
  assert (Hc : ThreadPool.consistent (pr_accepted P) pl).
  { unfold ThreadPool.WaitForIdle in E. destruct (tp_waiter (pr_pool P)); try done; injection E as <-;
      by apply (ThreadPool.consistent_frame _ (pr_pool P)), HP. }
  unfold ThreadPool.WaitForIdle in E.
  assert (Epl : ∃ x, pl = ThreadPool.set_waiter x (pr_pool P) ∧
    (x = Returned -> queue_ (tp_queue (pr_pool P)) = [])).
  { destruct (tp_waiter (pr_pool P)) eqn:Ew; try done; injection E as <-; eexists; (split; [reflexivity|]); [|done].
    destruct (ThreadPool.idle_ready (pr_pool P)) eqn:Ei; [|done]. intros _. unfold ThreadPool.idle_ready in Ei.
    rewrite Hopen, orb_false_r in Ei. apply andb_prop in Ei as [_ Hs]. unfold BoundedQueue.Size in Hs.
    destruct (queue_ (tp_queue (pr_pool P))); [done|simpl in Hs; lia]. }
  destruct Epl as (x & -> & Hx). pose proof HP as HP0. destruct HP. split; simpl; try done.
  - by rewrite Hm.
  - by rewrite Hm.
  - intros Hr. rewrite Hl0. destruct pi_pool0 as [Ht _ _ _]. rewrite Ht, !requests_app, (Hx Hr).
    pose proof (in_hand_length (pr_pool P)). pose proof (requests_length (ThreadPool.in_hand (pr_pool P))).
    change (requests []) with 0%nat. lia.
Qed.

(** The pool closes while its destructor runs. *)
Lemma closing_inv P pl : process_inv P -> o_maintenance_thread ∉ pr_alive P ->
  queue_ (tp_queue pl) = queue_ (tp_queue (pr_pool P)) -> capacity_ (tp_queue pl) = capacity_ (tp_queue (pr_pool P)) ->
  (shutdown_ (tp_queue (pr_pool P)) = true -> shutdown_ (tp_queue pl) = true) ->
  workers_ pl = workers_ (pr_pool P) -> active_tasks_ pl = active_tasks_ (pr_pool P) ->
  tp_ran pl = tp_ran (pr_pool P) -> tp_waiter pl = tp_waiter (pr_pool P) ->
  process_inv (with_pool P pl).
Proof.
  intros HP Hm E1 E2 E3 E4 E5 E6 E7.
  pose proof (ThreadPool.consistent_frame (pr_accepted P) _ pl E1 E2 E3 E4 E5 E6 (pi_pool P HP)) as Hc.
  destruct HP. split; simpl; rewrite ?E4, ?E6, ?E7; try done.
  intros Hn. unfold ThreadPool.joined. rewrite E4. by apply pi_joined0.
Qed.

(** The next local is gone. *)
Lemma gone_inv P o rest : process_inv P -> pr_main P = Leaving -> pr_alive P = o :: rest ->
  (o = o_maintenance_thread -> ∀ m, pr_maintenance P = Some m -> mt_point m = Finished) ->
  (o = o_storage_pool -> ThreadPool.joined (pr_pool P)) ->
  process_inv (with_alive P rest).
Proof.
  intros HP Hm Ea Hmt Hj. destruct HP. split; simpl; try done.
  - destruct pi_alive0 as [k Ek]. exists (S k). rewrite Ea in Ek.
    replace (S k) with (k + 1)%nat by lia. by rewrite <- drop_drop, <- Ek.
  - intros Hn. destruct (decide (o = o_maintenance_thread)) as [Eo|Eo]; [by apply Hmt|].
    apply pi_maintenance0. rewrite Ea. intros [?|?]%elem_of_cons; [by subst|done].
  - intros Hs Hin. apply (pi_shut0 Hs). rewrite Ea. by right.
  - intros Hn. destruct (decide (o = o_storage_pool)) as [Eo|Eo]; [by apply Hj|].
    apply pi_joined0. rewrite Ea. intros [?|?]%elem_of_cons; [by subst|done].
Qed.

Lemma destroy_pool_inv P rest gone P1 : process_inv P -> pr_main P = Leaving -> pr_alive P = o_storage_pool :: rest ->
  destroy o_storage_pool P = Some (gone, P1) ->
  process_inv P1 ∧ (gone -> ThreadPool.joined (pr_pool P1)) ∧ pr_main P1 = Leaving ∧ pr_alive P1 = pr_alive P.
Proof.
  intros HP Hm Ea. pose proof (proj1 (alive_order P HP) rest Ea) as Hn. pose proof (pi_leaving P HP Hm) as Hw.
  cbn [destroy]. destruct (tp_shutdown (pr_pool P)) eqn:Et; cbn [negb].
  - destruct (shutdown_ (tp_queue (pr_pool P))) eqn:Eq; cbn [negb].
    + unfold ThreadPool.Shutdown_join, ThreadPool.notify_idle. rewrite Eq, Hw.
      destruct (ThreadPool.joined (pr_pool P)) eqn:Ej; simpl; [|done]. intros [= <- <-]. split; [by apply closing_inv|].
      simpl. by rewrite Ej.
    + unfold ThreadPool.Shutdown_queue. rewrite Et. simpl. intros [= <- <-]. split; [by apply closing_inv|done].
  - unfold ThreadPool.Shutdown_flag. rewrite Hw, Et. simpl. intros [= <- <-]. split; [by apply closing_inv|done].
Qed.

Lemma leave_inv P P' : process_inv P -> pr_main P = Leaving -> main_step P = Some P' -> process_inv P'.
Proof.
  intros HP Hm. unfold main_step. rewrite Hm. destruct (pr_alive P) as [|o rest] eqn:Ea; [done|].
  destruct (destroy o P) as [[gone P1]|] eqn:E; simpl; [|done]. intros [= <-].
  destruct (decide (o = o_storage_pool)) as [->|Hs].
  { destruct (destroy_pool_inv P rest gone P1) as (HP1 & Hj & Hm1 & Ea1); [done..|].
    destruct gone; [|done]. apply (gone_inv P1 o_storage_pool); [done|done|by rewrite Ea1|done|by intros _; apply Hj]. }
  destruct (decide (o = o_maintenance_thread)) as [->|Hmt].
  - cbn [destroy] in E. destruct (pr_maintenance P) as [m|] eqn:Em.
    + destruct (mt_stop m).
      * case_decide; [|done]. injection E as <- <-. apply (gone_inv P o_maintenance_thread); try done. congruence.
      * injection E as <- <-. apply (frame_inv P); try done. intros m' [= <-]. by exists m.
    + injection E as <- <-. apply (gone_inv P o_maintenance_thread); try done. congruence.
  - assert (gone = true ∧ P1 = P) as [-> ->] by (destruct o; try done; by injection E as <- <-).
    by apply (gone_inv P o).
Qed.

Lemma main_step_inv P P' : process_inv P -> main_step P = Some P' -> process_inv P'.
Proof.
  intros HP E. destruct (pr_main P) eqn:Hm; [| |by apply (leave_inv P)]; unfold main_step in E; rewrite Hm in E.
  - destruct (forallb io_exited (pr_io P)) eqn:Ef; [|done]. injection E as <-. destruct HP. split; simpl; try done.
    + intros _. apply forallb_True. by rewrite Ef.
    + intros _. by rewrite pi_full0 by (by rewrite Hm).
    + intros t al Hin. destruct (pi_log0 t al Hin) as [? Hal]. split; [done|]. intros _. apply Hal. by rewrite Hm.
  - case_decide as Hr.
    + injection E as <-. destruct HP. split; simpl; try done.
      * intros _. apply pi_io0. by rewrite Hm.
      * intros t al Hin. split; [by apply (pi_log0 t)|done].
    + destruct (ThreadPool.WaitForIdle (pr_pool P)) as [pl|] eqn:Ew; simpl in E; [|done]. injection E as <-.
      by apply wait_inv.
Qed.

Lemma process_run_inv es P P' : process_inv P -> process_run es P = Some P' -> process_inv P'.
Proof.
  revert P. induction es as [|e es IH]; intros P HP; simpl; [by intros [= <-]|].
  destruct (process_do e P) as [P1|] eqn:E; simpl; [|done]. apply IH.
  destruct e as [i id|i|i| |i|]; simpl in E; [apply (io_take_inv P); eauto..|by apply (io_step_inv i P)
    |by apply (maintenance_next_inv P)|by apply (pool_worker_inv i P)|by apply (main_step_inv P)].
Qed.

Lemma main_started_inv : 0 <= queue_capacity -> process_inv main_started.
Proof.
  intros Hc. split; simpl; try done.
  - by apply ThreadPool.start_consistent.
  - apply length_replicate.
  - by exists 0%nat.
  - intros []. by apply (bool_decide_unpack _).
  - intros []. by apply (bool_decide_unpack _).
  - by intros t al ?%not_elem_of_nil.
Qed.

(** C18: Whatever the interleaving of the network threads, the storage pool, the
    maintenance thread, the signal and the end of [main]: no submission to the storage
    pool is ever refused (it would throw in the thread that submits), every task that runs
    finds the database and the repositories in place, at most one request per worker
    of the pool is dispatched after [ctx] was destroyed and none before [main] leaves
    the block, and when the block is left every accepted task was run exactly once. *)
Theorem process_ends_in_order es P :
  0 <= queue_capacity -> process_run es main_started = Some P ->
  pr_refused P = [] ∧
  (∀ t al, (t, al) ∈ pr_log P -> stored ⊆ al) ∧
  (late (pr_log P) <= pool_size)%nat ∧ (pr_main P ≠ Leaving -> late (pr_log P) = 0%nat) ∧
  ((0 < pool_size)%nat -> pr_alive P = [] -> (pr_log P).*1 ≡ₚ pr_accepted P).
Proof.
  intros Hc Hr. pose proof (process_run_inv es _ P (main_started_inv Hc) Hr) as HP.
  split; [apply HP|]. split; [intros t al Hin; by apply (pi_log P HP t)|].
  split_and!; [|by apply late_none|].
  - destruct (decide (tp_waiter (pr_pool P) = Returned)) as [Hw|Hw].
    + pose proof (pi_late P HP Hw). destruct (pi_pool P HP) as [Ht _ _ _].
      assert (requests (tp_ran (pr_pool P)) <= requests (pr_accepted P))%nat by (rewrite Ht, requests_app; lia). lia.
    + rewrite late_none; [lia|done|]. intros Hm. by apply Hw, HP.
  - intros Hn Ha. rewrite <- (pi_ran P HP). apply (ThreadPool.joined_done (pr_accepted P)).
    + by rewrite (pi_size P HP).
    + apply HP.
    + apply Is_true_true, (pi_joined P HP). rewrite Ha. by apply not_elem_of_nil.
Qed.
End main.

(** ** Runs *)

(** One network thread, one worker: a request is read, the signal arrives, [main] ends.
    The request is popped and not yet counted when [WaitForIdle] tests its predicate. *)
Definition sample_shutdown : list process_event :=
  [IoRequest 0 7; IoStep 0; IoSignal 0; IoStep 0; IoStep 0; PoolWorker 0; IoStep 0; IoStep 0; MainStep; MainStep; MainStep]
  ++ replicate 5 MaintenanceStep ++ replicate 17 MainStep ++ [PoolWorker 0; PoolWorker 0].

(** The rest: the worker goes back to the queue, the pool is destroyed, then the rest. *)
Definition sample_end : list process_event :=
  [PoolWorker 0; PoolWorker 0; MainStep; MainStep; PoolWorker 0] ++ replicate 10 MainStep.

(** The wait before the end of the block does not do what it is there for: the request
    is dispatched when [ctx] and all services are gone and the database is not. *)
Theorem request_outlives_context :
  ∃ P, process_run 2 sample_shutdown (main_started 2 1 1 1) = Some P ∧
    pr_log P = [(Request 7, o_storage_pool :: reverse stored)] ∧ late (pr_log P) = 1%nat.
Proof. eexists. split; [vm_compute; reflexivity|]. split; reflexivity. Qed.

(** A purge can be late, too: the stop is requested between the test of the maintenance
    thread and its submission, and the pool is already idle. *)
Definition sample_late_purge : list process_event :=
  replicate 5 MaintenanceStep ++ [IoSignal 0; IoStep 0; IoStep 0; IoStep 0; IoStep 0; MainStep; MainStep; MainStep]
  ++ replicate 2 MaintenanceStep ++ replicate 17 MainStep ++ replicate 3 (PoolWorker 0).
Theorem purge_outlives_services :
  ∃ P, process_run 2 sample_late_purge (main_started 2 1 1 1) = Some P ∧
    pr_log P = [(Purge, o_storage_pool :: reverse stored)].
Proof. eexists. split; [vm_compute; reflexivity|]. reflexivity. Qed.

Lemma process_ends_in_order_witness :
  ∃ P, process_run 2 (sample_shutdown ++ sample_end) (main_started 2 1 1 1) = Some P ∧
    pr_alive P = [] ∧ (pr_log P).*1 ≡ₚ pr_accepted P.
Proof.
  eexists. split; [vm_compute; reflexivity|]. split; [reflexivity|].
  eapply (process_ends_in_order 2 1 1 1 (sample_shutdown ++ sample_end)); [lia|vm_compute; reflexivity|lia|reflexivity].
Defined.
