(* ===== verification/WsSession.v ===== *)
(** * Connections (lib/vox_net/http_session.cpp)

    [HttpSession]: what a connection does with a request it has read and after it has
    written an answer.  [WebSocketSession]: the connection of an online device, its
    handlers as functions of the shared registry and the session's own state.  The
    handlers of one session run one at a time.  What the network does (which operation
    completes next, and how) comes as events; an operation completes only if it was
    started. *)

From S2P Require Import Prelude Types Sql Database Samples Config Sessions Tokens Password Attachments Json WsRegistry HttpPath HttpDispatch.

(** ** HttpSession *)

(** The error code of a completed read or write. *)
Inductive IoResult := IoOk | IoEndOfStream | IoError.

(** What [OnRead] ends in: the sending side is shut down, the session is dropped, an
    answer after which the connection closes, a WebSocket session on the same stream,
    a task for the storage pool with the session of the request. *)
Inductive AfterRead :=
  | ShutdownSend
  | Dropped
  | WriteAndClose (res : HttpResponse)
  | UpgradeToWs
  | SubmitDispatch (sess : option SessionRecord).

(** What [OnWrite] ends in. *)
Inductive AfterWrite := WriteFailed | ShutdownBoth | ReadNext.

(** ** WebSocketSession *)

(** A read of the WebSocket: failed, a binary message, a text message. *)
Inductive WsRead := WsReadError | WsReadBinary | WsReadText (data : string).

(** The members of the class; then the operations under way (accept, timer, read of
    the authentication message, read loop) and whether the connection was given up;
    then, for the statements only, how many of the messages posted to the session were
    handled, the messages queued and handed to [async_write] so far, and the session
    the token stood for. *)
Record WebSocketSession := mkWebSocketSession {
  ws_req : HttpRequest;
  ws_user_id : UserId;
  ws_device_id : DeviceId;
  ws_deferred_auth_active : bool;
  ws_outbound : list string;
  ws_write_in_progress : bool;
  ws_accepting : bool;
  ws_timer : bool;
  ws_auth_read : bool;
  ws_reading : bool;
  ws_given_up : bool;
  ws_handled : nat;
  ws_queued : list string;
  ws_written : list string;
  ws_identity : option SessionRecord }.

(** [assign_ws f v s]: [s] with field [f] set to [v]. *)
Ltac assign_ws f v s :=
  match eval cbv beta in (mkWebSocketSession (ws_req s) (ws_user_id s) (ws_device_id s)
      (ws_deferred_auth_active s) (ws_outbound s) (ws_write_in_progress s) (ws_accepting s) (ws_timer s)
      (ws_auth_read s) (ws_reading s) (ws_given_up s) (ws_handled s) (ws_queued s) (ws_written s)
      (ws_identity s)) with
  | context C [f s] => let t := context C [v] in exact t
  end.

Definition set_ws_user_id v s : WebSocketSession := ltac:(assign_ws ws_user_id v s).
Definition set_ws_device_id v s : WebSocketSession := ltac:(assign_ws ws_device_id v s).
Definition set_ws_deferred_auth_active v s : WebSocketSession := ltac:(assign_ws ws_deferred_auth_active v s).
Definition set_ws_outbound v s : WebSocketSession := ltac:(assign_ws ws_outbound v s).
Definition set_ws_write_in_progress v s : WebSocketSession := ltac:(assign_ws ws_write_in_progress v s).
Definition set_ws_accepting v s : WebSocketSession := ltac:(assign_ws ws_accepting v s).
Definition set_ws_timer v s : WebSocketSession := ltac:(assign_ws ws_timer v s).
Definition set_ws_auth_read v s : WebSocketSession := ltac:(assign_ws ws_auth_read v s).
Definition set_ws_reading v s : WebSocketSession := ltac:(assign_ws ws_reading v s).
Definition set_ws_given_up v s : WebSocketSession := ltac:(assign_ws ws_given_up v s).
Definition set_ws_handled v s : WebSocketSession := ltac:(assign_ws ws_handled v s).
Definition set_ws_queued v s : WebSocketSession := ltac:(assign_ws ws_queued v s).
Definition set_ws_written v s : WebSocketSession := ltac:(assign_ws ws_written v s).
Definition set_ws_identity v s : WebSocketSession := ltac:(assign_ws ws_identity v s).

(** The constructor and [Run]: the accept is under way. *)
Definition new_ws (req : HttpRequest) : WebSocketSession :=
  mkWebSocketSession req EmptyString EmptyString false [] false true false false false false 0 [] [] None.

(** The messages posted to session [id] so far, in order. *)
Definition posts (id : Z) (r : Ws) : list string :=
  omap (λ '(i, msg), if decide (i = id) then Some msg else None) (sent r).

Module WsSession.
Section WsSession.
Context `{SqlEngine} `{BoostJson} (ctx : ServerContext) (is_upgrade : HttpRequest -> bool).

(** *** HttpSession *)

Definition IsWsPath (path_only : string) : bool := path_only =s? "/v1/ws".

(** The storage pool is always there: [main] sets it before the listener runs. *)
Definition OnRead (ec : IoResult) (req : HttpRequest) (clock : Timestamp) (w : ServerWorld) : AfterRead :=
  match ec with
  | IoEndOfStream => ShutdownSend
  | IoError => Dropped
  | IoOk =>
      if is_upgrade req then
        if negb (IsWsPath (PathOnly (rq_target req)))
        then WriteAndClose (mkHttpResponse kHttpNotFound (rq_version req) (Some "text/plain") (BodyText "Not Found"))
        else UpgradeToWs
      else SubmitDispatch (request_session ctx req clock w)
  end.

Definition OnWrite (ec : IoResult) (close keep_alive : bool) : AfterWrite :=
  match ec with
  | IoOk => if close then ShutdownBoth else if negb keep_alive then ShutdownBoth else ReadNext
  | _ => WriteFailed
  end.

(** *** WebSocketSession *)

Notation Conn := (Ws * WebSocketSession)%type.

Definition FailTcpConnection (s : WebSocketSession) : WebSocketSession := set_ws_given_up true s.

Definition DoRead (s : WebSocketSession) : WebSocketSession := set_ws_reading true s.

Definition FinishAuth (id : Z) (token : string) (clock : Timestamp) (db : Database) (c : Conn) : Conn :=
  let '(r, s) := c in
  match ValidateAccessToken (tokens ctx) token clock db with
  | (Err _, _) => (r, FailTcpConnection s)
  | (Ok session, _) =>
      let s1 := set_ws_user_id (s_user_id session) (set_ws_device_id (s_device_id session) s) in
      (Register (DeviceScopeKey (ws_user_id s1) (ws_device_id s1)) (Some id) r,
       DoRead (set_ws_identity (Some session) s1))
  end.

Definition OnAccept (id : Z) (ec : IoResult) (clock : Timestamp) (db : Database) (c : Conn) : Conn :=
  let '(r, s) := c in
  match ec with
  | IoOk =>
      match ParseBearer (ws_req s) with
      | Some token => FinishAuth id token clock db (r, s)
      | None => (r, set_ws_auth_read true (set_ws_timer true (set_ws_deferred_auth_active true s)))
      end
  | _ => (r, s)
  end.

(** The handler of the five-second timer. *)
Definition on_auth_timer (aborted : bool) (s : WebSocketSession) : WebSocketSession :=
  if aborted then s else
  if ws_deferred_auth_active s then FailTcpConnection (set_ws_deferred_auth_active false s) else s.

(** The token of an authentication message: [{"type": "auth", "access_token": ..}]. *)
Definition auth_message (res : WsRead) : option string :=
  match res with
  | WsReadText data =>
      match json_parse data with
      | inr (VObject o) =>
          match member "type" o with
          | Some (VString t) =>
              if negb (c_str t =s? "auth") then None else
              match member "access_token" o with
              | Some (VString tok) => Some (c_str tok)
              | _ => None
              end
          | _ => None
          end
      | _ => None
      end
  | _ => None
  end.

(** The handler of the read started by [OnAccept]. *)
Definition on_auth_read (id : Z) (res : WsRead) (clock : Timestamp) (db : Database) (c : Conn) : Conn :=
  let '(r, s) := c in
  if negb (ws_deferred_auth_active s) then (r, s) else
  let s1 := set_ws_deferred_auth_active false s in
  match auth_message res with
  | None => (r, FailTcpConnection s1)
  | Some token => FinishAuth id token clock db (r, s1)
  end.

Definition Shutdown (c : Conn) : Conn :=
  let '(r, s) := c in
  if negb (ws_device_id s =s? "")
  then (Unregister (DeviceScopeKey (ws_user_id s) (ws_device_id s)) r,
        set_ws_given_up true (set_ws_user_id EmptyString (set_ws_device_id EmptyString s)))
  else (r, set_ws_given_up true s).

Definition PumpOutbound (s : WebSocketSession) : WebSocketSession :=
  if ws_write_in_progress s then s else
  match ws_outbound s with
  | [] => s
  | chunk :: rest =>
      set_ws_written (ws_written s ++ [chunk]) (set_ws_outbound rest (set_ws_write_in_progress true s))
  end.

(** The handler that completes the write. *)
Definition on_write (ec : IoResult) (c : Conn) : Conn :=
  let '(r, s) := c in
  let s1 := set_ws_write_in_progress false s in
  match ec with
  | IoOk => (r, PumpOutbound s1)
  | _ => Shutdown (r, s1)
  end.

(** The handler [PostSend] posts. *)
Definition PostSend (msg : string) (c : Conn) : Conn :=
  let '(r, s) := c in
  let limit := cf_max_ws_outbound_queue (ctx_config ctx) in
  if (0 <? limit) && (limit <=? Z.of_nat (length (ws_outbound s))) then Shutdown (r, s) else
  (r, PumpOutbound (set_ws_queued (ws_queued s ++ [msg]) (set_ws_outbound (ws_outbound s ++ [msg]) s))).

(** The handler of the read loop. *)
Definition on_read (res : WsRead) (c : Conn) : Conn :=
  let '(r, s) := c in
  match res with
  | WsReadError => Shutdown (r, s)
  | _ => (r, DoRead s)
  end.

(** *** Events *)

Inductive ws_event :=
  | WsAccepted (ec : IoResult)
  | WsTimer (aborted : bool)
  | WsAuthRead (res : WsRead)
  | WsPosted
  | WsWritten (ec : IoResult)
  | WsReadDone (res : WsRead).

(** The handler of an event; [None] where its operation is not under way. *)
Definition handle (id : Z) (e : ws_event) (clock : Timestamp) (db : Database) (c : Conn) : option Conn :=
  let '(r, s) := c in
  match e with
  | WsAccepted ec =>
      if ws_accepting s then Some (OnAccept id ec clock db (r, set_ws_accepting false s)) else None
  | WsTimer aborted => if ws_timer s then Some (r, on_auth_timer aborted (set_ws_timer false s)) else None
  | WsAuthRead res =>
      if ws_auth_read s then Some (on_auth_read id res clock db (r, set_ws_auth_read false s)) else None
  | WsPosted =>
      msg ← posts id r !! ws_handled s;
      Some (PostSend msg (r, set_ws_handled (S (ws_handled s)) s))
  | WsWritten ec => if ws_write_in_progress s then Some (on_write ec (r, s)) else None
  | WsReadDone res => if ws_reading s then Some (on_read res (r, set_ws_reading false s)) else None
  end.

(** *** The outbound queue *)

(** Messages are queued and written in the order in which they were posted; while the
    connection was not given up none is missing; the queue is within its limit; and
    what waits in it waits for a write under way. *)
Record outbound_ok (id : Z) (r : Ws) (s : WebSocketSession) : Prop := {
  oo_fifo : ws_written s ++ ws_outbound s = ws_queued s;
  oo_complete : ws_given_up s = false -> ws_queued s = take (ws_handled s) (posts id r);
  oo_handled : (ws_handled s <= length (posts id r))%nat;
  oo_limit : 0 < cf_max_ws_outbound_queue (ctx_config ctx) ->
             Z.of_nat (length (ws_outbound s)) <= cf_max_ws_outbound_queue (ctx_config ctx);
  oo_moving : ws_outbound s = [] ∨ ws_write_in_progress s = true ∨ ws_given_up s = true }.

(** The session as the outbound queue sees it. *)
Definition same_outbound (s s' : WebSocketSession) : Prop :=
  ws_written s' = ws_written s ∧ ws_outbound s' = ws_outbound s ∧ ws_queued s' = ws_queued s ∧
  ws_handled s' = ws_handled s ∧ ws_write_in_progress s' = ws_write_in_progress s ∧
  (ws_given_up s = true -> ws_given_up s' = true).

Lemma outbound_ok_frame id r r' s s' :
  sent r `prefix_of` sent r' -> same_outbound s s' -> outbound_ok id r s -> outbound_ok id r' s'.
Proof.
  intros [l Hl] (E1 & E2 & E3 & E4 & E5 & E6) [O1 O2 O3 O4 O5].
  assert (Hp : posts id r' = posts id r ++ posts id (mkWsPushRegistry ∅ l)).
  { unfold posts. by rewrite Hl, omap_app. }
  split; rewrite ?E1, ?E2, ?E3, ?E4, ?E5, ?Hp.
  - done.
  - intros Hg. rewrite take_app_le by done. apply O2. destruct (ws_given_up s); [|done].
    by rewrite E6 in Hg.
  - rewrite length_app. lia.
  - done.
  - destruct O5 as [?|[?|?]]; auto.
Qed.

Lemma FinishAuth_frame id token clock db r s r' s' :
  FinishAuth id token clock db (r, s) = (r', s') -> sent r' = sent r ∧ same_outbound s s'.
Proof.
  unfold FinishAuth. destruct (ValidateAccessToken _ _ _ _) as [[session|e] db'];
    intros [= <- <-]; done.
Qed.

Lemma Shutdown_frame r s r' s' :
  Shutdown (r, s) = (r', s') -> sent r' = sent r ∧ same_outbound s s' ∧ ws_given_up s' = true.
Proof. unfold Shutdown. destruct (negb _); intros [= <- <-]; done. Qed.

Lemma PumpOutbound_ok id r s :
  ws_written s ++ ws_outbound s = ws_queued s ->
  (ws_given_up s = false -> ws_queued s = take (ws_handled s) (posts id r)) ->
  (ws_handled s <= length (posts id r))%nat ->
  (0 < cf_max_ws_outbound_queue (ctx_config ctx) ->
   Z.of_nat (length (ws_outbound s)) <= cf_max_ws_outbound_queue (ctx_config ctx)) ->
  outbound_ok id r (PumpOutbound s).
Proof.
  intros H1' H2' H3' H4'. unfold PumpOutbound. destruct (ws_write_in_progress s) eqn:Ew.
  - split; [done..|]. by right; left.
  - destruct (ws_outbound s) as [|chunk rest] eqn:Eo.
    + split; rewrite ?Eo; [done..|]. by left.
    + split; simpl; [|done|done| |by right; left].
      * by rewrite <- app_assoc.
      * intros Hl. specialize (H4' Hl). simpl in H4'. lia.
Qed.

Lemma PostSend_ok id r s msg r' s' :
  posts id r !! ws_handled s = Some msg -> outbound_ok id r s ->
  PostSend msg (r, set_ws_handled (S (ws_handled s)) s) = (r', s') -> outbound_ok id r' s'.
Proof.
  intros Hm [O1 O2 O3 O4 O5]. pose proof (lookup_lt_Some _ _ _ Hm) as Hlt. unfold PostSend. cbv zeta.
  destruct (_ && _) eqn:Efull.
  - intros E. destruct (Shutdown_frame _ _ _ _ E) as (Es & (E1 & E2 & E3 & E4 & E5 & _) & Eg).
    assert (Hp : posts id r' = posts id r) by (unfold posts; by rewrite Es).
    split; rewrite ?E1, ?E2, ?E3, ?E4, ?E5, ?Eg, ?Hp; simpl; [done|done|lia|done|by right; right].
  - intros [= <- <-]. apply PumpOutbound_ok; simpl.
    + by rewrite app_assoc, O1.
    + intros Hg. rewrite (O2 Hg). by rewrite (take_S_r _ _ msg).
    + lia.
    + intros Hl. rewrite length_app. simpl. apply andb_false_iff in Efull as [E|E]; [apply Z.ltb_ge in E|apply Z.leb_gt in E]; simpl in *; lia.
Qed.

Lemma handle_outbound id e clock db r s r' s' :
  handle id e clock db (r, s) = Some (r', s') -> outbound_ok id r s ->
  sent r' = sent r ∧ outbound_ok id r' s'.
Proof.
  unfold handle. intros Hh Ho.
  assert (Hframe : sent r' = sent r ∧ same_outbound s s' -> sent r' = sent r ∧ outbound_ok id r' s').
  { intros [Es Hs]. split; [done|]. by apply (outbound_ok_frame id r r' s s'); [rewrite Es|..]. }
  destruct e as [ec|aborted|res| |ec|res].
  - destruct (ws_accepting s); [|done]. injection Hh as Hh. apply Hframe. revert Hh. unfold OnAccept.
    destruct ec; [|by intros [= <- <-]..]. destruct (ParseBearer _); [intros E; exact (FinishAuth_frame _ _ _ _ _ _ _ _ E)|by intros [= <- <-]].
  - destruct (ws_timer s); [|done]. injection Hh as <- <-. apply Hframe. unfold on_auth_timer.
    destruct aborted; [done|]. by case_match.
  - destruct (ws_auth_read s); [|done]. injection Hh as Hh. apply Hframe. revert Hh. unfold on_auth_read.
    destruct (negb _); [by intros [= <- <-]|]. destruct (auth_message res); [intros E; exact (FinishAuth_frame _ _ _ _ _ _ _ _ E)|by intros [= <- <-]].
  - destruct (posts id r !! ws_handled s) as [msg|] eqn:Em; simpl in Hh; [|done]. injection Hh as Hh.
    split; [|by apply (PostSend_ok id r s msg)]. revert Hh. unfold PostSend. cbv zeta.
    destruct (_ && _); [|by intros [= <- <-]]. intros E. by destruct (Shutdown_frame _ _ _ _ E).
  - destruct (ws_write_in_progress s) eqn:Ew; [|done]. injection Hh as Hh. revert Hh. unfold on_write.
    assert (Hbad : ∀ c, Shutdown (r, set_ws_write_in_progress false s) = c -> c = (r', s') ->
      sent r' = sent r ∧ outbound_ok id r' s').
    { intros c <- E. destruct (Shutdown_frame _ _ _ _ E) as (Es & (E1 & E2 & E3 & E4 & E5 & _) & Eg).
      split; [done|]. assert (Hp : posts id r' = posts id r) by (unfold posts; by rewrite Es).
      destruct Ho as [O1 O2 O3 O4 O5].
      split; rewrite ?E1, ?E2, ?E3, ?E4, ?E5, ?Eg, ?Hp; simpl; [done|done|done|done|by right; right]. }
    destruct ec; [|by apply Hbad..]. intros [= <- <-]. split; [done|]. destruct Ho as [O1 O2 O3 O4 O5].
    by apply PumpOutbound_ok.
  - destruct (ws_reading s); [|done]. injection Hh as Hh. apply Hframe. revert Hh. unfold on_read.
    destruct res; [|by intros [= <- <-]..]. intros E. by destruct (Shutdown_frame _ _ _ _ E) as (Es & Hs & _).
Qed.

(** *** Authentication *)

(** A session authenticates at most once. *)
Record auth_ok (s : WebSocketSession) : Prop := {
  ao_accepting : ws_accepting s = true -> ws_identity s = None ∧ ws_deferred_auth_active s = false;
  ao_deferred : ws_deferred_auth_active s = true -> ws_identity s = None }.

(** The token a connection shows with an event: in the header of the request it was
    opened with, when it is accepted, or in an authentication message. *)
Definition shown (req : HttpRequest) (e : ws_event) : option string :=
  match e with
  | WsAccepted IoOk => ParseBearer req
  | WsAuthRead res => auth_message res
  | _ => None
  end.

(** The token that is shown stands for [session] at this time in this store. *)
Definition validates (req : HttpRequest) (e : ws_event) (clock : Timestamp) (db : Database) (session : SessionRecord) : Prop :=
  ∃ token, shown req e = Some token ∧ (ValidateAccessToken (tokens ctx) token clock db).1 = Ok session.

(** What a handler may do to the registry and to the identity of its session: enter
    the session under the key of the identity it has just taken, or take entries out. *)
Definition auth_step (id : Z) (e : ws_event) (clock : Timestamp) (db : Database) (c c' : Conn) : Prop :=
  auth_ok c'.2 ∧ ws_req c'.2 = ws_req c.2 ∧
  (ws_identity c'.2 = ws_identity c.2 ∨
   ws_identity c.2 = None ∧ ∃ session, ws_identity c'.2 = Some session ∧ validates (ws_req c.2) e clock db session) ∧
  (∀ key send, senders_ c'.1 !! key = Some send ->
     senders_ c.1 !! key = Some send ∨
     send = Some id ∧ ∃ session, ws_identity c'.2 = Some session ∧
       key = DeviceScopeKey (s_user_id session) (s_device_id session)).

Lemma auth_step_same id e clock db r s s' :
  auth_ok s' -> ws_req s' = ws_req s -> ws_identity s' = ws_identity s -> auth_step id e clock db (r, s) (r, s').
Proof. intros Ha Hq Hi. split; [done|]. split; [done|]. split; [by left|]. by left. Qed.

Lemma Shutdown_auth id e clock db r s : auth_ok s -> auth_step id e clock db (r, s) (Shutdown (r, s)).
Proof.
  intros [A1 A2]. unfold Shutdown. destruct (negb _).
  - split; [by split|]. split; [done|]. split; [by left|]. intros key send. simpl. intros [_ E]%lookup_delete_Some. by left.
  - by apply auth_step_same.
Qed.

Lemma FinishAuth_auth id e token clock db r s :
  ws_accepting s = false -> ws_deferred_auth_active s = false -> ws_identity s = None ->
  shown (ws_req s) e = Some token -> auth_step id e clock db (r, s) (FinishAuth id token clock db (r, s)).
Proof.
  intros Ha Hd Hi Ht. unfold FinishAuth.
  destruct (ValidateAccessToken (tokens ctx) token clock db) as [[session|err] db'] eqn:E.
  - split; [by split; simpl; rewrite ?Ha, ?Hd|]. split; [done|]. split.
    + right. split; [done|]. exists session. split; [done|]. exists token. by rewrite E.
    + intros key send. simpl. intros [[<- <-]|[_ Hk]]%lookup_insert_Some; [|by left].
      right. split; [done|]. by exists session.
  - apply auth_step_same; [|done|done]. split; simpl; by rewrite ?Ha, ?Hd.
Qed.

Lemma auth_ok_frame s s' :
  ws_accepting s' = ws_accepting s -> ws_deferred_auth_active s' = ws_deferred_auth_active s ->
  ws_identity s' = ws_identity s -> auth_ok s -> auth_ok s'.
Proof. intros E1 E2 E3 [A1 A2]. split; by rewrite ?E1, ?E2, ?E3. Qed.

Lemma PumpOutbound_auth id e clock db r s s0 :
  auth_ok s0 -> ws_accepting s = ws_accepting s0 -> ws_deferred_auth_active s = ws_deferred_auth_active s0 ->
  ws_identity s = ws_identity s0 -> ws_req s = ws_req s0 -> auth_step id e clock db (r, s0) (r, PumpOutbound s).
Proof.
  intros Ha E1 E2 E3 E4.
  assert (Hp : ws_accepting (PumpOutbound s) = ws_accepting s ∧
    ws_deferred_auth_active (PumpOutbound s) = ws_deferred_auth_active s ∧
    ws_identity (PumpOutbound s) = ws_identity s ∧ ws_req (PumpOutbound s) = ws_req s).
  { unfold PumpOutbound. destruct (ws_write_in_progress s); [done|]. by destruct (ws_outbound s). }
  destruct Hp as (P1 & P2 & P3 & P4).
  apply auth_step_same; [apply (auth_ok_frame s0)|..]; congruence.
Qed.

Lemma handle_auth id e clock db r s c' :
  handle id e clock db (r, s) = Some c' -> auth_ok s -> auth_step id e clock db (r, s) c'.
Proof.
  unfold handle. intros Hh Ha. pose proof Ha as [A1 A2]. destruct e as [ec|aborted|res| |ec|res].
  - destruct (ws_accepting s) eqn:Eac; [|done]. injection Hh as <-. destruct (A1 eq_refl) as [Hi Hd].
    unfold OnAccept. destruct ec; [|by apply auth_step_same; [split|..]..].
    destruct (ParseBearer _) as [token|] eqn:Eb;
      [by apply (FinishAuth_auth id _ token clock db r (set_ws_accepting false s))|]. by apply auth_step_same; [split|..].
  - destruct (ws_timer s); [|done]. injection Hh as <-. unfold on_auth_timer.
    destruct aborted; [by apply auth_step_same|]. case_match; [|by apply auth_step_same].
    apply auth_step_same; [|done|done]. split; simpl; [|done]. intros Hac. by destruct (A1 Hac).
  - destruct (ws_auth_read s); [|done]. injection Hh as <-. unfold on_auth_read.
    change (ws_deferred_auth_active (set_ws_auth_read false s)) with (ws_deferred_auth_active s).
    destruct (ws_deferred_auth_active s) eqn:Ed; cbn [negb]; [|by apply auth_step_same; [apply (auth_ok_frame s)|..]].
    assert (Hac : ws_accepting s = false) by (destruct (ws_accepting s); [by destruct (A1 eq_refl)|done]).
    destruct (auth_message res) as [token|] eqn:Em.
    + apply (FinishAuth_auth id (WsAuthRead res) token clock db r
        (set_ws_deferred_auth_active false (set_ws_auth_read false s))); [done|done|by apply A2|done].
    + apply auth_step_same; [|done|done]. split; simpl; by rewrite ?Hac.
  - destruct (posts id r !! ws_handled s) as [msg|]; simpl in Hh; [|done]. injection Hh as <-.
    unfold PostSend. cbv zeta. destruct (_ && _); [by apply (Shutdown_auth id _ clock db r (set_ws_handled _ s))|].
    by apply PumpOutbound_auth.
  - destruct (ws_write_in_progress s); [|done]. injection Hh as <-. unfold on_write.
    destruct ec; [|by apply (Shutdown_auth id _ clock db r (set_ws_write_in_progress _ s))..].
    by apply PumpOutbound_auth.
  - destruct (ws_reading s); [|done]. injection Hh as <-. unfold on_read.
    destruct res; [by apply (Shutdown_auth id _ clock db r (set_ws_reading _ s))|by apply auth_step_same..].
Qed.
End WsSession.
End WsSession.
