(* ===== verification/HttpConnection.v ===== *)
(** * The life of a connection (lib/vox_net/http_listener.cpp, http_session.cpp)

    One TCP connection as a state machine around [OnRead] and [OnWrite]: it reads a
    request, hands it to the storage pool, writes the answer and reads again, closes,
    or becomes a WebSocket.  The client's requests are a stream; a read takes the first
    one and may bring more of them into the buffer.  Then the accept loop, which starts
    a connection for every socket. *)

From S2P Require Import Prelude Types Sql Database Samples Config RateLimiter Sessions Tokens Password Attachments Json Delivery WsRegistry HttpPath HttpDispatch WsSession.

(** ** The version of an answer *)

(** Every response [c] gives satisfies [P]. *)
Definition responds {A} (P : HttpResponse -> Prop) (c : HM A) : Prop :=
  ∀ w r w', c w = (Return (Some r), w') -> P r.

Lemma responds_bind {A B} P (c : HM A) (k : A -> HM B) :
  responds P c -> (∀ a, responds P (k a)) -> responds P (hbind c k).
Proof.
  intros Hc Hk w r w'. unfold hbind. destruct (c w) as [[a|o|] w1] eqn:E; [apply Hk| |done].
  intros [= -> ->]. by eapply Hc.
Qed.

Lemma responds_try P c : responds P c -> responds P (try_routes c).
Proof.
  intros Hc w r w'. unfold try_routes. destruct (c w) as [[a|[o|]|] w1] eqn:E; [done| |done|done].
  intros [= -> ->]. by eapply Hc.
Qed.

Lemma responds_call {S A} P (get : ServerWorld -> S) put (c : M S A) : responds P (call get put c).
Proof. intros w r w'. unfold call. by destruct (c (get w)). Qed.

Lemma responds_collect {A B} P (body : nat -> A -> HM (option B)) i l :
  (∀ i x, responds P (body i x)) -> responds P (for_collect body i l).
Proof.
  intros Hb. revert i. induction l as [|x l IH]; intros i; simpl; [by intros w r w'|].
  apply responds_bind; [apply Hb|]. intros b. apply responds_bind; [apply IH|]. by intros bs w r w'.
Qed.

Ltac rstep :=
  repeat (cbv beta zeta; lazymatch goal with
  | |- responds _ (hbind _ _) => apply responds_bind; [|intros ?]
  | |- responds _ (ok_or_error _ _) => unfold ok_or_error
  | |- responds _ (when _ _) => unfold when
  | |- responds _ (when_some _ _) => unfold when_some
  | |- responds _ (or_raise _) => unfold or_raise
  | |- responds _ (on_db _) => apply responds_call
  | |- responds _ (on_relay _) => apply responds_call
  | |- responds _ (on_uploads _) => apply responds_call
  | |- responds _ (for_collect _ _ _) => apply responds_collect; intros ? ?
  | |- responds _ (respond _) => by intros ? ? ? [= <- _]
  | |- responds _ (answer _ _) => by intros ? ? ? [= <- _]
  | |- responds _ (fail_with _ _ _ _) => by intros ? ? ? [= <- _]
  | |- responds _ (match ?x with _ => _ end) => destruct x
  | |- responds _ _ => by intros ? ? ?
  end).

Section connection.
Context `{SqlEngine} `{Disk} `{Argon2} `{BoostJson} (ctx : ServerContext) (is_upgrade : HttpRequest -> bool).

Section version.
Context (req : HttpRequest) (env : RequestEnv) (sess : SessionRecord).
Notation same_version := (λ r, rs_version r = rq_version req).

Lemma version_post : responds same_version (handle_post ctx req env sess).
Proof.
  unfold handle_post, post_logout, post_change_password, post_messages_send, post_messages_ack, post_conversations,
    post_members, post_subscribe, post_unsubscribe, post_prekeys, post_upload_init, post_finalize,
    membership_changed, conversation_created, own_device, own_scope, parse_body. rstep.
Qed.

Lemma version_get : responds same_version (handle_get req env sess).
Proof.
  unfold handle_get, get_me, get_me_devices, get_key_bundle, get_sync_changes, get_users, get_user_by_username,
    get_users_search, user_suffix, get_prekey_bundles, get_user_devices, get_user, get_conversation, get_members,
    get_group_members, get_channel_members, get_sync_pending, get_envelopes, get_conversations, get_device_bundle,
    get_user_device_bundle, get_attachment, envelopes_answer, enabled_user, limit_param, not_a_member. rstep.
Qed.

Lemma version_put : responds same_version (handle_put ctx req env sess).
Proof.
  unfold handle_put, put_key_bundle, put_sync_record, put_signed_prekey, put_chunk, push_own, own_device, own_scope,
    parse_body. rstep.
Qed.

Lemma version_delete : responds same_version (handle_delete ctx req env sess).
Proof.
  unfold handle_delete, delete_device, delete_sync_record, delete_member, membership_changed, push_own, own_device,
    parse_body. rstep.
Qed.
End version.

(** Every answer has the HTTP version of its request. *)
Lemma version_dispatch req env session :
  responds (λ r, rs_version r = rq_version req) (dispatch ctx req env session).
Proof.
  unfold dispatch, check_size, limit_auth, limit_account, too_many. rstep;
    try (intros w r w'; unfold allow_auth, allow_account; by case_match); apply responds_try.
  - unfold TryPublicAuth, post_register, post_login, post_refresh, parse_body. rstep.
  - unfold TryAdmin, admin_stats, admin_delete_user. rstep.
  - unfold HandleAuthenticated. destruct (rq_method req);
      [apply version_get|apply version_post|apply version_put|apply version_delete|by intros w r w'].
Qed.

(** ** The state machine *)

(** What the storage pool makes of a request: the exception handlers around
    [DispatchHttp] included. *)
Definition serve (req : HttpRequest) (env : RequestEnv) (sess : option SessionRecord) (w : ServerWorld)
    : HttpResponse * ServerWorld :=
  match DispatchHttp ctx req env sess w with
  | (Some r, w') => (r, w')
  | (None, w') => (InternalServerErrorResponse (rq_version req) "Internal server error", w')
  end.

(** [keep_alive()] of a response without a [Connection] field: the default of its
    version.  No response of the server has the field. *)
Definition keep_alive (r : HttpResponse) : bool := 11 <=? rs_version r.

Inductive Phase :=
  | Reading
  | Serving (req : HttpRequest) (sess : option SessionRecord)
  | Writing (req : HttpRequest) (res : HttpResponse) (close keep_alive : bool)
  | Upgraded (req : HttpRequest)
  | SendShutdown
  | Closed.

(** The requests the client sent that have not been received; those received into
    [buffer_] behind the current one; and what was answered. *)
Record HttpSession := mkHttpSession {
  hs_stream : list HttpRequest;
  hs_buffer : list HttpRequest;
  hs_phase : Phase;
  hs_answered : list (HttpRequest * HttpResponse) }.

(** [Run]. *)
Definition Run (requests : list HttpRequest) : HttpSession := mkHttpSession requests [] Reading [].

(** A read completes (with [ahead] more requests in the buffer), the pool has served
    the request, a write completes, or the rest of the server changes the world. *)
Inductive http_event :=
  | EvRead (ec : IoResult) (ahead : nat) (clock : Timestamp)
  | EvServed (env : RequestEnv)
  | EvWritten (ec : IoResult)
  | EvWorld (w : ServerWorld).

Definition after_read (req : HttpRequest) (a : AfterRead) : Phase :=
  match a with
  | ShutdownSend => SendShutdown
  | Dropped => Closed
  | WriteAndClose res => Writing req res true false
  | UpgradeToWs => Upgraded req
  | SubmitDispatch sess => Serving req sess
  end.

Definition http_step (st : ServerWorld * HttpSession) (ev : http_event) : ServerWorld * HttpSession :=
  let '(w, c) := st in
  match ev, hs_phase c with
  | EvRead IoOk ahead clock, Reading =>
      match hs_stream c with
      | [] => st
      | req :: rest =>
          (w, mkHttpSession (drop ahead rest) (take ahead rest)
                (after_read req (WsSession.OnRead ctx is_upgrade IoOk req clock w)) (hs_answered c))
      end
  | EvRead ec _ clock, Reading =>
      (w, mkHttpSession (hs_stream c) (hs_buffer c)
            match ec with IoEndOfStream => SendShutdown | _ => Closed end (hs_answered c))
  | EvServed env, Serving req sess =>
      let '(res, w') := serve req env sess w in
      (w', mkHttpSession (hs_stream c) (hs_buffer c) (Writing req res false (keep_alive res)) (hs_answered c))
  | EvWritten ec, Writing req res close ka =>
      match WsSession.OnWrite ec close ka with
      | WriteFailed => (w, mkHttpSession (hs_stream c) (hs_buffer c) Closed (hs_answered c))
      | ShutdownBoth => (w, mkHttpSession (hs_stream c) (hs_buffer c) Closed (hs_answered c ++ [(req, res)]))
      | ReadNext => (w, mkHttpSession (hs_stream c) [] Reading (hs_answered c ++ [(req, res)]))
      end
  | EvWorld w', _ => (w', c)
  | _, _ => st
  end.

Definition http_run (evs : list http_event) (st : ServerWorld * HttpSession) : ServerWorld * HttpSession :=
  foldl http_step st evs.

(** The request a connection has read and not answered. *)
Definition in_flight (p : Phase) : list HttpRequest :=
  match p with Serving req _ | Writing req _ _ _ | Upgraded req => [req] | _ => [] end.

Lemma in_flight_after_read req clock w :
  in_flight (after_read req (WsSession.OnRead ctx is_upgrade IoOk req clock w)) = [req].
Proof. cbn [WsSession.OnRead]. destruct (is_upgrade req); [|done]. by destruct (negb _). Qed.

(** The requests taken from the stream so far contain the answered ones, in order,
    then the one in flight. *)
Definition in_order (sent : list HttpRequest) (c : HttpSession) : Prop :=
  ∃ taken, sent = taken ++ hs_stream c ∧ (hs_answered c).*1 ++ in_flight (hs_phase c) `sublist_of` taken.

Lemma in_order_step sent w c ev : in_order sent c -> in_order sent (http_step (w, c) ev).2.
Proof.
  intros Hkeep. pose proof Hkeep as (taken & E & Hsub). subst sent.
  assert (Hdrop : (hs_answered c).*1 `sublist_of` taken).
  { etrans; [|exact Hsub]. by apply sublist_inserts_r. }
  destruct ev as [[] ahead clock|env|ec|w']; cbn [http_step]; destruct (hs_phase c) eqn:Ep;
    try exact Hkeep.
  - destruct (hs_stream c) as [|req rest] eqn:Es; [exact Hkeep|].
    exists (taken ++ req :: take ahead rest). cbn [snd hs_stream hs_answered hs_phase]. split.
    + rewrite <- app_assoc. simpl. by rewrite take_drop.
    + rewrite in_flight_after_read. apply sublist_app; [done|]. apply sublist_skip, sublist_nil_l.
  - exists taken. split; [done|]. simpl. by rewrite app_nil_r.
  - exists taken. split; [done|]. simpl. by rewrite app_nil_r.
  - destruct (serve req env sess w) as [res w']. by exists taken.
  - destruct (WsSession.OnWrite ec close keep_alive0); exists taken; (split; [done|]); cbn [snd hs_answered hs_phase in_flight];
      rewrite ?app_nil_r, ?fmap_app; done.
Qed.

(** Nothing is received ahead of its turn. *)
Definition waits (ev : http_event) : Prop := match ev with EvRead _ ahead _ => ahead = 0%nat | _ => True end.

(** ... and then at most one request, in flight when the connection ended, is missing. *)
Definition lossless (sent : list HttpRequest) (c : HttpSession) : Prop :=
  ∃ cur, (hs_answered c).*1 ++ cur ++ hs_stream c = sent ∧ (length cur <= 1)%nat ∧
    (hs_phase c ≠ Closed -> cur = in_flight (hs_phase c)).

Lemma lossless_step sent w c ev : waits ev -> lossless sent c -> lossless sent (http_step (w, c) ev).2.
Proof.
  intros Hw Hkeep. pose proof Hkeep as (cur & Hs & Hlen & Hcur).
  destruct ev as [[] ahead clock|env|ec|w']; cbn [http_step]; destruct (hs_phase c) eqn:Ep;
    try exact Hkeep.
  - specialize (Hcur ltac:(done)). simpl in Hcur, Hw. subst cur ahead.
    destruct (hs_stream c) as [|req rest] eqn:Es.
    { exact Hkeep. }
    exists [req]. cbn [snd hs_stream hs_answered hs_phase]. rewrite drop_0. split; [exact Hs|]. split; [simpl; lia|].
    intros _. by rewrite in_flight_after_read.
  - specialize (Hcur ltac:(done)). simpl in Hcur. subst cur. exists []. by split_and!.
  - specialize (Hcur ltac:(done)). simpl in Hcur. subst cur. exists []. by split_and!.
  - specialize (Hcur ltac:(done)). destruct (serve req env sess w) as [res w']. exists cur. by split_and!.
  - specialize (Hcur ltac:(done)). simpl in Hcur. subst cur.
    destruct (WsSession.OnWrite ec close keep_alive0); cbn [snd hs_stream hs_answered hs_phase].
    + exists [req]. by split_and!.
    + exists []. cbn [hs_answered hs_stream hs_phase]. rewrite fmap_app, <- app_assoc. by split_and!; [..|simpl; lia|].
    + exists []. cbn [hs_answered hs_stream hs_phase]. rewrite fmap_app, <- app_assoc. by split_and!; [..|simpl; lia|].
Qed.

(** C19: Whatever the network and the rest of the server do, the answers go out in the
    order of the requests, at most one per request; and if the client waits for each
    answer, none is left out but the one a broken connection interrupts. *)
Theorem http_answers_in_order sent evs w :
  let c := (http_run evs (w, Run sent)).2 in
  (hs_answered c).*1 `sublist_of` sent ∧ (Forall waits evs -> lossless sent c).
Proof.
  intros c. split.
  - assert (Hin : in_order sent c).
    { subst c. assert (Hinit : in_order sent (w, Run sent).2) by (exists []; split; [done|]; apply sublist_nil_l).
      revert Hinit. generalize (w, Run sent) as st. induction evs as [|ev evs IH]; intros [w0 c0] Hc0; [done|].
      simpl. apply IH. by apply in_order_step. }
    clearbody c. destruct Hin as (taken & -> & Hsub). apply sublist_inserts_r. etrans; [|exact Hsub]. by apply sublist_inserts_r.
  - intros Hw. subst c.
    assert (Hinit : lossless sent (w, Run sent).2) by (exists []; simpl; by split_and!; [..|lia|]).
    revert Hinit. generalize (w, Run sent) as st. induction Hw as [|ev evs Hev _ IH]; intros [w0 c0] Hc0; [done|].
    simpl. apply IH. by apply lossless_step.
Qed.

Lemma serve_version req env sess w : rs_version (serve req env sess w).1 = rq_version req.
Proof.
  unfold serve, DispatchHttp. pose proof (version_dispatch req env sess w) as Hv.
  destruct (dispatch ctx req env sess w) as [[u|[r|]|] w']; [done| |done|done]. by apply (Hv r w').
Qed.

(** A request, the time of the read and the environment of its handler. *)
Definition exchange (x : HttpRequest * Timestamp * RequestEnv) : list http_event :=
  [EvRead IoOk 0 x.1.2; EvServed x.2; EvWritten IoOk].

Lemma exchange_run x w reqs done :
  is_upgrade x.1.1 = false -> 11 <= rq_version x.1.1 ->
  ∃ w' res, http_run (exchange x) (w, mkHttpSession (x.1.1 :: reqs) [] Reading done) =
    (w', mkHttpSession reqs [] Reading (done ++ [(x.1.1, res)])).
Proof.
  destruct x as [[req clock] env]. intros Hup Hver. simpl in Hup, Hver. unfold exchange, http_run. cbn [foldl fst snd].
  cbn [http_step hs_phase hs_stream hs_answered WsSession.OnRead]. rewrite Hup.
  cbn [after_read http_step hs_phase hs_stream hs_buffer hs_answered].
  pose proof (serve_version req env (request_session ctx req clock w) w) as Hv.
  destruct (serve req env (request_session ctx req clock w) w) as [res w']. simpl in Hv. exists w', res.
  cbn [http_step hs_phase hs_stream hs_buffer hs_answered WsSession.OnWrite]. unfold keep_alive.
  rewrite (proj2 (Z.leb_le 11 (rs_version res))) by lia. cbn [negb]. by rewrite drop_0.
Qed.

(** A client that speaks HTTP/1.1 and waits for each answer gets one for every
    request, in order, over one connection: no route, error or exception closes it. *)
Theorem keep_alive_answers_all (l : list (HttpRequest * Timestamp * RequestEnv)) w :
  Forall (λ x, is_upgrade x.1.1 = false ∧ 11 <= rq_version x.1.1) l ->
  let c := (http_run (concat (exchange <$> l)) (w, Run ((λ x, x.1.1) <$> l))).2 in
  hs_phase c = Reading ∧ hs_stream c = [] ∧ (hs_answered c).*1 = (λ x, x.1.1) <$> l.
Proof.
  intros Hl. unfold Run.
  enough (Hgen : ∀ done w, let c := (http_run (concat (exchange <$> l))
      (w, mkHttpSession ((λ x, x.1.1) <$> l) [] Reading done)).2 in
    hs_phase c = Reading ∧ hs_stream c = [] ∧ (hs_answered c).*1 = done.*1 ++ ((λ x, x.1.1) <$> l))
    by apply (Hgen [] w).
  clear w. induction Hl as [|x l [Hup Hver] _ IH]; intros done w; [simpl; by rewrite app_nil_r|].
  cbn [fmap list_fmap concat]. unfold http_run. rewrite foldl_app.
  destruct (exchange_run x w ((λ x, x.1.1) <$> l) done Hup Hver) as (w' & res & E). unfold http_run in E.
  rewrite E. specialize (IH (done ++ [(x.1.1, res)]) w'). unfold http_run in IH. cbv zeta in IH |- *.
  destruct IH as (Hp & Hs & Ha). split; [exact Hp|]. split; [exact Hs|].
  etrans; [exact Ha|]. rewrite fmap_app, <- app_assoc. done.
Qed.
End connection.

(** ** The listener *)

Module HttpListener.

(** The result of an accept; [Aborted]: the acceptor was closed meanwhile. *)
Inductive AcceptResult (Socket : Type) := Accepted (socket : Socket) | Aborted | AcceptFailed.
Arguments Accepted {Socket} socket.
Arguments Aborted {Socket}.
Arguments AcceptFailed {Socket}.

(** What the accept loop is doing: nothing, waiting for an accept that was started on an
    open acceptor, waiting for one that was started on a closed one, or running the
    handler of a completed accept before its last line. *)
Inductive accept_point := Idle | Pending | PendingOnClosed | InHandler.

Record HttpListener (Socket : Type) := mkHttpListener {
  acceptor_open : bool;
  accept_loop : accept_point;
  sessions_started : list Socket }.
Arguments mkHttpListener {Socket} acceptor_open accept_loop sessions_started.
Arguments acceptor_open {Socket} _.
Arguments accept_loop {Socket} _.
Arguments sessions_started {Socket} _.

Section listener.
Context {Socket : Type}.
Implicit Types l : HttpListener Socket.

(** The constructor: what went wrong with each call of the acceptor, if anything. *)
Definition HttpListener_ctor (open reuse bind listen : option string) : string + HttpListener Socket :=
  match open with Some m => inl ("acceptor open: " +:+ m) | None =>
  match reuse with Some m => inl ("acceptor reuse_address: " +:+ m) | None =>
  match bind with Some m => inl ("acceptor bind: " +:+ m) | None =>
  match listen with Some m => inl ("acceptor listen: " +:+ m) | None =>
  inr (mkHttpListener true Idle [])
  end end end end.

Definition do_accept l : HttpListener Socket :=
  mkHttpListener (acceptor_open l) (if acceptor_open l then Pending else PendingOnClosed) (sessions_started l).

Definition run l : HttpListener Socket := do_accept l.

Definition Shutdown l : HttpListener Socket :=
  mkHttpListener false (accept_loop l) (sessions_started l).

(** The results an accept can have: it is aborted exactly when the acceptor is closed
    while it waits, and fails when it was started on a closed one. *)
Definition possible l (ec : AcceptResult Socket) : bool :=
  match accept_loop l, ec with
  | Pending, Aborted => negb (acceptor_open l)
  | Pending, _ => acceptor_open l
  | PendingOnClosed, AcceptFailed => true
  | _, _ => false
  end.

(** The handler up to its last line. *)
Definition on_accept (ec : AcceptResult Socket) l : HttpListener Socket :=
  match ec with
  | Aborted => mkHttpListener (acceptor_open l) Idle (sessions_started l)
  | Accepted s => mkHttpListener (acceptor_open l) InHandler (sessions_started l ++ [s])
  | AcceptFailed => mkHttpListener (acceptor_open l) InHandler (sessions_started l)
  end.

Inductive listener_event := Completes (ec : AcceptResult Socket) | HandlerEnds | ShutdownCalled.

Definition listener_step l (ev : listener_event) : HttpListener Socket :=
  match ev with
  | Completes ec => if possible l ec then on_accept ec l else l
  | HandlerEnds => match accept_loop l with InHandler => do_accept l | _ => l end
  | ShutdownCalled => Shutdown l
  end.

Definition listener_run (evs : list listener_event) l : HttpListener Socket := foldl listener_step l evs.

(** The sockets the accepts of a run brought. *)
Fixpoint accepted_sockets (evs : list listener_event) l : list Socket :=
  match evs with
  | [] => []
  | ev :: evs' =>
      match ev with
      | Completes (Accepted s) => if possible l (Accepted s) then [s] else []
      | _ => []
      end ++ accepted_sockets evs' (listener_step l ev)
  end.

(** A session is started on every accepted socket, in order, and on nothing else; and
    none once the acceptor is closed. *)
Lemma listener_sessions evs l :
  sessions_started (listener_run evs l) = sessions_started l ++ accepted_sockets evs l ∧
  (acceptor_open l = false -> accepted_sockets evs l = []).
Proof.
  revert l. induction evs as [|ev evs IH]; intros l; simpl; [by rewrite app_nil_r|].
  destruct (IH (listener_step l ev)) as [Hs Hc]. unfold listener_run in *. rewrite Hs. split.
  - rewrite app_assoc. f_equal. destruct ev as [[s| |]| |]; simpl; rewrite ?app_nil_r; try done.
    + by destruct (possible l (Accepted s)); rewrite ?app_nil_r.
    + by destruct (possible l Aborted).
    + by destruct (possible l AcceptFailed).
    + by destruct (accept_loop l).
  - intros Hopen.
    assert (Hkeep : acceptor_open (listener_step l ev) = false).
    { destruct ev as [[s| |]| |]; simpl; [destruct (possible _ _)..| |]; try done. by destruct (accept_loop l). }
    rewrite (Hc Hkeep), app_nil_r. destruct ev as [[s| |]| |]; try done.
    unfold possible. rewrite Hopen. by destruct (accept_loop l).
Qed.

(** Closing the acceptor while a handler runs does not end the loop: the next accept
    fails at once, is not taken for the end and is started again, for ever. *)
Lemma accept_loop_survives_shutdown l n :
  accept_loop l = InHandler ->
  let l' := listener_run (ShutdownCalled :: HandlerEnds :: concat (replicate n [Completes AcceptFailed; HandlerEnds])) l in
  accept_loop l' = PendingOnClosed ∧ possible l' AcceptFailed = true.
Proof.
  intros Hl l'. assert (E : l' = mkHttpListener false PendingOnClosed (sessions_started l)).
  { subst l'. unfold listener_run. cbn [foldl listener_step]. unfold Shutdown. cbn [accept_loop]. rewrite Hl.
    unfold do_accept. cbn [acceptor_open sessions_started]. induction n as [|n IH]; [done|]. exact IH. }
  by rewrite E.
Qed.
End listener.
End HttpListener.

(** ** Instances *)

Section witnesses.
#[local] Existing Instance rowid_engine.
#[local] Existing Instance AttachmentService.reliable_disk.
#[local] Existing Instance toy_argon2.
#[local] Existing Instance toy_json.

Definition no_upgrade (req : HttpRequest) : bool := false.

Definition health (headers : list (string * string)) : HttpRequest := sample_request VGet "/v1/health" headers "".

Definition sample_http_world : ServerWorld :=
  mkServerWorld (mkRelayWorld sample_db ∅ (mkWsPushRegistry ∅ [])) ∅ ∅ ∅.

Definition sample_exchanges : list (HttpRequest * Timestamp * RequestEnv) :=
  [(health [], 1000, sample_env 1); (sample_request VGet "/v1/none" [] "", 1001, sample_env 2)].

Lemma keep_alive_answers_all_witness :
  let c := (http_run sample_ctx no_upgrade (concat (exchange <$> sample_exchanges))
              (sample_http_world, Run ((λ x, x.1.1) <$> sample_exchanges))).2 in
  (hs_answered c).*1 = (λ x, x.1.1) <$> sample_exchanges ∧ rs_status <$> (hs_answered c).*2 = [200; 404].
Proof.
  split; [|vm_compute; reflexivity].
  apply (keep_alive_answers_all sample_ctx no_upgrade sample_exchanges sample_http_world).
  repeat constructor; vm_compute; discriminate.
Defined.

Lemma http_answers_in_order_witness :
  lossless ((λ x, x.1.1) <$> sample_exchanges)
    (http_run sample_ctx no_upgrade (concat (exchange <$> sample_exchanges))
       (sample_http_world, Run ((λ x, x.1.1) <$> sample_exchanges))).2.
Proof.
  apply (http_answers_in_order sample_ctx no_upgrade ((λ x, x.1.1) <$> sample_exchanges)
    (concat (exchange <$> sample_exchanges)) sample_http_world).
  repeat constructor.
Defined.

(** A request that arrives in the same segment as its predecessor is thrown away with
    the buffer: the client waits for an answer that never comes. *)
Example pipelined_request_lost :
  let sent := [health []; sample_request VGet "/v1/none" [] ""] in
  let c := (http_run sample_ctx no_upgrade [EvRead IoOk 1 1000; EvServed (sample_env 1); EvWritten IoOk]
              (sample_http_world, Run sent)).2 in
  hs_phase c = Reading ∧ hs_stream c = [] ∧ (hs_answered c).*1 = [health []].
Proof. vm_compute. auto. Qed.

(** The connection stays open although the client asked to close it. *)
Example connection_close_ignored :
  hs_phase (http_run sample_ctx no_upgrade [EvRead IoOk 0 1000; EvServed (sample_env 1); EvWritten IoOk]
              (sample_http_world, Run [health [("Connection", "close")]])).2 = Reading.
Proof. vm_compute. reflexivity. Qed.
End witnesses.
