(* ===== verification/HttpSafety.v ===== *)
(** * Routing and authorization of DispatchHttp

    Which requests reach which part of the server: unknown routes, requests without
    a session, and the accounts a session can touch. *)

From S2P Require Import Prelude Types Sql Database Samples Hex Paging Config RateLimiter Uuid Users Devices Sessions Password Tokens Auth Conversations Envelopes SyncState Attachments Delivery Relay ConversationService Admin Json WsRegistry HttpPath HttpDispatch.

(** ** Text *)

Lemma strip_prefix_app p s : strip_prefix p (p +:+ s) = Some s.
Proof.
  induction p as [|c p IH]; [done|]. change (String c p +:+ s) with (String c (p +:+ s)).
  cbn [strip_prefix]. by rewrite Ascii.eqb_refl.
Qed.

Lemma strip_prefix_Some p s r : strip_prefix p s = Some r <-> s = p +:+ r.
Proof.
  split; [|intros ->; apply strip_prefix_app].
  revert s. induction p as [|c p IH]; intros s; cbn [strip_prefix]; [by intros [= ->]|].
  destruct s as [|c' s]; [done|]. destruct (Ascii.eqb_spec c c') as [->|]; [|done].
  intros E%IH. by rewrite E.
Qed.

Lemma starts_with_true p s : starts_with p s = true <-> ∃ r, s = p +:+ r.
Proof.
  unfold starts_with. rewrite bool_decide_eq_true. split.
  - intros [r Hr%strip_prefix_Some]. by exists r.
  - intros [r ->]. rewrite strip_prefix_app. by eexists.
Qed.

Lemma strip_suffix_Some q s b : strip_suffix q s = Some b -> s = b +:+ q.
Proof.
  revert b. induction s as [|c s IH]; intros b; cbn [strip_suffix].
  - destruct (String.eqb_spec "" q) as [<-|]; [by intros [= <-]|done].
  - destruct (String.eqb_spec (String c s) q) as [<-|]; [by intros [= <-]|].
    intros (b' & E & ->)%fmap_Some. by rewrite (IH b' E).
Qed.

Lemma one_of_false l s : one_of l s = false -> ∀ x, x ∈ l -> (s =s? x) = false.
Proof.
  unfold one_of. induction l as [|y l IH]; simpl; [by intros _ x ?%not_elem_of_nil|].
  intros [Hy Hl]%orb_false_iff x [->|Hx]%elem_of_cons; [done|by apply IH].
Qed.

Lemma if_true_false (b c : bool) : (if b then true else c) = false -> b = false ∧ c = false.
Proof. by destruct b. Qed.

(** ** Handlers that decline *)

Section safety.
Context `{SqlEngine} `{Disk} `{Argon2} `{BoostJson} (ctx : ServerContext).

(** The handler gives no response and changes nothing. *)
Definition silent (c : HM unit) : Prop := ∀ w, c w = (Next tt, w) ∨ c w = (Return None, w).

Lemma silent_next : silent (next tt).
Proof. by left. Qed.
Lemma silent_leave : silent leave.
Proof. by right. Qed.
Lemma silent_bind c k : silent c -> silent k -> silent (c ;;* k).
Proof. intros Hc Hk w. unfold hbind. destruct (Hc w) as [-> | ->]; [apply Hk|by right]. Qed.
Lemma silent_when b c : b = false -> silent (when b c).
Proof. intros ->. apply silent_next. Qed.
Lemma silent_when_some {A} (x : option A) c : (∀ a, x = Some a -> silent (c a)) -> silent (when_some x c).
Proof. destruct x as [a|]; intros Hx; [by apply Hx|apply silent_next]. Qed.
Lemma silent_when_none {A} (x : option A) c : x = None -> silent (when_some x c).
Proof. intros ->. apply silent_next. Qed.

Lemma some_false {A} (x : option A) : some x = false -> x = None.
Proof. by destruct x. Qed.

Lemma when_silent_then b c : (b = true -> silent c) -> silent (when b c).
Proof. destruct b; intros Hc; [by apply Hc|apply silent_next]. Qed.

(** The literals of a route list the path is not one of. *)
Ltac not_listed H :=
  apply (one_of_false _ _ H); solve [repeat first [apply list_elem_of_here | apply list_elem_of_further]].

Section request.
Context (req : HttpRequest) (env : RequestEnv) (sess : SessionRecord).
Notation path := (path req).

Lemma device_scope_none suffix :
  some (SplitDeviceSubPath path suffix) || some (SplitUserDeviceSubPath path suffix) = false ->
  device_scope req sess suffix = None.
Proof.
  intros [Hd1%some_false Hd2%some_false]%orb_false_iff. unfold device_scope. by rewrite Hd2, Hd1.
Qed.

Lemma silent_post : IsKnownProtectedRoute VPost path = false -> silent (handle_post ctx req env sess).
Proof.
  unfold IsKnownProtectedRoute, handle_post. intros [Hl Hr]%if_true_false.
  assert (Hfin : silent (when (starts_with kAttachPrefix path && ends_with "/finalize" path)
                    (when_some (SplitAttachmentSubPath path) (post_finalize req)))).
  { apply when_silent_then. intros E. rewrite E in Hr. apply silent_when_none. by apply some_false. }
  repeat (apply silent_bind; [try (apply silent_when; not_listed Hl)|]); [..|done].
  - apply silent_when_some. intros [c tail] Ec. rewrite Ec in Hr.
    destruct (starts_with _ _ && ends_with _ _) eqn:Ea.
    { exfalso. apply andb_true_iff in Ea as [[r1 E1]%starts_with_true _].
      unfold SplitConvSubPath, SplitPrefixedPath in Ec.
      apply bind_Some in Ec as (r2 & E2%strip_prefix_Some & _). by rewrite E1 in E2. }
    apply if_true_false in Hr as [Ht _].
    repeat (apply silent_bind; [apply silent_when; not_listed Ht|]). apply silent_when. not_listed Ht.
  - destruct (starts_with _ _ && ends_with _ _) eqn:Ea.
    + apply silent_when_some. intros s Es. exfalso.
      apply andb_true_iff in Ea as [[r1 E1]%starts_with_true _]. unfold device_scope in Es.
      unfold SplitUserDeviceSubPath, SplitDeviceSubPath, SplitPrefixedPath in Es. by rewrite E1 in Es.
    + apply if_true_false in Hr as [_ Hr]. apply if_true_false in Hr as [Hd _].
      apply silent_when_none. by apply device_scope_none.
Qed.

(** A path that ends in the suffix and names a user starts with the users prefix. *)
Lemma silent_user_suffix suffix c :
  starts_with kUsersPrefix path = false -> silent (user_suffix req suffix c).
Proof.
  intros Hu. apply silent_when_some. intros base Eb. destruct (base =s? ""); [apply silent_leave|].
  destruct (strip_prefix kUsersPrefix base) as [id|] eqn:Ep; [exfalso|apply silent_leave].
  apply strip_suffix_Some in Eb. apply strip_prefix_Some in Ep as ->. rewrite string_app_assoc in Eb.
  apply not_true_iff_false in Hu. apply Hu, starts_with_true. by eexists.
Qed.

Lemma strip_prefix_none p q :
  starts_with p path = false -> (∃ t, q = p +:+ t) -> strip_prefix q path = None.
Proof.
  intros Hp [t ->]. destruct (strip_prefix _ path) as [r|] eqn:E; [|done]. exfalso.
  apply strip_prefix_Some in E. apply not_true_iff_false in Hp. apply Hp, starts_with_true.
  rewrite string_app_assoc in E. by eexists.
Qed.

Lemma eqb_prefix_false p q :
  starts_with p path = false -> (∃ t, q = p +:+ t) -> (path =s? q) = false.
Proof.
  intros Hp [t ->]. apply String.eqb_neq. intros E. apply not_true_iff_false in Hp.
  apply Hp, starts_with_true. by eexists.
Qed.

Lemma silent_get : IsKnownProtectedRoute VGet path = false -> silent (handle_get req env sess).
Proof.
  unfold IsKnownProtectedRoute, handle_get. intros [Hl Hr]%if_true_false.
  apply if_true_false in Hr as [Hchanges Hr]. apply if_true_false in Hr as [Husers Hr].
  apply if_true_false in Hr as [Honly Hr]. apply if_true_false in Hr as [Hconv Hr].
  apply if_true_false in Hr as [Hdev Hr]. apply if_true_false in Hr as [_ Hr].
  apply orb_false_iff in Hdev as [Hdev1%some_false Hdev2%some_false].
  assert (Hc : ∀ conv_id tail, SplitConvSubPath path = Some (conv_id, tail) ->
    (tail =s? "members") = false ∧ (tail =s? "envelopes") = false).
  { intros conv_id tail E. rewrite E in Hconv. split; not_listed Hconv. }
  repeat (apply silent_bind; [try (apply silent_when; not_listed Hl)|]).
  - by apply silent_when.
  - apply silent_when_none. apply (strip_prefix_none kUsersPrefix); [done|by exists "by-username/"].
  - apply silent_when. apply (eqb_prefix_false kUsersPrefix); [done|by exists "search"].
  - by apply silent_user_suffix.
  - by apply silent_user_suffix.
  - apply silent_when_none. apply (strip_prefix_none kUsersPrefix); [done|by exists ""].
  - apply silent_when_none. by apply some_false.
  - apply silent_when_some. intros [c t] E. apply silent_when. by apply (Hc c).
  - apply silent_when_some. intros [c t] E. apply silent_when. by apply (Hc c).
  - by apply silent_when_none.
  - by apply silent_when_none.
  - apply when_silent_then. intros E. rewrite E in Hr. apply silent_when_none. by apply some_false.
Qed.

Lemma silent_put : IsKnownProtectedRoute VPut path = false -> silent (handle_put ctx req env sess).
Proof.
  unfold IsKnownProtectedRoute, handle_put. intros [Hl Hr]%if_true_false.
  apply if_true_false in Hr as [Hsync Hr]. apply if_true_false in Hr as [Hdev Hr].
  repeat apply silent_bind.
  - by apply silent_when.
  - apply silent_when_none. unfold SplitSyncRecordPath, SplitPrefixedPath.
    by rewrite (strip_prefix_none kSyncRecordsPrefix) by (done || by exists "").
  - apply silent_when_none. by apply device_scope_none.
  - apply when_silent_then. intros E. rewrite E in Hr. apply silent_when_none. by apply some_false.
Qed.

Lemma silent_delete : IsKnownProtectedRoute VDelete path = false -> silent (handle_delete ctx req env sess).
Proof.
  unfold IsKnownProtectedRoute, handle_delete. intros [Hdev Hr]%if_true_false.
  apply if_true_false in Hr as [Hsync Hr]. apply if_true_false in Hr as [Hconv _].
  repeat apply silent_bind.
  - apply silent_when_none. apply (strip_prefix_none "/v1/me/devices/"); [done|by exists ""].
  - apply silent_when_none. unfold SplitSyncRecordPath, SplitPrefixedPath.
    by rewrite (strip_prefix_none kSyncRecordsPrefix) by (done || by exists "").
  - apply silent_when_some. intros [c t] E. rewrite E in Hconv. apply silent_when_none.
    unfold starts_with in Hconv. apply bool_decide_eq_false in Hconv. by apply eq_None_not_Some.
Qed.

Lemma silent_authenticated :
  IsKnownProtectedRoute (rq_method req) path = false -> silent (HandleAuthenticated ctx req env sess).
Proof.
  unfold HandleAuthenticated. destruct (rq_method req).
  - apply silent_get.
  - apply silent_post.
  - apply silent_put.
  - apply silent_delete.
  - intros _. apply silent_next.
Qed.
End request.

(** ** Guards of the dispatch *)

Section dispatch.
Context (req : HttpRequest) (env : RequestEnv).
Notation path := (path req).

(** The request does not carry the administrator's token. *)
Definition not_admin : Prop :=
  cf_admin_token (ctx_config ctx) = EmptyString ∨
  header "X-Admin-Token" req ≠ Some (cf_admin_token (ctx_config ctx)).

Definition small_body : Prop :=
  Z.of_nat (String.length (rq_body req)) <= cf_max_http_body_bytes (ctx_config ctx).

Lemma try_admin_silent w : not_admin -> try_routes (TryAdmin ctx req env) w = (Next tt, w).
Proof.
  intros Hna. unfold try_routes, TryAdmin. destruct (header "X-Admin-Token" req) as [t|] eqn:Eh; [|done].
  destruct (String.eqb_spec (cf_admin_token (ctx_config ctx)) ""); [done|].
  destruct (String.eqb_spec t (cf_admin_token (ctx_config ctx))) as [->|]; [|done].
  exfalso. destruct Hna as [|Hna]; [done|]. by apply Hna.
Qed.

Lemma try_public_silent w :
  auth_route req = false -> try_routes (TryPublicAuth ctx req env) w = (Next tt, w).
Proof.
  unfold auth_route, try_routes, TryPublicAuth. intros Hr. destruct (bool_decide_reflect (rq_method req = VPost)) as [Em|]; [|done].
  simpl in Hr. apply orb_false_iff in Hr as [Hr1 [Hr2 [Hr3 _]%orb_false_iff]%orb_false_iff].
  simpl negb. cbv iota. unfold hbind, when. by rewrite Hr1, Hr2, Hr3.
Qed.

Lemma limit_auth_silent w : auth_route req = false -> limit_auth ctx req env w = (Next tt, w).
Proof. intros Hr. unfold limit_auth, when_some, when. rewrite Hr. by destruct (ctx_auth_rate_limiter ctx). Qed.

Lemma check_size_small w : small_body -> check_size ctx req w = (Next tt, w).
Proof. intros Hs. unfold check_size, when. by rewrite (proj2 (Z.ltb_ge _ _) Hs). Qed.

Lemma heavy_route_known : heavy_route req = true -> IsKnownProtectedRoute (rq_method req) path = true.
Proof.
  unfold heavy_route. rewrite orb_true_iff, !andb_true_iff, !bool_decide_eq_true, String.eqb_eq.
  intros [[-> ->]|[[-> Hs] Hf]]; [done|]. unfold IsKnownProtectedRoute. rewrite Hs, Hf.
  repeat case_match; try done. apply starts_with_true in Hs as [r Er]. rewrite Er in *.
  unfold SplitAttachmentSubPath. rewrite strip_prefix_app. simpl.
  destruct (String.eqb_spec r "") as [->|]; [by vm_compute in Hf|]. by destruct (split_at_char slash r) as [[]|].
Qed.

(** A route the server does not know gets 404 and changes nothing, with a session
    or without: whatever a session could make the handlers do is a route that
    [IsKnownProtectedRoute] lists, so a client without a session learns of it (401)
    and of nothing else (404). *)
Theorem unknown_route_not_found session w :
  small_body -> auth_route req = false -> not_admin ->
  (rq_method req, path) ≠ (VGet, "/v1/health") ->
  IsKnownProtectedRoute (rq_method req) path = false ->
  DispatchHttp ctx req env session w = (Some (NotFoundRes (rq_version req)), w).
Proof.
  intros Hs Ha Hna Hh Hk. unfold DispatchHttp, dispatch, hbind.
  rewrite check_size_small, limit_auth_silent by done.
  assert (Hhealth : bool_decide (rq_method req = VGet) && (path =s? "/v1/health") = false).
  { apply not_true_iff_false. intros [E1%bool_decide_eq_true E2%String.eqb_eq]%andb_true_iff.
    by rewrite E1, E2 in Hh. }
  rewrite Hhealth. simpl when. cbv beta iota.
  change (next () w) with (@Next unit tt, w). cbv iota.
  rewrite try_public_silent, try_admin_silent by done.
  destruct session as [sess|]; [|by rewrite Hk].
  unfold limit_account, when_some, when.
  destruct (heavy_route req) eqn:Eh; [by rewrite heavy_route_known in Hk|].
  assert (Hl : match ctx_account_rate_limiter ctx with
               | Some _ => next ()
               | None => next ()
               end w = (@Next unit tt, w)) by by destruct (ctx_account_rate_limiter ctx).
  rewrite Hl. unfold try_routes. destruct (silent_authenticated req env sess Hk w) as [-> | ->]; done.
Qed.

(** C13: Without a session a request changes nothing at all, unless it registers, logs
    in, refreshes or carries the administrator's token: it is answered with 413 when
    too large, by the health check, with 401 on a protected route and with 404
    elsewhere. *)
Theorem no_session_no_effect w :
  auth_route req = false -> not_admin ->
  ∃ r, DispatchHttp ctx req env None w = (Some r, w) ∧
    (¬ small_body ∧ rs_status r = 413 ∨
     (rq_method req, path) = (VGet, "/v1/health") ∧ rs_status r = 200 ∨
     rs_status r = if IsKnownProtectedRoute (rq_method req) path then 401 else 404).
Proof.
  intros Ha Hna. unfold DispatchHttp, dispatch, hbind, check_size, when.
  destruct (Z.ltb_spec (cf_max_http_body_bytes (ctx_config ctx)) (Z.of_nat (String.length (rq_body req)))).
  { eexists. split; [done|]. left. split; [unfold small_body; lia|done]. } change (next () w) with (@Next unit tt, w). cbv iota.
  rewrite limit_auth_silent by done.
  destruct (_ && _) eqn:Eh.
  { apply andb_true_iff in Eh as [E1%bool_decide_eq_true E2%String.eqb_eq].
    eexists. split; [done|]. right. left. split; [by rewrite E1, E2|done]. }
  change (next () w) with (@Next unit tt, w). cbv iota. rewrite try_public_silent, try_admin_silent by done.
  destruct (IsKnownProtectedRoute _ _); simpl; eexists; (split; [done|]); right; by right.
Qed.
End dispatch.

(** ** A documented route that cannot be reached *)

Lemma app_last (s t : string) (c d : Ascii.ascii) :
  s +:+ String c EmptyString = t +:+ String d EmptyString -> c = d.
Proof.
  revert t. induction s as [|a s IH]; intros [|b t]; cbn.
  - by intros [= ->].
  - intros [= _ E]. by destruct t.
  - intros [= _ E]. by destruct s.
  - intros [= _ E]. exact (IH t E).
Qed.

Lemma hbind_when_false b c (k : unit -> HM unit) w : b = false -> hbind (when b c) k w = k tt w.
Proof. by intros ->. Qed.

Section scoped_bundle.
Context (req : HttpRequest) (env : RequestEnv) (sess : SessionRecord) (user device : string).
Context (Hget : rq_method req = VGet) (Huser : contains_char slash user = false) (Hby : user ≠ "by-username").
Notation rest := (user +:+ String slash ("devices/" +:+ device +:+ "/prekey-bundle")).
Context (Hpath : path req = kUsersPrefix +:+ rest).

Lemma scoped_no_suffix q c (k : UserId -> HM unit) :
  c ≠ ascii_of_byte 101 -> silent (user_suffix req (q +:+ String c EmptyString) k).
Proof.
  intros Hc. apply silent_when_some. intros b Eb%strip_suffix_Some. exfalso. apply Hc. rewrite Hpath in Eb.
  symmetry. apply (app_last (kUsersPrefix +:+ user +:+ String slash ("devices/" +:+ device +:+ "/prekey-bundl")) (b +:+ q)).
  rewrite <- !string_app_assoc in *. rewrite <- Eb. rewrite !string_app_assoc. f_equal. f_equal.
  change (String slash ?x) with ("/" +:+ x). rewrite !string_app_assoc. done.
Qed.

(** The handler gives up before it reaches the route. *)
Lemma scoped_bundle_left w : handle_get req env sess w = (Return None, w).
Proof.
  unfold handle_get.
  assert (Hlit : ∀ x, (∀ y, x ≠ kUsersPrefix +:+ y) -> (path req =s? x) = false).
  { intros x Hx. rewrite Hpath. apply String.eqb_neq. intros E. by apply (Hx rest). }
  assert (Hsearch : (path req =s? "/v1/users/search") = false).
  { rewrite Hpath. apply String.eqb_neq. intros E.
    apply (f_equal (strip_prefix kUsersPrefix)) in E. rewrite strip_prefix_app in E. injection E as E.
    apply (f_equal (contains_char slash)) in E. rewrite contains_char_app in E. cbn [contains_char] in E.
    by rewrite Ascii.eqb_refl, orb_true_r in E. }
  assert (Hbyname : strip_prefix "/v1/users/by-username/" (path req) = None).
  { destruct (strip_prefix _ (path req)) as [r|] eqn:E; [|done]. exfalso. apply strip_prefix_Some in E.
    rewrite Hpath in E. apply (f_equal (strip_prefix kUsersPrefix)) in E. rewrite strip_prefix_app in E.
    change ("/v1/users/by-username/" +:+ r) with (kUsersPrefix +:+ ("by-username" +:+ String slash r)) in E.
    rewrite strip_prefix_app in E. injection E as E. by apply app_sep_inj in E as [-> _]. }
  assert (Hch : starts_with "/v1/sync/changes" (path req) = false) by (by rewrite Hpath).
  assert (Hleave : when_some (strip_prefix kUsersPrefix (path req)) (get_user req) w = (Return None, w)).
  { rewrite Hpath, strip_prefix_app. simpl. unfold get_user. rewrite contains_char_app.
    cbn [contains_char]. by rewrite Ascii.eqb_refl, orb_true_r. }
  rewrite !hbind_when_false by first [exact Hch | by apply Hlit].
  unfold hbind at 1. rewrite Hbyname. change (when_some None _ w) with (@Next unit tt, w). cbv iota.
  rewrite hbind_when_false by done.
  unfold hbind at 1. destruct (scoped_no_suffix "/prekey-bundle" (ascii_of_byte 115) (get_prekey_bundles req env) ltac:(done) w) as [E|E];
    change ("/prekey-bundle" +:+ String (ascii_of_byte 115) "") with "/prekey-bundles" in E; rewrite E; [|done].
  unfold hbind at 1. destruct (scoped_no_suffix "/device" (ascii_of_byte 115) (get_user_devices req) ltac:(done) w) as [E'|E'];
    change ("/device" +:+ String (ascii_of_byte 115) "") with "/devices" in E'; rewrite E'; [|done].
  unfold hbind at 1. by rewrite Hleave.
Qed.

(** The documented route of one device's prekey bundle,
    [GET /v1/users/{user_id}/devices/{device_id}/prekey-bundle], is never served: a
    signed-in client gets 404 for every user and device, because the handler of
    [/v1/users/{user_id}] leaves the switch on the longer path first. *)
Theorem scoped_prekey_bundle_unreachable w :
  small_body req -> not_admin req ->
  DispatchHttp ctx req env (Some sess) w = (Some (NotFoundRes (rq_version req)), w).
Proof.
  intros Hs Hna.
  assert (Ha : auth_route req = false) by (unfold auth_route; by rewrite Hget).
  assert (Hh : bool_decide (rq_method req = VGet) && (path req =s? "/v1/health") = false).
  { rewrite Hpath. by rewrite andb_comm. }
  unfold DispatchHttp, dispatch, hbind. rewrite check_size_small, limit_auth_silent by done.
  unfold when at 1. rewrite Hh. change (next () w) with (@Next unit tt, w). cbv iota.
  rewrite try_public_silent, try_admin_silent by done.
  assert (Hl : limit_account ctx req env sess w = (Next tt, w)).
  { unfold limit_account, heavy_route, when_some, when. rewrite Hget. by destruct (ctx_account_rate_limiter ctx). }
  rewrite Hl. unfold try_routes, HandleAuthenticated. rewrite Hget, scoped_bundle_left. done.
Qed.
End scoped_bundle.

(** ** Revoking a device *)

Lemma NotifyUserDevicesExcept_db u eu ed line w :
  rw_db (NotifyUserDevicesExcept ctx u eu ed line w) = rw_db w.
Proof.
  unfold NotifyUserDevicesExcept. destruct (negb _); [done|].
  generalize (GetDevicesForUser u (rw_db w)) as l. intros l. revert w.
  induction l as [|d l IH]; intros w; simpl; [done|]. rewrite IH. by repeat case_match.
Qed.

(** A token validates only for a stored session that is not revoked. *)
Lemma ValidateAccessToken_stored tm token clock db s db' :
  ValidateAccessToken tm token clock db = (Ok s, db') -> s ∈ sessions db ∧ session_live s.
Proof.
  unfold ValidateAccessToken, bind, gets. simpl.
  destruct (SessionRepository.FindByAccessToken _ _) as [r|] eqn:E; [|done].
  destruct (_ <=? _); [done|]. intros [= <- _]. unfold SessionRepository.FindByAccessToken in E.
  by apply (first_row_Some TSessions), list_elem_of_filter in E as [[_ Hl] Hin].
Qed.

Lemma HttpStatusForError_not_ok c : HttpStatusForError c ≠ 200.
Proof. by destruct c. Qed.

(** A call whose failure becomes the response. *)
Lemma ok_or_error_bind {A B} req (c : M Database A) (k : A -> HM B) w :
  hbind (ok_or_error req (on_db c)) k w =
  match c (sw_db w) with
  | (Ok a, db) => k a (put_db db w)
  | (Err e, db) => (Return (Some (ErrRes (rq_version req) (HttpStatusForError (code e)) e)), put_db db w)
  end.
Proof. unfold hbind, ok_or_error, on_db, call, get_db. unfold hbind. by destruct (c (sw_db w)) as [[a|e] db]. Qed.

Lemma RevokeDevice_Ok u d now db x db' :
  RevokeDevice u d now db = (Ok x, db') ->
  db' = set_one_time_prekeys (sql_delete (λ k, k_user_id k = u ∧ k_device_id k = d) (one_time_prekeys db))
          (set_devices (sql_update (λ x, is_device u d x ∧ d_revoked_at x = None) (set_revoked_at now) (devices db)) db).
Proof.
  unfold RevokeDevice, transaction, bind, gets, modify. destruct (Nat.eqb _ _); [done|]. by intros [= _ <-].
Qed.

(** The device is revoked, has no one-time prekey left and no live session. *)
Definition locked_out (u : UserId) (d : DeviceId) (db : Database) : Prop :=
  (∀ x, x ∈ devices db -> is_device u d x -> d_revoked_at x ≠ None) ∧
  (∀ k, k ∈ one_time_prekeys db -> prekey_device k ≠ (u, d)) ∧
  (∀ s, s ∈ sessions db -> s_user_id s = u -> s_device_id s = d -> s_revoked_at s ≠ None).

(** C21: Revoking one of the caller's devices locks it out at once: when the route
    answers 200 the device is marked revoked, its one-time prekeys are gone and none
    of its sessions is live, so no access token of the device validates any more; the
    device of the session itself cannot be revoked this way. *)
Theorem delete_device_locks_out req env sess target w r w' :
  delete_device ctx req env sess target w = (Return (Some r), w') -> rs_status r = 200 ->
  target ≠ s_device_id sess ∧ locked_out (s_user_id sess) target (sw_db w') ∧
  (∀ token clock s, ValidateAccessToken (tokens ctx) token clock (sw_db w') = (Ok s, sw_db w') ->
     ¬ (s_user_id s = s_user_id sess ∧ s_device_id s = target)).
Proof.
  intros Hrun Hr. unfold delete_device in Hrun.
  destruct (target =s? "") eqn:E0; [done|].
  destruct (String.eqb_spec target (s_device_id sess)) as [|Hne]; [injection Hrun as <- <-; discriminate Hr|].
  unfold from_db, reads in Hrun. unfold hbind at 1 in Hrun.
  destruct (FindByUserAndDevice _ _ _) as [dev|]; [|injection Hrun as <- <-; discriminate Hr].
  rewrite ok_or_error_bind in Hrun.
  destruct (RevokeDevice _ _ _ _) as [[x|e] db1] eqn:E1.
  2: { injection Hrun as <- <-. by apply HttpStatusForError_not_ok in Hr. }
  apply RevokeDevice_Ok in E1. rewrite ok_or_error_bind in Hrun. simpl in Hrun.
  unfold hbind, push_own, push, update, answer, respond in Hrun. injection Hrun as <- <-.
  match goal with |- context [NotifyUserDevicesExcept ?c ?u ?eu ?ed ?l ?rw] =>
    pose proof (NotifyUserDevicesExcept_db u eu ed l rw) as Edb; set (rw1 := NotifyUserDevicesExcept c u eu ed l rw) in * end.
  cbn [sw_relay set_sw_relay]. rewrite Edb. cbn [put_db set_sw_relay sw_relay set_rw_db rw_db].
  subst db1. unfold SessionRepository.revoke_rows. simpl.
  assert (Hsess : ∀ s, s ∈ sql_update (λ s, (s_user_id s = s_user_id sess ∧ s_device_id s = target) ∧ session_live s)
      (set_session_revoked (en_clock env 0)) (sessions (sw_db w)) ->
    s_user_id s = s_user_id sess -> s_device_id s = target -> s_revoked_at s ≠ None).
  { intros s (s0 & -> & Hs0)%list_elem_of_fmap. case_decide as Hd; [done|]. intros Eu Ed El. by apply Hd. }
  split; [done|]. split; [split; [|split]|].
  - intros d (d0 & -> & Hd0)%list_elem_of_fmap. case_decide as Hd; [done|]. intros Hi El. by apply Hd.
  - intros k [_ Hk]%elem_of_sql_delete E. apply Hk. unfold prekey_device in E. by simplify_eq.
  - exact Hsess.
  - intros token clock s Hv [Eu Ed]. apply ValidateAccessToken_stored in Hv as [Hin Hlive].
    by apply (Hsess s).
Qed.

End safety.

Section witnesses.
#[local] Existing Instance rowid_engine.
#[local] Existing Instance AttachmentService.reliable_disk.
#[local] Existing Instance toy_argon2.
#[local] Existing Instance toy_json.

Definition world_of (db : Database) : ServerWorld :=
  mkServerWorld (mkRelayWorld db ∅ (mkWsPushRegistry ∅ [])) ∅ ∅ ∅.

Definition sample_session : SessionRecord := issued_session sample_tm "u1" "d1" 1000 (sample_draws 1).

Lemma unknown_route_not_found_witness :
  DispatchHttp sample_ctx (sample_request VGet "/v1/nothing?x=1" [] "") (sample_env 1) (Some sample_session)
    (world_of sample_session_db) = (Some (NotFoundRes 11), world_of sample_session_db).
Proof.
  apply (unknown_route_not_found sample_ctx (sample_request VGet "/v1/nothing?x=1" [] "")).
  - vm_compute. discriminate.
  - reflexivity.
  - right. discriminate.
  - discriminate.
  - reflexivity.
Defined.

Lemma no_session_no_effect_witness :
  ∃ r, DispatchHttp sample_ctx (sample_request VPost "/v1/messages/send" [] "x") (sample_env 1) None
    (world_of sample_session_db) = (Some r, world_of sample_session_db).
Proof.
  destruct (no_session_no_effect sample_ctx (sample_request VPost "/v1/messages/send" [] "x") (sample_env 1)
    (world_of sample_session_db)) as (r & E & _).
  - reflexivity.
  - right. discriminate.
  - by exists r.
Defined.

Lemma scoped_prekey_bundle_unreachable_witness :
  DispatchHttp sample_ctx (sample_request VGet "/v1/users/u2/devices/d2/prekey-bundle" [] "") (sample_env 1)
    (Some sample_session) (world_of sample_session_db) = (Some (NotFoundRes 11), world_of sample_session_db).
Proof.
  apply (scoped_prekey_bundle_unreachable sample_ctx
    (sample_request VGet "/v1/users/u2/devices/d2/prekey-bundle" [] "") (sample_env 1) sample_session "u2" "d2").
  - reflexivity.
  - reflexivity.
  - discriminate.
  - reflexivity.
  - vm_compute. discriminate.
  - right. discriminate.
Defined.

(** The first user with a second device that has a session of its own. *)
Definition sample_two_devices : Database :=
  Eval vm_compute in (IssueTokens sample_tm "u1" "d9" 1000 (sample_draws 2)
    (set_devices (sample_device "u1" "d9" :: devices sample_session_db) sample_session_db)).2.

Lemma delete_device_locks_out_witness :
  let w' := (delete_device sample_ctx (sample_request VDelete "/v1/me/devices/d9" [] "") (sample_env 1)
               sample_session "d9" (world_of sample_two_devices)).2 in
  length (sessions (sw_db w')) = 2%nat ∧
  ∀ s, s ∈ sessions (sw_db w') -> s_user_id s = "u1" -> s_device_id s = "d9" -> s_revoked_at s ≠ None.
Proof.
  set (q := sample_request VDelete "/v1/me/devices/d9" [] "").
  assert (E : (delete_device sample_ctx q (sample_env 1) sample_session "d9" (world_of sample_two_devices)).1
    = Return (Some (JsonRes 11 200 (VObject [])))) by (vm_compute; reflexivity).
  split; [vm_compute; reflexivity|].
  destruct (delete_device sample_ctx q (sample_env 1) sample_session "d9" (world_of sample_two_devices)) as [x w'] eqn:Ew.
  simpl in E. subst x.
  destruct (delete_device_locks_out sample_ctx _ _ _ _ _ _ _ Ew eq_refl) as (_ & (_ & _ & Hs) & _). exact Hs.
Defined.

(** A route the list of protected routes names but no handler serves. *)
Example listed_route_not_served :
  IsKnownProtectedRoute VPost "/v1/devices/d1/signed-prekey" = true ∧
  DispatchHttp sample_ctx (sample_request VPost "/v1/devices/d1/signed-prekey" [] "x") (sample_env 1)
    (Some sample_session) (world_of sample_session_db) = (Some (NotFoundRes 11), world_of sample_session_db).
Proof. split; vm_compute; reflexivity. Qed.
End witnesses.
