(* ===== verification/Server.v ===== *)
(** * The invariant of the server

    What holds of the state every service shares, and that each HTTP request, with any
    session and any outcome, and each run of the maintenance task preserve it. *)

From S2P Require Import Prelude Types Sql Database Samples Hex Paging Config RateLimiter Uuid Users Devices Sessions Password Tokens Auth Conversations Envelopes SyncState Attachments Delivery Relay ConversationService Admin Footprint Json WsRegistry HttpPath HttpDispatch.

(** ** Identifiers *)

Lemma is_hex_char_sep : is_hex_char (Ascii.ascii_of_nat 31) = false.
Proof. reflexivity. Qed.

(** A text that matches a pattern without the separator does not hold it. *)
Lemma matches_no_sep p s :
  matches p s = true -> contains_char (Ascii.ascii_of_nat 31) p = false ->
  contains_char (Ascii.ascii_of_nat 31) s = false.
Proof.
  revert s. induction p as [|a p IH]; intros [|c s]; cbn [matches contains_char]; try done.
  intros [Hc Hs]%andb_true_iff [Ha Hp]%orb_false_iff. apply orb_false_iff. split; [|by apply IH].
  destruct (Ascii.eqb_spec (Ascii.ascii_of_nat 31) c) as [<-|]; [|done]. exfalso.
  unfold matches_char in Hc. destruct (byte_of_ascii a =? 120); [by rewrite is_hex_char_sep in Hc|].
  destruct (byte_of_ascii a =? 121); [by rewrite is_hex_char_sep in Hc|]. by rewrite Ascii.eqb_sym, Hc in Ha.
Qed.

Lemma GenerateUuid_no_sep draw : contains_char (Ascii.ascii_of_nat 31) (GenerateUuid draw) = false.
Proof. destruct draw as [h l]. by apply (matches_no_sep uuid_v4_pattern); [apply GenerateUuid_v4|]. Qed.

(** ** Invariants of handlers *)

Definition hpreserves {A} (I : ServerWorld -> Prop) (c : HM A) : Prop := ∀ w, I w -> I (c w).2.

Lemma hp_bind {A B} I (c : HM A) (k : A -> HM B) :
  hpreserves I c -> (∀ a, hpreserves I (k a)) -> hpreserves I (hbind c k).
Proof.
  intros Hc Hk w Hw. unfold hbind. specialize (Hc w Hw). destruct (c w) as [[a|r|] w']; simpl in *; [by apply Hk|done..].
Qed.

Lemma hp_try_routes I c : hpreserves I c -> hpreserves I (try_routes c).
Proof. intros Hc w Hw. unfold try_routes. specialize (Hc w Hw). by destruct (c w) as [[|[]|] w']. Qed.

Lemma hp_for_collect {A B} I (body : nat -> A -> HM (option B)) i l :
  (∀ i x, hpreserves I (body i x)) -> hpreserves I (for_collect body i l).
Proof.
  intros Hb. revert i. induction l as [|x l IH]; intros i; simpl; [by intros w|].
  apply hp_bind; [apply Hb|]. intros b. apply hp_bind; [apply IH|]. by intros bs w.
Qed.

(** Splits a handler into its calls. *)
Ltac hstep :=
  repeat (cbv beta zeta; lazymatch goal with
  | |- hpreserves _ (hbind _ _) => apply hp_bind; [|intros ?]
  | |- hpreserves _ (ok_or_error _ _) => unfold ok_or_error
  | |- hpreserves _ (when _ _) => unfold when
  | |- hpreserves _ (when_some _ _) => unfold when_some
  | |- hpreserves _ (or_raise _) => unfold or_raise
  | |- hpreserves _ (next _) => by intros ? ?
  | |- hpreserves _ (respond _) => by intros ? ?
  | |- hpreserves _ leave => by intros ? ?
  | |- hpreserves _ raise => by intros ? ?
  | |- hpreserves _ (fail_with _ _ _ _) => by intros ? ?
  | |- hpreserves _ (answer _ _) => by intros ? ?
  | |- hpreserves _ (from_db _) => by intros ? ?
  | |- hpreserves _ (reads _) => by intros ? ?
  | |- hpreserves _ (for_collect _ _ _) => apply hp_for_collect; intros ? ?
  | |- hpreserves _ (match ?x with _ => _ end) => destruct x
  end).

Section server.
Context `{SqlEngine} `{Disk} `{Argon2} `{BoostJson} (ctx : ServerContext).
Notation cfg := (ctx_config ctx).

(** ** The invariant *)

Record db_inv (db : Database) : Prop := mk_db_inv {
  di_wf : db_wf db;
  di_ids : RelayService.user_ids_ok db;
  di_sizes : ConversationService.sizes_ok (cf_max_group_size cfg) (cf_max_channel_size cfg) db }.

Record relay_inv (w : RelayWorld Ws) : Prop := mk_relay_inv {
  ri_db : db_inv (rw_db w);
  ri_queues : DeliveryManager.queues_bounded (cf_max_queue_depth_per_device cfg) w }.

(** The store satisfies every declared constraint, user ids hold no separator, groups
    and channels are within their limits, and no delivery queue is longer than
    configured. *)
Definition server_inv (w : ServerWorld) : Prop := relay_inv (sw_relay w).

(** ** Frames *)

Record roster_frame (db db' : Database) : Prop := mk_roster_frame {
  rf_users : u_user_id <$> users db' = u_user_id <$> users db;
  rf_conversations : conversations db' = conversations db;
  rf_members : conversation_members db' = conversation_members db;
  rf_subs : channel_subscriptions db' = channel_subscriptions db }.

Lemma user_ids_ok_fmap db db' :
  u_user_id <$> users db' = u_user_id <$> users db -> RelayService.user_ids_ok db -> RelayService.user_ids_ok db'.
Proof.
  unfold RelayService.user_ids_ok. rewrite !Forall_forall. intros E Hok u Hu.
  assert (Hin : u_user_id u ∈ u_user_id <$> users db) by (rewrite <- E; by apply list_elem_of_fmap_2).
  apply list_elem_of_fmap in Hin as (u' & -> & Hu'). by apply Hok.
Qed.

Lemma db_inv_frame db db' : db_inv db -> db_wf db' -> roster_frame db db' -> db_inv db'.
Proof.
  intros [Hwf Hids Hsz] Hwf' [Hu Hc Hm Hs]. split; [done|by apply (user_ids_ok_fmap db)|].
  unfold ConversationService.sizes_ok, ConversationRepository.GetMemberCount, ConversationRepository.GetSubscribers in *.
  by rewrite Hc, Hm, Hs.
Qed.

Definition roster_tables : list table := TUsers :: conv_tables.

Lemma frame_of_same db db' : (∀ t, t ∈ roster_tables -> same_table t db db') -> roster_frame db db'.
Proof.
  intros Hsame. split.
  - by rewrite (Hsame TUsers ltac:(in_list) : users _ = _).
  - exact (Hsame TConversations ltac:(in_list)).
  - exact (Hsame TConversationMembers ltac:(in_list)).
  - exact (Hsame TChannelSubscriptions ltac:(in_list)).
Qed.

(** A call that stays off the accounts and the rosters. *)
Lemma off_roster {A} ts (c : M Database A) :
  confined ts c -> (∀ t, t ∈ roster_tables -> t ∉ ts) -> preserves db_wf c -> preserves db_inv c.
Proof.
  intros Hc Hts Hwf db Hdb. apply (db_inv_frame db); [done|by apply Hwf, di_wf|].
  apply frame_of_same. intros t Ht. apply (confined_run ts); auto.
Qed.

(** A call that stays off the rosters and keeps the ids of the accounts. *)
Lemma off_conversations {A} ts (c : M Database A) :
  confined ts c -> (∀ t, t ∈ conv_tables -> t ∉ ts) -> preserves db_wf c ->
  (∀ l, preserves (λ db, u_user_id <$> users db = l) c) -> preserves db_inv c.
Proof.
  intros Hc Hts Hwf Hids db Hdb. apply (db_inv_frame db); [done|by apply Hwf, di_wf|].
  assert (Hsame : ∀ t, t ∈ conv_tables -> same_table t db (c db).2) by (intros t Ht; apply (confined_run ts); auto).
  split.
  - by apply Hids.
  - exact (Hsame TConversations ltac:(in_list)).
  - exact (Hsame TConversationMembers ltac:(in_list)).
  - exact (Hsame TChannelSubscriptions ltac:(in_list)).
Qed.

Ltac not_listed := intros t Ht; unfold roster_tables, conv_tables in Ht; set_solver.

Lemma update_user_ids u f l :
  (∀ x, u_user_id (f x) = u_user_id x) -> preserves (λ db, u_user_id <$> users db = l) (update_user u f).
Proof.
  intros Hf. unfold update_user. preserve_step. intros db <-. unfold modify. simpl. by rewrite fmap_sql_update.
Qed.

Lemma SetSyncKeyBundle_inv u b : preserves db_inv (SetSyncKeyBundle u b).
Proof.
  apply (off_conversations [TUsers]); [apply update_user_fp|not_listed|apply SetSyncKeyBundle_wf|].
  intros l. by apply update_user_ids.
Qed.

Lemma ChangePassword_inv u r draws : preserves db_inv (ChangePassword (hasher ctx) u r draws).
Proof.
  apply (off_conversations [TUsers]); [apply ChangePassword_fp|not_listed|apply ChangePassword_wf|].
  intros l. unfold ChangePassword. preserve_step; try by apply update_user_ids.
  unfold lift. case_match; [apply preserves_mok|apply preserves_rethrow].
Qed.

Lemma user_ids_ok_same db db' : users db' = users db -> RelayService.user_ids_ok db -> RelayService.user_ids_ok db'.
Proof. intros E. apply user_ids_ok_fmap. by rewrite E. Qed.

Lemma ids_ok_off_users {A} ts (c : M Database A) :
  confined ts c -> TUsers ∉ ts -> preserves RelayService.user_ids_ok c.
Proof. intros Hc Hts db. apply user_ids_ok_same. exact (confined_run ts c db TUsers Hc Hts). Qed.

Lemma Register_ids r now draws : preserves RelayService.user_ids_ok (Auth.Register (hasher ctx) (tokens ctx) r now draws).
Proof.
  unfold Auth.Register. preserve_step.
  - unfold lift. case_match; [apply preserves_mok|apply preserves_rethrow].
  - unfold CreateUser. preserve_step. apply preserves_exec. intros db db' Hok E. unfold insert_users in E.
    repeat case_match; try done. injection E as <-. unfold RelayService.user_ids_ok in *. unfold set_users, sql_insert.
    cbn [users]. apply Forall_app_2; [done|]. apply Forall_singleton. unfold new_user_row. cbn [u_user_id].
    apply GenerateUuid_no_sep.
  - apply (ids_ok_off_users [TDevices]); [apply RegisterDevice_fp|set_solver].
  - apply (ids_ok_off_users [TSessions]); [apply IssueTokens_fp|set_solver].
Qed.

Lemma sizes_ok_same g c db db' :
  conversations db' = conversations db -> conversation_members db' = conversation_members db ->
  channel_subscriptions db' = channel_subscriptions db ->
  ConversationService.sizes_ok g c db -> ConversationService.sizes_ok g c db'.
Proof.
  intros Hc Hm Hs. unfold ConversationService.sizes_ok, ConversationRepository.GetMemberCount, ConversationRepository.GetSubscribers.
  by rewrite Hc, Hm, Hs.
Qed.

Lemma Register_inv r now draws : preserves db_inv (Auth.Register (hasher ctx) (tokens ctx) r now draws).
Proof.
  intros db [Hwf Hids Hsz]. split.
  - by apply Register_wf.
  - by apply Register_ids.
  - pose proof (λ t, confined_run _ _ db t (Register_fp (hasher ctx) (tokens ctx) r now draws)) as Hfp.
    apply (sizes_ok_same _ _ db); [apply (Hfp TConversations)|apply (Hfp TConversationMembers)|apply (Hfp TChannelSubscriptions)|done];
      set_solver.
Qed.

(** Removing rows only makes rosters smaller. *)
Lemma sql_delete_count {R} (P Q : R -> Prop) `{!∀ x, Decision (P x)} `{!∀ x, Decision (Q x)} l :
  (length (filter Q (sql_delete P l)) <= length (filter Q l))%nat.
Proof.
  unfold sql_delete. induction l as [|x l IH]; [done|]. rewrite (filter_cons _ x l).
  case_decide; rewrite ?filter_cons; repeat case_decide; simpl; lia.
Qed.

Lemma DeleteUser_inv u : preserves db_inv (AdminService.DeleteUser u).
Proof.
  intros db [Hwf Hids Hsz]. pose proof (AdminService.DeleteUser_wf u db Hwf) as Hwf'. revert Hwf'.
  unfold AdminService.DeleteUser, bind, gets. destruct (FindUserById u db); [|by intros].
  unfold transaction. rewrite (AdminService.delete_account_run u db (wf_fk _ Hwf)).
  destruct (decide (AdminService.pinned u db)); intros Hwf'; [by split|]. split; [done|..].
  - unfold RelayService.user_ids_ok, AdminService.without_user in *. simpl. rewrite Forall_forall in *.
    intros x [Hx _]%elem_of_sql_delete. by apply Hids.
  - intros c Hc. destruct (Hsz c Hc) as [Hg Hch]. unfold ConversationRepository.GetMemberCount, ConversationRepository.GetSubscribers in *.
    cbn [snd]. rewrite !length_fmap, !(length_scan TChannelSubscriptions) in *. unfold sql_count in *. split; intros Ht.
    + specialize (Hg Ht). pose proof (sql_delete_count (λ m, m_user_id m = u) (λ m, m_conversation_id m = c_conversation_id c ∧ m_removed_at m = None) (conversation_members db)) as Hle.
      eapply Z.le_trans; [apply inj_le, Hle|done].
    + specialize (Hch Ht). pose proof (sql_delete_count (λ b, b_user_id b = u) (λ b, b_conversation_id b = c_conversation_id c ∧ b_unsubscribed_at b = None) (channel_subscriptions db)) as Hle.
      eapply Z.le_trans; [apply inj_le, Hle|done].
Qed.

(** ** Conversations *)

Context (Hgroup : 0 <= cf_max_group_size cfg) (Hchannel : 0 <= cf_max_channel_size cfg).

Lemma service_op_db_inv op (w : RelayWorld Ws) :
  db_inv (rw_db w) ->
  users (rw_db (ConversationService.run_service_op (cf_max_group_size cfg) (cf_max_channel_size cfg) op w)) = users (rw_db w) ->
  db_inv (rw_db (ConversationService.run_service_op (cf_max_group_size cfg) (cf_max_channel_size cfg) op w)).
Proof.
  intros [Hwf Hids Hsz] Hu. split.
  - by apply ConversationService.run_service_op_wf.
  - by apply (user_ids_ok_same (rw_db w)).
  - by apply ConversationService.service_op_sizes.
Qed.

Lemma service_db_inv {A} (c : M Database A) :
  confined conv_tables c ->
  (∃ op, ∀ w, ConversationService.run_service_op (cf_max_group_size cfg) (cf_max_channel_size cfg) op w
               = (on_relay_db (Hook := Ws) c w).2) ->
  preserves db_inv c.
Proof.
  intros Hc [op Hop] db Hdb. set (w := mkRelayWorld db ∅ (mkWsPushRegistry ∅ []) : RelayWorld Ws).
  assert (Er : rw_db (on_relay_db (Hook := Ws) c w).2 = (c db).2).
  { unfold on_relay_db, zoom. simpl. by destruct (c db). }
  rewrite <- Er, <- (Hop w). apply service_op_db_inv; [done|]. rewrite Hop, Er.
  apply (confined_run conv_tables c db TUsers); [done|]. unfold conv_tables. set_solver.
Qed.

Lemma CreateDm_inv a b u now draw : preserves db_inv (ConversationService.CreateDm a b u now draw).
Proof. apply service_db_inv; [apply CreateDm_fp|]. by exists (ConversationService.SCreateDm a b u now draw). Qed.
Lemma CreateGroup_inv u ms now draw :
  preserves db_inv (ConversationService.CreateGroup (cf_max_group_size cfg) u ms now draw).
Proof. apply service_db_inv; [apply CreateGroup_fp|]. by exists (ConversationService.SCreateGroup u ms now draw). Qed.
Lemma CreateChannel_inv u adm subs now draw :
  preserves db_inv (ConversationService.CreateChannel (cf_max_channel_size cfg) u adm subs now draw).
Proof. apply service_db_inv; [apply CreateChannel_fp|]. by exists (ConversationService.SCreateChannel u adm subs now draw). Qed.
Lemma AddMember_inv c actor u role now :
  preserves db_inv (ConversationService.AddMember (cf_max_group_size cfg) c actor u role now).
Proof. apply service_db_inv; [apply AddMemberService_fp|]. by exists (ConversationService.SAddMember c actor u role now). Qed.
Lemma SubscribeChannel_inv c u now :
  preserves db_inv (ConversationService.SubscribeChannel (cf_max_channel_size cfg) c u now).
Proof. apply service_db_inv; [apply SubscribeChannel_fp|]. by exists (ConversationService.SSubscribe c u now). Qed.

(** ** Queues *)

Notation max_queue := (cf_max_queue_depth_per_device cfg).
Notation hook := (Some enqueue_hook).

Lemma on_relay_db_queues {A} (c : M Database A) :
  preserves (DeliveryManager.queues_bounded (Hook := Ws) max_queue) (on_relay_db c).
Proof. intros w Hw. unfold on_relay_db, zoom. by destruct (c (rw_db w)). Qed.

Lemma Enqueue_bounded u d q :
  preserves (DeliveryManager.queues_bounded (Hook := Ws) max_queue) (DeliveryManager.Enqueue hook max_queue u d q).
Proof.
  intros w Hw. pose proof (DeliveryManager.run_delivery_op_bounded hook max_queue (DeliveryManager.OEnqueue u d q) w Hw) as Hb.
  simpl in Hb. destruct (DeliveryManager.Enqueue _ _ _ _ _ _) as [[]]; exact Hb.
Qed.

Lemma Purge_bounded c u d w :
  DeliveryManager.queues_bounded (Hook := Ws) max_queue w ->
  DeliveryManager.queues_bounded max_queue (DeliveryManager.PurgeConversationFromDeviceQueue c u d w).
Proof. apply (DeliveryManager.run_delivery_op_bounded hook max_queue (DeliveryManager.OPurge c u d)). Qed.

Lemma PurgeMemberDelivery_bounded c u :
  preserves (DeliveryManager.queues_bounded max_queue) (ConversationService.PurgeMemberDelivery (Hook := Ws) c u).
Proof.
  unfold ConversationService.PurgeMemberDelivery. preserve_step; [apply on_relay_db_queues|].
  apply preserves_for_each. intros d _ w Hw. by apply Purge_bounded.
Qed.

Lemma SendEnvelope_bounded r now draw :
  preserves (DeliveryManager.queues_bounded max_queue)
    (RelayService.SendEnvelope hook max_queue (cf_message_retention_seconds cfg) r now draw).
Proof.
  unfold RelayService.SendEnvelope, RelayService.check_post, RelayService.fan_out, RelayService.deliver_to.
  repeat (progress preserve_step || (apply preserves_for_fold; intros));
    first [apply Enqueue_bounded|apply on_relay_db_queues].
Qed.

(** ** Operations of the relay *)

Lemma SendEnvelope_wf r now draw :
  preserves (λ w : RelayWorld Ws, db_wf (rw_db w))
    (RelayService.SendEnvelope hook max_queue (cf_message_retention_seconds cfg) r now draw).
Proof.
  unfold RelayService.SendEnvelope, RelayService.check_post, RelayService.fan_out, RelayService.deliver_to.
  repeat (progress preserve_step || (apply preserves_for_fold; intros)).
  - apply ConversationService.on_relay_db_wf, EnvelopeRepository.StoreEnvelope_wf.
  - intros w Hw. destruct (DeliveryManager.Enqueue_run hook max_queue x (d_device_id x0)
      (RelayService.make_queued r (RelayService.request_envelope_id r draw) now) w) as (w1 & E & Hdb & _).
    rewrite E. simpl. by rewrite Hdb.
  - apply ConversationService.on_relay_db_wf, EnvelopeRepository.AddDeliveryState_wf.
Qed.

(** A relay call that stays off the accounts and the rosters. *)
Lemma relay_off_roster {A} ts (c : M (RelayWorld Ws) A) :
  relay_confined ts c -> (∀ t, t ∈ roster_tables -> t ∉ ts) -> preserves (λ w, db_wf (rw_db w)) c ->
  preserves (DeliveryManager.queues_bounded max_queue) c -> preserves relay_inv c.
Proof.
  intros Hc Hts Hwf Hq w [Hdb Hqw]. split; [|by apply Hq].
  apply (db_inv_frame (rw_db w)); [done|by apply Hwf, di_wf|]. apply frame_of_same. intros t Ht.
  apply (Hc (rw_db w) w); [intros t' _; apply same_table_refl|by apply Hts].
Qed.

Lemma SendEnvelope_inv r now draw :
  preserves relay_inv (RelayService.SendEnvelope hook max_queue (cf_message_retention_seconds cfg) r now draw).
Proof.
  apply (relay_off_roster [TEncryptedEnvelopes; TDeliveryState]);
    [apply SendEnvelope_fp|not_listed|apply SendEnvelope_wf|apply SendEnvelope_bounded].
Qed.

Lemma AcknowledgeEnvelope_inv u d e now : preserves relay_inv (RelayService.AcknowledgeEnvelope u d e now).
Proof.
  apply (relay_off_roster [TDeliveryState]); [apply AcknowledgeEnvelope_fp|not_listed| |apply on_relay_db_queues].
  apply ConversationService.on_relay_db_wf, EnvelopeRepository.MarkAcked_wf.
Qed.

(** A service call that may purge queues. *)
Lemma service_relay_inv {A} (c : M (RelayWorld Ws) A) op :
  relay_confined (TDeliveryState :: conv_tables) c ->
  (∀ w, ConversationService.run_service_op (cf_max_group_size cfg) (cf_max_channel_size cfg) op w = (c w).2) ->
  preserves (DeliveryManager.queues_bounded max_queue) c -> preserves relay_inv c.
Proof.
  intros Hc Hop Hq w [Hdb Hqw]. split; [|by apply Hq]. rewrite <- Hop. apply service_op_db_inv; [done|].
  rewrite Hop. apply (Hc (rw_db w) w (λ t _, same_table_refl t _) TUsers). unfold conv_tables. set_solver.
Qed.

Lemma RemoveMember_inv c actor u now : preserves relay_inv (ConversationService.RemoveMember c actor u now).
Proof.
  apply (service_relay_inv _ (ConversationService.SRemoveMember c actor u now)); [apply RemoveMemberService_fp|done|].
  unfold ConversationService.RemoveMember. preserve_step; [apply on_relay_db_queues|apply PurgeMemberDelivery_bounded].
Qed.

Lemma UnsubscribeChannel_inv c u now : preserves relay_inv (ConversationService.UnsubscribeChannel c u now).
Proof.
  apply (service_relay_inv _ (ConversationService.SUnsubscribe c u now)); [apply UnsubscribeChannel_fp|done|].
  unfold ConversationService.UnsubscribeChannel. preserve_step; [apply on_relay_db_queues|apply PurgeMemberDelivery_bounded].
Qed.

(** ** Uploads *)

Definition upload_inv (w : AttachmentWorld) : Prop := db_inv (aw_db w).

Lemma upload_off_roster {A} (c : M AttachmentWorld A) :
  upload_confined c -> preserves (λ w, db_wf (aw_db w)) c -> preserves upload_inv c.
Proof.
  intros Hc Hwf w Hdb.
  apply (db_inv_frame (aw_db w)); [done|by apply Hwf, di_wf|]. apply frame_of_same. intros t Ht.
  apply (Hc (aw_db w) w); [intros t' _; apply same_table_refl|].
  unfold roster_tables, conv_tables in Ht. set_solver.
Qed.

Lemma InitUpload_inv u c size mime now draw :
  preserves upload_inv (AttachmentService.InitUpload (att_config ctx) u c size mime now draw).
Proof.
  apply upload_off_roster; [apply InitUpload_fp|]. unfold AttachmentService.InitUpload. preserve_step.
  apply preserves_zoom; [done|apply AttachmentRepository.CreateAttachmentMeta_wf].
Qed.

Lemma WriteChunk_inv id offset data : preserves upload_inv (AttachmentService.WriteChunk id offset data).
Proof.
  apply upload_off_roster; [apply WriteChunk_fp|]. unfold AttachmentService.WriteChunk. preserve_step; by intros w Hw.
Qed.

Lemma FinalizeUpload_inv id h : preserves upload_inv (AttachmentService.FinalizeUpload id h).
Proof.
  apply upload_off_roster; [apply FinalizeUpload_fp|]. unfold AttachmentService.FinalizeUpload. preserve_step.
  apply preserves_zoom; [done|apply AttachmentRepository.MarkUploadComplete_wf].
Qed.

Lemma GetAttachment_inv id u : preserves upload_inv (AttachmentService.GetAttachment id u).
Proof. apply upload_off_roster; [apply GetAttachment_fp|]. unfold AttachmentService.GetAttachment. preserve_step. Qed.

Lemma AttachmentSweep_inv now : preserves upload_inv (AttachmentService.DeleteExpired now).
Proof.
  apply upload_off_roster; [apply DeleteExpired_fp|]. unfold AttachmentService.DeleteExpired. preserve_step.
  - by intros w Hw.
  - apply preserves_zoom; [done|apply AttachmentRepository.DeleteExpiredAttachments_wf].
Qed.

(** ** Requests *)

Lemma hp_on_db {A} (c : M Database A) : preserves db_inv c -> hpreserves server_inv (on_db c).
Proof.
  intros Hc w [Hdb Hq]. unfold on_db, call, get_db. specialize (Hc _ Hdb). by destruct (c (sw_db w)).
Qed.

Lemma hp_on_relay {A} (c : M (RelayWorld Ws) A) : preserves relay_inv c -> hpreserves server_inv (on_relay c).
Proof. intros Hc w Hw. unfold on_relay, call. specialize (Hc _ Hw). by destruct (c (sw_relay w)). Qed.

Lemma hp_on_uploads {A} (c : M AttachmentWorld A) : preserves upload_inv c -> hpreserves server_inv (on_uploads c).
Proof.
  intros Hc w [Hdb Hq]. unfold on_uploads, call. specialize (Hc (get_uploads w) Hdb).
  by destruct (c (get_uploads w)).
Qed.

(** Pushing notifications keeps the store and the queues. *)
Definition same_but_hook (w w' : RelayWorld Ws) : Prop := rw_db w' = rw_db w ∧ rw_queues w' = rw_queues w.

Lemma foldl_same_but_hook {A} (f : RelayWorld Ws -> A -> RelayWorld Ws) l w :
  (∀ w x, same_but_hook w (f w x)) -> same_but_hook w (foldl f w l).
Proof.
  intros Hf. revert w. induction l as [|x l IH]; intros w; simpl; [by split|].
  destruct (IH (f w x)) as [E1 E2], (Hf w x) as [E3 E4]. split; congruence.
Qed.

Lemma notify_user_once_same line acc uid : same_but_hook acc.2 (notify_user_once line acc uid).2.
Proof.
  destruct acc as [seen w]. unfold notify_user_once. case_decide; [by split|]. simpl.
  apply foldl_same_but_hook. intros w' d. by case_decide.
Qed.

Lemma notify_users_same line l acc : same_but_hook acc.2 (foldl (notify_user_once line) acc l).2.
Proof.
  revert acc. induction l as [|u l IH]; intros acc; simpl; [by split|].
  destruct (IH (notify_user_once line acc u)) as [E1 E2], (notify_user_once_same line acc u) as [E3 E4]. split; congruence.
Qed.

Lemma NotifyConversationMembershipChanged_same c w :
  same_but_hook w (NotifyConversationMembershipChanged ctx c w).
Proof.
  unfold NotifyConversationMembershipChanged. case_match; [by split|]. case_match; [|by split]. cbv zeta.
  match goal with |- context [foldl (notify_user_once ?line) (∅, w) ?l] =>
    pose proof (notify_users_same line l (∅, w)) as Hm; set (acc := foldl (notify_user_once line) (∅, w) l) in * end.
  case_decide; [|exact Hm].
  match goal with |- context [foldl (notify_user_once ?line) acc ?l] => destruct (notify_users_same line l acc) as [E1 E2] end.
  destruct Hm as [Hm1 Hm2]. simpl in *. split; congruence.
Qed.

Lemma NotifyUserDevicesExcept_same u eu ed line w :
  same_but_hook w (NotifyUserDevicesExcept ctx u eu ed line w).
Proof.
  unfold NotifyUserDevicesExcept. case_match; [by split|]. apply foldl_same_but_hook. intros w' d.
  case_decide; [by split|]. by case_match.
Qed.

Lemma hp_push f : (∀ w, same_but_hook w (f w)) -> hpreserves server_inv (push f).
Proof.
  intros Hf w [Hdb Hq]. destruct (Hf (sw_relay w)) as [E1 E2]. split; simpl; [by rewrite E1|].
  intros k. specialize (Hq k). unfold DeliveryManager.queue_at in *. by rewrite E2.
Qed.

(** The database calls of the handlers that stay off the rosters. *)
Ltac plain lem fp wf := apply (off_roster lem); [apply fp|not_listed|apply wf].

Section request.
Context (req : HttpRequest) (env : RequestEnv).

Lemma TryPublicAuth_inv : hpreserves server_inv (TryPublicAuth ctx req env).
Proof.
  unfold TryPublicAuth, post_register, post_login, post_refresh, parse_body. hstep; apply hp_on_db.
  - apply Register_inv.
  - plain [TDevices; TSessions] Login_fp Login_wf.
  - plain [TDevices; TSessions] Refresh_fp Refresh_wf.
Qed.

Lemma TryAdmin_inv : hpreserves server_inv (TryAdmin ctx req env).
Proof.
  unfold TryAdmin, admin_stats, admin_delete_user. hstep. apply hp_on_db, DeleteUser_inv.
Qed.

Context (sess : SessionRecord).

Lemma handle_post_inv : hpreserves server_inv (handle_post ctx req env sess).
Proof.
  unfold handle_post, post_logout, post_change_password, post_messages_send, post_messages_ack, post_conversations,
    post_members, post_subscribe, post_unsubscribe, post_prekeys, post_upload_init, post_finalize,
    membership_changed, conversation_created, own_device, own_scope, parse_body.
  hstep; first [apply hp_push, NotifyConversationMembershipChanged_same | apply hp_on_db | apply hp_on_relay | apply hp_on_uploads].
  - plain [TSessions] RevokeSession_fp SessionRepository.RevokeSession_wf.
  - apply ChangePassword_inv.
  - apply SendEnvelope_inv.
  - apply AcknowledgeEnvelope_inv.
  - apply CreateDm_inv.
  - apply CreateGroup_inv.
  - apply CreateChannel_inv.
  - apply AddMember_inv.
  - apply SubscribeChannel_inv.
  - apply UnsubscribeChannel_inv.
  - plain [TOneTimePrekeys; TDevices] StorePrekeys_fp StorePrekeys_wf.
  - apply InitUpload_inv.
  - apply FinalizeUpload_inv.
Qed.

Lemma handle_get_inv : hpreserves server_inv (handle_get req env sess).
Proof.
  unfold handle_get, get_me, get_me_devices, get_key_bundle, get_sync_changes, get_users, get_user_by_username,
    get_users_search, user_suffix, get_prekey_bundles, get_user_devices, get_user, get_conversation, get_members,
    get_group_members, get_channel_members, get_sync_pending, get_envelopes, get_conversations, get_device_bundle,
    get_user_device_bundle, get_attachment, envelopes_answer, enabled_user, limit_param, not_a_member.
  hstep; first [apply hp_on_uploads, GetAttachment_inv
               | apply hp_on_db; plain [TOneTimePrekeys] GetPrekeyBundle_fp GetPrekeyBundle_wf].
Qed.

Lemma handle_put_inv : hpreserves server_inv (handle_put ctx req env sess).
Proof.
  unfold handle_put, put_key_bundle, put_sync_record, put_signed_prekey, put_chunk, push_own, own_device, own_scope,
    parse_body.
  hstep; first [apply hp_push, NotifyUserDevicesExcept_same | apply hp_on_db | apply hp_on_uploads].
  - apply SetSyncKeyBundle_inv.
  - plain [TSyncRecords] UpsertRecord_fp SyncStateRepository.UpsertRecord_wf.
  - plain [TDevices] UpdateSignedPrekey_fp UpdateSignedPrekey_wf.
  - apply WriteChunk_inv.
Qed.

Lemma handle_delete_inv : hpreserves server_inv (handle_delete ctx req env sess).
Proof.
  unfold handle_delete, delete_device, delete_sync_record, delete_member, membership_changed, push_own, own_device,
    parse_body.
  hstep; first [apply hp_push, NotifyUserDevicesExcept_same
               | apply hp_push, NotifyConversationMembershipChanged_same | apply hp_on_db | apply hp_on_relay].
  - plain [TDevices; TOneTimePrekeys] RevokeDevice_fp RevokeDevice_wf.
  - plain [TSessions] RevokeAllForDevice_fp SessionRepository.RevokeAllForDevice_wf.
  - plain [TSyncRecords] TombstoneRecord_fp SyncStateRepository.TombstoneRecord_wf.
  - apply RemoveMember_inv.
Qed.

Lemma HandleAuthenticated_inv : hpreserves server_inv (HandleAuthenticated ctx req env sess).
Proof.
  unfold HandleAuthenticated. destruct (rq_method req);
    [apply handle_get_inv|apply handle_post_inv|apply handle_put_inv|apply handle_delete_inv|by intros w].
Qed.
End request.

Lemma dispatch_inv req env session : hpreserves server_inv (dispatch ctx req env session).
Proof.
  unfold dispatch, check_size, limit_auth, limit_account, too_many.
  hstep; try (intros w Hw; unfold allow_auth, allow_account; by case_match);
    apply hp_try_routes; [apply TryPublicAuth_inv|apply TryAdmin_inv|apply HandleAuthenticated_inv|..].
Qed.

Lemma DispatchHttp_inv req env session w :
  server_inv w -> server_inv (DispatchHttp ctx req env session w).2.
Proof.
  intros Hw. pose proof (dispatch_inv req env session w Hw) as Hd. unfold DispatchHttp.
  by destruct (dispatch ctx req env session w) as [[] w'].
Qed.

(** ** The maintenance task *)

(** The task of the maintenance thread ([main]): expired envelopes, then expired
    attachments. *)
Definition maintenance (now1 now2 : Timestamp) : HM unit :=
  on_db (EnvelopeRepository.DeleteExpired now1) ;;*
  on_uploads (AttachmentService.DeleteExpired now2) ;;*
  next tt.

Lemma maintenance_inv now1 now2 : hpreserves server_inv (maintenance now1 now2).
Proof.
  unfold maintenance. hstep; [apply hp_on_db|apply hp_on_uploads, AttachmentSweep_inv].
  plain [TEncryptedEnvelopes; TDeliveryState] EnvelopeSweep_fp EnvelopeRepository.DeleteExpired_wf.
Qed.
End server.
