(* ===== verification/Live.v ===== *)
(** * The running server

    The shared state, the requests waiting for the storage pool and the WebSocket
    connections, with every step the process takes between them: a connection reads a
    request and submits it with the session its token stands for; a pool thread serves
    a submitted request, perhaps much later; the maintenance task runs; a connection is
    upgraded; a handler of a WebSocket session runs.  A request is served in one step. *)

From S2P Require Import Prelude Types Sql Database Samples Hex Paging Config RateLimiter Uuid Users Devices Sessions Password Tokens Auth Conversations Envelopes SyncState Attachments Delivery Relay ConversationService Admin Footprint Json WsRegistry HttpPath HttpDispatch WsSession Server.

Record LiveServer := mkLiveServer {
  lv_world : ServerWorld;
  lv_tasks : list (HttpRequest * option SessionRecord);
  lv_sessions : gmap Z WebSocketSession }.

Notation lv_registry l := (rw_hook (sw_relay (lv_world l))).
Notation lv_db l := (sw_db (lv_world l)).

Definition set_registry (r : Ws) (w : ServerWorld) : ServerWorld :=
  set_sw_relay (set_rw_hook r (sw_relay w)) w.

(** A new database, nobody online. *)
Definition initial : LiveServer :=
  mkLiveServer (mkServerWorld (mkRelayWorld CreateSchema ∅ (mkWsPushRegistry ∅ [])) ∅ ∅ ∅) [] ∅.

Section live.
Context `{SqlEngine} `{Disk} `{Argon2} `{BoostJson} (ctx : ServerContext) (is_upgrade : HttpRequest -> bool).

Inductive live_step : LiveServer -> LiveServer -> Prop :=
  | live_submit l req clock sess :
      WsSession.OnRead ctx is_upgrade IoOk req clock (lv_world l) = SubmitDispatch sess ->
      live_step l (mkLiveServer (lv_world l) (lv_tasks l ++ [(req, sess)]) (lv_sessions l))
  | live_serve l i req sess env :
      lv_tasks l !! i = Some (req, sess) ->
      live_step l (mkLiveServer (DispatchHttp ctx req env sess (lv_world l)).2 (delete i (lv_tasks l))
                     (lv_sessions l))
  | live_maintenance l now1 now2 :
      live_step l (mkLiveServer (maintenance now1 now2 (lv_world l)).2 (lv_tasks l) (lv_sessions l))
  | live_upgrade l id req clock :
      WsSession.OnRead ctx is_upgrade IoOk req clock (lv_world l) = UpgradeToWs ->
      lv_sessions l !! id = None -> id ∉ (sent (lv_registry l)).*1 ->
      live_step l (mkLiveServer (lv_world l) (lv_tasks l) (<[id := new_ws req]> (lv_sessions l)))
  | live_ws l id s e clock r' s' :
      lv_sessions l !! id = Some s ->
      WsSession.handle ctx id e clock (lv_db l) (lv_registry l, s) = Some (r', s') ->
      live_step l (mkLiveServer (set_registry r' (lv_world l)) (lv_tasks l) (<[id := s']> (lv_sessions l))).

(** ** Requests and the registry *)

(** A request only calls senders: it neither enters nor removes one. *)
Definition called (r r' : Ws) : Prop := senders_ r' = senders_ r ∧ sent r `prefix_of` sent r'.

Lemma called_refl r : called r r.
Proof. by split. Qed.

Lemma called_trans r1 r2 r3 : called r1 r2 -> called r2 r3 -> called r1 r3.
Proof. intros [E1 P1] [E2 P2]. split; [congruence|by transitivity (sent r2)]. Qed.

Lemma Notify_called key text r : called r (Notify key text r).
Proof.
  unfold Notify. destruct (senders_ r !! key) as [[fn|]|]; [|apply called_refl..]. split; [done|]. simpl.
  by apply prefix_app_r.
Qed.

Definition calls (r : Ws) (w : ServerWorld) : Prop := called r (rw_hook (sw_relay w)).
Definition rcalls (r : Ws) (w : RelayWorld Ws) : Prop := called r (rw_hook w).

Lemma calls_on_db {A} r (c : M Database A) : hpreserves (calls r) (on_db c).
Proof. intros w Hw. unfold on_db, call. by destruct (c (get_db w)). Qed.

Lemma calls_on_uploads {A} r (c : M AttachmentWorld A) : hpreserves (calls r) (on_uploads c).
Proof. intros w Hw. unfold on_uploads, call. by destruct (c (get_uploads w)). Qed.

Lemma calls_on_relay {A} r (c : M (RelayWorld Ws) A) : preserves (rcalls r) c -> hpreserves (calls r) (on_relay c).
Proof. intros Hc w Hw. specialize (Hc _ Hw). unfold on_relay, call. by destruct (c (sw_relay w)). Qed.

Lemma calls_push r f : (∀ w, rcalls (rw_hook w) (f w)) -> hpreserves (calls r) (push f).
Proof. intros Hf w Hw. eapply called_trans; [exact Hw|]. apply Hf. Qed.

Lemma rcalls_on_relay_db {A} r (c : M Database A) : preserves (rcalls r) (on_relay_db c).
Proof. intros w Hw. unfold on_relay_db, zoom. by destruct (c (rw_db w)). Qed.

Lemma Enqueue_calls r u d q :
  preserves (rcalls r) (DeliveryManager.Enqueue (Some enqueue_hook) (cf_max_queue_depth_per_device (ctx_config ctx)) u d q).
Proof.
  intros w Hw. destruct (DeliveryManager.Enqueue_run (Some enqueue_hook) (cf_max_queue_depth_per_device (ctx_config ctx)) u d q w)
    as (w1 & E & _ & Eh & _).
  rewrite E. unfold rcalls. simpl. rewrite Eh. case_decide; [|done]. simpl.
  eapply called_trans; [exact Hw|]. apply Notify_called.
Qed.

Lemma SendEnvelope_calls r retention m now draw :
  preserves (rcalls r) (RelayService.SendEnvelope (Some enqueue_hook)
    (cf_max_queue_depth_per_device (ctx_config ctx)) retention m now draw).
Proof.
  unfold RelayService.SendEnvelope, RelayService.check_post, RelayService.fan_out, RelayService.deliver_to.
  repeat (progress preserve_step || (apply preserves_for_fold; intros));
    first [apply Enqueue_calls|apply rcalls_on_relay_db].
Qed.

Lemma PurgeMemberDelivery_calls r c u : preserves (rcalls r) (ConversationService.PurgeMemberDelivery c u).
Proof.
  unfold ConversationService.PurgeMemberDelivery. preserve_step; [apply rcalls_on_relay_db|].
  apply preserves_for_each. intros d _ w Hw. unfold rcalls. simpl.
  by destruct (DeliveryManager.PurgeConversation_run c (d_user_id d) (d_device_id d) w) as (_ & -> & _).
Qed.

Lemma foldl_calls {A} (f : RelayWorld Ws -> A -> RelayWorld Ws) l w :
  (∀ w x, rcalls (rw_hook w) (f w x)) -> rcalls (rw_hook w) (foldl f w l).
Proof.
  intros Hf. revert w. induction l as [|x l IH]; intros w; simpl; [apply called_refl|].
  eapply called_trans; [apply (Hf w x)|apply IH].
Qed.

Lemma ws_notify_calls key text w : rcalls (rw_hook w) (ws_notify key text w).
Proof. apply Notify_called. Qed.

Lemma NotifyUserDevicesExcept_calls u eu ed line w :
  rcalls (rw_hook w) (NotifyUserDevicesExcept ctx u eu ed line w).
Proof.
  unfold NotifyUserDevicesExcept. case_match; [apply called_refl|]. apply foldl_calls. intros w' d.
  case_decide; [apply called_refl|]. case_match; [apply called_refl|apply ws_notify_calls].
Qed.

Lemma notify_users_calls line l acc :
  rcalls (rw_hook acc.2) (foldl (notify_user_once line) acc l).2.
Proof.
  revert acc. induction l as [|u l IH]; intros acc; simpl; [apply called_refl|].
  eapply called_trans; [|apply IH]. destruct acc as [seen w]. unfold notify_user_once.
  case_decide; [apply called_refl|]. simpl. apply foldl_calls. intros w' d.
  case_decide; [apply called_refl|apply ws_notify_calls].
Qed.

Lemma NotifyConversationMembershipChanged_calls c w :
  rcalls (rw_hook w) (NotifyConversationMembershipChanged ctx c w).
Proof.
  unfold NotifyConversationMembershipChanged. case_match; [apply called_refl|].
  case_match; [|apply called_refl]. cbv zeta.
  match goal with |- context [foldl (notify_user_once ?line) (∅, w) ?l] =>
    pose proof (notify_users_calls line l (∅, w)) as Hm; set (acc := foldl (notify_user_once line) (∅, w) l) in * end.
  case_decide; [|exact Hm]. eapply called_trans; [exact Hm|]. apply notify_users_calls.
Qed.

Lemma TryPublicAuth_calls r req env : hpreserves (calls r) (TryPublicAuth ctx req env).
Proof. unfold TryPublicAuth, post_register, post_login, post_refresh, parse_body. hstep; apply calls_on_db. Qed.

Lemma TryAdmin_calls r req env : hpreserves (calls r) (TryAdmin ctx req env).
Proof. unfold TryAdmin, admin_stats, admin_delete_user. hstep. apply calls_on_db. Qed.

Lemma HandleAuthenticated_calls r req env sess : hpreserves (calls r) (HandleAuthenticated ctx req env sess).
Proof.
  unfold HandleAuthenticated. destruct (rq_method req); [| | | |by intros w].
  - unfold handle_get, get_me, get_me_devices, get_key_bundle, get_sync_changes, get_users, get_user_by_username,
      get_users_search, user_suffix, get_prekey_bundles, get_user_devices, get_user, get_conversation, get_members,
      get_group_members, get_channel_members, get_sync_pending, get_envelopes, get_conversations, get_device_bundle,
      get_user_device_bundle, get_attachment, envelopes_answer, enabled_user, limit_param, not_a_member.
    hstep; first [apply calls_on_uploads|apply calls_on_db].
  - unfold handle_post, post_logout, post_change_password, post_messages_send, post_messages_ack, post_conversations,
      post_members, post_subscribe, post_unsubscribe, post_prekeys, post_upload_init, post_finalize,
      membership_changed, conversation_created, own_device, own_scope, parse_body.
    hstep; first [apply calls_push, NotifyConversationMembershipChanged_calls | apply calls_on_db
                 | apply calls_on_uploads | apply calls_on_relay].
    + apply SendEnvelope_calls.
    + apply rcalls_on_relay_db.
    + unfold ConversationService.UnsubscribeChannel. preserve_step; [apply rcalls_on_relay_db|apply PurgeMemberDelivery_calls].
  - unfold handle_put, put_key_bundle, put_sync_record, put_signed_prekey, put_chunk, push_own, own_device, own_scope,
      parse_body.
    hstep; first [apply calls_push, NotifyUserDevicesExcept_calls | apply calls_on_db | apply calls_on_uploads].
  - unfold handle_delete, delete_device, delete_sync_record, delete_member, membership_changed, push_own, own_device,
      parse_body.
    hstep; first [apply calls_push, NotifyUserDevicesExcept_calls
                 | apply calls_push, NotifyConversationMembershipChanged_calls | apply calls_on_db | apply calls_on_relay].
    unfold ConversationService.RemoveMember. preserve_step; [apply rcalls_on_relay_db|apply PurgeMemberDelivery_calls].
Qed.

Lemma DispatchHttp_calls req env session w :
  called (rw_hook (sw_relay w)) (rw_hook (sw_relay (DispatchHttp ctx req env session w).2)).
Proof.
  assert (Hd : hpreserves (calls (rw_hook (sw_relay w))) (dispatch ctx req env session)).
  { unfold dispatch, check_size, limit_auth, limit_account, too_many.
    hstep; try (intros w' Hw'; unfold allow_auth, allow_account; by case_match);
      apply hp_try_routes; [apply TryPublicAuth_calls|apply TryAdmin_calls|apply HandleAuthenticated_calls|..]. }
  specialize (Hd w (called_refl _)). unfold DispatchHttp. by destruct (dispatch ctx req env session w) as [[] w'].
Qed.

Lemma maintenance_calls now1 now2 w :
  called (rw_hook (sw_relay w)) (rw_hook (sw_relay (maintenance now1 now2 w).2)).
Proof.
  assert (Hm : hpreserves (calls (rw_hook (sw_relay w))) (maintenance now1 now2)).
  { unfold maintenance. hstep; [apply calls_on_db|apply calls_on_uploads]. }
  exact (Hm w (called_refl _)).
Qed.

(** ** The connections *)

Record conns_ok (l : LiveServer) : Prop := {
  co_sessions : ∀ id s, lv_sessions l !! id = Some s ->
    WsSession.outbound_ok ctx id (lv_registry l) s ∧ WsSession.auth_ok s;
  co_registry : ∀ key id, senders_ (lv_registry l) !! key = Some (Some id) ->
    ∃ s session, lv_sessions l !! id = Some s ∧ ws_identity s = Some session ∧
      key = DeviceScopeKey (s_user_id session) (s_device_id session) }.

(** A step of the services. *)
Lemma conns_ok_called l w tasks :
  called (lv_registry l) (rw_hook (sw_relay w)) -> conns_ok l -> conns_ok (mkLiveServer w tasks (lv_sessions l)).
Proof.
  intros [Es Hp] [Hs Hr]. split; simpl.
  - intros id s Hid. destruct (Hs id s Hid) as [Ho Ha]. split; [|done].
    by apply (WsSession.outbound_ok_frame ctx id (lv_registry l) _ s).
  - by rewrite Es.
Qed.

Lemma new_ws_ok id r req : id ∉ (sent r).*1 -> WsSession.outbound_ok ctx id r (new_ws req) ∧ WsSession.auth_ok (new_ws req).
Proof.
  intros Hid. split; [|by split]. split; simpl; try done; [lia|lia|by left].
Qed.

Lemma conns_ok_upgrade l id req :
  lv_sessions l !! id = None -> id ∉ (sent (lv_registry l)).*1 -> conns_ok l ->
  conns_ok (mkLiveServer (lv_world l) (lv_tasks l) (<[id := new_ws req]> (lv_sessions l))).
Proof.
  intros Hnew Hid [Hs Hr]. split; simpl.
  - intros id' s [[<- <-]|[_ Hs']]%lookup_insert_Some; [by apply new_ws_ok|by apply Hs].
  - intros key id' Hk. destruct (Hr key id' Hk) as (s & session & Hs' & E). exists s, session. split; [|done].
    rewrite lookup_insert_ne; [done|]. intros <-. by rewrite Hnew in Hs'.
Qed.

Lemma conns_ok_ws l id s e clock r' s' :
  lv_sessions l !! id = Some s ->
  WsSession.handle ctx id e clock (lv_db l) (lv_registry l, s) = Some (r', s') -> conns_ok l ->
  conns_ok (mkLiveServer (set_registry r' (lv_world l)) (lv_tasks l) (<[id := s']> (lv_sessions l))).
Proof.
  intros Hid Hh [Hs Hr]. destruct (Hs id s Hid) as [Ho Ha].
  destruct (WsSession.handle_outbound _ _ _ _ _ _ _ _ _ Hh Ho) as [Esent Ho'].
  destruct (WsSession.handle_auth _ _ _ _ _ _ _ _ Hh Ha) as (Ha' & _ & Hident & Hreg). simpl in *.
  split; simpl.
  - intros id2 s2 [[<- <-]|[_ Hs2]]%lookup_insert_Some; [done|]. destruct (Hs id2 s2 Hs2) as [Ho2 Ha2]. split; [|done].
    apply (WsSession.outbound_ok_frame ctx id2 (lv_registry l) r' s2 s2); [by rewrite Esent| |done]. by split_and!.
  - intros key id2 Hk. destruct (Hreg key _ Hk) as [Hold|(E & session & Hses & ->)].
    + destruct (Hr key id2 Hold) as (s2 & session & Hs2 & Hses & ->).
      destruct (decide (id2 = id)) as [->|Hne].
      * rewrite Hid in Hs2. injection Hs2 as <-. exists s', session. rewrite lookup_insert_eq. split; [done|].
        split; [|done]. destruct Hident as [->|[En _]]; [done|by rewrite En in Hses].
      * exists s2, session. by rewrite lookup_insert_ne.
    + injection E as ->. exists s', session. by rewrite lookup_insert_eq.
Qed.

Lemma live_step_conns l l' : live_step l l' -> conns_ok l -> conns_ok l'.
Proof.
  intros Hst Hc. destruct Hst.
  - by apply (conns_ok_called l (lv_world l)); [apply called_refl|].
  - apply conns_ok_called; [apply DispatchHttp_calls|done].
  - apply conns_ok_called; [apply maintenance_calls|done].
  - by apply conns_ok_upgrade.
  - by apply (conns_ok_ws l id s e clock).
Qed.

Lemma initial_conns : conns_ok initial.
Proof. split; simpl; intros *; by rewrite lookup_empty. Qed.

Lemma reachable_conns l : rtc live_step initial l -> conns_ok l.
Proof.
  intros Hr. pose proof initial_conns as Hi. revert Hi.
  induction Hr as [l|l1 l2 l3 Hs _ IH]; [done|]. intros Hc. apply IH. by apply (live_step_conns l1).
Qed.

(** ** What holds of every reachable state *)

Lemma sizes_nonneg : config_typed (ctx_config ctx) ->
  0 <= cf_max_group_size (ctx_config ctx) ∧ 0 <= cf_max_channel_size (ctx_config ctx) ∧
  0 <= cf_max_queue_depth_per_device (ctx_config ctx).
Proof. unfold config_typed, in_uint64. intros Ht. decompose [and] Ht. lia. Qed.

Lemma live_step_inv l l' :
  config_typed (ctx_config ctx) -> live_step l l' ->
  server_inv ctx (lv_world l) -> server_inv ctx (lv_world l').
Proof.
  intros (Hg & Hc & _)%sizes_nonneg Hst Hw. destruct Hst; simpl; [done| | |done|].
  - by apply DispatchHttp_inv.
  - by apply maintenance_inv.
  - destruct Hw as [Hdb Hq]. by split.
Qed.

Lemma initial_inv :
  config_typed (ctx_config ctx) -> server_inv ctx (lv_world initial).
Proof.
  intros (_ & _ & Hmq)%sizes_nonneg. split; [split|].
  - apply CreateSchema_wf.
  - by apply Forall_nil_2.
  - intros c Hc. by apply not_elem_of_nil in Hc.
  - intros k. unfold DeliveryManager.queue_at. simpl. rewrite lookup_empty. simpl. lia.
Qed.

Lemma reachable_inv l : config_typed (ctx_config ctx) -> rtc live_step initial l -> server_inv ctx (lv_world l).
Proof.
  intros Hmq Hr. pose proof (initial_inv Hmq) as Hi. revert Hi.
  induction Hr as [l|l1 l2 l3 Hs _ IH]; [done|]. intros Hi. apply IH. by apply (live_step_inv l1).
Qed.

(** What the constraints of the schema, the bound of the queues and the shape of user ids
    come to. *)
Record consistent (w : ServerWorld) : Prop := mk_consistent {
  cn_schema : db_wf (sw_db w);
  cn_queues : DeliveryManager.queues_bounded (cf_max_queue_depth_per_device (ctx_config ctx)) (sw_relay w);
  cn_ids : RelayService.user_ids_ok (sw_db w) }.

(** C1: Under any configuration whose numbers fit their types, whatever requests the
    server is sent, with or without valid tokens, in whatever order they are read and
    served, one at a time, and however the maintenance sweeps and the WebSocket
    connections fall between them: every state reached from a new database satisfies all
    declared constraints (keys, uniqueness, references), no delivery queue is longer
    than configured, and no user id holds the separator that scoped device keys rely
    on. *)
Theorem reachable_states_consistent l :
  config_typed (ctx_config ctx) -> rtc live_step initial l -> consistent (lv_world l).
Proof. intros Hc Hr. destruct (reachable_inv l Hc Hr) as [[Hwf Hids _] Hq]. by split. Qed.

(** The outbound queue of a WebSocket session when its handlers run one at a time, as they
    do with one network thread: what was handed to the socket followed by what still
    waits is, in order, what was queued; as long as the connection was not given up that
    is every message posted to the session and handled so far, none lost or doubled;
    the queue is within its configured bound; and nothing waits without a write under
    way.  (With more threads nothing keeps the handlers of a session apart.) *)
Theorem ws_outbound_in_order l id s :
  rtc live_step initial l -> lv_sessions l !! id = Some s ->
  ws_written s ++ ws_outbound s = ws_queued s ∧
  (ws_given_up s = false -> ws_queued s = take (ws_handled s) (posts id (lv_registry l))) ∧
  (0 < cf_max_ws_outbound_queue (ctx_config ctx) ->
     Z.of_nat (length (ws_outbound s)) <= cf_max_ws_outbound_queue (ctx_config ctx)) ∧
  (ws_outbound s = [] ∨ ws_write_in_progress s = true ∨ ws_given_up s = true).
Proof.
  intros Hr Hs. by destruct (co_sessions _ (reachable_conns l Hr) id s Hs) as [[] _].
Qed.

(** ** Runs, executably *)

Inductive live_event :=
  | LSubmit (req : HttpRequest) (clock : Timestamp)
  | LServe (i : nat) (env : RequestEnv)
  | LMaintenance (now1 now2 : Timestamp)
  | LUpgrade (id : Z) (req : HttpRequest) (clock : Timestamp)
  | LWs (id : Z) (e : WsSession.ws_event) (clock : Timestamp).

Definition live_do (l : LiveServer) (ev : live_event) : option LiveServer :=
  match ev with
  | LSubmit req clock =>
      match WsSession.OnRead ctx is_upgrade IoOk req clock (lv_world l) with
      | SubmitDispatch sess => Some (mkLiveServer (lv_world l) (lv_tasks l ++ [(req, sess)]) (lv_sessions l))
      | _ => None
      end
  | LServe i env =>
      '(req, sess) ← lv_tasks l !! i;
      Some (mkLiveServer (DispatchHttp ctx req env sess (lv_world l)).2 (delete i (lv_tasks l)) (lv_sessions l))
  | LMaintenance now1 now2 =>
      Some (mkLiveServer (maintenance now1 now2 (lv_world l)).2 (lv_tasks l) (lv_sessions l))
  | LUpgrade id req clock =>
      match WsSession.OnRead ctx is_upgrade IoOk req clock (lv_world l) with
      | UpgradeToWs =>
          if decide (lv_sessions l !! id = None ∧ id ∉ (sent (lv_registry l)).*1)
          then Some (mkLiveServer (lv_world l) (lv_tasks l) (<[id := new_ws req]> (lv_sessions l)))
          else None
      | _ => None
      end
  | LWs id e clock =>
      s ← lv_sessions l !! id;
      '(r', s') ← WsSession.handle ctx id e clock (lv_db l) (lv_registry l, s);
      Some (mkLiveServer (set_registry r' (lv_world l)) (lv_tasks l) (<[id := s']> (lv_sessions l)))
  end.

Fixpoint live_run (evs : list live_event) (l : LiveServer) : option LiveServer :=
  match evs with
  | [] => Some l
  | ev :: evs' => live_do l ev ≫= live_run evs'
  end.

Lemma live_run_app evs1 evs2 l : live_run (evs1 ++ evs2) l = live_run evs1 l ≫= live_run evs2.
Proof.
  revert l. induction evs1 as [|ev evs1 IH]; intros l; [done|]. simpl. destruct (live_do l ev); simpl; [apply IH|done].
Qed.

Lemma live_do_step l ev l' : live_do l ev = Some l' -> live_step l l'.
Proof.
  destruct ev as [req clock|i env|now1 now2|id req clock|id e clock]; cbn [live_do].
  - destruct (WsSession.OnRead ctx is_upgrade IoOk req clock (lv_world l)) eqn:E; [done..|]. intros [= <-]. by eapply live_submit.
  - destruct (lv_tasks l !! i) as [[req sess]|] eqn:E; simpl; [|done]. intros [= <-]. by eapply live_serve.
  - intros [= <-]. apply live_maintenance.
  - destruct (WsSession.OnRead ctx is_upgrade IoOk req clock (lv_world l)) eqn:E; [done..| |done]. case_decide as Hd; [|done]. intros [= <-].
    destruct Hd. by eapply live_upgrade.
  - destruct (lv_sessions l !! id) as [s|] eqn:Es; cbn [mbind option_bind]; [|done].
    destruct (WsSession.handle ctx id e clock (lv_db l) (lv_registry l, s)) as [[r' s']|] eqn:E;
      cbn [mbind option_bind]; [|done]. intros [= <-]. by eapply live_ws.
Qed.

Lemma live_run_reachable evs l l' : live_run evs l = Some l' -> rtc live_step l l'.
Proof.
  revert l. induction evs as [|ev evs IH]; intros l; simpl; [by intros [= ->]|].
  destruct (live_do l ev) as [l1|] eqn:E; simpl; [|done]. intros Hr. eapply rtc_l; [by eapply live_do_step|by apply IH].
Qed.

(** ** Who is online *)

(** The connection [id] was opened by the request [req]. *)
Definition opened_by (evs : list live_event) (id : Z) (req : HttpRequest) : Prop :=
  ∃ clock, LUpgrade id req clock ∈ evs.

(** At some point of the run the connection [id] showed a token, in the header of the
    request that opened it or in a message, which was valid for [session] then. *)
Definition authenticated (evs : list live_event) (id : Z) (session : SessionRecord) : Prop :=
  ∃ evs1 e clock evs2 l0 req token,
    evs = evs1 ++ LWs id e clock :: evs2 ∧ live_run evs1 initial = Some l0 ∧ opened_by evs1 id req ∧
    WsSession.shown req e = Some token ∧
    (ValidateAccessToken (tokens ctx) token clock (lv_db l0)).1 = Ok session.

Lemma authenticated_more evs evs' id session : authenticated evs id session -> authenticated (evs ++ evs') id session.
Proof.
  intros (evs1 & e & clock & evs2 & l0 & req & token & -> & H'). exists evs1, e, clock, (evs2 ++ evs'), l0, req, token.
  split; [by rewrite <- app_assoc|done].
Qed.

Lemma opened_by_more evs evs' id req : opened_by evs id req -> opened_by (evs ++ evs') id req.
Proof. intros [clock Hc]. exists clock. apply elem_of_app. by left. Qed.

Lemma live_run_snoc evs ev l l' :
  live_run (evs ++ [ev]) l = Some l' -> ∃ l1, live_run evs l = Some l1 ∧ live_do l1 ev = Some l'.
Proof.
  rewrite live_run_app. destruct (live_run evs l) as [l1|]; cbn [mbind option_bind live_run]; [|done].
  destruct (live_do l1 ev) as [l2|] eqn:E; cbn [mbind option_bind]; [|done]. intros [= <-]. by exists l1.
Qed.

Lemma run_identities evs : ∀ l, live_run evs initial = Some l ->
  ∀ id s, lv_sessions l !! id = Some s ->
    opened_by evs id (ws_req s) ∧ ∀ session, ws_identity s = Some session -> authenticated evs id session.
Proof.
  induction evs as [|ev evs IH] using rev_ind; intros l.
  { intros [= <-] id s. simpl. by rewrite lookup_empty. }
  intros (l1 & Hr & Hd)%live_run_snoc id s Hs. specialize (IH l1 Hr).
  assert (Hold : ∀ s0, lv_sessions l1 !! id = Some s0 -> ws_req s = ws_req s0 ->
    opened_by (evs ++ [ev]) id (ws_req s) ∧
    (ws_identity s = ws_identity s0 -> ∀ session, ws_identity s = Some session -> authenticated (evs ++ [ev]) id session)).
  { intros s0 Hs0 ->. destruct (IH id s0 Hs0) as [Ho Ha]. split; [by apply opened_by_more|].
    intros -> session Hi. by apply authenticated_more, Ha. }
  destruct ev as [req clock|i env|now1 now2|id' req clock|id' e clock]; cbn [live_do] in Hd.
  - destruct (WsSession.OnRead _ _ _ _ _ _); [done..|]. injection Hd as <-.
    destruct (Hold s Hs eq_refl) as [Ho Ha]. split; [done|]. by apply Ha.
  - destruct (lv_tasks l1 !! i) as [[req sess]|]; cbn [mbind option_bind] in Hd; [|done]. injection Hd as <-.
    destruct (Hold s Hs eq_refl) as [Ho Ha]. split; [done|]. by apply Ha.
  - injection Hd as <-. destruct (Hold s Hs eq_refl) as [Ho Ha]. split; [done|]. by apply Ha.
  - destruct (WsSession.OnRead _ _ _ _ _ _); [done..| |done]. case_decide; [|done]. injection Hd as <-.
    cbn [lv_sessions] in Hs. apply lookup_insert_Some in Hs as [[-> <-]|[_ Hs]].
    + split; [|done]. exists clock. apply elem_of_app. right. left.
    + destruct (Hold s Hs eq_refl) as [Ho Ha]. split; [done|]. by apply Ha.
  - destruct (lv_sessions l1 !! id') as [x|] eqn:Ex; cbn [mbind option_bind] in Hd; [|done].
    destruct (WsSession.handle _ _ _ _ _ _) as [[r' x']|] eqn:Eh; cbn [mbind option_bind] in Hd; [|done].
    injection Hd as <-. cbn [lv_sessions] in Hs. apply lookup_insert_Some in Hs as [[-> <-]|[_ Hs]].
    2: { destruct (Hold s Hs eq_refl) as [Ho Ha]. split; [done|]. by apply Ha. }
    destruct (co_sessions _ (reachable_conns l1 (live_run_reachable _ _ _ Hr)) id x Ex) as [_ Ha].
    destruct (WsSession.handle_auth _ _ _ _ _ _ _ _ Eh Ha) as (_ & Eq & Hi & _). cbn [fst snd] in Eq, Hi.
    destruct (Hold x Ex Eq) as [Ho Hsame]. split; [done|]. intros session Hses.
    destruct Hi as [Hi|(_ & ses & Hses' & token & Ht & Hv)]; [by apply Hsame|].
    assert (ses = session) as -> by congruence.
    exists evs, e, clock, [], l1, (ws_req x), token. split; [done|]. split; [done|]. split; [|done].
    apply (IH id x Ex).
Qed.

(** C9: Pushed messages only go to connections that proved who they are: whenever the
    registry holds a WebSocket session under the key of a device, this very
    connection showed earlier in the run, in the Authorization header of the request
    that opened it or in its authentication message, an access token that the server
    then validated for exactly this user and this device. *)
Theorem push_target_authenticated evs l key id :
  live_run evs initial = Some l -> senders_ (lv_registry l) !! key = Some (Some id) ->
  ∃ session, key = DeviceScopeKey (s_user_id session) (s_device_id session) ∧ authenticated evs id session.
Proof.
  intros Hr Hk.
  destruct (co_registry _ (reachable_conns l (live_run_reachable _ _ _ Hr)) key id Hk) as (s & session & Hs & Hi & ->).
  exists session. split; [done|]. by apply (run_identities evs l Hr id s).
Qed.
End live.

Section witnesses.
#[local] Existing Instance rowid_engine.
#[local] Existing Instance AttachmentService.reliable_disk.
#[local] Existing Instance toy_argon2.

(** A stand-in for the JSON library: a body is the device id of an otherwise fixed
    document, and every document prints as the same text. *)
Definition carol_json : BoostJson := {|
  json_parse := λ body, if body =s? "" then inl "incomplete JSON" else inr (VObject
    [("username", VString "carol"); ("password_derived_value", VString "pw"); ("device_id", VString body);
     ("identity_key_public", VString "ik"); ("signed_prekey_public", VString "spk");
     ("signed_prekey_signature", VString "sig"); ("wrapped_sync_key", VString "wk");
     ("sync_wrap_salt", VString "ws"); ("sync_wrap_params", VString "wp")]);
  json_serialize := λ _, "json"
|}.
#[local] Existing Instance carol_json.

Definition has_upgrade (req : HttpRequest) : bool := some (header "Upgrade" req).
Definition bearer (n : Z) : string * string :=
  ("authorization", "Bearer " +:+ access_token (sample_tokens n)).
Definition sample_connect : HttpRequest :=
  sample_request VGet "/v1/ws" [("upgrade", "websocket"); bearer 1] "".

(** Carol registers with device d1, the maintenance task runs, d1 connects. *)
Definition sample_connecting : list live_event :=
  [LSubmit (sample_request VPost "/v1/register" [] "d1") 1000; LServe 0 (sample_env 1);
   LMaintenance 1000 1000; LUpgrade 1 sample_connect 1001; LWs 1 (WsSession.WsAccepted IoOk) 1001].

(** Her device d2 logs in and replaces the key bundle, which is pushed to d1. *)
Definition sample_pushing : list live_event :=
  [LSubmit (sample_request VPost "/v1/login" [] "d2") 1002; LServe 0 (sample_env 2);
   LSubmit (sample_request VPut "/v1/sync/key-bundle" [bearer 2] "d2") 1003; LServe 0 (sample_env 3);
   LWs 1 WsSession.WsPosted 1003].

(** Device d1 connects again before its first connection has gone, which then fails. *)
Definition sample_reconnecting : list live_event :=
  [LUpgrade 2 sample_connect 1002; LWs 2 (WsSession.WsAccepted IoOk) 1002;
   LWs 1 (WsSession.WsReadDone WsReadError) 1003].

Definition run_from (l : LiveServer) (evs : list live_event) : LiveServer :=
  default l (live_run sample_ctx has_upgrade evs l).
Definition sample_connected : LiveServer := Eval vm_compute in run_from initial sample_connecting.
Definition sample_pushed : LiveServer := Eval vm_compute in run_from sample_connected sample_pushing.
Definition sample_reconnected : LiveServer := Eval vm_compute in run_from sample_connected sample_reconnecting.

Lemma sample_connected_reachable : rtc (live_step sample_ctx has_upgrade) initial sample_connected.
Proof. apply (live_run_reachable _ _ sample_connecting). vm_compute. reflexivity. Qed.
Lemma sample_pushed_reachable : rtc (live_step sample_ctx has_upgrade) initial sample_pushed.
Proof.
  etrans; [exact sample_connected_reachable|]. apply (live_run_reachable _ _ sample_pushing). vm_compute. reflexivity.
Qed.
Lemma sample_reconnected_reachable : rtc (live_step sample_ctx has_upgrade) initial sample_reconnected.
Proof.
  etrans; [exact sample_connected_reachable|].
  apply (live_run_reachable _ _ sample_reconnecting). vm_compute. reflexivity.
Qed.

Definition carol_key : string := Eval vm_compute in DeviceScopeKey (GenerateUuid (1, 2)) "d1".

Definition sample_ws (id : Z) : WebSocketSession :=
  default (new_ws sample_connect) (lv_sessions sample_reconnected !! id).

(** A device that reconnects can end up online and unreachable: the old connection,
    when it fails, takes the entry of the new one out of the registry.  Both
    connections proved to be the same device, the second is open and reading, and no
    sender is registered for the device, so that nothing is pushed to it. *)
Theorem reconnected_device_unreachable :
  ∃ l s1 s2 session, rtc (live_step sample_ctx has_upgrade) initial l ∧
    lv_sessions l !! 1 = Some s1 ∧ lv_sessions l !! 2 = Some s2 ∧
    ws_identity s1 = Some session ∧ ws_identity s2 = Some session ∧
    ws_given_up s2 = false ∧ ws_reading s2 = true ∧
    senders_ (lv_registry l) !! DeviceScopeKey (s_user_id session) (s_device_id session) = None.
Proof.
  exists sample_reconnected, (sample_ws 1), (sample_ws 2),
    (default (mkSessionRecord "" "" "" "" "" 0 0 0 None) (ws_identity (sample_ws 1))).
  split; [exact sample_reconnected_reachable|].
  split_and!; vm_compute; reflexivity.
Qed.

Lemma reachable_states_consistent_witness :
  consistent sample_ctx (lv_world sample_pushed) ∧ u_username <$> users (lv_db sample_pushed) = ["carol"].
Proof.
  split; [|vm_compute; reflexivity].
  apply (reachable_states_consistent sample_ctx has_upgrade).
  - unfold config_typed, in_uint64, in_uint32, in_uint16, in_int64. cbn. lia.
  - exact sample_pushed_reachable.
Defined.

Lemma sample_connecting_run : live_run sample_ctx has_upgrade sample_connecting initial = Some sample_connected.
Proof. vm_compute. reflexivity. Qed.

Lemma push_target_authenticated_witness :
  ∃ session, carol_key = DeviceScopeKey (s_user_id session) (s_device_id session) ∧
    authenticated sample_ctx has_upgrade sample_connecting 1 session.
Proof.
  apply (push_target_authenticated sample_ctx has_upgrade _ _ _ _ sample_connecting_run).
  vm_compute. reflexivity.
Defined.

Definition sample_session_1 : WebSocketSession :=
  default (new_ws sample_connect) (lv_sessions sample_pushed !! 1).

Lemma ws_outbound_in_order_witness :
  ws_queued sample_session_1 = ["json"] ∧
  ws_written sample_session_1 ++ ws_outbound sample_session_1 = ws_queued sample_session_1.
Proof.
  split; [vm_compute; reflexivity|].
  assert (Hs : lv_sessions sample_pushed !! 1 = Some sample_session_1) by (vm_compute; reflexivity).
  exact (proj1 (ws_outbound_in_order sample_ctx has_upgrade _ _ _ sample_pushed_reachable Hs)).
Defined.
End witnesses.
