(* ===== verification/Isolation.v ===== *)
(** * Isolation of accounts

    What a session can change of other accounts: their rows in [users], [devices],
    [sessions] and [sync_records] are out of its reach on every route. *)

From S2P Require Import Prelude Types Sql Database Samples Hex Paging Config RateLimiter Uuid Users Devices Sessions Password Tokens Auth Conversations Envelopes SyncState Attachments Delivery Relay ConversationService Admin Footprint Json WsRegistry HttpPath HttpDispatch HttpSafety Server.

Lemma filter_update_other {R} (Q P : R -> Prop) `{!∀ x, Decision (Q x)} `{!∀ x, Decision (P x)} f l :
  (∀ x, P x -> ¬ Q x ∧ ¬ Q (f x)) -> filter Q (sql_update P f l) = filter Q l.
Proof.
  intros Hf. unfold sql_update. induction l as [|x l IH]; [done|]. rewrite fmap_cons, !filter_cons, IH.
  destruct (decide (P x)) as [HP|HP]; [|done]. destruct (Hf x HP). by rewrite !decide_False by done.
Qed.

Lemma filter_insert_other {R} (Q : R -> Prop) `{!∀ x, Decision (Q x)} x l :
  ¬ Q x -> filter Q (sql_insert x l) = filter Q l.
Proof.
  intros Hx. unfold sql_insert. rewrite filter_app, filter_cons, decide_False by done. apply app_nil_r.
Qed.

(** The rows of an account. *)
Record account_rows := mk_account_rows {
  ar_users : list UserRecord;
  ar_devices : list DeviceRecord;
  ar_sessions : list SessionRecord;
  ar_sync : list SyncRow }.

Definition account (v : UserId) (db : Database) : account_rows :=
  mk_account_rows (filter (λ x, u_user_id x = v) (users db)) (filter (λ d, d_user_id d = v) (devices db))
    (filter (λ s, s_user_id s = v) (sessions db)) (filter (λ y, y_user_id y = v) (sync_records db)).

Definition account_tables : list table := [TUsers; TDevices; TSessions; TSyncRecords].

Section isolation.
Context `{SqlEngine} `{Disk} `{Argon2} `{BoostJson} (ctx : ServerContext).
Context (v : UserId) (a0 : account_rows).

Definition untouched (db : Database) : Prop := account v db = a0.

Lemma account_same db db' : (∀ t, t ∈ account_tables -> same_table t db db') -> account v db' = account v db.
Proof.
  intros Hs. unfold account.
  rewrite (Hs TUsers ltac:(in_list) : users _ = _), (Hs TDevices ltac:(in_list) : devices _ = _),
    (Hs TSessions ltac:(in_list) : sessions _ = _), (proj1 (Hs TSyncRecords ltac:(in_list)) : sync_records _ = _).
  done.
Qed.

Lemma untouched_same db db' : account v db' = account v db -> untouched db -> untouched db'.
Proof. unfold untouched. congruence. Qed.

Lemma off_accounts {A} ts (c : M Database A) :
  confined ts c -> (∀ t, t ∈ account_tables -> t ∉ ts) -> preserves untouched c.
Proof.
  intros Hc Hts db. apply untouched_same, account_same. intros t Ht. apply (confined_run ts); auto.
Qed.

Lemma relay_off_accounts {A} ts (c : M (RelayWorld Ws) A) :
  relay_confined ts c -> (∀ t, t ∈ account_tables -> t ∉ ts) -> preserves (λ w, untouched (rw_db w)) c.
Proof.
  intros Hc Hts w. apply untouched_same, account_same. intros t Ht.
  apply (Hc (rw_db w) w); [intros t' _; apply same_table_refl|by apply Hts].
Qed.

Lemma upload_off_accounts {A} (c : M AttachmentWorld A) :
  upload_confined c -> preserves (λ w, untouched (aw_db w)) c.
Proof.
  intros Hc w. apply untouched_same, account_same. intros t Ht.
  apply (Hc (aw_db w) w); [intros t' _; apply same_table_refl|]. unfold account_tables in Ht. set_solver.
Qed.

(** ** Operations on the caller's own rows *)

Context (u : UserId) (Huv : u ≠ v).

Lemma update_user_own f : (∀ x, u_user_id (f x) = u_user_id x) -> preserves untouched (update_user u f).
Proof.
  intros Hf. unfold update_user. preserve_step. intros db. apply untouched_same. unfold modify, account. simpl. f_equal.
  apply filter_update_other. intros x E. rewrite Hf. naive_solver.
Qed.

Lemma ChangePassword_own r draws : preserves untouched (ChangePassword (hasher ctx) u r draws).
Proof.
  unfold ChangePassword. preserve_step; try by apply update_user_own.
  unfold lift. case_match; [apply preserves_mok|apply preserves_rethrow].
Qed.

Lemma update_devices_own (P : DeviceRecord -> Prop) `{!∀ d, Decision (P d)} f :
  (∀ d, P d -> d_user_id d = u) -> (∀ d, d_user_id (f d) = d_user_id d) ->
  preserves untouched (modify (λ db, set_devices (sql_update P f (devices db)) db)).
Proof.
  intros HP Hf db. apply untouched_same. unfold account. simpl. f_equal. apply filter_update_other. intros d Hd.
  rewrite Hf. specialize (HP d Hd). naive_solver.
Qed.

Lemma StorePrekeys_own d ks now : preserves untouched (StorePrekeys u d ks now).
Proof.
  apply preserves_transaction. preserve_step; [|by apply update_devices_own; [by intros ? []|]].
  apply preserves_for_each. intros pk _. apply (off_accounts [TOneTimePrekeys]).
  - insert_footprint insert_one_time_prekeys.
  - unfold account_tables. set_solver.
Qed.

Lemma UpdateSignedPrekey_own d p s now : preserves untouched (UpdateSignedPrekey u d p s now).
Proof. unfold UpdateSignedPrekey. preserve_step. by apply update_devices_own; [by intros ? [[] ?]|]. Qed.

Lemma RevokeDevice_own d now : preserves untouched (RevokeDevice u d now).
Proof.
  apply preserves_transaction. preserve_step; [by apply update_devices_own; [by intros ? [[] ?]|]|].
  by intros db Hdb.
Qed.

Lemma revoke_rows_own (P : SessionRecord -> Prop) `{!∀ s, Decision (P s)} now db :
  (∀ s, s ∈ sessions db -> P s -> s_user_id s ≠ v) -> account v (SessionRepository.revoke_rows P now db) = account v db.
Proof.
  intros HP. unfold account, SessionRepository.revoke_rows. simpl. f_equal.
  unfold sql_update. revert HP. induction (sessions db) as [|s l IH]; intros HP; [done|].
  rewrite fmap_cons, !filter_cons, IH by (intros s' Hs'; apply HP; by right).
  destruct (decide (P s ∧ session_live s)) as [[HPs _]|]; [|done].
  by rewrite !decide_False by (apply (HP s); [left|done]).
Qed.

Lemma RevokeAllForDevice_own d now : preserves untouched (SessionRepository.RevokeAllForDevice u d now).
Proof. intros db. apply untouched_same, revoke_rows_own. intros s _ [-> _]. done. Qed.

(** Logging out revokes one session; [sid] is not one of the other account's. *)
Lemma Logout_own sid now :
  (∀ s, s ∈ ar_sessions a0 -> s_session_id s ≠ sid) -> preserves untouched (Logout sid now).
Proof.
  intros Hsid. unfold Logout. simpl. unfold SessionRepository.RevokeSession. preserve_step.
  intros db Hdb. unfold modify, untouched. simpl. etrans; [|exact Hdb]. apply revoke_rows_own.
  intros s Hs E Hv. apply (Hsid s); [|done]. rewrite <- Hdb. simpl. by apply list_elem_of_filter.
Qed.

Lemma UpsertRecord_own c r ct h b now : preserves untouched (SyncStateRepository.UpsertRecord u c r ct h b now).
Proof.
  apply preserves_transaction. preserve_step.
  - intros db. apply untouched_same. unfold modify, account. simpl. f_equal. apply filter_update_other.
    intros y (E & _). simpl. naive_solver.
  - apply preserves_exec. intros db db' Hdb E. unfold insert_sync_records in E. repeat case_match; simplify_eq/=.
    revert Hdb. apply untouched_same. unfold account. simpl. f_equal. by apply filter_insert_other.
Qed.

Lemma TombstoneRecord_own c r b now : preserves untouched (SyncStateRepository.TombstoneRecord u c r b now).
Proof.
  apply preserves_transaction. preserve_step.
  intros db. apply untouched_same. unfold modify, account. simpl. f_equal. apply filter_update_other.
  intros y (E & _). simpl. naive_solver.
Qed.

(** ** Handlers *)

Definition kept (w : ServerWorld) : Prop := untouched (sw_db w).

Lemma hk_on_db {A} (c : M Database A) : preserves untouched c -> hpreserves kept (on_db c).
Proof. intros Hc w Hw. unfold on_db, call, get_db. specialize (Hc _ Hw). by destruct (c (sw_db w)). Qed.

Lemma hk_on_relay {A} (c : M (RelayWorld Ws) A) :
  preserves (λ w, untouched (rw_db w)) c -> hpreserves kept (on_relay c).
Proof. intros Hc w Hw. unfold on_relay, call. specialize (Hc _ Hw). by destruct (c (sw_relay w)). Qed.

Lemma hk_on_uploads {A} (c : M AttachmentWorld A) :
  preserves (λ w, untouched (aw_db w)) c -> hpreserves kept (on_uploads c).
Proof.
  intros Hc w Hw. unfold on_uploads, call. specialize (Hc (get_uploads w) Hw). by destruct (c (get_uploads w)).
Qed.

Lemma hk_push f : (∀ w, same_but_hook w (f w)) -> hpreserves kept (push f).
Proof. intros Hf w Hw. destruct (Hf (sw_relay w)) as [E _]. unfold kept, push, update. simpl. by rewrite E. Qed.

Section request.
Context (req : HttpRequest) (env : RequestEnv) (sess : SessionRecord).
Context (Hu : s_user_id sess = u) (Hsid : ∀ s, s ∈ ar_sessions a0 -> s_session_id s ≠ s_session_id sess).

(** The scope of a device route is the caller's once [own_scope] lets it pass. *)
Lemma hk_own_scope scope msg (k : HM unit) :
  (scope.1 = u -> hpreserves kept k) -> hpreserves kept (own_scope req sess scope msg ;;* k).
Proof.
  intros Hk w Hw. unfold own_scope, hbind, when. destruct (String.eqb_spec scope.1 (s_user_id sess)) as [E|]; simpl; [|done].
  destruct (_ =s? _); simpl; [|done]. apply Hk; [congruence|done].
Qed.

Ltac off ts fp := apply (off_accounts ts); [apply fp|unfold account_tables, conv_tables; set_solver].
Ltac roff ts fp := apply (relay_off_accounts ts); [apply fp|unfold account_tables, conv_tables; set_solver].

Lemma post_prekeys_kept scope : hpreserves kept (post_prekeys req env sess scope).
Proof.
  apply hk_own_scope. intros E. unfold parse_body. hstep. rewrite E. apply hk_on_db, StorePrekeys_own.
Qed.

Lemma put_signed_prekey_kept scope : hpreserves kept (put_signed_prekey ctx req env sess scope).
Proof.
  apply hk_own_scope. intros E. unfold parse_body, push_own. hstep; [|apply hk_push, NotifyUserDevicesExcept_same].
  rewrite E. apply hk_on_db, UpdateSignedPrekey_own.
Qed.

Lemma handle_post_kept : hpreserves kept (handle_post ctx req env sess).
Proof.
  unfold handle_post, post_logout, post_change_password, post_messages_send, post_messages_ack, post_conversations,
    post_members, post_subscribe, post_unsubscribe, post_upload_init, post_finalize,
    membership_changed, conversation_created, own_device, parse_body.
  hstep; first [apply hk_push, NotifyConversationMembershipChanged_same | apply post_prekeys_kept
               | apply hk_on_db | apply hk_on_relay | apply hk_on_uploads].
  - by apply Logout_own.
  - rewrite Hu. apply ChangePassword_own.
  - roff [TEncryptedEnvelopes; TDeliveryState] @SendEnvelope_fp.
  - roff [TDeliveryState] @AcknowledgeEnvelope_fp.
  - off conv_tables CreateDm_fp.
  - off conv_tables CreateGroup_fp.
  - off conv_tables CreateChannel_fp.
  - off conv_tables AddMemberService_fp.
  - off conv_tables SubscribeChannel_fp.
  - roff (TDeliveryState :: conv_tables) @UnsubscribeChannel_fp.
  - apply upload_off_accounts, InitUpload_fp.
  - apply upload_off_accounts, FinalizeUpload_fp.
Qed.

Lemma handle_get_kept : hpreserves kept (handle_get req env sess).
Proof.
  unfold handle_get, get_me, get_me_devices, get_key_bundle, get_sync_changes, get_users, get_user_by_username,
    get_users_search, user_suffix, get_prekey_bundles, get_user_devices, get_user, get_conversation, get_members,
    get_group_members, get_channel_members, get_sync_pending, get_envelopes, get_conversations, get_device_bundle,
    get_user_device_bundle, get_attachment, envelopes_answer, enabled_user, limit_param, not_a_member.
  hstep; first [apply hk_on_uploads, upload_off_accounts, GetAttachment_fp
               | apply hk_on_db; off [TOneTimePrekeys] GetPrekeyBundle_fp].
Qed.

Lemma handle_put_kept : hpreserves kept (handle_put ctx req env sess).
Proof.
  unfold handle_put, put_key_bundle, put_sync_record, put_chunk, push_own, own_device, parse_body.
  hstep; first [apply put_signed_prekey_kept | apply hk_push, NotifyUserDevicesExcept_same | apply hk_on_db
               | apply hk_on_uploads].
  - rewrite Hu. by apply update_user_own.
  - rewrite Hu. apply UpsertRecord_own.
  - apply upload_off_accounts, WriteChunk_fp.
Qed.

Lemma handle_delete_kept : hpreserves kept (handle_delete ctx req env sess).
Proof.
  unfold handle_delete, delete_device, delete_sync_record, delete_member, membership_changed, push_own, own_device,
    parse_body.
  hstep; first [apply hk_push, NotifyUserDevicesExcept_same
               | apply hk_push, NotifyConversationMembershipChanged_same | apply hk_on_db | apply hk_on_relay].
  - rewrite Hu. apply RevokeDevice_own.
  - rewrite Hu. apply RevokeAllForDevice_own.
  - rewrite Hu. apply TombstoneRecord_own.
  - roff (TDeliveryState :: conv_tables) @RemoveMemberService_fp.
Qed.

Lemma HandleAuthenticated_kept : hpreserves kept (HandleAuthenticated ctx req env sess).
Proof.
  unfold HandleAuthenticated. destruct (rq_method req);
    [apply handle_get_kept|apply handle_post_kept|apply handle_put_kept|apply handle_delete_kept|by intros w].
Qed.
End request.
End isolation.

Section requests.
Context `{SqlEngine} `{Disk} `{Argon2} `{BoostJson} (ctx : ServerContext).

Lemma request_session_stored req clock w s :
  request_session ctx req clock w = Some s -> s ∈ sessions (sw_db w).
Proof.
  unfold request_session. destruct (ParseBearer req) as [token|]; [|done].
  destruct (ValidateAccessToken _ _ _ _) as [[s'|e] db] eqn:E; [|done]. intros [= <-].
  by apply ValidateAccessToken_stored in E as [Hin _].
Qed.

(** Past the public and administrative routes only the session's handlers act. *)
Lemma dispatch_session_kept (I : ServerWorld -> Prop) req env session w :
  auth_route req = false -> not_admin ctx req ->
  (∀ w b, I w -> I (set_sw_account_limiter b w)) ->
  (∀ sess, session = Some sess -> hpreserves I (HandleAuthenticated ctx req env sess)) ->
  I w -> I (DispatchHttp ctx req env session w).2.
Proof.
  intros Ha Hna Hlim Hh Hw. unfold DispatchHttp, dispatch, hbind, check_size.
  unfold when at 1. destruct (Z.ltb _ _); [done|]. change (next () w) with (@Next unit tt, w). cbv iota.
  rewrite limit_auth_silent by done. unfold when. destruct (_ && _); [done|].
  change (next () w) with (@Next unit tt, w). cbv iota. rewrite try_public_silent, try_admin_silent by done.
  destruct session as [sess|]; [|by destruct (negb _)].
  assert (Hl : hpreserves I (limit_account ctx req env sess)).
  { unfold limit_account, too_many. hstep. intros w' Hw'. unfold allow_account. case_match. by apply Hlim. }
  specialize (Hl w Hw). destruct (limit_account ctx req env sess w) as [[[]|r|] w1]; simpl in *; [|done..].
  pose proof (hp_try_routes I _ (Hh sess eq_refl) w1 Hl) as Ht.
  by destruct (try_routes (HandleAuthenticated ctx req env sess) w1) as [[]].
Qed.

(** C5: No request reaches into another account.  Unless it registers, logs in,
    refreshes or carries the administrator's token, a request leaves the profile and
    credentials, the devices, the sessions and the sync records of every user other
    than the one its token belongs to exactly as they were, whatever its route, body
    and outcome. *)
Theorem foreign_account_untouched req env clock w v :
  db_wf (sw_db w) -> auth_route req = false -> not_admin ctx req ->
  (∀ s, request_session ctx req clock w = Some s -> s_user_id s ≠ v) ->
  account v (sw_db (serve_request ctx req env clock w).2) = account v (sw_db w).
Proof.
  intros Hwf Ha Hna Hs.
  assert (Hd : kept v (account v (sw_db w)) (DispatchHttp ctx req env (request_session ctx req clock w) w).2).
  { apply dispatch_session_kept; [done|done|by intros w' b| |done].
    intros sess Es. pose proof (request_session_stored _ _ _ _ Es) as Hin.
    apply (HandleAuthenticated_kept ctx v _ (s_user_id sess)); [by apply Hs|done|].
    intros s' [Hv Hin']%list_elem_of_filter E. apply (Hs sess Es). rewrite <- Hv. f_equal.
    destruct Hwf as [[] _ _]. by apply (NoDup_fmap_inj_on s_session_id (sessions (sw_db w))). }
  unfold serve_request. by destruct (DispatchHttp _ _ _ _ _) as [[]].
Qed.
End requests.

Section witnesses.
#[local] Existing Instance rowid_engine.
#[local] Existing Instance AttachmentService.reliable_disk.
#[local] Existing Instance toy_argon2.
#[local] Existing Instance toy_json.

(** The first user is logged in and replaces the account's key bundle. *)
Definition sample_world : ServerWorld :=
  mkServerWorld (mkRelayWorld sample_session_db ∅ (mkWsPushRegistry ∅ [])) ∅ ∅ ∅.
Definition sample_put : HttpRequest :=
  sample_request VPut "/v1/sync/key-bundle" [("authorization", "Bearer " +:+ access_token (sample_tokens 1))] "x".

Example sample_put_succeeds :
  rs_status (serve_request sample_ctx sample_put (sample_env 1) 1001 sample_world).1 = 200 ∧
  account "u1" (sw_db (serve_request sample_ctx sample_put (sample_env 1) 1001 sample_world).2)
    ≠ account "u1" (sw_db sample_world).
Proof. split; vm_compute; [reflexivity|discriminate]. Qed.

Lemma foreign_account_untouched_witness :
  account "u2" (sw_db (serve_request sample_ctx sample_put (sample_env 1) 1001 sample_world).2)
    = account "u2" (sw_db sample_world).
Proof.
  apply foreign_account_untouched.
  - apply db_wf_eval. vm_compute. reflexivity.
  - reflexivity.
  - right. vm_compute. discriminate.
  - intros s Es. assert (E : s_user_id <$> request_session sample_ctx sample_put 1001 sample_world = Some "u1")
      by (vm_compute; reflexivity).
    rewrite Es in E. injection E as ->. discriminate.
Defined.
End witnesses.
