(* ===== verification/Retention.v ===== *)
(** * Accepted messages are kept

    What the server owes a device for a message it has accepted: the message waits in
    the device's queue in memory or as a pending delivery row, and only a few events end
    that: the device acknowledges it, its user leaves or is removed from the
    conversation, the retention time is over, or the administrator intervenes. *)

From S2P Require Import Prelude Types Sql Database Samples Hex Paging Config RateLimiter Uuid Users Devices Sessions Password Tokens Auth Conversations Envelopes SyncState Attachments Delivery Relay ConversationService Admin Footprint Json WsRegistry HttpPath HttpDispatch WsSession HttpSafety Server Live.

(** A message for a device. *)
Record mail := mkMail {
  ml_user : UserId;
  ml_device : DeviceId;
  ml_envelope : EnvelopeId;
  ml_conversation : ConversationId }.

(** The tables that hold messages. *)
Definition mail_tables : list table := [TEncryptedEnvelopes; TDeliveryState].

Section mail.
Context `{SqlEngine} `{Disk} `{Argon2} `{BoostJson} (ctx : ServerContext).
Context (m : mail).
Notation u := (ml_user m).
Notation d := (ml_device m).
Notation eid := (ml_envelope m).
Notation conv := (ml_conversation m).

(** In the queue of the device. *)
Definition queued (w : RelayWorld Ws) : Prop :=
  ∃ q, q ∈ DeliveryManager.queue_of u d w ∧ q_envelope_id q = eid ∧ q_conversation_id q = conv.

(** A pending row of the device, for an envelope of the conversation. *)
Definition pending (db : Database) : Prop :=
  (∃ e, e ∈ encrypted_envelopes db ∧ e_envelope_id e = eid) ∧
  (∀ e, e ∈ encrypted_envelopes db -> e_envelope_id e = eid -> e_conversation_id e = conv) ∧
  ∃ r, r ∈ delivery_state db ∧ ds_envelope_id r = eid ∧ is_pending u d r.

Definition held (w : RelayWorld Ws) : Prop := queued w ∨ pending (rw_db w).

(** ** Calls on the store *)

Lemma pending_same db db' :
  (∀ t, t ∈ mail_tables -> same_table t db db') -> pending db -> pending db'.
Proof.
  intros Hs. unfold pending.
  by rewrite (Hs TEncryptedEnvelopes ltac:(in_list) : encrypted_envelopes _ = _),
    (Hs TDeliveryState ltac:(in_list) : delivery_state _ = _).
Qed.

Lemma off_mail {A} ts (c : M Database A) :
  confined ts c -> (∀ t, t ∈ mail_tables -> t ∉ ts) -> preserves pending c.
Proof. intros Hc Hts db. apply pending_same. intros t Ht. apply (confined_run ts); auto. Qed.

Lemma StoreEnvelope_pending e : preserves pending (EnvelopeRepository.StoreEnvelope e).
Proof.
  apply preserves_exec. intros db db' ((x & Hx & Ex) & Hc & Hr) E. unfold insert_encrypted_envelopes in E.
  destruct (sql_exists _ _) eqn:Es; [done|]. destruct (negb _); [done|]. injection E as <-.
  unfold pending. simpl. unfold sql_insert. split; [exists x; split; [apply elem_of_app; by left|done]|]. split; [|done].
  intros y [Hy| ->%list_elem_of_singleton]%elem_of_app Ey; [by apply Hc|]. exfalso.
  apply (proj1 (sql_exists_false _ _) Es x Hx). congruence.
Qed.

Lemma AddDeliveryState_pending e u' d' now : preserves pending (EnvelopeRepository.AddDeliveryState e u' d' now).
Proof.
  apply preserves_exec. intros db db' (He & Hc & r & Hr & Hp) E. unfold insert_delivery_state in E.
  destruct (sql_exists _ _); [done|]. destruct (negb _); [done|]. injection E as <-.
  split; [done|]. split; [done|]. exists r. split; [|done]. simpl. unfold sql_insert. apply elem_of_app. by left.
Qed.

(** Acknowledging another message, or for another device. *)
Lemma MarkAcked_pending e u' d' now :
  (e, u', d') ≠ (eid, u, d) -> preserves pending (EnvelopeRepository.MarkAcked e u' d' now).
Proof.
  intros Hne. unfold EnvelopeRepository.MarkAcked, EnvelopeRepository.update_delivery. preserve_step.
  intros db (He & Hc & r & Hr & Ee & Hp). split; [done|]. split; [done|]. exists r. split; [|done]. simpl.
  unfold sql_update. apply list_elem_of_fmap. exists r. split; [|done]. rewrite decide_False; [done|].
  intros (E1 & E2 & E3). destruct Hp as (E4 & E5 & _). apply Hne. congruence.
Qed.

(** A sweep that does not find the envelope expired. *)
Lemma DeleteExpired_pending now db :
  (∀ e, e ∈ encrypted_envelopes db -> e_envelope_id e = eid -> ¬ env_expired now e) ->
  pending db -> pending (EnvelopeRepository.DeleteExpired now db).2.
Proof.
  intros Hlive (( e & He & Ee) & Hc & r & Hr & Er & Hp).
  unfold EnvelopeRepository.DeleteExpired, transaction, bind, modify, gets, exec.
  match goal with |- context [fk_checked ?x] => destruct (fk_checked x) as [err|db'] eqn:E end;
    [by split; [exists e|split; [|exists r]]|].
  unfold fk_checked in E. destruct (decide _); [|done]. injection E as <-. simpl. split; [|split]; simpl.
  - exists e. split; [|done]. apply elem_of_sql_delete. split; [done|]. by apply Hlive.
  - intros x [Hx _]%elem_of_sql_delete. by apply Hc.
  - exists r. split; [|done]. apply elem_of_sql_delete. split; [done|].
    intros (x & Ex & [Hx Hin]%list_elem_of_filter)%list_elem_of_fmap. apply (Hlive x); [done|congruence|done].
Qed.

(** ** Calls on the store and the queues *)

Lemma queued_same w w' :
  DeliveryManager.queue_of u d w' = DeliveryManager.queue_of u d w -> queued w -> queued w'.
Proof. unfold queued. by intros ->. Qed.

Lemma on_relay_db_held {A} (c : M Database A) : preserves pending c -> preserves held (on_relay_db c).
Proof.
  intros Hc w [Hq|Hp].
  - left. unfold on_relay_db, zoom. by destruct (c (rw_db w)).
  - right. specialize (Hc _ Hp). unfold on_relay_db, zoom. by destruct (c (rw_db w)).
Qed.

Lemma same_but_hook_held w w' : same_but_hook w w' -> held w -> held w'.
Proof.
  intros [E1 E2] [Hq|Hp]; [left|right; by rewrite E1]. revert Hq. apply queued_same.
  unfold DeliveryManager.queue_of, DeliveryManager.queue_at. by rewrite E2.
Qed.

Lemma Enqueue_held hook max u' d' q : preserves held (DeliveryManager.Enqueue hook max u' d' q).
Proof.
  intros w Hw. destruct (DeliveryManager.Enqueue_run hook max u' d' q w) as (w1 & -> & Hdb & _ & Hq).
  simpl. destruct Hw as [(x & Hx & Ex)|Hp]; [left|right; by rewrite Hdb]. exists x. split; [|done].
  unfold DeliveryManager.queue_of in *. rewrite Hq. case_decide; [apply elem_of_app; by left|done].
Qed.

Lemma SendEnvelope_held hook max retention r now draw :
  preserves held (RelayService.SendEnvelope hook max retention r now draw).
Proof.
  unfold RelayService.SendEnvelope, RelayService.check_post, RelayService.fan_out, RelayService.deliver_to.
  footprint; first [apply Enqueue_held | apply on_relay_db_held];
    first [apply StoreEnvelope_pending | apply AddDeliveryState_pending].
Qed.

Lemma AcknowledgeEnvelope_held u' d' e now :
  (e, u', d') ≠ (eid, u, d) -> preserves held (RelayService.AcknowledgeEnvelope u' d' e now).
Proof. intros Hne. by apply on_relay_db_held, MarkAcked_pending. Qed.

(** ** Leaving a conversation *)

(** No user id of a device holds the separator of scoped keys. *)
Definition owners_ok (db : Database) : Prop :=
  ∀ x, x ∈ devices db -> contains_char (Ascii.ascii_of_nat 31) (d_user_id x) = false.

Context (Hu : contains_char (Ascii.ascii_of_nat 31) u = false).

(** The purge for another user, or for another conversation. *)
Lemma PurgeMemberDelivery_held c u' w :
  (c, u') ≠ (conv, u) -> owners_ok (rw_db w) -> held w ->
  held (ConversationService.PurgeMemberDelivery c u' w).2.
Proof.
  intros Hne Hok Hw. destruct (ConversationService.PurgeMemberDelivery_run c u' w) as (w' & -> & [Ht Hrows Hqs]).
  cbn [snd]. destruct Hw as [(q & Hq & Eq & Ec)|(He & Hc & r & Hr & Er & Hp)].
  - left. exists q. split; [|done]. unfold DeliveryManager.queue_of in *. rewrite Hqs. case_decide as Hk; [|done].
    apply list_elem_of_filter. split; [|done]. rewrite Ec. intros Ecc. apply Hne. f_equal; [by subst|].
    apply list_elem_of_fmap in Hk as (x & Ek & Hx). apply elem_of_GetDevicesForUser in Hx as [Hx <-].
    destruct (app_sep_inj (Ascii.ascii_of_nat 31) u (d_user_id x) d (d_device_id x) Hu (Hok x Hx) Ek) as [-> _]. done.
  - right. destruct Ht as [t Et]. rewrite Et. split; [done|]. split; [done|]. exists r. split; [|done].
    rewrite <- Et. apply Hrows. split; [done|]. intros [Eu Hin]. destruct Hp as (Eu' & _).
    unfold EnvelopeRepository.in_conversation in Hin.
    apply list_elem_of_fmap in Hin as (e & Ee & [Ecv Hein]%list_elem_of_filter).
    assert (e_conversation_id e = conv) by (apply Hc; congruence). apply Hne. congruence.
Qed.

Lemma leave_held {A} ts (c1 : M Database A) c u' w :
  confined ts c1 -> (∀ t, t ∈ TDevices :: mail_tables -> t ∉ ts) -> (c, u') ≠ (conv, u) ->
  owners_ok (rw_db w) -> held w ->
  held ((on_relay_db c1 ;;! ConversationService.PurgeMemberDelivery (Hook := Ws) c u') w).2.
Proof.
  intros Hc1 Hts Hne Hok Hw.
  pose proof (on_relay_db_held c1 (off_mail ts c1 Hc1 ltac:(intros t Ht; apply Hts; by right)) w Hw) as Hw1.
  assert (Hd : devices (rw_db (on_relay_db c1 w).2) = devices (rw_db w)).
  { pose proof (confined_run ts c1 (rw_db w) TDevices Hc1 ltac:(apply Hts; left)) as E.
    unfold on_relay_db, zoom. by destruct (c1 (rw_db w)). }
  unfold bind. destruct (on_relay_db c1 w) as [[a|e] w1]; simpl in *; [|done].
  apply PurgeMemberDelivery_held; [done| |done]. unfold owners_ok. by rewrite Hd.
Qed.

Lemma RemoveMember_held c actor u' now w :
  (c, u') ≠ (conv, u) -> owners_ok (rw_db w) -> held w ->
  held (ConversationService.RemoveMember (Hook := Ws) c actor u' now w).2.
Proof.
  intros Hne Hok Hw. unfold ConversationService.RemoveMember, bind at 1, gets.
  destruct (ConversationRepository.FindById c (rw_db w)) as [x|]; [|done]. destruct (c_type x); [done| |done].
  unfold bind at 1. cbv beta iota. destruct (negb _); [done|].
  apply (leave_held [TConversations; TConversationMembers]); [apply RemoveMember_fp|set_solver|done..].
Qed.

Lemma UnsubscribeChannel_held c u' now w :
  (c, u') ≠ (conv, u) -> owners_ok (rw_db w) -> held w ->
  held (ConversationService.UnsubscribeChannel (Hook := Ws) c u' now w).2.
Proof.
  intros Hne Hok Hw. unfold ConversationService.UnsubscribeChannel, bind at 1, gets.
  destruct (ConversationRepository.FindById c (rw_db w)) as [x|]; [|done]. destruct (negb _); [done|].
  unfold bind at 1. cbv beta iota. destruct (match _ with Some _ => _ | None => _ end); [done|].
  apply (leave_held [TConversations; TChannelSubscriptions]); [apply Unsubscribe_fp|set_solver|done..].
Qed.

(** ** Requests *)

Definition kept (w : ServerWorld) : Prop := owners_ok (sw_db w) ∧ held (sw_relay w).
Definition relay_kept (w : RelayWorld Ws) : Prop := owners_ok (rw_db w) ∧ held w.

Lemma owners_ok_same db db' : devices db' = devices db -> owners_ok db -> owners_ok db'.
Proof. unfold owners_ok. by intros ->. Qed.

Lemma off_owners {A} ts (c : M Database A) : confined ts c -> TDevices ∉ ts -> preserves owners_ok c.
Proof. intros Hc Ht db. apply owners_ok_same. exact (confined_run ts c db TDevices Hc Ht). Qed.

Lemma update_devices_owners (P : DeviceRecord -> Prop) `{!∀ x, Decision (P x)} f :
  (∀ x, d_user_id (f x) = d_user_id x) ->
  preserves owners_ok (modify (λ db, set_devices (sql_update P f (devices db)) db)).
Proof.
  intros Hf db Hdb x. simpl. unfold sql_update. intros (y & -> & Hy)%list_elem_of_fmap.
  case_decide; [rewrite Hf|]; by apply Hdb.
Qed.

Lemma hm_on_db {A} (c : M Database A) : preserves owners_ok c -> preserves pending c -> hpreserves kept (on_db c).
Proof.
  intros Ho Hc w [Hok Hw]. unfold on_db, call, get_db. specialize (Ho _ Hok).
  assert (Hp : pending (sw_db w) -> pending (c (sw_db w)).2) by apply Hc. destruct (c (sw_db w)) as [r db]. simpl in *.
  split; [done|]. destruct Hw as [Hq|Hw]; [left|right; by apply Hp]. exact Hq.
Qed.

Lemma hk_off {A} ts (c : M Database A) :
  confined ts c -> (∀ t, t ∈ TDevices :: mail_tables -> t ∉ ts) -> hpreserves kept (on_db c).
Proof.
  intros Hc Ht. apply hm_on_db; [apply (off_owners ts); [done|apply Ht; left]|].
  apply (off_mail ts); [done|]. intros t Hin. apply Ht. by right.
Qed.

Lemma hm_on_relay {A} (c : M (RelayWorld Ws) A) : preserves relay_kept c -> hpreserves kept (on_relay c).
Proof. intros Hc w Hw. unfold on_relay, call. specialize (Hc _ Hw). by destruct (c (sw_relay w)). Qed.

Lemma hm_on_uploads {A} (c : M AttachmentWorld A) : upload_confined c -> hpreserves kept (on_uploads c).
Proof.
  intros Hc w [Hok Hw]. unfold on_uploads, call.
  pose proof (Hc (sw_db w) (get_uploads w) (λ t _, same_table_refl t _)) as Ha.
  destruct (c (get_uploads w)) as [r a]. simpl in *. split.
  - revert Hok. apply owners_ok_same. apply (Ha TDevices). set_solver.
  - destruct Hw as [Hq|Hp]; [by left|right]. revert Hp. apply pending_same. intros t Ht. apply Ha.
    unfold mail_tables in Ht. set_solver.
Qed.

Lemma hm_push f : (∀ w, same_but_hook w (f w)) -> hpreserves kept (push f).
Proof.
  intros Hf w [Hok Hw]. split; simpl.
  - revert Hok. apply owners_ok_same. by rewrite (proj1 (Hf (sw_relay w))).
  - by apply (same_but_hook_held (sw_relay w)).
Qed.

Lemma relay_kept_of {A} ts (c : M (RelayWorld Ws) A) :
  relay_confined ts c -> TDevices ∉ ts -> (∀ w, relay_kept w -> held (c w).2) -> preserves relay_kept c.
Proof.
  intros Hc Ht Hh w Hw. split; [|by apply Hh]. destruct Hw as [Hok _]. revert Hok. apply owners_ok_same.
  exact (Hc (rw_db w) w (λ t _, same_table_refl t _) TDevices Ht).
Qed.

Lemma StorePrekeys_owners u' d' ks now : preserves owners_ok (StorePrekeys u' d' ks now).
Proof.
  apply preserves_transaction. preserve_step; [|by apply update_devices_owners].
  apply preserves_for_each. intros pk _. apply (off_owners [TOneTimePrekeys]); [|set_solver].
  insert_footprint insert_one_time_prekeys.
Qed.

Lemma UpdateSignedPrekey_owners u' d' p sg now : preserves owners_ok (UpdateSignedPrekey u' d' p sg now).
Proof. unfold UpdateSignedPrekey. preserve_step. by apply update_devices_owners. Qed.

Lemma RevokeDevice_owners u' d' now : preserves owners_ok (RevokeDevice u' d' now).
Proof. apply preserves_transaction. preserve_step; [by apply update_devices_owners|by intros db Hdb]. Qed.

Ltac off ts fp := apply (hk_off ts); [apply fp|unfold mail_tables, conv_tables; set_solver].
Ltac devs ts ow fp := apply hm_on_db; [apply ow|apply (off_mail ts); [apply fp|unfold mail_tables; set_solver]].

Section request.
Context (req : HttpRequest) (env : RequestEnv) (sess : SessionRecord).

(** The device acknowledges the message. *)
Definition acknowledges : bool :=
  bool_decide (rq_method req = VPost) && (path req =s? "/v1/messages/ack") &&
  (s_user_id sess =s? u) && (s_device_id sess =s? d) &&
  match ParseJsonBody (rq_body req) with
  | inr (VObject o) => JsonStringOr o "envelope_id" =s? eid
  | _ => false
  end.

(** The user leaves the conversation, or is removed from it. *)
Definition departs : bool :=
  match SplitConvSubPath (path req) with
  | Some (c, tail) =>
      (c =s? conv) &&
      (bool_decide (rq_method req = VPost) && (tail =s? "unsubscribe") && (s_user_id sess =s? u) ||
       bool_decide (rq_method req = VDelete) && bool_decide (strip_prefix "members/" tail = Some u))
  | None => false
  end.

Context (Hack : acknowledges = false) (Hdep : departs = false).

(** A handler past the parsing of its body, and past the check of the device. *)
Lemma hp_parse_body {A} (I : ServerWorld -> Prop) (k : object -> HM A) :
  (∀ o, ParseJsonBody (rq_body req) = inr (VObject o) -> hpreserves I (k o)) -> hpreserves I (hbind (parse_body req) k).
Proof.
  intros Hk w Hw. unfold hbind, parse_body. destruct (ParseJsonBody (rq_body req)) as [pe|v]; [done|].
  destruct v; try done. by apply Hk.
Qed.

Lemma hp_own_device {A} (I : ServerWorld -> Prop) o (k : HM A) :
  (JsonStringOr o "device_id" = s_device_id sess -> hpreserves I k) -> hpreserves I (own_device req sess o ;;* k).
Proof.
  intros Hk w Hw. unfold hbind, own_device, when.
  destruct (String.eqb_spec (JsonStringOr o "device_id") (s_device_id sess)); [by apply Hk|done].
Qed.

Lemma post_messages_ack_kept :
  rq_method req = VPost -> path req = "/v1/messages/ack" -> hpreserves kept (post_messages_ack req env sess).
Proof.
  intros Em Ep. apply hp_parse_body. intros o Eo. apply hp_own_device. intros Ed. hstep. apply hm_on_relay.
  apply (relay_kept_of [TDeliveryState]); [apply @AcknowledgeEnvelope_fp|set_solver|].
  intros w [_ Hw]. apply AcknowledgeEnvelope_held; [|done]. intros [= E1 E2 E3].
  revert Hack. unfold acknowledges. rewrite Em, Ep, Eo, E1, E2, <- Ed, E3, !String.eqb_refl. done.
Qed.

(** A part of a handler behind a condition on the path. *)
Lemma hp_when_path (I : ServerWorld -> Prop) p q (c : HM unit) :
  (p = q -> hpreserves I c) -> hpreserves I (when (p =s? q) c).
Proof. intros Hc. unfold when. destruct (String.eqb_spec p q); [by apply Hc|by intros w]. Qed.

Lemma post_unsubscribe_kept c tail :
  rq_method req = VPost -> SplitConvSubPath (path req) = Some (c, tail) ->
  hpreserves kept (when (tail =s? "unsubscribe") (post_unsubscribe ctx req env sess c)).
Proof.
  intros Em Es. apply hp_when_path. intros ->. unfold post_unsubscribe, membership_changed. hstep;
    [|apply hm_push, NotifyConversationMembershipChanged_same].
  apply hm_on_relay, (relay_kept_of (TDeliveryState :: conv_tables)); [apply @UnsubscribeChannel_fp|unfold conv_tables; set_solver|].
  intros w [Hok Hw]. apply UnsubscribeChannel_held; [|done..]. intros [= Ec Eu]. revert Hdep. unfold departs.
  rewrite Es, Em, Ec, Eu, !String.eqb_refl. done.
Qed.

Lemma delete_member_kept c tail u' :
  rq_method req = VDelete -> SplitConvSubPath (path req) = Some (c, tail) -> strip_prefix "members/" tail = Some u' ->
  hpreserves kept (delete_member ctx req env sess c u').
Proof.
  intros Em Es Et. unfold delete_member, membership_changed. hstep;
    [|apply hm_push, NotifyConversationMembershipChanged_same].
  apply hm_on_relay, (relay_kept_of (TDeliveryState :: conv_tables)); [apply @RemoveMemberService_fp|unfold conv_tables; set_solver|].
  intros w [Hok Hw]. apply RemoveMember_held; [|done..]. intros [= Ec Eu]. revert Hdep. unfold departs.
  rewrite Es, Em, Ec, Et, Eu, String.eqb_refl, (bool_decide_true (Some u = Some u)) by done. done.
Qed.

Lemma handle_post_mail : rq_method req = VPost -> hpreserves kept (handle_post ctx req env sess).
Proof.
  intros Em. unfold handle_post. repeat (apply hp_bind; [|intros _]).
  - unfold post_logout. hstep. off [TSessions] RevokeSession_fp.
  - unfold post_change_password, parse_body. hstep. off [TUsers] ChangePassword_fp.
  - unfold post_messages_send, own_device, parse_body. hstep. apply hm_on_relay.
    apply (relay_kept_of mail_tables); [apply @SendEnvelope_fp|unfold mail_tables; set_solver|].
    intros w [_ Hw]. by apply SendEnvelope_held.
  - apply hp_when_path. intros Ep. by apply post_messages_ack_kept.
  - unfold post_conversations, conversation_created, parse_body.
    hstep; first [apply hm_push, NotifyConversationMembershipChanged_same|off conv_tables CreateDm_fp
                 |off conv_tables CreateGroup_fp|off conv_tables CreateChannel_fp].
  - unfold when_some. destruct (SplitConvSubPath (path req)) as [[c tail]|] eqn:Es; [|by intros w].
    repeat (apply hp_bind; [|intros _]); [| |by apply post_unsubscribe_kept].
    + unfold post_members, membership_changed, parse_body.
      hstep; [off conv_tables AddMemberService_fp|apply hm_push, NotifyConversationMembershipChanged_same].
    + unfold post_subscribe, membership_changed.
      hstep; [off conv_tables SubscribeChannel_fp|apply hm_push, NotifyConversationMembershipChanged_same].
  - unfold post_prekeys, own_scope, parse_body. hstep. devs [TOneTimePrekeys; TDevices] StorePrekeys_owners StorePrekeys_fp.
  - unfold post_upload_init, parse_body. hstep. apply hm_on_uploads, InitUpload_fp.
  - unfold post_finalize, parse_body. hstep. apply hm_on_uploads, FinalizeUpload_fp.
Qed.

Lemma handle_get_mail : hpreserves kept (handle_get req env sess).
Proof.
  unfold handle_get, get_me, get_me_devices, get_key_bundle, get_sync_changes, get_users, get_user_by_username,
    get_users_search, user_suffix, get_prekey_bundles, get_user_devices, get_user, get_conversation, get_members,
    get_group_members, get_channel_members, get_sync_pending, get_envelopes, get_conversations, get_device_bundle,
    get_user_device_bundle, get_attachment, envelopes_answer, enabled_user, limit_param, not_a_member.
  hstep; first [apply hm_on_uploads, GetAttachment_fp | off [TOneTimePrekeys] GetPrekeyBundle_fp].
Qed.

Lemma handle_put_mail : hpreserves kept (handle_put ctx req env sess).
Proof.
  unfold handle_put, put_key_bundle, put_sync_record, put_signed_prekey, put_chunk, push_own, own_device, own_scope,
    parse_body.
  hstep; try apply hm_push, NotifyUserDevicesExcept_same.
  - off [TUsers] @update_user_fp.
  - off [TSyncRecords] UpsertRecord_fp.
  - devs [TDevices] UpdateSignedPrekey_owners UpdateSignedPrekey_fp.
  - apply hm_on_uploads, WriteChunk_fp.
Qed.

Lemma handle_delete_mail : rq_method req = VDelete -> hpreserves kept (handle_delete ctx req env sess).
Proof.
  intros Em. unfold handle_delete. repeat (apply hp_bind; [|intros _]).
  - unfold delete_device, push_own. hstep; [| |apply hm_push, NotifyUserDevicesExcept_same].
    + devs [TDevices; TOneTimePrekeys] RevokeDevice_owners RevokeDevice_fp.
    + off [TSessions] RevokeAllForDevice_fp.
  - unfold delete_sync_record, own_device, push_own, parse_body. hstep; [|apply hm_push, NotifyUserDevicesExcept_same].
    off [TSyncRecords] TombstoneRecord_fp.
  - unfold when_some. destruct (SplitConvSubPath (path req)) as [[c tail]|] eqn:Es; [|by intros w].
    destruct (strip_prefix "members/" tail) as [u'|] eqn:Et; [|by intros w]. by apply (delete_member_kept c tail).
Qed.

Lemma HandleAuthenticated_mail : hpreserves kept (HandleAuthenticated ctx req env sess).
Proof.
  unfold HandleAuthenticated. destruct (rq_method req) eqn:Em;
    [apply handle_get_mail|by apply handle_post_mail|apply handle_put_mail|by apply handle_delete_mail|by intros w].
Qed.
End request.

(** ** Every request *)

Context (Hgroup : 0 <= cf_max_group_size (ctx_config ctx)) (Hchannel : 0 <= cf_max_channel_size (ctx_config ctx)).

Definition safe (w : ServerWorld) : Prop := server_inv ctx w ∧ held (sw_relay w).

Lemma hp_and (I J : ServerWorld -> Prop) {A} (c : HM A) :
  hpreserves I c -> hpreserves J c -> hpreserves (λ w, I w ∧ J w) c.
Proof. intros HI HJ w [Hi Hj]. split; auto. Qed.

Lemma server_owners w : server_inv ctx w -> owners_ok (sw_db w).
Proof.
  intros [[[_ [] _] Hids _] _] x Hx.
  assert (Hin : d_user_id x ∈ u_user_id <$> users (rw_db (sw_relay w))) by (apply fk_devices_user; by apply list_elem_of_fmap_2).
  apply list_elem_of_fmap in Hin as (y & -> & Hy). by apply (proj1 (Forall_forall _ _) Hids y).
Qed.

Lemma TryPublicAuth_held req env : hpreserves (λ w, held (sw_relay w)) (TryPublicAuth ctx req env).
Proof.
  assert (Hoff : ∀ A ts (c : M Database A), confined ts c -> (∀ t, t ∈ mail_tables -> t ∉ ts) ->
    hpreserves (λ w, held (sw_relay w)) (on_db c)).
  { intros A ts c Hc Hts w Hw. unfold on_db, call, get_db. pose proof (off_mail ts c Hc Hts (sw_db w)) as Hp.
    destruct (c (sw_db w)) as [r db]. destruct Hw as [Hq|Hw]; [by left|right; by apply Hp]. }
  unfold TryPublicAuth, post_register, post_login, post_refresh, parse_body. hstep.
  - eapply Hoff; [apply Register_fp|unfold mail_tables; set_solver].
  - eapply Hoff; [apply Login_fp|unfold mail_tables; set_solver].
  - eapply Hoff; [apply Refresh_fp|unfold mail_tables; set_solver].
Qed.

(** The administrator deletes an account. *)
Definition admin_deletes (req : HttpRequest) : bool :=
  negb (cf_admin_token (ctx_config ctx) =s? "") &&
  bool_decide (header "X-Admin-Token" req = Some (cf_admin_token (ctx_config ctx))) &&
  bool_decide (rq_method req = VDelete) && some (strip_prefix "/v1/admin/users/" (path req)).

Lemma TryAdmin_safe req env : admin_deletes req = false -> hpreserves safe (TryAdmin ctx req env).
Proof.
  unfold admin_deletes, TryAdmin. intros Ha. destruct (header "X-Admin-Token" req) as [t|]; [|by intros w].
  destruct (cf_admin_token (ctx_config ctx) =s? "") eqn:Et; [by intros w|].
  destruct (String.eqb_spec t (cf_admin_token (ctx_config ctx))) as [->|]; [|by intros w]. cbn [negb] in *.
  rewrite bool_decide_true in Ha by done. unfold admin_stats. apply hp_bind; [hstep|intros _].
  destruct (bool_decide (rq_method req = VDelete)) in Ha |- *; [|by intros w].
  unfold when_some. destruct (strip_prefix "/v1/admin/users/" (path req)) in Ha |- *; [done|by intros w].
Qed.

(** What a request in a session can do to the message. *)
Definition ends_mail (req : HttpRequest) (session : option SessionRecord) : bool :=
  admin_deletes req ||
  match session with Some sess => acknowledges req sess || departs req sess | None => false end.

Lemma dispatch_safe req env session : ends_mail req session = false -> hpreserves safe (dispatch ctx req env session).
Proof.
  unfold ends_mail. intros [Ha Hs]%orb_false_iff. unfold dispatch, check_size, limit_auth, limit_account, too_many.
  hstep; try (intros w [Hi Hw]; unfold allow_auth, allow_account; destruct (RateLimiter.Allow _ _ _ _); by split).
  - apply hp_try_routes, hp_and; [by apply TryPublicAuth_inv|apply TryPublicAuth_held].
  - by apply hp_try_routes, TryAdmin_safe.
  - apply orb_false_iff in Hs as [Hack Hdep].
    apply hp_try_routes. intros w [Hi Hw]. split; [by apply HandleAuthenticated_inv|].
    apply HandleAuthenticated_mail; [done|done|]. split; [by apply server_owners|done].
Qed.

Lemma DispatchHttp_safe req env session w :
  ends_mail req session = false -> safe w -> safe (DispatchHttp ctx req env session w).2.
Proof.
  intros Hs Hw. pose proof (dispatch_safe req env session Hs w Hw) as Hd. unfold DispatchHttp.
  by destruct (dispatch ctx req env session w) as [[] w'].
Qed.

(** ** Every run *)

Definition discharges (l : LiveServer) (ev : live_event) : bool :=
  match ev with
  | LServe i _ => match lv_tasks l !! i with Some (req, session) => ends_mail req session | None => false end
  | LMaintenance now _ =>
      existsb (λ e, (e_envelope_id e =s? eid) && bool_decide (env_expired now e)) (encrypted_envelopes (lv_db l))
  | _ => false
  end.

Lemma maintenance_held now1 now2 w :
  existsb (λ e, (e_envelope_id e =s? eid) && bool_decide (env_expired now1 e)) (encrypted_envelopes (sw_db w)) = false ->
  held (sw_relay w) -> held (sw_relay (maintenance now1 now2 w).2).
Proof.
  intros Hx Hw.
  assert (Hlive : ∀ e, e ∈ encrypted_envelopes (sw_db w) -> e_envelope_id e = eid -> ¬ env_expired now1 e).
  { intros e He Ee Hexp. rewrite <- not_true_iff_false in Hx. apply Hx, existsb_exists. exists e.
    split; [by apply list_elem_of_In|]. rewrite Ee, String.eqb_refl. by apply bool_decide_eq_true. }
  pose proof (DeleteExpired_pending now1 (sw_db w) Hlive) as Hp.
  assert (Hd : held (sw_relay (on_db (EnvelopeRepository.DeleteExpired now1) w).2)).
  { unfold on_db, call, get_db. destruct (EnvelopeRepository.DeleteExpired now1 (sw_db w)) as [r db].
    destruct Hw as [Hq|Hw]; [by left|right; by apply Hp]. }
  unfold maintenance, hbind. destruct (on_db (EnvelopeRepository.DeleteExpired now1) w) as [[x|x|] w1]; [|done..].
  assert (Hu2 : held (sw_relay (on_uploads (AttachmentService.DeleteExpired now2) w1).2)).
  { unfold on_uploads, call.
    pose proof (DeleteExpired_fp now2 (sw_db w1) (get_uploads w1) (λ t _, same_table_refl t _)) as Ha.
    destruct (AttachmentService.DeleteExpired now2 (get_uploads w1)) as [r a]. simpl in *.
    destruct Hd as [Hq|Hd]; [by left|right]. revert Hd. apply pending_same. intros t Ht. apply Ha.
    unfold mail_tables in Ht. set_solver. }
  by destruct (on_uploads (AttachmentService.DeleteExpired now2) w1) as [[y|y|] w2].
Qed.

Context (is_upgrade : HttpRequest -> bool).

Lemma live_do_safe l ev l' :
  live_do ctx is_upgrade l ev = Some l' -> discharges l ev = false -> safe (lv_world l) -> safe (lv_world l').
Proof.
  destruct ev as [req clock|i env|now1 now2|id req clock|id e clock]; cbn [live_do discharges].
  - destruct (WsSession.OnRead _ _ _ _ _ _); [done..|]. by intros [= <-].
  - destruct (lv_tasks l !! i) as [[req sess]|]; cbn [mbind option_bind]; [|done]. intros [= <-]. apply DispatchHttp_safe.
  - intros [= <-] Hd [Hi Hw]. split; [by apply maintenance_inv|by apply maintenance_held].
  - destruct (WsSession.OnRead _ _ _ _ _ _); [done..| |done]. case_decide; [|done]. by intros [= <-].
  - destruct (lv_sessions l !! id) as [x|]; cbn [mbind option_bind]; [|done].
    destruct (WsSession.handle _ _ _ _ _ _) as [[r' x']|]; cbn [mbind option_bind]; [|done].
    intros [= <-] _ [[Hdb Hq] Hw]. split; [by split|]. by apply (same_but_hook_held (sw_relay (lv_world l))).
Qed.

(** The first step after which the message is no longer owed. *)
Lemma live_run_held evs : ∀ l l', live_run ctx is_upgrade evs l = Some l' -> safe (lv_world l) ->
  held (sw_relay (lv_world l')) ∨
  ∃ evs1 ev evs2 l1, evs = evs1 ++ ev :: evs2 ∧ live_run ctx is_upgrade evs1 l = Some l1 ∧ discharges l1 ev = true.
Proof.
  induction evs as [|ev evs IH]; intros l l' Hr Hl; cbn [live_run] in Hr; [injection Hr as <-; left; apply Hl|].
  destruct (live_do ctx is_upgrade l ev) as [l1|] eqn:E; cbn [mbind option_bind] in Hr; [|done].
  destruct (discharges l ev) eqn:Ed; [right; by exists [], ev, evs, l|].
  destruct (IH l1 l' Hr (live_do_safe l ev l1 E Ed Hl)) as [Hh|(evs1 & ev1 & evs2 & l2 & -> & Hr1 & Hd)]; [by left|].
  right. exists (ev :: evs1), ev1, evs2, l2. split; [done|]. split; [|done]. cbn [live_run]. by rewrite E.
Qed.
End mail.

(** ** From the accepted request on *)

Section accepted.
Context `{SqlEngine} `{Disk} `{Argon2} `{BoostJson} (ctx : ServerContext) (is_upgrade : HttpRequest -> bool).
Context (req : HttpRequest) (env : RequestEnv) (sess : SessionRecord).

(** The message a body stands for, as the handler reads it. *)
Definition send_request (o : object) : SendMessageRequest :=
  mkSendMessageRequest (s_user_id sess) (JsonStringOr o "device_id") (JsonStringOr o "conversation_id")
    (JsonStringOr o "ciphertext") (JsonStringOr o "envelope_id")
    (default 0 (to_int32 <$> JsonInt o "envelope_type")) (JsonInt o "ordering_epoch").

Definition send_call (o : object) : M (RelayWorld Ws) SendMessageResponse :=
  RelayService.SendEnvelope (Some enqueue_hook) (cf_max_queue_depth_per_device (ctx_config ctx))
    (cf_message_retention_seconds (ctx_config ctx)) (send_request o) (en_clock env 0) (en_draw env).

(** The answer to an accepted message. *)
Definition send_answer (resp : SendMessageResponse) : HttpResponse :=
  JsonRes (rq_version req) kHttpOk (VObject
    [("envelope_id", VString (sr_envelope_id resp)); ("server_timestamp", VInt64 (sr_server_timestamp resp));
     ("delivered_to_count", VInt64 (to_int64 (Z.of_nat (sr_delivered_to_count resp))))]).

Lemma error_status c : HttpStatusForError c ≠ 200.
Proof. by destruct c. Qed.

Lemma post_messages_send_ok w r w' :
  post_messages_send ctx req env sess w = (Return (Some r), w') -> rs_status r = 200 ->
  ∃ o resp rw, ParseJsonBody (rq_body req) = inr (VObject o) ∧ send_call o (sw_relay w) = (Ok resp, rw) ∧
    w' = set_sw_relay rw w ∧ r = send_answer resp.
Proof.
  unfold post_messages_send, hbind, parse_body. intros E Hr.
  destruct (ParseJsonBody (rq_body req)) as [pe|v] eqn:Eb.
  { injection E as <- <-. by destruct (error_status (code pe)). }
  destruct v as [| | | | | | |o]; try (injection E as <- <-; done). cbn [next] in E.
  unfold own_device, when in E. destruct (negb _); [injection E as <- <-; done|]. unfold next at 1 in E.
  unfold ok_or_error, hbind, on_relay, call in E. fold (send_request o) in E. fold (send_call o) in E.
  destruct (send_call o (sw_relay w)) as [[resp|e] rw] eqn:Es.
  - injection E as <- <-. by exists o, resp, rw.
  - injection E as <- <-. by destruct (error_status (code e)).
Qed.

Lemma post_messages_send_responds w : ∃ r w', post_messages_send ctx req env sess w = (Return (Some r), w').
Proof.
  unfold post_messages_send, hbind, parse_body. destruct (ParseJsonBody (rq_body req)) as [pe|v]; [eauto|].
  destruct v as [| | | | | | |o]; eauto. cbn [next]. unfold own_device, when. destruct (negb _); [eauto|].
  unfold next at 1. unfold ok_or_error, hbind, on_relay, call.
  destruct (RelayService.SendEnvelope _ _ _ _ _ _ _) as [[resp|e] rw]; eexists _, _; reflexivity.
Qed.

(** The dispatch of a message that is answered with success is the handler's. *)
Lemma dispatch_send w r w' :
  rq_method req = VPost -> path req = "/v1/messages/send" ->
  DispatchHttp ctx req env (Some sess) w = (Some r, w') -> rs_status r = 200 ->
  ∃ w0, sw_relay w0 = sw_relay w ∧ post_messages_send ctx req env sess w0 = (Return (Some r), w').
Proof.
  intros Em Ep E Hr. unfold DispatchHttp, dispatch, hbind in E.
  assert (Ha : auth_route req = false) by (unfold auth_route; by rewrite Em, Ep).
  destruct (check_size ctx req w) as [[x|x|] w1] eqn:E1.
  2: { unfold check_size, when in E1. destruct (Z.ltb _ _); [|done]. injection E1 as <- <-. by injection E as <- <-. }
  2: { unfold check_size, when in E1. by destruct (Z.ltb _ _). }
  assert (w1 = w) as -> by (unfold check_size, when in E1; destruct (Z.ltb _ _); by injection E1).
  rewrite limit_auth_silent in E by done. unfold when at 1 in E. rewrite bool_decide_false in E by (by rewrite Em).
  unfold next at 1 in E. cbn [andb] in E. rewrite try_public_silent in E by done.
  assert (Hadm : try_routes (TryAdmin ctx req env) w = (Next tt, w)).
  { unfold try_routes, TryAdmin. destruct (header _ _); [|done]. destruct (_ =s? _); [done|]. destruct (negb _); [done|].
    rewrite Em. done. }
  rewrite Hadm in E.
  assert (Hlim : sw_relay (limit_account ctx req env sess w).2 = sw_relay w ∧
    (∀ y w2, limit_account ctx req env sess w = (Return (Some y), w2) -> rs_status y ≠ 200)).
  { unfold limit_account, when_some, when, hbind, allow_account, too_many, fail_with.
    destruct (ctx_account_rate_limiter ctx); [|done]. destruct (heavy_route req); [|done].
    destruct (RateLimiter.Allow _ _ _ _) as [[] ?]; [done|]. split; [done|]. by intros y w2 [= <- <-]. }
  destruct Hlim as [Hw0 Hlim]. destruct (limit_account ctx req env sess w) as [[?|[?|]|] w0]; [|..].
  2: { injection E as -> <-. by destruct (Hlim _ _ eq_refl). }
  2: { done. } 2: { done. }
  exists w0. split; [done|]. unfold HandleAuthenticated in E. rewrite Em in E.
  unfold try_routes, handle_post in E. unfold hbind at 1, when at 1 in E. rewrite Ep in E. cbn [String.eqb Ascii.eqb Bool.eqb] in E.
  unfold next at 1 in E. unfold hbind at 1, when at 1 in E. cbn [String.eqb Ascii.eqb Bool.eqb] in E.
  unfold next at 1 in E. unfold hbind at 1, when at 1 in E. cbn [String.eqb Ascii.eqb Bool.eqb] in E.
  destruct (post_messages_send_responds w0) as (y & w2 & Ey). rewrite Ey in E |- *. cbn in E. congruence.
Qed.


(** What an accepted message leaves for a recipient. *)
Lemma accepted_held o w resp w' u d :
  db_wf (rw_db w) -> RelayService.user_ids_ok (rw_db w) -> db_wf (rw_db w') ->
  send_call o w = (Ok resp, w') -> RelayService.recipient (send_request o) (rw_db w) (u, d) ->
  held (mkMail u d (sr_envelope_id resp) (sm_conversation_id (send_request o))) w'.
Proof.
  intros Hwf Hids Hwf' Hs Hrec. unfold send_call in Hs.
  destruct (RelayService.SendEnvelope_effect _ _ _ _ _ _ _ _ _ Hwf Hids Hs) as (-> & _ & Henv & Hfan & _).
  set (eid := RelayService.request_envelope_id (send_request o) (en_draw env)) in *.
  destruct (Hfan (u, d) (RelayService.recipient_device _ _ _ Hrec)) as [(_ & _ & Hq & _)|[(_ & _ & _ & Hrow)|[Hno _]]];
    [left|right|done].
  - exists (RelayService.make_queued (send_request o) eid (en_clock env 0)). simpl in *. split; [|done].
    rewrite Hq. apply elem_of_app. right. by apply list_elem_of_singleton.
  - set (x := RelayService.make_envelope (cf_message_retention_seconds (ctx_config ctx)) (send_request o) eid (en_clock env 0)) in *.
    assert (Hx : x ∈ encrypted_envelopes (rw_db w')) by (rewrite Henv; apply elem_of_app; right; by apply list_elem_of_singleton).
    split; [by exists x|]. split.
    + intros e He Ee. destruct Hwf' as [[] _ _].
      assert (e = x) as -> by (apply (NoDup_fmap_inj_on e_envelope_id (encrypted_envelopes (rw_db w'))); done). done.
    + eexists. split; [exact Hrow|]. done.
Qed.

(** C3: An accepted message is not lost.  When the server answers the sending of a
    message with success, every recipient device (every live device of a participant of
    the conversation but the sender's) has it in its queue or as a pending delivery row,
    and it stays there in every continuation of the run, whatever requests,
    connections and sweeps follow, up to the first of four events: that device
    acknowledges it, its user leaves or is removed from the conversation, a sweep finds
    it past its retention time, or the administrator deletes an account. *)
Theorem accepted_message_retained l i r l1 :
  config_typed (ctx_config ctx) -> rtc (live_step ctx is_upgrade) initial l ->
  lv_tasks l !! i = Some (req, Some sess) -> rq_method req = VPost -> path req = "/v1/messages/send" ->
  (DispatchHttp ctx req env (Some sess) (lv_world l)).1 = Some r -> rs_status r = 200 ->
  live_do ctx is_upgrade l (LServe i env) = Some l1 ->
  ∃ o resp, ParseJsonBody (rq_body req) = inr (VObject o) ∧ r = send_answer resp ∧
    ∀ u d, RelayService.recipient (send_request o) (lv_db l) (u, d) ->
    let m := mkMail u d (sr_envelope_id resp) (sm_conversation_id (send_request o)) in
    held m (sw_relay (lv_world l1)) ∧
    ∀ evs l2, live_run ctx is_upgrade evs l1 = Some l2 ->
      held m (sw_relay (lv_world l2)) ∨
      ∃ evs1 ev evs2 l3, evs = evs1 ++ ev :: evs2 ∧ live_run ctx is_upgrade evs1 l1 = Some l3 ∧
        discharges ctx m l3 ev = true.
Proof.
  intros Hc Hr Hi Em Ep Er Hst E. pose proof (reachable_inv ctx is_upgrade l Hc Hr) as Hinv.
  destruct (sizes_nonneg ctx Hc) as (Hg & Hch & _).
  pose proof (DispatchHttp_inv ctx Hg Hch req env (Some sess) _ Hinv) as Hinv'.
  cbn [live_do] in E. rewrite Hi in E. cbn [mbind option_bind] in E. injection E as <-. cbn [lv_world].
  destruct (DispatchHttp ctx req env (Some sess) (lv_world l)) as [r0 w'] eqn:Ed. cbn [fst snd] in *. subst r0.
  destruct (dispatch_send _ _ _ Em Ep Ed Hst) as (w0 & Ew0 & Hp).
  destruct (post_messages_send_ok _ _ _ Hp Hst) as (o & resp & rw & Hb & Hs & -> & ->). rewrite Ew0 in Hs.
  exists o, resp. split; [done|]. split; [done|]. intros u d Hrec.
  set (m := mkMail u d (sr_envelope_id resp) (sm_conversation_id (send_request o))). pose proof Hinv as [[Hwf Hids _] _].
  assert (Hh : held m rw) by (apply (accepted_held o (sw_relay (lv_world l))); [done|done|apply Hinv'|done|done]).
  split; [done|]. intros evs l2 Hrun. apply (live_run_held ctx m) with (evs := evs) in Hrun; try done.
  destruct Hrec as (_ & (x & Hx & Ex & _) & _). injection Ex as <- _. by apply (server_owners ctx (lv_world l)).
Qed.
End accepted.

Section witnesses.
#[local] Existing Instance rowid_engine.
#[local] Existing Instance AttachmentService.reliable_disk.
#[local] Existing Instance toy_argon2.

Definition carol : UserId := Eval vm_compute in GenerateUuid (1, 2).
Definition notes : ConversationId := Eval vm_compute in GenerateUuid (en_draw (sample_env 3)).

(** A stand-in for the JSON library: a body is the device id of an otherwise fixed
    document, from which every handler takes the members it knows. *)
Definition notes_json : BoostJson := {|
  json_parse := λ body, if body =s? "" then inl "incomplete JSON" else inr (VObject
    [("username", VString "carol"); ("password_derived_value", VString "pw"); ("device_id", VString body);
     ("identity_key_public", VString "ik"); ("signed_prekey_public", VString "spk");
     ("signed_prekey_signature", VString "sig"); ("wrapped_sync_key", VString "wk");
     ("sync_wrap_salt", VString "ws"); ("sync_wrap_params", VString "wp");
     ("type", VString "dm"); ("peer_user_id", VString carol); ("conversation_id", VString notes);
     ("ciphertext", VString "hello"); ("envelope_id", VString "e1")]);
  json_serialize := λ _, "json"
|}.
#[local] Existing Instance notes_json.

(** Carol registers with one device, logs in with another, opens a conversation with
    herself and sends a message to it, which is read and waits to be served. *)
Definition sample_sending : list live_event :=
  [LSubmit (sample_request VPost "/v1/register" [] "d1") 1000; LServe 0 (sample_env 1);
   LSubmit (sample_request VPost "/v1/login" [] "d2") 1000; LServe 0 (sample_env 2);
   LSubmit (sample_request VPost "/v1/conversations" [bearer 1] "d1") 1001; LServe 0 (sample_env 3);
   LSubmit (sample_request VPost "/v1/messages/send" [bearer 1] "d1") 1002].

Definition sample_state : LiveServer :=
  Eval vm_compute in default initial (live_run sample_ctx has_upgrade sample_sending initial).
Lemma sample_state_run : live_run sample_ctx has_upgrade sample_sending initial = Some sample_state.
Proof. vm_compute. reflexivity. Qed.

Definition sample_message : HttpRequest := sample_request VPost "/v1/messages/send" [bearer 1] "d1".
Definition sample_sender : option SessionRecord :=
  Eval vm_compute in match lv_tasks sample_state with [(_, x)] => x | _ => None end.
Definition sample_served : LiveServer :=
  Eval vm_compute in default initial (live_do sample_ctx has_upgrade sample_state (LServe 0 (sample_env 4))).

Lemma accepted_message_retained_witness :
  ∃ eid, held (mkMail carol "d2" eid notes) (sw_relay (lv_world sample_served)).
Proof.
  assert (Hs : ∃ sess, sample_sender = Some sess) by (eexists; reflexivity). destruct Hs as [sess Hs].
  assert (Hi : lv_tasks sample_state !! 0%nat = Some (sample_message, Some sess)) by (rewrite <- Hs; vm_compute; reflexivity).
  destruct (accepted_message_retained sample_ctx has_upgrade sample_message (sample_env 4) sess sample_state 0
    (mkHttpResponse 200 11 (Some "application/json") (BodyText "json")) sample_served) as (o & resp & Ho & _ & Hm).
  - unfold config_typed, in_uint64, in_uint32, in_uint16, in_int64. cbn. lia.
  - exact (live_run_reachable _ _ _ _ _ sample_state_run).
  - exact Hi.
  - reflexivity.
  - reflexivity.
  - rewrite <- Hs. vm_compute. reflexivity.
  - reflexivity.
  - vm_compute. reflexivity.
  - exists (sr_envelope_id resp). injection Ho as <-. apply (Hm carol "d2"). split; [|split].
    + apply ConversationRepository.IsUserInConversation_true; [apply db_wf_eval|]; vm_compute; reflexivity.
    + eexists. split; [apply (list_elem_of_lookup_2 _ 1); reflexivity|]. split; reflexivity.
    + intros E. apply (f_equal snd) in E. vm_compute in E. discriminate.
Defined.
End witnesses.
