(* ===== verification/Cursors.v ===== *)
(** * What cursors are made of

    A cursor is a timestamp and an envelope id, or a row id, in text form.  Readers
    get back what was written only if these columns hold 64-bit timestamps, ids that are
    not empty and positive 64-bit row ids.  They do in every state the process reaches
    with a clock that fits its type, so that the theorems on page-by-page reading
    ([Envelopes], [SyncState]) apply to the running server. *)

From S2P Require Import Prelude Types Sql Database Samples Hex Paging Config RateLimiter Uuid Users Devices Sessions Password Tokens Auth Conversations Envelopes SyncState Attachments Delivery Relay ConversationService Admin Footprint Json WsRegistry HttpPath HttpDispatch WsSession HttpSafety Server Live Retention.

Definition cursor_tables : list table := [TEncryptedEnvelopes; TSyncRecords].

(** The columns, and the counter [AUTOINCREMENT] takes row ids from. *)
Record cursor_typed (db : Database) : Prop := mk_cursor_typed {
  ct_envelopes : EnvelopeRepository.env_typed db;
  ct_sync : SyncStateRepository.sync_typed db;
  ct_seq : 0 <= sync_seq db <= max_rowid }.

(** Calls with their footprints, for [eauto]. *)
#[local] Hint Resolve Register_fp Login_fp Refresh_fp ChangePassword_fp StorePrekeys_fp GetPrekeyBundle_fp
  UpdateSignedPrekey_fp RevokeDevice_fp RevokeAllForDevice_fp CreateDm_fp CreateGroup_fp CreateChannel_fp
  AddMemberService_fp SubscribeChannel_fp RemoveMemberService_fp UnsubscribeChannel_fp AcknowledgeEnvelope_fp
  InitUpload_fp WriteChunk_fp FinalizeUpload_fp GetAttachment_fp DeleteExpired_fp : footprints.

Lemma Logout_fp `{SqlEngine} sid now : confined [TSessions] (Logout sid now).
Proof. apply RevokeSession_fp. Qed.
Lemma SetSyncKeyBundle_fp `{SqlEngine} u bundle : confined [TUsers] (SetSyncKeyBundle u bundle).
Proof. apply update_user_fp. Qed.
#[local] Hint Resolve Logout_fp SetSyncKeyBundle_fp : footprints.

Section typing.
Context `{SqlEngine} `{Disk} `{Argon2} `{BoostJson} (ctx : ServerContext).

Lemma cursor_typed_same db db' :
  (∀ t, t ∈ cursor_tables -> same_table t db db') -> cursor_typed db -> cursor_typed db'.
Proof.
  intros Hs [He Hy Hq]. destruct (Hs TSyncRecords ltac:(in_list)) as [E1 E2]. split.
  - unfold EnvelopeRepository.env_typed. by rewrite (Hs TEncryptedEnvelopes ltac:(in_list) : encrypted_envelopes _ = _).
  - unfold SyncStateRepository.sync_typed. by rewrite E1.
  - by rewrite E2.
Qed.

(** A statement on another table. *)
Ltac elsewhere :=
  let t := fresh "t" in let Ht := fresh "Ht" in
  apply cursor_typed_same; intros t Ht; unfold cursor_tables in Ht;
  repeat (apply elem_of_cons in Ht as [->|Ht]; [done|]); by apply not_elem_of_nil in Ht.

Lemma off_cursors {A} ts (c : M Database A) :
  confined ts c -> (∀ t, t ∈ cursor_tables -> t ∉ ts) -> preserves cursor_typed c.
Proof. intros Hc Hts db. apply cursor_typed_same. intros t Ht. apply (confined_run ts); auto. Qed.

(** ** The calls that write these columns *)

Lemma GenerateUuid_nonempty draw : GenerateUuid draw ≠ "".
Proof. destruct draw as [h l]. pose proof (GenerateUuid_v4 h l) as Hm. by intros E; rewrite E in Hm. Qed.

Lemma StoreEnvelope_typed e :
  in_int64 (e_server_timestamp e) -> e_envelope_id e ≠ "" -> preserves cursor_typed (EnvelopeRepository.StoreEnvelope e).
Proof.
  intros Ht Hid. apply preserves_exec. intros db db' [He Hy Hq] E. unfold insert_encrypted_envelopes in E.
  destruct (sql_exists _ _); [done|]. destruct (negb _); [done|]. injection E as <-. split; [|done..].
  unfold EnvelopeRepository.env_typed in *. simpl. unfold sql_insert. apply Forall_app_2; [done|]. by apply Forall_singleton.
Qed.

Lemma SendEnvelope_typed hook max retention r now draw :
  in_int64 now -> preserves (λ w : RelayWorld Ws, cursor_typed (rw_db w)) (RelayService.SendEnvelope hook max retention r now draw).
Proof.
  intros Ht. unfold RelayService.SendEnvelope, RelayService.check_post, RelayService.fan_out, RelayService.deliver_to.
  footprint; first [apply preserves_zoom; [done|] | idtac].
  - apply StoreEnvelope_typed; [done|]. simpl. unfold RelayService.request_envelope_id.
    destruct (String.eqb_spec (sm_envelope_id r) ""); [apply GenerateUuid_nonempty|done].
  - intros w. apply cursor_typed_same. intros t _.
    apply (Enqueue_fp hook max [] _ _ _ (rw_db w) w); [intros t' _; apply same_table_refl|apply not_elem_of_nil].
  - apply (off_cursors [TDeliveryState]); [apply AddDeliveryState_fp|unfold cursor_tables; set_solver].
Qed.

Lemma update_sync_typed (P : SyncRow -> Prop) `{!∀ y, Decision (P y)} f :
  (∀ y, y_id (f y) = y_id y) -> preserves cursor_typed (modify (λ db, set_sync_records (sql_update P f (sync_records db)) db)).
Proof.
  intros Hf db [He Hy Hq]. split; [done| |done]. unfold SyncStateRepository.sync_typed in *. simpl. unfold sql_update.
  apply Forall_fmap. eapply Forall_impl; [exact Hy|]. intros y Hy'. simpl. case_decide; [by rewrite Hf|done].
Qed.

Lemma UpsertRecord_typed u c r ct h b now : preserves cursor_typed (SyncStateRepository.UpsertRecord u c r ct h b now).
Proof.
  apply preserves_transaction. preserve_step; [by apply update_sync_typed|].
  apply preserves_exec. intros db db' [He Hy Hq] E. unfold insert_sync_records in E. cbv zeta in E.
  destruct (Z.leb_spec max_rowid (sync_seq db)); [done|]. destruct (sql_exists _ _); [done|].
  destruct (negb _); [done|]. injection E as <-. unfold max_rowid in *. split; simpl; [done| |]. 2: { unfold max_rowid. lia. }
  unfold SyncStateRepository.sync_typed in *. simpl. unfold sql_insert. apply Forall_app_2; [done|].
  apply Forall_singleton. simpl. lia.
Qed.

Lemma TombstoneRecord_typed u c r b now : preserves cursor_typed (SyncStateRepository.TombstoneRecord u c r b now).
Proof. apply preserves_transaction. preserve_step. by apply update_sync_typed. Qed.

(** Deleting rows. *)
Lemma delete_envelopes_typed (P : EnvelopeRecord -> Prop) `{!∀ e, Decision (P e)} handler :
  preserves cursor_typed (exec handler (λ db, fk_checked (set_encrypted_envelopes (sql_delete P (encrypted_envelopes db)) db))).
Proof.
  apply preserves_exec. intros db db' [He Hy Hq] E. unfold fk_checked in E. destruct (decide _); [|done].
  injection E as <-. split; [|done..]. unfold EnvelopeRepository.env_typed in *. simpl. rewrite Forall_forall in *.
  intros e [He' _]%elem_of_sql_delete. by apply He.
Qed.

Lemma DeleteExpired_typed now : preserves cursor_typed (EnvelopeRepository.DeleteExpired now).
Proof.
  apply preserves_transaction. preserve_step; [|apply delete_envelopes_typed].
  intros db. elsewhere.
Qed.

Lemma DeleteUser_typed u : preserves cursor_typed (AdminService.DeleteUser u).
Proof.
  unfold AdminService.DeleteUser. preserve_step. apply preserves_transaction. unfold AdminService.delete_account. preserve_step;
    try apply delete_envelopes_typed; try (intros db; elsewhere);
    (apply preserves_exec; intros db db' Hdb E; unfold fk_checked in E; destruct (decide _); [|done]; injection E as <-;
     revert Hdb; elsewhere).
Qed.

(** ** Requests *)

Definition world_typed (w : ServerWorld) : Prop := cursor_typed (sw_db w).

Lemma ht_on_db {A} (c : M Database A) : preserves cursor_typed c -> hpreserves world_typed (on_db c).
Proof. intros Hc w Hw. unfold on_db, call, get_db. specialize (Hc _ Hw). by destruct (c (sw_db w)). Qed.

Lemma ht_off {A} ts (c : M Database A) :
  confined ts c -> (∀ t, t ∈ cursor_tables -> t ∉ ts) -> hpreserves world_typed (on_db c).
Proof. intros Hc Hts. by apply ht_on_db, (off_cursors ts). Qed.

Lemma ht_on_relay {A} (c : M (RelayWorld Ws) A) :
  preserves (λ w, cursor_typed (rw_db w)) c -> hpreserves world_typed (on_relay c).
Proof. intros Hc w Hw. unfold on_relay, call. specialize (Hc _ Hw). by destruct (c (sw_relay w)). Qed.

Lemma ht_relay_off {A} ts (c : M (RelayWorld Ws) A) :
  relay_confined ts c -> (∀ t, t ∈ cursor_tables -> t ∉ ts) -> hpreserves world_typed (on_relay c).
Proof.
  intros Hc Hts. apply ht_on_relay. intros w. apply cursor_typed_same. intros t Ht.
  apply (Hc (rw_db w) w); [intros t' _; apply same_table_refl|by apply Hts].
Qed.

Lemma ht_on_uploads {A} (c : M AttachmentWorld A) : upload_confined c -> hpreserves world_typed (on_uploads c).
Proof.
  intros Hc w Hw. unfold on_uploads, call.
  pose proof (Hc (sw_db w) (get_uploads w) (λ t _, same_table_refl t _)) as Ha.
  destruct (c (get_uploads w)) as [r a]. revert Hw. apply cursor_typed_same. intros t Ht. apply Ha.
  unfold cursor_tables in Ht. set_solver.
Qed.

Lemma ht_push f : (∀ w, same_but_hook w (f w)) -> hpreserves world_typed (push f).
Proof. intros Hf w Hw. unfold world_typed, push, update. simpl. by rewrite (proj1 (Hf (sw_relay w))). Qed.

(** A call that does not write the columns. *)
Ltac aside :=
  first [apply ht_push; first [apply NotifyConversationMembershipChanged_same|apply NotifyUserDevicesExcept_same]
        | apply ht_on_uploads; solve [eauto with footprints]
        | eapply ht_off; [solve [eauto with footprints]|unfold cursor_tables, conv_tables; set_solver]
        | eapply ht_relay_off; [solve [eauto with footprints]|unfold cursor_tables, conv_tables; set_solver]].

Section request.
Context (req : HttpRequest) (env : RequestEnv) (Hclock : ∀ n, in_int64 (en_clock env n)).

Lemma TryPublicAuth_typed : hpreserves world_typed (TryPublicAuth ctx req env).
Proof. unfold TryPublicAuth, post_register, post_login, post_refresh, parse_body. hstep; aside. Qed.

Lemma TryAdmin_typed : hpreserves world_typed (TryAdmin ctx req env).
Proof. unfold TryAdmin, admin_stats, admin_delete_user. hstep. apply ht_on_db, DeleteUser_typed. Qed.

Lemma HandleAuthenticated_typed sess : hpreserves world_typed (HandleAuthenticated ctx req env sess).
Proof.
  unfold HandleAuthenticated. destruct (rq_method req); [| | | |by intros w].
  - unfold handle_get, get_me, get_me_devices, get_key_bundle, get_sync_changes, get_users, get_user_by_username,
      get_users_search, user_suffix, get_prekey_bundles, get_user_devices, get_user, get_conversation, get_members,
      get_group_members, get_channel_members, get_sync_pending, get_envelopes, get_conversations, get_device_bundle,
      get_user_device_bundle, get_attachment, envelopes_answer, enabled_user, limit_param, not_a_member.
    hstep; aside.
  - unfold handle_post, post_logout, post_change_password, post_messages_send, post_messages_ack, post_conversations,
      post_members, post_subscribe, post_unsubscribe, post_prekeys, post_upload_init, post_finalize,
      membership_changed, conversation_created, own_device, own_scope, parse_body.
    hstep; first [aside|by apply ht_on_relay, SendEnvelope_typed].
  - unfold handle_put, put_key_bundle, put_sync_record, put_signed_prekey, put_chunk, push_own, own_device, own_scope,
      parse_body.
    hstep; first [aside|apply ht_on_db, UpsertRecord_typed].
  - unfold handle_delete, delete_device, delete_sync_record, delete_member, membership_changed, push_own, own_device,
      parse_body.
    hstep; first [aside|apply ht_on_db, TombstoneRecord_typed].
Qed.

Lemma DispatchHttp_typed session w : world_typed w -> world_typed (DispatchHttp ctx req env session w).2.
Proof.
  assert (Hd : hpreserves world_typed (dispatch ctx req env session)).
  { unfold dispatch, check_size, limit_auth, limit_account, too_many.
    hstep; try (intros w' Hw; unfold allow_auth, allow_account; by destruct (RateLimiter.Allow _ _ _ _));
      apply hp_try_routes; [apply TryPublicAuth_typed|apply TryAdmin_typed|apply HandleAuthenticated_typed]. }
  intros Hw. specialize (Hd w Hw). unfold DispatchHttp. by destruct (dispatch ctx req env session w) as [[] w'].
Qed.
End request.

(** ** Runs *)

(** The clock a request reads fits its type. *)
Definition event_typed (ev : live_event) : Prop :=
  match ev with LServe _ env => ∀ n, in_int64 (en_clock env n) | _ => True end.

Context (is_upgrade : HttpRequest -> bool).

Lemma live_do_typed l ev l' :
  event_typed ev -> live_do ctx is_upgrade l ev = Some l' -> world_typed (lv_world l) -> world_typed (lv_world l').
Proof.
  destruct ev as [req clock|i env|now1 now2|id req clock|id e clock]; cbn [live_do event_typed]; intros He.
  - destruct (WsSession.OnRead _ _ _ _ _ _); [done..|]. by intros [= <-].
  - destruct (lv_tasks l !! i) as [[req sess]|]; cbn [mbind option_bind]; [|done]. intros [= <-].
    by apply DispatchHttp_typed.
  - intros [= <-]. cbn [lv_world]. revert l. 
    assert (Hm : hpreserves world_typed (maintenance now1 now2)); [|intros l; apply Hm].
    unfold maintenance. hstep; [apply ht_on_db, DeleteExpired_typed|aside].
  - destruct (WsSession.OnRead _ _ _ _ _ _); [done..| |done]. case_decide; [|done]. by intros [= <-].
  - destruct (lv_sessions l !! id) as [x|]; cbn [mbind option_bind]; [|done].
    destruct (WsSession.handle _ _ _ _ _ _) as [[r' x']|]; cbn [mbind option_bind]; [|done]. by intros [= <-].
Qed.

Lemma live_run_typed evs : ∀ l l', Forall event_typed evs ->
  live_run ctx is_upgrade evs l = Some l' -> world_typed (lv_world l) -> world_typed (lv_world l').
Proof.
  induction evs as [|ev evs IH]; intros l l' Hev Hr Hl; cbn [live_run] in Hr; [by injection Hr as <-|].
  apply Forall_cons in Hev as [He Hev].
  destruct (live_do ctx is_upgrade l ev) as [l1|] eqn:E; cbn [mbind option_bind] in Hr; [|done].
  by apply (IH l1 l'), (live_do_typed l ev).
Qed.

Lemma initial_typed : world_typed (lv_world initial).
Proof. split; [by apply Forall_nil_2..|]. unfold max_rowid. simpl. lia. Qed.

Context (Hconfig : config_typed (ctx_config ctx)).

Lemma run_wf evs l : live_run ctx is_upgrade evs initial = Some l -> db_wf (lv_db l).
Proof. intros Hr. apply (reachable_inv ctx is_upgrade l Hconfig (live_run_reachable _ _ _ _ _ Hr)). Qed.

(** C23: In every state the server reaches with a clock that fits its type, the columns
    cursors are made of hold values of their types: server timestamps are 64-bit,
    envelope ids are not empty, whatever the clients sent, and the row ids of sync
    records are positive 64-bit numbers, none above the counter they are taken from. *)
Theorem reachable_cursors_typed evs l :
  Forall event_typed evs -> live_run ctx is_upgrade evs initial = Some l ->
  cursor_typed (lv_db l) ∧ Forall (λ y, 0 < y_id y <= sync_seq (lv_db l)) (sync_records (lv_db l)).
Proof.
  intros Hev Hr. pose proof (live_run_typed evs initial l Hev Hr initial_typed) as Ht. split; [exact Ht|].
  pose proof (ct_sync _ Ht) as Hs. pose proof (wf_seq _ (run_wf evs l Hr)) as Hw.
  unfold SyncStateRepository.sync_typed, lv_db in *. rewrite Forall_forall in *. intros y Hy.
  specialize (Hs y Hy). specialize (Hw y Hy). simpl in *. lia.
Qed.


End typing.

Section witnesses.
#[local] Existing Instance rowid_engine.
#[local] Existing Instance AttachmentService.reliable_disk.
#[local] Existing Instance toy_argon2.
#[local] Existing Instance notes_json.

(** The run in which Carol sends a message, up to its being served. *)
Definition sample_sent : list live_event := sample_sending ++ [LServe 0 (sample_env 4)].

Lemma sample_sent_run : live_run sample_ctx has_upgrade sample_sent initial = Some sample_served.
Proof. unfold sample_sent. rewrite live_run_app, sample_state_run. vm_compute. reflexivity. Qed.

Lemma sample_sent_typed : Forall event_typed sample_sent.
Proof.
  assert (Hc : ∀ n k, in_int64 (en_clock (sample_env n) k)) by (intros n k; unfold in_int64; cbn; lia).
  unfold sample_sent, sample_sending. repeat (constructor; [done || apply Hc|]). constructor.
Qed.

Lemma sample_ctx_typed : config_typed (ctx_config sample_ctx).
Proof. unfold config_typed, in_uint64, in_uint32, in_uint16, in_int64. cbn. lia. Qed.

(** Carol then stores two sync records. *)
Definition sample_syncing : list live_event :=
  [LSubmit (sample_request VPut "/v1/sync/records/contacts/r1" [bearer 1] "d1") 1003; LServe 0 (sample_env 5);
   LSubmit (sample_request VPut "/v1/sync/records/contacts/r2" [bearer 1] "d1") 1004; LServe 0 (sample_env 6)].

Definition sample_synced : LiveServer :=
  Eval vm_compute in default initial (live_run sample_ctx has_upgrade sample_syncing sample_served).

Definition sample_all : list live_event := sample_sent ++ sample_syncing.

Lemma sample_synced_run : live_run sample_ctx has_upgrade sample_all initial = Some sample_synced.
Proof. unfold sample_all. rewrite live_run_app, sample_sent_run. vm_compute. reflexivity. Qed.

Lemma sample_all_typed : Forall event_typed sample_all.
Proof.
  apply Forall_app. split; [apply sample_sent_typed|].
  assert (Hc : ∀ n k, in_int64 (en_clock (sample_env n) k)) by (intros n k; unfold in_int64; cbn; lia).
  unfold sample_syncing. repeat (constructor; [done || apply Hc|]). constructor.
Qed.

Lemma reachable_cursors_typed_witness :
  e_envelope_id <$> encrypted_envelopes (lv_db sample_synced) = ["e1"] ∧
  y_id <$> sync_records (lv_db sample_synced) = [1; 2] ∧ cursor_typed (lv_db sample_synced) ∧
  Forall (λ y, 0 < y_id y <= sync_seq (lv_db sample_synced)) (sync_records (lv_db sample_synced)).
Proof.
  split; [reflexivity|]. split; [reflexivity|].
  exact (reachable_cursors_typed sample_ctx has_upgrade sample_ctx_typed _ _ sample_all_typed sample_synced_run).
Defined.


End witnesses.
