(* ===== verification/Rosters.v ===== *)
(** * Who takes part in a conversation

    What a request can do to the members and subscribers of the conversations, on
    every route, and what the membership version of a conversation tells about the runs of
    the server.  The administrator's deletion of an account is apart: it removes the
    account from its conversations without a word to their versions ([Admin]). *)

From S2P Require Import Prelude Types Sql Database Samples Hex Paging Config RateLimiter Uuid Users Devices Sessions Password Tokens Auth Conversations Envelopes SyncState Attachments Delivery Relay ConversationService Admin Footprint Json WsRegistry HttpPath HttpDispatch WsSession HttpSafety Server Live Retention.

Import ConversationService.

Section rosters.
Context `{SqlEngine} `{Disk} `{Argon2} `{BoostJson} (ctx : ServerContext).
Notation cfg := (ctx_config ctx).

(** The role and the subscription of a user in a conversation are the same in both stores. *)
Definition same_standing (db db' : Database) (conv : ConversationId) (user : UserId) : Prop :=
  (∀ r, has_role db' conv user r <-> has_role db conv user r) ∧
  (is_subscriber db' conv user <-> is_subscriber db conv user).

(** What the user of a session may change in a conversation: anyone's membership in a
    group of which it is an owner or admin, its own subscription of a channel. *)
Definition may_change (session : option SessionRecord) (db : Database) (c : ConversationRow) (user : UserId) : Prop :=
  ∃ sess, session = Some sess ∧
    (c_type c = kGroup ∧ manages db (c_conversation_id c) (s_user_id sess) ∨
     c_type c = kChannel ∧ user = s_user_id sess).

(** ** Versions under the service calls *)

Lemma service_version op (w : RelayWorld Ws) :
  db_wf (rw_db w) ->
  ConversationRepository.version_sound (rw_db w)
    (rw_db (run_service_op (cf_max_group_size cfg) (cf_max_channel_size cfg) op w)).
Proof.
  intros Hwf. destruct op; simpl; unfold on_relay_db, zoom;
    try (match goal with |- context [let '(r, t) := ?c (rw_db w) in _] =>
           destruct (c (rw_db w)) as [r0 db0] eqn:E; simpl; change db0 with (r0, db0).2; rewrite <- E; clear E r0 db0 end).
  - unfold CreateDm. destruct (_ && _); [reflexivity|].
    apply (bind_rel _); [apply ConversationRepository.CreateConversation_sound|]. intros _ db1.
    repeat case_match; repeat (apply (bind_rel _); [apply ConversationRepository.AddMember_sound|intros _ ?]); reflexivity.
  - unfold CreateGroup. repeat (case_match; [reflexivity|]).
    apply (bind_rel _); [apply ConversationRepository.CreateConversation_sound|]. intros _ db1.
    apply (bind_rel _); [|reflexivity]. apply (for_each_rel _). intros x s _. apply ConversationRepository.AddMember_sound.
  - unfold CreateChannel. repeat (case_match; [reflexivity|]).
    destruct (see_admins _ _ _) as [[seen total]|]; [|reflexivity]. case_match; [reflexivity|].
    apply (bind_rel _); [apply ConversationRepository.CreateConversation_sound|]. intros _ db1.
    apply (bind_rel _); [|intros _ db2; apply (bind_rel _); [|reflexivity]]; apply (for_each_rel _); intros x s _.
    + apply (bind_rel _); [apply ConversationRepository.AddMember_sound|intros _ s'; apply ConversationRepository.Subscribe_sound].
    + case_match; [reflexivity|apply ConversationRepository.Subscribe_sound].
  - destruct (AddMember_allowed (cf_max_group_size cfg) (cf_max_channel_size cfg) conv actor user role now (rw_db w)) as [->|[_ ->]];
      [reflexivity|apply ConversationRepository.AddMember_sound].
  - destruct (RemoveMember_allowed (cf_max_group_size cfg) (cf_max_channel_size cfg) conv actor user now w) as [->|[_ [[t ->] _ _]]]; [reflexivity|].
    etrans; [apply (ConversationRepository.RemoveMember_sound conv user now)|]. by apply ConversationRepository.version_sound_same.
  - destruct (SubscribeChannel_allowed (cf_max_group_size cfg) (cf_max_channel_size cfg) conv user now (rw_db w)) as [->|[_ ->]];
      [reflexivity|apply ConversationRepository.Subscribe_sound].
  - destruct (UnsubscribeChannel_allowed (cf_max_group_size cfg) (cf_max_channel_size cfg) conv user now w Hwf) as [->|[_ [[t ->] _ _]]]; [reflexivity|].
    etrans; [apply (ConversationRepository.Unsubscribe_sound conv user now)|]. by apply ConversationRepository.version_sound_same.
Qed.

(** Conversations keep their type and their creator. *)
Lemma service_facts op (w : RelayWorld Ws) :
  db_wf (rw_db w) ->
  (conv_facts <$> conversations (rw_db w)) ⊆
  (conv_facts <$> conversations (rw_db (run_service_op (cf_max_group_size cfg) (cf_max_channel_size cfg) op w))).
Proof.
  intros Hwf. destruct (service_effect (cf_max_group_size cfg) (cf_max_channel_size cfg) op w Hwf)
    as [->|[(row & ms & ss & Hcr & _)|(conv & u & ms & ss & _ & _ & [-> _ _ _ _] & _)]]; [done| |done].
  destruct Hcr as [->|(db1 & Hcr & [-> _ _ _ _])]; [done|].
  destruct (CreateConversation_Ok _ _ _ _ Hcr) as (-> & _). cbn [conversations set_conversations].
  intros x (c & -> & Hc)%list_elem_of_fmap. apply list_elem_of_fmap_2, elem_of_sql_insert. by left.
Qed.

(** ** One request *)

Section request.
Context (session : option SessionRecord) (db0 : Database).

(** The store as a request that began in [db0] may have left it. *)
Record proper (db : Database) : Prop := mk_proper {
  pp_wf : db_wf db;
  pp_facts : (conv_facts <$> conversations db0) ⊆ (conv_facts <$> conversations db);
  pp_standing : ∀ c user, c ∈ conversations db0 ->
    same_standing db0 db (c_conversation_id c) user ∨ may_change session db0 c user;
  pp_version : ConversationRepository.version_sound db0 db }.

Lemma proper_start : db_wf db0 -> proper db0.
Proof. intros Hwf. split; [done|done| |reflexivity]. by left. Qed.

(** A call that stays off the rosters. *)
Lemma proper_same db db' :
  (∀ t, t ∈ conv_tables -> same_table t db db') -> db_wf db' -> proper db -> proper db'.
Proof.
  intros Hs Hwf [_ Hf Hst Hv].
  pose proof (Hs TConversations ltac:(in_list) : conversations db' = conversations db) as E1.
  pose proof (Hs TConversationMembers ltac:(in_list) : conversation_members db' = conversation_members db) as E2.
  pose proof (Hs TChannelSubscriptions ltac:(in_list) : channel_subscriptions db' = channel_subscriptions db) as E3.
  split; [done|by rewrite E1| |].
  - unfold same_standing, has_role, is_subscriber. by rewrite E2, E3.
  - etrans; [exact Hv|]. apply ConversationRepository.version_sound_same; [by rewrite E1|done|done].
Qed.

Lemma proper_off {A} ts (c : M Database A) :
  confined ts c -> (∀ t, t ∈ conv_tables -> t ∉ ts) -> preserves db_wf c -> preserves proper c.
Proof.
  intros Hc Hts Hwf db Hp. apply (proper_same db); [|by apply Hwf, pp_wf|done].
  intros t Ht. apply (confined_run ts); auto.
Qed.

(** The calls a session makes for its user. *)
Definition by_user (u : UserId) (op : service_op) : Prop :=
  match op with
  | SAddMember _ actor _ _ _ | SRemoveMember _ actor _ _ => actor = u
  | SSubscribe _ v _ | SUnsubscribe _ v _ => v = u
  | _ => True
  end.

Lemma service_proper sess op (w : RelayWorld Ws) :
  session = Some sess -> by_user (s_user_id sess) op -> proper (rw_db w) ->
  proper (rw_db (run_service_op (cf_max_group_size cfg) (cf_max_channel_size cfg) op w)).
Proof.
  intros Hses Hby [Hwf Hf Hst Hv]. split.
  - by apply run_service_op_wf.
  - etrans; [exact Hf|by apply service_facts].
  - intros c user Hc. destruct (Hst c user Hc) as [Hsame|Hm]; [|by right].
    assert (Hin : conv_facts c ∈ conv_facts <$> conversations (rw_db w)) by by apply Hf, list_elem_of_fmap_2.
    apply list_elem_of_fmap in Hin as (c' & Ec & Hc'). injection Ec as Eid Et _ _.
    destruct (service_roster_change (cf_max_group_size cfg) (cf_max_channel_size cfg) op w c' user Hwf Hc') as [[Hr Hs]|[Ha _]].
    + left. rewrite <- Eid in Hr, Hs. destruct Hsame as [Hr0 Hs0]. split; [|by rewrite Hs].
      intros r. by rewrite Hr.
    + right. exists sess. split; [done|]. destruct Ha as (c2 & Hc2 & Eid2 & Hop).
      assert (c2 = c') as -> by (destruct Hwf as [[] _ _]; by apply (NoDup_fmap_inj_on c_conversation_id (conversations (rw_db w)))).
      rewrite <- Et, <- Eid in *.
      assert (Hback : manages (rw_db w) (c_conversation_id c) (s_user_id sess) -> c_type c = kGroup ->
        manages db0 (c_conversation_id c) (s_user_id sess)).
      { intros Hm Ht. destruct (Hst c (s_user_id sess) Hc) as [[Hr0 _]|(sess' & E & [[_ Hm0]|[Hch _]])].
        - unfold manages in *. by rewrite !Hr0 in Hm.
        - congruence.
        - congruence. }
      destruct op; try done; simpl in Hby; subst.
      * destruct Hop as (_ & _ & Ht & Hm & _). left. auto.
      * destruct Hop as (_ & _ & Ht & Hm). left. auto.
      * destruct Hop as (_ & <- & Ht & _). by right.
      * destruct Hop as (_ & <- & Ht & _). by right.
  - etrans; [exact Hv|by apply service_version].
Qed.

Definition sound (w : ServerWorld) : Prop := proper (sw_db w).

Lemma hr_on_db {A} (c : M Database A) : preserves proper c -> hpreserves sound (on_db c).
Proof. intros Hc w Hw. unfold on_db, call, get_db. specialize (Hc _ Hw). by destruct (c (sw_db w)). Qed.

Lemma hr_on_relay {A} (c : M (RelayWorld Ws) A) : preserves (λ w, proper (rw_db w)) c -> hpreserves sound (on_relay c).
Proof. intros Hc w Hw. unfold on_relay, call. specialize (Hc _ Hw). by destruct (c (sw_relay w)). Qed.

Lemma hr_on_uploads {A} (c : M AttachmentWorld A) :
  upload_confined c -> preserves (λ w, db_wf (aw_db w)) c -> hpreserves sound (on_uploads c).
Proof.
  intros Hc Hwf w Hw. unfold on_uploads, call.
  assert (Hp : proper (aw_db (c (get_uploads w)).2)); [|by destruct (c (get_uploads w))].
  apply (proper_same (sw_db w)); [|apply Hwf; exact (pp_wf _ Hw)|done].
  intros t Ht. apply (Hc (sw_db w) (get_uploads w)); [intros t' _; apply same_table_refl|].
  unfold conv_tables in Ht. set_solver.
Qed.

Lemma hr_push f : (∀ w, same_but_hook w (f w)) -> hpreserves sound (push f).
Proof. intros Hf w Hw. destruct (Hf (sw_relay w)) as [E _]. unfold sound, push, update. simpl. by rewrite E. Qed.

(** A call of the conversation service on the store alone. *)
Lemma hr_service {A} sess (c : M Database A) op :
  session = Some sess -> by_user (s_user_id sess) op ->
  (∀ w, run_service_op (cf_max_group_size cfg) (cf_max_channel_size cfg) op w = (on_relay_db (Hook := Ws) c w).2) ->
  hpreserves sound (on_db c).
Proof.
  intros Hs Hby Hop. apply hr_on_db. intros db Hp.
  set (w := mkRelayWorld db ∅ (mkWsPushRegistry ∅ []) : RelayWorld Ws).
  assert (Er : rw_db (on_relay_db (Hook := Ws) c w).2 = (c db).2) by (unfold on_relay_db, zoom; simpl; by destruct (c db)).
  rewrite <- Er, <- Hop. by apply (service_proper sess).
Qed.

Lemma hr_relay_off {A} ts (c : M (RelayWorld Ws) A) :
  relay_confined ts c -> (∀ t, t ∈ conv_tables -> t ∉ ts) -> preserves (λ w, db_wf (rw_db w)) c ->
  hpreserves sound (on_relay c).
Proof.
  intros Hc Hts Hwf. apply hr_on_relay. intros w Hp. apply (proper_same (rw_db w)); [|by apply Hwf, pp_wf|done].
  intros t Ht. apply (Hc (rw_db w) w); [intros t' _; apply same_table_refl|by apply Hts].
Qed.

Ltac apart := intros t Ht; unfold conv_tables in Ht; set_solver.
Ltac plain ts fp wf := apply hr_on_db, (proper_off ts); [apply fp|apart|apply wf].

Context (req : HttpRequest) (env : RequestEnv).

Lemma TryPublicAuth_rosters : hpreserves sound (TryPublicAuth ctx req env).
Proof.
  unfold TryPublicAuth, post_register, post_login, post_refresh, parse_body. hstep.
  - eapply hr_on_db, proper_off; [apply Register_fp|apart|apply Register_wf].
  - plain [TDevices; TSessions] Login_fp Login_wf.
  - plain [TDevices; TSessions] Refresh_fp Refresh_wf.
Qed.

Section authenticated.
Context (sess : SessionRecord) (Hses : session = Some sess).

Lemma handle_post_rosters : hpreserves sound (handle_post ctx req env sess).
Proof.
  unfold handle_post, post_logout, post_change_password, post_messages_send, post_messages_ack, post_conversations,
    post_members, post_subscribe, post_unsubscribe, post_prekeys, post_upload_init, post_finalize,
    membership_changed, conversation_created, own_device, own_scope, parse_body.
  hstep; try apply hr_push, NotifyConversationMembershipChanged_same.
  - plain [TSessions] RevokeSession_fp SessionRepository.RevokeSession_wf.
  - plain [TUsers] ChangePassword_fp ChangePassword_wf.
  - apply (hr_relay_off [TEncryptedEnvelopes; TDeliveryState]); [apply SendEnvelope_fp|apart|apply SendEnvelope_wf].
  - apply (hr_relay_off [TDeliveryState]); [apply AcknowledgeEnvelope_fp|apart|].
    apply on_relay_db_wf, EnvelopeRepository.MarkAcked_wf.
  - eapply (hr_service sess _ (SCreateDm _ _ _ _ _)); done.
  - eapply (hr_service sess _ (SCreateGroup _ _ _ _)); done.
  - eapply (hr_service sess _ (SCreateChannel _ _ _ _ _)); done.
  - eapply (hr_service sess _ (SAddMember _ _ _ _ _)); done.
  - eapply (hr_service sess _ (SSubscribe _ _ _)); done.
  - apply hr_on_relay. intros w Hw. by apply (service_proper sess (SUnsubscribe _ _ _)).
  - plain [TOneTimePrekeys; TDevices] StorePrekeys_fp StorePrekeys_wf.
  - apply hr_on_uploads; [apply InitUpload_fp|]. unfold AttachmentService.InitUpload. preserve_step.
    apply preserves_zoom; [done|apply AttachmentRepository.CreateAttachmentMeta_wf].
  - apply hr_on_uploads; [apply FinalizeUpload_fp|]. unfold AttachmentService.FinalizeUpload. preserve_step.
    apply preserves_zoom; [done|apply AttachmentRepository.MarkUploadComplete_wf].
Qed.

Lemma handle_get_rosters : hpreserves sound (handle_get req env sess).
Proof.
  unfold handle_get, get_me, get_me_devices, get_key_bundle, get_sync_changes, get_users, get_user_by_username,
    get_users_search, user_suffix, get_prekey_bundles, get_user_devices, get_user, get_conversation, get_members,
    get_group_members, get_channel_members, get_sync_pending, get_envelopes, get_conversations, get_device_bundle,
    get_user_device_bundle, get_attachment, envelopes_answer, enabled_user, limit_param, not_a_member.
  hstep; try (plain [TOneTimePrekeys] GetPrekeyBundle_fp GetPrekeyBundle_wf).
  apply hr_on_uploads; [apply GetAttachment_fp|]. unfold AttachmentService.GetAttachment. preserve_step.
Qed.

Lemma handle_put_rosters : hpreserves sound (handle_put ctx req env sess).
Proof.
  unfold handle_put, put_key_bundle, put_sync_record, put_signed_prekey, put_chunk, push_own, own_device, own_scope,
    parse_body.
  hstep; try apply hr_push, NotifyUserDevicesExcept_same.
  - plain [TUsers] @update_user_fp SetSyncKeyBundle_wf.
  - plain [TSyncRecords] UpsertRecord_fp SyncStateRepository.UpsertRecord_wf.
  - plain [TDevices] UpdateSignedPrekey_fp UpdateSignedPrekey_wf.
  - apply hr_on_uploads; [apply WriteChunk_fp|]. unfold AttachmentService.WriteChunk. preserve_step; by intros w Hw.
Qed.

Lemma handle_delete_rosters : hpreserves sound (handle_delete ctx req env sess).
Proof.
  unfold handle_delete, delete_device, delete_sync_record, delete_member, membership_changed, push_own, own_device,
    parse_body.
  hstep; try apply hr_push, NotifyUserDevicesExcept_same; try apply hr_push, NotifyConversationMembershipChanged_same.
  - plain [TDevices; TOneTimePrekeys] RevokeDevice_fp RevokeDevice_wf.
  - plain [TSessions] RevokeAllForDevice_fp SessionRepository.RevokeAllForDevice_wf.
  - plain [TSyncRecords] TombstoneRecord_fp SyncStateRepository.TombstoneRecord_wf.
  - apply hr_on_relay. intros w Hw. by apply (service_proper sess (SRemoveMember _ _ _ _)).
Qed.

Lemma HandleAuthenticated_rosters : hpreserves sound (HandleAuthenticated ctx req env sess).
Proof.
  unfold HandleAuthenticated. destruct (rq_method req);
    [apply handle_get_rosters|apply handle_post_rosters|apply handle_put_rosters|apply handle_delete_rosters|by intros w].
Qed.
End authenticated.

Lemma TryAdmin_rosters : admin_deletes ctx req = false -> hpreserves sound (TryAdmin ctx req env).
Proof.
  unfold admin_deletes, TryAdmin. intros Ha. destruct (header "X-Admin-Token" req) as [t|]; [|by intros w].
  destruct (cf_admin_token cfg =s? "") eqn:Et; [by intros w|].
  destruct (String.eqb_spec t (cf_admin_token cfg)) as [->|]; [|by intros w]. cbn [negb] in *.
  rewrite bool_decide_true in Ha by done. unfold admin_stats. apply hp_bind; [hstep|intros _].
  destruct (bool_decide (rq_method req = VDelete)) in Ha |- *; [|by intros w].
  unfold when_some. destruct (strip_prefix "/v1/admin/users/" (path req)) in Ha |- *; [done|by intros w].
Qed.

Lemma dispatch_rosters : admin_deletes ctx req = false -> hpreserves sound (dispatch ctx req env session).
Proof.
  intros Ha. unfold dispatch, check_size, limit_auth, limit_account, too_many.
  destruct session as [sess|] eqn:Es; hstep; try (intros w Hw; unfold allow_auth, allow_account; by case_match);
    apply hp_try_routes;
    first [apply TryPublicAuth_rosters|by apply TryAdmin_rosters|by apply HandleAuthenticated_rosters].
Qed.
End request.

Lemma DispatchHttp_rosters req env session w :
  admin_deletes ctx req = false -> db_wf (sw_db w) ->
  proper session (sw_db w) (sw_db (DispatchHttp ctx req env session w).2).
Proof.
  intros Ha Hwf. pose proof (dispatch_rosters session (sw_db w) req env Ha w (proper_start session _ Hwf)) as Hd.
  unfold DispatchHttp. by destruct (dispatch ctx req env session w) as [[] w'].
Qed.


(** ** Versions over runs *)

Context (is_upgrade : HttpRequest -> bool).

(** The event serves the administrator's deletion of an account. *)
Definition deletes_account (l : LiveServer) (ev : live_event) : bool :=
  match ev with
  | LServe i _ => match lv_tasks l !! i with Some (req, _) => admin_deletes ctx req | None => false end
  | _ => false
  end.

(** No event of the run does. *)
Fixpoint no_deletion (evs : list live_event) (l : LiveServer) : bool :=
  match evs with
  | [] => true
  | ev :: evs' => negb (deletes_account l ev) &&
      match live_do ctx is_upgrade l ev with Some l' => no_deletion evs' l' | None => true end
  end.

Definition tracked (db db' : Database) : Prop := db_wf db' ∧ ConversationRepository.version_sound db db'.

Lemma live_do_tracked l ev l' :
  deletes_account l ev = false -> live_do ctx is_upgrade l ev = Some l' -> db_wf (lv_db l) ->
  tracked (lv_db l) (lv_db l').
Proof.
  assert (Hrefl : ∀ db, db_wf db -> tracked db db) by (intros db Hdb; by split).
  destruct ev as [req clock|i env|now1 now2|id req clock|id e clock]; cbn [live_do deletes_account]; intros Hn Hd Hwf.
  - destruct (WsSession.OnRead _ _ _ _ _ _); [done..|]. injection Hd as <-. by apply Hrefl.
  - destruct (lv_tasks l !! i) as [[req sess]|]; cbn [mbind option_bind] in Hd; [|done]. injection Hd as <-.
    by destruct (DispatchHttp_rosters req env sess (lv_world l) Hn Hwf).
  - injection Hd as <-. cbn [lv_world].
    assert (Hm : hpreserves (sound None (lv_db l)) (maintenance now1 now2)).
    { unfold maintenance. hstep.
      - apply hr_on_db, (proper_off None (lv_db l) [TEncryptedEnvelopes; TDeliveryState]);
          [apply EnvelopeSweep_fp|intros t Ht; unfold conv_tables in Ht; set_solver|apply EnvelopeRepository.DeleteExpired_wf].
      - apply hr_on_uploads; [apply DeleteExpired_fp|]. unfold AttachmentService.DeleteExpired. preserve_step.
        + by intros w Hw.
        + apply preserves_zoom; [done|apply AttachmentRepository.DeleteExpiredAttachments_wf]. }
    by destruct (Hm (lv_world l) (proper_start None _ Hwf)).
  - destruct (WsSession.OnRead _ _ _ _ _ _); [done..| |done]. case_decide; [|done]. injection Hd as <-. by apply Hrefl.
  - destruct (lv_sessions l !! id) as [x|]; cbn [mbind option_bind] in Hd; [|done].
    destruct (WsSession.handle _ _ _ _ _ _) as [[r' x']|]; cbn [mbind option_bind] in Hd; [|done].
    injection Hd as <-. by apply Hrefl.
Qed.

(** C32: The membership version tells whether a roster has changed.  Over any part of a run
    of the server in which the administrator deletes no account, whatever requests,
    sweeps and connections it is made of: no conversation disappears, the version of none
    decreases, and when the version of a conversation is the same at both ends (and not
    the largest 64-bit number), not a single membership or subscription row of that
    conversation has changed. *)
Theorem membership_version_tracks evs l l' :
  db_wf (lv_db l) -> live_run ctx is_upgrade evs l = Some l' -> no_deletion evs l = true ->
  ConversationRepository.version_sound (lv_db l) (lv_db l').
Proof.
  revert l. induction evs as [|ev evs IH]; intros l Hwf; cbn [live_run no_deletion].
  { intros [= <-] _. reflexivity. }
  destruct (live_do ctx is_upgrade l ev) as [l1|] eqn:E; cbn [mbind option_bind]; [|done].
  intros Hr [Hd Hn]%andb_true_iff. apply negb_true_iff in Hd.
  destruct (live_do_tracked l ev l1 Hd E Hwf) as [Hwf1 Hv]. etrans; [exact Hv|by apply IH].
Qed.
End rosters.

Section witnesses.
#[local] Existing Instance rowid_engine.
#[local] Existing Instance AttachmentService.reliable_disk.
#[local] Existing Instance toy_argon2.
#[local] Existing Instance carol_json.

Definition session_of (u : UserId) (d : DeviceId) : SessionRecord := mkSessionRecord "s" u d "a" "r" 0 9999 9999 None.
Definition removal (user : UserId) : HttpRequest :=
  sample_request VDelete ("/v1/conversations/g1/members/" +:+ user) [] "".


(** The owner removes the second user: the version goes from 1 to 2. *)
Definition sample_removing : LiveServer :=
  mkLiveServer (world_of EnvelopeRepository.sample_mail_db) [(removal "u2", Some (session_of "u1" "d1"))] ∅.
Definition sample_removed : LiveServer :=
  Eval vm_compute in default initial (live_run sample_ctx has_upgrade [LServe 0 (sample_env 1)] sample_removing).

Lemma membership_version_tracks_witness :
  ConversationRepository.version_sound (lv_db sample_removing) (lv_db sample_removed) ∧
  c_membership_version <$> conversations (lv_db sample_removed) = [2] ∧
  ConversationRepository.GetMemberCount "g1" (lv_db sample_removed) = 1%nat.
Proof.
  split; [|split; vm_compute; reflexivity].
  apply (membership_version_tracks sample_ctx has_upgrade [LServe 0 (sample_env 1)]).
  - apply EnvelopeRepository.sample_mail_db_wf.
  - vm_compute. reflexivity.
  - reflexivity.
Defined.
End witnesses.
